(* ===== verification/_CoqProject ===== *)
-Q . S2P
Prelude.v
GoStrings.v
GoTime.v
TimeParse.v
Json.v
Perm.v
Storage.v
Torn.v
Redact.v
Access.v
Vision.v
Sight.v
SqlStore.v
SqlLaws.v
SqlText.v
SqlQuery.v
Migrations.v
Rows.v
Upserts.v
Engine.v
Conformance.v
Dice.v
Sha256.v
RateLimit.v
Password.v
Auth.v
Random.v
Ticket.v
Frame.v
ProtoCodec.v
JsonCodec.v
Outbox.v
Hub.v
Session.v
Intents.v
Chat.v
Combat.v
Doors.v
Http.v
Worlds.v
Footprint.v
SqlFrame.v
Scenes.v
Blob.v
AssetImage.v
Assets.v
Router.v
Server.v
Gateway.v
Entitled.v
Announce.v
Live.v
LiveSafety.v
LiveRun.v
Steps.v
Delivery.v
LiveEnd.v
Arrival.v
Wire.v
App.v
Witnesses.v
ApiWitnesses.v
SystemWitnesses.v
LiveWitnesses.v
