(* ===== verification/Prelude.v ===== *)
(** * tavora-server: a verification development

    tavora-server is the server of a virtual tabletop.  Worlds hold documents
    (scenes, walls, tokens, actors, chat messages, a fight); members of a world
    see and change them over HTTP and over a WebSocket, each as far as their
    role, the document's access list and their line of sight allow.  The promise
    that matters is that one and the same answer to "what may this member see" is
    given on every road a document travels: live fan-out, catch-up after a
    reconnection, and listings.

    ** Parts and files

    Shared vocabulary
    - Prelude.v: errors as one sum type, [res] for a Go [(value, error)] pair,
      the state monad [M] of operations that change a store, 64 bit wrap-around,
      instants and durations, generic lemmas and the hint database [store].
    - GoStrings.v: byte strings, [strings.TrimSpace], [strconv], float64 as IEEE
      binary64.
    - GoTime.v: instants as text, in the two layouts the program writes.
    - TimeParse.v: [time.Parse] with those layouts, and that it undoes [Format].
    - Json.v: what encoding/json makes of a payload, typed decoding field by
      field, encoding.
    - Sha256.v: crypto/sha256 and encoding/hex, executable.

    Permissions (internal/core/perm, internal/core/access)
    - Perm.v: roles, levels, access lists, [Effective].
    - Redact.v: field policies, [RedactDocument], [HiddenPaths], [PathsOf].
    - Access.v: the resolver over the store: [GrantOf], [ProjectForMembers],
      [Authorize].

    Sight (internal/core/vision, internal/core/sight)
    - Vision.v: segment crossing over any arithmetic, binary64 being one.
    - Sight.v: walls, viewpoints, and the filters [Filter], [VisibleTokens],
      [CanSee].

    Storage (internal/storage and its sqlstore, sqlite, postgres, storetest)
    - Storage.v: the records, and the port as two type classes [Query] and [Tx]
      over a store state, with the laws its clients use ([QueryLaws],
      [TxLaws]).  Components above the port are proved against these classes.
    - SqlStore.v: the tables as finite maps, every statement as its effect on
      them, transactions as rollback on error.
    - Torn.v: reads outside a transaction, every query of which may find another
      store.
    - SqlLaws.v: the invariant of the schema, its preservation by every
      statement, and the instances that discharge the laws of the port.
    - SqlText.v: the text of the statements the program builds from a request,
      in both dialects, and what it hands to the driver.
    - SqlQuery.v: queries on the JSON data of documents.
    - Migrations.v: the migration loop, and both schemas as data.
    - Rows.v: the column lists of every table, what is bound to them and the
      scanners that read them back, on both drivers.
    - Upserts.v: what each upsert sets on a conflict, and that this is the effect
      SqlStore.v gives it.
    - Engine.v: a concrete engine, on which suites and closed instances run.
    - Conformance.v: the tests the authors run every store against, run on the
      model to validate it; no numbered theorem is about them.

    Accounts (internal/core/auth)
    - RateLimit.v: the limiter of failed logins.
    - Password.v: the stored form of an argon2id hash, argon2 being a parameter.
    - Auth.v: accounts, login, sessions, password change.
    - Random.v: tokens, ids and the dice of the running server, as functions of
      the random bytes of the operating system.

    Dice (internal/core/dice)
    - Dice.v: the expression parser and evaluator over any source of rolls.

    Live connections (internal/transport/ws)
    - Ticket.v: single-use tickets (ticket.go).
    - Frame.v: the messages (frame.go).
    - ProtoCodec.v: the binary codec (protocodec.go).
    - JsonCodec.v: the readable codec (frame.go).
    - Outbox.v: the three lanes of a session and its writer (outbox.go).
    - Hub.v: publications and fan-out over shared sessions (hub.go).
    - Session.v: handshake, catch-up, dispatch and the writer's filter
      (session.go).
    - Intents.v, Chat.v, Combat.v, Doors.v: the handlers of the files of the same
      name.  A handler is a function from the session, the intent and the store
      to an [outcome]: the answer, the store it leaves, and the publications it
      hands to the hub, in order.
    - Gateway.v: the defaults of a gateway, the codec of a connection, and the
      registry that gives each world one hub (gateway.go, hub.go).
    - Entitled.v: what it means that a frame is due to a user, kind by kind of the
      event, and that whatever an intent publishes and whatever a session replays
      is.
    - Live.v: the gateway at work, as interleaved steps of the goroutines of
      every session, of every hub, and of the API beside them, on one store.
    - LiveSafety.v, LiveEnd.v: its invariant, and that a session can always be
      brought to its end.
    - LiveRun.v: the same steps as a function that runs a script of moves.
    - Announce.v: that every event a handler commits is published for everybody it
      concerns.
    - Steps.v: what any step does to one hub, to one session, to the log.
    - Delivery.v: where an event is that a session is owed and was not sent.
    - Arrival.v: how a queued publication is brought to a connection.
    - Wire.v: the codec interface and the adapter of a connection; the frames of
      the program as messages.

    The HTTP API (internal/transport/httpapi)
    - Http.v: requests, responses, the session cookie, accounts (auth.go).
    - Worlds.v: worlds, members and invites (worlds.go).
    - Scenes.v: scenes, tokens, actors, walls, access lists (scenes.go).
    - Blob.v: contents on disk under the hash of the content
      (internal/core/blob).
    - AssetImage.v: what becomes of an uploaded image (internal/core/asset).
    - Assets.v: uploading, listing and serving assets (assets.go).
    - Router.v: the patterns and how a request finds its handler (router.go).

    The whole
    - Footprint.v: computations that write only the tables they name, with the
      frame laws a store owes them ([FrameLaws]).
    - SqlFrame.v: the SQL store discharges the frame laws.
    - Server.v: every request and every intent as a step on one store, with the
      tables each may write.
    - App.v: configuration, start-up and shutdown (internal/app, cmd/tavora).

    Closed instances
    - Witnesses.v, ApiWitnesses.v, SystemWitnesses.v, LiveWitnesses.v: stores
      built by the program's own statements, runs of the gateway computed step by
      step, and an instance of every theorem that has hypotheses.

    ** How the code is read

    A mutex makes an operation atomic, so a locked structure is a pure state and
    its operations are state transformers; where goroutines interleave (the
    writer against the pushes of an outbox) the steps are a relation and the
    theorem is about every interleaving.  So it is for the gateway as a whole
    (Live.v): a step reaches from one point where another goroutine can come in
    to the next (a channel operation, an operation of an outbox under its lock, a
    transaction of the store, a write to the connection), and a hub ranges over
    its sessions in any order.  There, the shutdown of the registry marks every
    hub in one step and the hubs then end one by one, in any order, which includes
    the order of [Close]; [lv_past] is a ghost that remembers earlier stores.
    A transaction of the store is one step.  What runs under [ReadOnly] is not:
    that is no transaction, so catch-up is a step for its list of events and one
    for each event, in which every query finds any store the server has had since
    the step before (Torn.v).  A request of the API need not be atomic either:
    besides whole requests, any single write to a table other than the log may
    happen at any time; and the two endpoints that check a role before their
    transaction are given in those two stages too (Worlds.v).
    Sessions are shared between the hub and
    their own goroutines and live in a heap indexed by session id.  The clock,
    random tokens, ids, salts and dice are arguments, so a theorem holds for
    every value they may take.  An error is the sentinel [errors.Is] finds; the
    text around it is left out.  Integers are integers with the wrap-around of
    [int64] written where the code's own bounds do not exclude it; floats are
    binary64 with every operation rounded.  A Go map is a finite map; where the
    code ranges over one, either the order does not show in the result, or only
    what does not depend on it is stated.  An HTTP handler is a function from the
    request and a state to a response and the new state; what a handler may do
    to the world outside the store (the disk, the tickets, the limiter) is part
    of that state.

    Nothing in the model runs out of fuel: recursion is structural on the text,
    the list or the tree it walks, and a search is bounded by a number the code
    or a lemma gives (the search of a free slug by the number of worlds, which
    [Worlds.nextFreeSlug_first] shows to be enough; [Sha256.chunks] by the length of its list).

    ** What the theorems show

    - The gateway at work (C1 to C8): on every interleaving, what reaches a client
      is due to it, payload included, and no number comes twice (C1).  The other way
      round, what a client is owed is not lost: every event of the log above the
      last one it was sent is under way to it, frames made for each member apart
      included (C2), stays under way however the gateway goes on (C3), and
      can always be brought to its connection by the hub and its own writer alone
      (C4), unless a later event overtakes it.  That happens: two writers are enough
      to publish in the other order than they committed, and what was overtaken
      never comes (C7).  C2 to C4 are about a gateway that is not being shut down.
      A hub knows only sessions that are being served in its world (C5), no state
      traps a session (C6), and whatever is sent can be read (C8).
    - The server (C9, C14 to C16, C28): no request and no message takes the
      store out of its schema; every reachable store has gapless event logs; a
      route below a world answers nobody who is not a member of it; a request
      writes only the tables of its method and path; and no request changes the
      shape of a statement.
    - Permissions (C10 to C13): [Effective] resolves the most specific entry;
      redaction removes exactly what the policy hides, at every path; what leaves
      through [ProjectForMembers] is exactly each reader's own redacted view.
    - One answer on every road (C17 to C19): fan-out, listing and catch-up agree
      on tokens; a listing over HTTP is what live frames carry; fan-out reaches
      exactly the sessions of its audience.
    - Sessions (C22 to C24, C34): a handshake takes its identity from the ticket
      and its role from the store; the outbox refines three queues; frames survive
      both codecs.
    - Changes (C25 to C27): a patch is authorized, atomic and projected per
      member; a wall created over HTTP blocks the sight it is drawn across; a door
      toggle changes one member of one document and publishes exactly that state,
      and each member is told exactly the tokens they may see.
    - Storage (C20, C21, C29, C30): a row that was bound is read back as the
      record it was, as far as the engine keeps it; an upsert has the effect its
      statement states; migrations end at the full schema, from any prefix and
      whatever was refused before; a query returns what its conditions ask for.
    - Accounts (C31 to C33): a password change ends the user's sessions and no
      other; a failed login tells nothing about accounts; bursts are locked out.
    - Worlds (C35, C36): a world never loses its last game master through the
      management of its members; an invite admits no more members than its uses.
    - Assets (C37, C38): a blob is whole or absent whatever call fails and whenever
      the process dies or the machine stops; in every state of the server every
      asset has its blob.
    - Dice (C39): accepted rolls are honest.
    - The process (C40): no outcome of a start leaves a handle open.

    The parts hold many theorems that are not numbered, among them that a login
    derives as many keys for an unknown account as for a known one
    ([Auth.logins_cost_the_same]), that hashing and verification are inverse
    ([Password.VerifyPassword_HashPassword]), that the cookie of a login signs its
    user in ([Http.login_cookie_signs_in]), that a ticket is redeemed once
    ([Ticket.tickets_single_use]), that a token and an id say all of their random
    bytes ([Random.newToken_faithful], [Random.randomID_faithful]), that messages
    of game masters stay among the staff and their author
    ([Chat.gm_message_confined]), that the outbox loses no wake-up
    ([Outbox.no_lost_wakeup]) and that what was uploaded is what is served
    ([Assets.upload_is_served]).

    ** What is not modelled, and why

    - The engines' own JSON functions, which are the parameters of [Dialect] and
      [JsonEngine], with one concrete engine in Engine.v.  A JSON column keeps
      the value it is given: its text is kept by what it reads as.  Of the
      statements, the text is modelled where it depends on the request, and the
      column lists and bindings throughout; the rest of a constant statement is
      modelled by its effect.
    - The protobuf wire format and its generated types (not in the repository),
      which are a class with the laws the codec needs.
    - argon2, the Unicode case table and the decoders and encoders of images,
      which are parameters; logging.
    - The escaping of JSON text and the replacement of invalid UTF-8: strings
      are the byte strings the program holds.  A member that is repeated in a
      JSON frame is read afresh; Go would decode null elements of the second list
      over the strings of the first.
    - The WebSocket library: a connection is what is read and written through it,
      its upgrade is granted, and a timeout is a read or a write that fails.  In
      Live.v a connection carries frames; Wire.v says which messages they are.
    - Multipart parsing and range requests, which belong to net/http.
    - Isolation: a transaction is atomic and sees nothing of others.  SQLite runs
      one at a time; PostgreSQL's default promises less.  The role, name and world
      a handshake reads are read in one step each of [authenticate] and [greet], and
      two queries with the same arguments within the projection of one event are
      answered alike.
    - A stop of the machine is modelled for the files of the blob store; what the
      engines lose then is theirs.  C38 is about processes that die.
    - A failing [rand.Read] where the program panics on it, and the fairness of
      the goroutines' scheduler: C4 and C6 say that a run exists, not that the
      scheduler takes it.

    ** What could follow

    The widths of event numbers could be made an invariant of the store, so that
    C8 needs no assumption on them for the readable codec.  Every endpoint could
    be given in stages, with the tables each stage may read. *)

From stdpp Require Export base list gmap strings numbers sorting pretty.
From Stdlib Require Export ZArith Lia.

(** Facts on finite maps that the store's invariant is rebuilt from. *)
Create HintDb store.

(** ** Errors *)

(** The sentinel errors of the program, one constructor per [errors.New]
    variable.  [fmt.Errorf] with a wrapping verb keeps the sentinel that
    [errors.Is] finds, so a wrapped error is the sentinel it wraps; the text
    added around it is not modelled.  [ErrOther] is every error that no
    [errors.Is] of the program recognises (a decoding error, a driver error). *)
Inductive err :=
  | ErrNotFound | ErrAlreadyExists | ErrReadOnly | ErrInvalidPath
  | ErrForbidden
  | ErrInvalidCredentials | ErrRateLimited | ErrSessionExpired
  | ErrWeakPassword | ErrUsernameTaken
  | ErrInvalidHash | ErrWrongAlgorithm
  | ErrEmptyExpression | ErrTooManyDice | ErrUnsupportedDie | ErrMalformed
  | ErrTicketInvalid | ErrNotAMember | ErrOutboxClosed | ErrSlowConsumer
  | ErrNoCombat | ErrNoCombatants | ErrNotADoor
  | ErrInviteSpent | ErrQuotaExceeded
  | ErrUnsupportedFormat | ErrTooLarge | ErrBroken
  | ErrBlobNotFound | ErrInvalidKey
  | ErrIntent (code messageKey : string)
  | ErrOther (what : string).

#[export] Instance err_eq_dec : EqDecision err.
Proof. solve_decision. Defined.

(** [errors.Is(err, target)] on modelled errors. *)
Definition errors_Is (e target : err) : bool := bool_decide (e = target).

(** ** Results: a Go [(value, error)] pair *)

Inductive res (A : Type) :=
  | Ok (a : A)
  | Err (e : err).
Arguments Ok {A} a.
Arguments Err {A} e.

#[export] Instance res_eq_dec {A} `{EqDecision A} : EqDecision (res A).
Proof. solve_decision. Defined.

#[export] Instance res_ret : MRet res := λ A a, Ok a.
#[export] Instance res_bind : MBind res := λ A B f r,
  match r with Ok a => f a | Err e => Err e end.
#[export] Instance res_fmap : FMap res := λ A B f r,
  match r with Ok a => Ok (f a) | Err e => Err e end.

Definition is_Ok {A} (r : res A) : Prop := ∃ a, r = Ok a.

Lemma bind_Ok {A B} (r : res A) (f : A → res B) b :
  (r ≫= f) = Ok b ↔ ∃ a, r = Ok a ∧ f a = Ok b.
Proof.
  destruct r as [a|e]; cbn; split.
  - intros H. by exists a.
  - by intros (? & [= ->] & ?).
  - done.
  - by intros (? & ? & ?).
Qed.

Lemma bind_Err {A B} (r : res A) (f : A → res B) e :
  (r ≫= f) = Err e ↔ r = Err e ∨ ∃ a, r = Ok a ∧ f a = Err e.
Proof.
  destruct r as [a|e']; cbn; split.
  - intros H. right. by exists a.
  - by intros [?|(? & [= ->] & ?)].
  - intros [= ->]. by left.
  - by intros [[= ->]|(? & ? & ?)].
Qed.

(** A loop that stops at the first error and collects the results. *)
Fixpoint traverse {A B} (f : A → res B) (l : list A) : res (list B) :=
  match l with
  | [] => Ok []
  | x :: l => y ← f x; ys ← traverse f l; Ok (y :: ys)
  end.

Lemma traverse_Ok {A B} (f : A → res B) l ys :
  traverse f l = Ok ys ↔ Forall2 (λ x y, f x = Ok y) l ys.
Proof.
  revert ys; induction l as [|x l IH]; intros ys; cbn.
  - split; [intros [= <-]; constructor|by inversion 1].
  - rewrite bind_Ok. split.
    + intros (y & Hy & Hr). apply bind_Ok in Hr as (ys' & Hys & [= <-]).
      constructor; [done|]. by apply IH.
    + inversion 1 as [|? y ? ys' Hy Hys]; subst. exists y; split; [done|].
      apply bind_Ok. exists ys'. split; [by apply IH|done].
Qed.

Lemma traverse_total {A B} (f : A → res B) l :
  (∀ x, x ∈ l → ∃ y, f x = Ok y) → ∃ ys, traverse f l = Ok ys.
Proof.
  induction l as [|x l IH]; intros Hf; [by eexists|]. destruct (Hf x) as [y Hy]; [left|].
  destruct IH as [ys Hys]; [intros z Hz; apply Hf; by right|]. exists (y :: ys). cbn. by rewrite Hy, Hys.
Qed.

Lemma traverse_Ok_length {A B} (f : A → res B) l ys :
  traverse f l = Ok ys → length ys = length l.
Proof. intros H%traverse_Ok. by symmetry; eapply Forall2_length. Qed.

(** [len(l) == 0]. *)
Definition isNil {A} (l : list A) : bool := match l with [] => true | _ => false end.

Lemma fmap_id_on {A} (f : A → A) (l : list A) : (∀ x, x ∈ l → f x = x) → f <$> l = l.
Proof.
  induction l as [|x l IH]; intros H; cbn; [done|].
  rewrite (H x) by left. f_equal. apply IH. intros. apply H. by right.
Qed.

Lemma filter_id_on {A} (P : A → Prop) `{!∀ x, Decision (P x)} (l : list A) :
  (∀ x, x ∈ l → P x) → filter P l = l.
Proof.
  induction l as [|x l IH]; intros Hl; [done|]. rewrite filter_cons_True by (apply Hl; left).
  f_equal. apply IH. intros. apply Hl. by right.
Qed.

(** A loop whose body cannot fail on the elements it meets. *)
Lemma traverse_pure {A B} (f : A → res B) (g : A → B) l :
  (∀ x, x ∈ l → f x = Ok (g x)) → traverse f l = Ok (g <$> l).
Proof.
  induction l as [|x l IH]; intros H; cbn; [done|].
  rewrite (H x) by left. cbn. rewrite IH; [done|]. intros. apply H. by right.
Qed.

Lemma sublist_elem {A} (l k : list A) x : l `sublist_of` k → x ∈ l → x ∈ k.
Proof.
  induction 1 as [|y l k Hl IH|y l k Hl IH]; rewrite ?elem_of_cons; tauto.
Qed.

Lemma sublist_sorted {A} (R : relation A) (l k : list A) :
  l `sublist_of` k → StronglySorted R k → StronglySorted R l.
Proof.
  induction 1 as [|x l k Hl IH|x l k Hl IH]; intros Hs; [done| |].
  - inversion Hs as [|? ? Hk Hx]; subst. constructor; [by apply IH|]. rewrite Forall_forall in *. intros y Hy. apply Hx. by eapply sublist_elem.
  - inversion Hs as [|? ? Hk Hx]; subst. by apply IH.
Qed.

(** A loop over a list that threads an accumulator and may fail. *)
Fixpoint foldM {A B} (f : B → A → res B) (acc : B) (l : list A) : res B :=
  match l with
  | [] => Ok acc
  | x :: l => acc' ← f acc x; foldM f acc' l
  end.

Lemma foldM_app {A B} (f : B → A → res B) acc l1 l2 :
  foldM f acc (l1 ++ l2) = foldM f acc l1 ≫= λ acc', foldM f acc' l2.
Proof.
  revert acc; induction l1 as [|x l1 IH]; intros acc; [done|].
  cbn. destruct (f acc x); cbn; [apply IH|done].
Qed.

(** An invariant of the body is an invariant of the loop. *)
Lemma foldM_inv {A B} (P : B → Prop) (f : B → A → res B) l acc acc' :
  P acc →
  (∀ x b b', x ∈ l → P b → f b x = Ok b' → P b') →
  foldM f acc l = Ok acc' → P acc'.
Proof.
  revert acc; induction l as [|x l IH]; intros acc Hacc Hf; cbn.
  - by intros [= <-].
  - intros (b & Hb & Hr)%bind_Ok. eapply IH; [|intros; eapply Hf|done]; eauto.
    + eapply Hf; eauto. left.
    + by right.
Qed.

(** ** State: a computation that reads and writes a store and may fail *)

Definition M (S A : Type) : Type := S → res A * S.

#[export] Instance M_ret {S} : MRet (M S) := λ A a s, (Ok a, s).
#[export] Instance M_bind {S} : MBind (M S) := λ A B f m s,
  match m s with
  | (Ok a, s') => f a s'
  | (Err e, s') => (Err e, s')
  end.

Definition fail {S A} (e : err) : M S A := λ s, (Err e, s).
Definition lift {S A} (q : S → res A) : M S A := λ s, (q s, s).
Definition ofRes {S A} (r : res A) : M S A := λ s, (r, s).

Lemma M_bind_Ok {S A B} (m : M S A) (f : A → M S B) s b s' :
  (m ≫= f) s = (Ok b, s') ↔ ∃ a s1, m s = (Ok a, s1) ∧ f a s1 = (Ok b, s').
Proof.
  unfold mbind, M_bind. destruct (m s) as [[a|e] s1]; split; try done.
  - intros H. by exists a, s1.
  - by intros (? & ? & [= -> ->] & ?).
  - by intros (? & ? & ? & ?).
Qed.

Lemma lift_Ok {S A} (q : S → res A) s a s' :
  lift q s = (Ok a, s') ↔ q s = Ok a ∧ s' = s.
Proof. unfold lift. split; [by intros [= -> ->]|by intros [-> ->]]. Qed.

Lemma ofRes_Ok {S A} (r : res A) (s : S) a s' :
  ofRes r s = (Ok a, s') ↔ r = Ok a ∧ s' = s.
Proof. unfold ofRes. split; [by intros [= -> ->]|by intros [-> ->]]. Qed.

Lemma ret_Ok {S A} (a b : A) (s s' : S) :
  (mret a : M S A) s = (Ok b, s') ↔ b = a ∧ s' = s.
Proof. unfold mret, M_ret. split; [by intros [= -> ->]|by intros [-> ->]]. Qed.

(** [guarded] commands: the early returns [if !cond { return err }]. *)
Definition guard_res (b : bool) (e : err) : res unit := if b then Ok tt else Err e.

Lemma guard_res_Ok b e u : guard_res b e = Ok u ↔ b = true.
Proof. by destruct b, u. Qed.

(** Case analysis of a successful computation, bind by bind. *)
Ltac inv_ok :=
  repeat match goal with
  | H : Ok _ = Ok _ |- _ => injection H as H; subst
  | H : Ok _ = Err _ |- _ => discriminate H
  | H : Err _ = Ok _ |- _ => discriminate H
  | H : Err _ = Err _ |- _ => injection H as H; subst
  | H : (Ok _, _) = (Ok _, _) |- _ => injection H as H; subst
  | H : (Err _, _) = (Ok _, _) |- _ => discriminate H
  | H : (Ok _, _) = (Err _, _) |- _ => discriminate H
  | H : guard_res _ _ = Ok _ |- _ => apply guard_res_Ok in H
  | H : lift _ _ = (Ok _, _) |- _ => apply lift_Ok in H as [H ->]
  | H : ofRes _ _ = (Ok _, _) |- _ => apply ofRes_Ok in H as [H ->]
  | H : (_ ≫= _) = Ok _ |- _ =>
      let a := fresh "a" in let H1 := fresh "H" in
      apply bind_Ok in H as (a & H1 & H)
  | H : (_ ≫= _) ?s = (Ok _, _) |- _ =>
      let a := fresh "a" in let s1 := fresh "s" in let H1 := fresh "H" in
      apply M_bind_Ok in H as (a & s1 & H1 & H)
  end.

(** [storage.ID] is a string type. *)
Abbreviation ID := string (only parsing).

(** ** Machine integers *)

Open Scope Z_scope.

Definition min_int64 : Z := - 2 ^ 63.
Definition max_int64 : Z := 2 ^ 63 - 1.
Definition in_int64 (z : Z) : Prop := min_int64 ≤ z ≤ max_int64.

#[export] Instance in_int64_dec z : Decision (in_int64 z).
Proof. unfold in_int64. apply _. Defined.

(** Two's complement wrap-around of Go's [int] and [int64] arithmetic. *)
Definition wrap64 (z : Z) : Z := (z + 2 ^ 63) `mod` 2 ^ 64 - 2 ^ 63.

Lemma wrap64_id z : in_int64 z → wrap64 z = z.
Proof.
  unfold in_int64, min_int64, max_int64, wrap64. intros H.
  rewrite Z.mod_small; lia.
Qed.

Lemma wrap64_range z : in_int64 (wrap64 z).
Proof.
  unfold in_int64, min_int64, max_int64, wrap64.
  pose proof (Z.mod_pos_bound (z + 2 ^ 63) (2 ^ 64)). lia.
Qed.

Lemma wrap64_add_l a b : wrap64 (wrap64 a + b) = wrap64 (a + b).
Proof.
  unfold wrap64.
  replace ((a + 2 ^ 63) `mod` 2 ^ 64 - 2 ^ 63 + b + 2 ^ 63)
    with ((a + 2 ^ 63) `mod` 2 ^ 64 + b) by lia.
  rewrite Zplus_mod_idemp_l. f_equal. f_equal. lia.
Qed.

(** ** Time *)

(** An instant is the number of nanoseconds since Go's zero time, so
    [time.Time{}] is [0]; a [time.Duration] is an [int64] of nanoseconds. *)
Definition Time := Z.
Definition Duration := Z.

Definition Second : Duration := 1000000000.
Definition Minute : Duration := 60 * Second.
Definition Hour : Duration := 60 * Minute.

Definition IsZero (t : Time) : bool := t =? 0.
Definition Before (a b : Time) : bool := a <? b.
Definition After (a b : Time) : bool := b <? a.
Definition TimeAdd (t : Time) (d : Duration) : Time := t + d.
(** [Time.Sub] saturates at the bounds of [Duration]. *)
Definition TimeSub (a b : Time) : Duration := Z.max min_int64 (Z.min max_int64 (a - b)).
