(* ===== verification/GoStrings.v ===== *)
(** * Go strings, conversions and float64

    The parts of Go's [strings], [strconv] and [math] that the program uses.
    A Go string is a byte string; [strings.TrimSpace] and the decimal
    conversions are written out on bytes, [float64] is IEEE 754 binary64 as
    [SpecFloat] defines it.  The only parameter is the Unicode case table,
    which [strings.ToLower] consults for strings that are not ASCII. *)

From S2P Require Import Prelude.
From Stdlib Require Import Ascii SpecFloat.
From Stdlib Require String.

Local Open Scope Z_scope.

(** ** Bytes *)

Abbreviation bytes := (list ascii).

Definition chars (s : string) : bytes := String.list_ascii_of_string s.
Definition unchars (l : bytes) : string := String.string_of_list_ascii l.

Lemma unchars_chars s : unchars (chars s) = s.
Proof. apply String.string_of_list_ascii_of_string. Qed.
Lemma chars_unchars l : chars (unchars l) = l.
Proof. apply String.list_ascii_of_string_of_list_ascii. Qed.

Lemma chars_app s t : chars (s +:+ t) = chars s ++ chars t.
Proof.
  induction s as [|c s IH]; [done|].
  change (c :: chars (s +:+ t) = c :: (chars s ++ chars t)). by rewrite IH.
Qed.

Lemma unchars_app l k : unchars (l ++ k) = unchars l +:+ unchars k.
Proof.
  induction l as [|c l IH]; [done|].
  change (String.String c (unchars (l ++ k)) = String.String c (unchars l +:+ unchars k)).
  by rewrite IH.
Qed.

Lemma chars_inj s t : chars s = chars t → s = t.
Proof. intros H. by rewrite <-(unchars_chars s), H, unchars_chars. Qed.

Definition len (s : string) : nat := String.length s.

Lemma len_chars s : len s = length (chars s).
Proof. unfold len, chars. by induction s; cbn; f_equal. Qed.

Definition code (c : ascii) : nat := nat_of_ascii c.

Definition inRange (lo hi : nat) (c : ascii) : bool :=
  (lo <=? code c)%nat && (code c <=? hi)%nat.

Definition isDigit (c : ascii) : bool := inRange 48 57 c.
Definition isLowerLetter (c : ascii) : bool := inRange 97 122 c.
Definition isUpperLetter (c : ascii) : bool := inRange 65 90 c.
Definition isASCII (l : bytes) : bool := forallb (λ c, (code c <? 128)%nat) l.

(** ** strings.TrimSpace *)

(** The UTF-8 encodings of the runes of [unicode.IsSpace]: the six ASCII
    spaces, U+0085, U+00A0, U+1680, U+2000 to U+200A, U+2028, U+2029, U+202F,
    U+205F and U+3000. *)
Definition space1 (a : ascii) : bool := inRange 9 13 a || (code a =? 32)%nat.
Definition space2 (a b : ascii) : bool :=
  (code a =? 194)%nat && ((code b =? 133)%nat || (code b =? 160)%nat).
Definition space3 (a b c : ascii) : bool :=
  ((code a =? 225)%nat && (code b =? 154)%nat && (code c =? 128)%nat) ||
  ((code a =? 226)%nat && (code b =? 128)%nat &&
     (inRange 128 138 c || (code c =? 168)%nat || (code c =? 169)%nat || (code c =? 175)%nat)) ||
  ((code a =? 226)%nat && (code b =? 129)%nat && (code c =? 159)%nat) ||
  ((code a =? 227)%nat && (code b =? 128)%nat && (code c =? 128)%nat).

Fixpoint trimLeft (l : bytes) : bytes :=
  match l with
  | [] => []
  | a :: l1 =>
      if space1 a then trimLeft l1 else
      match l1 with
      | [] => l
      | b :: l2 =>
          if space2 a b then trimLeft l2 else
          match l2 with
          | [] => l
          | c :: l3 => if space3 a b c then trimLeft l3 else l
          end
      end
  end.

(** The same on the reversed string, whose last byte comes first. *)
Fixpoint trimRightRev (l : bytes) : bytes :=
  match l with
  | [] => []
  | a :: l1 =>
      if space1 a then trimRightRev l1 else
      match l1 with
      | [] => l
      | b :: l2 =>
          if space2 b a then trimRightRev l2 else
          match l2 with
          | [] => l
          | c :: l3 => if space3 c b a then trimRightRev l3 else l
          end
      end
  end.

Definition TrimSpace (s : string) : string :=
  unchars (reverse (trimRightRev (reverse (trimLeft (chars s))))).

(** ** strings.ToLower *)

Definition lowerByte (c : ascii) : ascii :=
  if isUpperLetter c then ascii_of_nat (code c + 32) else c.

(** The Unicode case table, consulted only for strings with a byte above 127. *)
Class Unicode := { toLowerUnicode : string → string }.

(** A table that changes nothing beyond ASCII, to run the definitions on. *)
Definition asciiOnly : Unicode := {| toLowerUnicode s := s |}.

Definition ToLower `{Unicode} (s : string) : string :=
  if isASCII (chars s) then unchars (lowerByte <$> chars s) else toLowerUnicode s.

(** ** strings.ReplaceAll(s, " ", ""), strings.Split, strings.Join *)

Definition removeSpaces (s : string) : string :=
  unchars (filter (λ c, code c ≠ 32%nat) (chars s)).

Fixpoint splitBytes (sep : ascii) (l : bytes) : list bytes :=
  match l with
  | [] => [[]]
  | c :: l =>
      if bool_decide (c = sep) then [] :: splitBytes sep l
      else match splitBytes sep l with
           | [] => [[c]]
           | p :: ps => (c :: p) :: ps
           end
  end.

Definition Split (sep : ascii) (s : string) : list string :=
  unchars <$> splitBytes sep (chars s).

Definition Join (sep : string) (l : list string) : string :=
  match l with
  | [] => ""
  | s :: l => foldl (λ acc t, acc +:+ sep +:+ t) s l
  end.

(** ** strconv.Atoi and strconv.Itoa *)

Definition digitVal (c : ascii) : Z := Z.of_nat (code c) - 48.

Definition decimal (l : bytes) : Z := foldl (λ acc c, acc * 10 + digitVal c) 0 l.

Definition parseDigits (l : bytes) : option Z :=
  match l with
  | [] => None
  | _ => if forallb isDigit l then Some (decimal l) else None
  end.

Definition Atoi (s : string) : option Z :=
  let ranged z := if bool_decide (in_int64 z) then Some z else None in
  match chars s with
  | [] => None
  | c :: l =>
      if (code c =? 45)%nat then z ← parseDigits l; ranged (- z)
      else if (code c =? 43)%nat then z ← parseDigits l; ranged z
      else z ← parseDigits (c :: l); ranged z
  end.

Definition Itoa (z : Z) : string := pretty z.

Lemma decimal_nonneg_acc l acc : forallb isDigit l = true → 0 ≤ acc →
  0 ≤ foldl (λ acc c, acc * 10 + digitVal c) acc l.
Proof.
  revert acc; induction l as [|c l IH]; intros acc; [done|]. cbn.
  intros [Hc Hl]%andb_prop Hacc. apply IH; [done|].
  unfold isDigit, inRange in Hc. apply andb_prop in Hc as [H1 H2].
  apply Nat.leb_le in H1. unfold digitVal. lia.
Qed.

Lemma decimal_nonneg l : forallb isDigit l = true → 0 ≤ decimal l.
Proof. intros. by apply decimal_nonneg_acc. Qed.

Lemma parseDigits_nonneg l z : parseDigits l = Some z → 0 ≤ z.
Proof.
  unfold parseDigits. destruct l as [|c l]; [done|].
  destruct (forallb isDigit (c :: l)) eqn:E; intros [= <-].
  by apply decimal_nonneg.
Qed.

Lemma Atoi_range s z : Atoi s = Some z → in_int64 z.
Proof.
  unfold Atoi. destruct (chars s) as [|c l]; [done|].
  destruct (code c =? 45)%nat; [|destruct (code c =? 43)%nat];
    destruct (parseDigits _) as [z'|]; cbn; try done;
    case_bool_decide; naive_solver.
Qed.

(** The longest prefix of digits, and the rest. *)
Fixpoint spanDigits (l : bytes) : bytes * bytes :=
  match l with
  | [] => ([], [])
  | c :: l' => if isDigit c then let '(ds, rest) := spanDigits l' in (c :: ds, rest) else ([], l)
  end.

Lemma spanDigits_app ds rest :
  forallb isDigit ds = true → match rest with [] => True | c :: _ => isDigit c = false end →
  spanDigits (ds ++ rest) = (ds, rest).
Proof.
  intros Hd Hr. induction ds as [|c ds IH]; cbn in *.
  - destruct rest as [|c rest]; [done|]. cbn. by rewrite Hr.
  - apply andb_prop in Hd as [-> Hd]. by rewrite IH.
Qed.

Lemma foldl_decimal ds acc :
  foldl (λ a c, a * 10 + digitVal c) acc ds = acc * 10 ^ Z.of_nat (length ds) + decimal ds.
Proof.
  unfold decimal. revert acc. induction ds as [|c ds IH]; intros acc; cbn [foldl length].
  { cbn. lia. }
  rewrite IH, (IH (0 * 10 + digitVal c)).
  replace (Z.of_nat (S (length ds))) with (Z.succ (Z.of_nat (length ds))) by lia.
  rewrite Z.pow_succ_r by lia. ring.
Qed.

Lemma pretty_N_char_digit (x : N) :
  (x < 10)%N → isDigit (pretty_N_char x) = true ∧ digitVal (pretty_N_char x) = Z.of_N x.
Proof.
  intros Hx. rewrite <-(N2Nat.id x). assert (N.to_nat x < 10)%nat as Hn by lia.
  generalize dependent (N.to_nat x). intros n Hn. do 10 (destruct n as [|n]; [done|]). lia.
Qed.

Lemma pretty_N_digits (x : N) (s : string) :
  ∃ ds, chars (pretty_N_go x s) = ds ++ chars s ∧ forallb isDigit ds = true ∧
        decimal ds = Z.of_N x ∧ (x ≠ 0%N → ds ≠ []).
Proof.
  revert s. induction (N.lt_wf_0 x) as [x _ IH]; intros s.
  destruct (decide (x = 0%N)) as [->|Hx].
  { exists []. rewrite pretty_N_go_0. done. }
  rewrite pretty_N_go_step by lia.
  destruct (IH (x `div` 10)%N ltac:(apply N.div_lt; lia)
    (String.String (pretty_N_char (x `mod` 10)%N) s)) as (ds & H1 & H2 & H3 & _).
  destruct (pretty_N_char_digit (x `mod` 10)) as [Hd Hv]; [by apply N.mod_lt|].
  exists (ds ++ [pretty_N_char (x `mod` 10)%N]). rewrite H1. split_and!.
  - by rewrite <-app_assoc.
  - rewrite forallb_app, H2. cbn. by rewrite Hd.
  - unfold decimal. rewrite foldl_app. fold (decimal ds). cbn. rewrite H3, Hv.
    pose proof (N.div_mod x 10 ltac:(done)). lia.
  - intros _ []%app_nil. done.
Qed.

(** What [Itoa] prints of a non-negative number are its decimal digits. *)
Lemma Itoa_digits z :
  0 ≤ z → chars (Itoa z) ≠ [] ∧ forallb isDigit (chars (Itoa z)) = true ∧ decimal (chars (Itoa z)) = z.
Proof.
  intros Hz. destruct z as [|p|p]; [done| |lia].
  change (Itoa (Z.pos p)) with (pretty_N_go (N.pos p) "").
  destruct (pretty_N_digits (N.pos p) "") as (ds & -> & H2 & H3 & H4).
  rewrite app_nil_r. split_and!; [by apply H4|done|done].
Qed.

Lemma Atoi_Itoa z : 0 ≤ z ≤ max_int64 → Atoi (Itoa z) = Some z.
Proof.
  intros Hz. destruct (Itoa_digits z) as (Hn & Hd & Hv); [lia|]. unfold Atoi.
  destruct (chars (Itoa z)) as [|c l] eqn:E; [done|].
  assert (isDigit c = true) as Hc by by apply andb_prop in Hd as [? _].
  unfold isDigit, inRange in Hc. apply andb_prop in Hc as [Hc1%Nat.leb_le Hc2%Nat.leb_le].
  rewrite (proj2 (Nat.eqb_neq _ 45)), (proj2 (Nat.eqb_neq _ 43)) by lia.
  unfold parseDigits. rewrite Hd. cbn [mbind option_bind]. rewrite Hv.
  rewrite bool_decide_eq_true_2; [done|]. unfold in_int64, min_int64. lia.
Qed.

(** Splitting at a separator that the first part does not contain. *)
Lemma splitBytes_app sep a l :
  sep ∉ a → splitBytes sep (a ++ sep :: l) = a :: splitBytes sep l.
Proof.
  induction a as [|c a IH]; intros Hn; cbn [splitBytes app].
  - by rewrite bool_decide_eq_true_2.
  - apply not_elem_of_cons in Hn as [Hc Hn]. rewrite bool_decide_eq_false_2 by done. by rewrite IH.
Qed.

Lemma splitBytes_none sep a : sep ∉ a → splitBytes sep a = [a].
Proof.
  induction a as [|c a IH]; intros Hn; cbn [splitBytes]; [done|].
  apply not_elem_of_cons in Hn as [Hc Hn]. rewrite bool_decide_eq_false_2 by done. by rewrite IH.
Qed.

(** Parts joined by a separator byte come back from splitting. *)
Fixpoint joinBytes (sep : ascii) (parts : list bytes) : bytes :=
  match parts with
  | [] => []
  | [p] => p
  | p :: parts => p ++ sep :: joinBytes sep parts
  end.

Lemma splitBytes_join sep parts :
  parts ≠ [] → Forall (λ p, sep ∉ p) parts → splitBytes sep (joinBytes sep parts) = parts.
Proof.
  intros Hne Hp. induction Hp as [|p parts Hn Hp IH]; [done|].
  destruct parts as [|q parts]; [by apply splitBytes_none|].
  change (joinBytes sep (p :: q :: parts)) with (p ++ sep :: joinBytes sep (q :: parts)).
  rewrite splitBytes_app by done. by rewrite IH.
Qed.

(** ** float64 *)

Abbreviation float64 := spec_float.

Definition prec64 : Z := 53.
Definition emax64 : Z := 1024.

Definition fadd : float64 → float64 → float64 := SFadd prec64 emax64.
Definition fsub : float64 → float64 → float64 := SFsub prec64 emax64.
Definition fmul : float64 → float64 → float64 := SFmul prec64 emax64.
Definition fopp : float64 → float64 := SFopp.
Definition flt (a b : float64) : bool := SFltb a b.
Definition fle (a b : float64) : bool := SFleb a b.
Definition fgt (a b : float64) : bool := SFltb b a.
Definition fge (a b : float64) : bool := SFleb b a.
Definition feq (a b : float64) : bool := SFeqb a b.
Definition fzero : float64 := S754_zero false.

Definition finite64 (f : float64) : bool :=
  match f with S754_zero _ | S754_finite _ _ _ => true | _ => false end.

(** The float64 nearest to an integer. *)
Definition ofInt (z : Z) : float64 := binary_normalize prec64 emax64 z 0 false.

#[export] Instance float64_eq_dec : EqDecision float64.
Proof. solve_decision. Defined.

(** The integer a float64 holds, when it holds one. *)
Definition toInt (f : float64) : option Z :=
  match f with
  | S754_zero _ => Some 0
  | S754_finite s m e =>
      let signed z := if s then - z else z in
      if 0 <=? e then Some (signed (Z.pos m * 2 ^ e))
      else if Z.pos m `mod` 2 ^ (- e) =? 0 then Some (signed (Z.pos m / 2 ^ (- e)))
      else None
  | _ => None
  end.

(** Rounding an integer to a multiple of ten to the [k], to nearest. *)
Definition roundTo (k : nat) (z : Z) : Z :=
  let p := 10 ^ Z.of_nat k in ((z + p / 2) / p) * p.

(** The integer that [strconv] prints for an integral float64 below 1e21: the
    fewest significant digits that read back as the same float64. *)
Fixpoint shortest (k : nat) (f : float64) (z : Z) : Z :=
  match k with
  | O => z
  | S k' =>
      let c := Z.sgn z * roundTo k (Z.abs z) in
      if bool_decide (ofInt c = f) then c else shortest k' f z
  end.
