(* ===== verification/GoTime.v ===== *)
(** * Instants as text

    [time.Time.Format] with the two layouts the program uses, for instants in
    UTC and years that have four digits. *)

From S2P Require Import Prelude GoStrings.
From Stdlib Require Import Ascii.
From Stdlib Require String.

Local Open Scope Z_scope.

Definition pad2 (z : Z) : string := if z <? 10 then "0" +:+ Itoa z else Itoa z.
Definition pad4 (z : Z) : string :=
  if z <? 10 then "000" +:+ Itoa z else if z <? 100 then "00" +:+ Itoa z
  else if z <? 1000 then "0" +:+ Itoa z else Itoa z.

(** The civil date of a day counted from 1 January of year 1, through the
    number of days since 1 March of year 0: year, month, day. *)
Definition civil (day : Z) : Z * Z * Z :=
  let z := day + 306 in
  let era := z / 146097 in
  let doe := z `mod` 146097 in
  let yoe := (doe - doe / 1460 + doe / 36524 - doe / 146096) / 365 in
  let doy := doe - (365 * yoe + yoe / 4 - yoe / 100) in
  let mp := (5 * doy + 2) / 153 in
  let m := if mp <? 10 then mp + 3 else mp - 9 in
  (yoe + era * 400 + (if m <=? 2 then 1 else 0), m, doy - (153 * mp + 2) / 5 + 1).

(** [t.UTC().Format(time.RFC3339)]. *)
Definition formatRFC3339 (t : Time) : string :=
  let s := t / Second in
  let '(y, m, d) := civil (s / 86400) in
  let r := s `mod` 86400 in
  pad4 y +:+ "-" +:+ pad2 m +:+ "-" +:+ pad2 d +:+ "T" +:+ pad2 (r / 3600) +:+ ":" +:+
  pad2 ((r / 60) `mod` 60) +:+ ":" +:+ pad2 (r `mod` 60) +:+ "Z".

(** The nine digits of a fraction of a second, without its trailing zeros and
    with its point; nothing when it is zero. *)
Fixpoint fractionDigits (n : nat) (z : Z) : bytes :=
  match n with
  | O => []
  | S n => fractionDigits n (z / 10) ++ chars (Itoa (z `mod` 10))
  end.

Fixpoint dropZeros (l : bytes) : bytes :=
  match l with
  | [] => []
  | c :: l' => if bool_decide (c = "0"%char) then dropZeros l' else l
  end.

Definition fractionText (ns : Z) : string :=
  if ns =? 0 then "" else "." +:+ unchars (reverse (dropZeros (reverse (fractionDigits 9 ns)))).

(** [t.UTC().Format(time.RFC3339Nano)]. *)
Definition formatRFC3339Nano (t : Time) : string :=
  let whole := chars (formatRFC3339 t) in
  unchars (take (length whole - 1) whole) +:+ fractionText (t `mod` Second) +:+ "Z".

(** ** Examples *)

Example epoch_text : formatRFC3339 (62135596800 * Second) = "1970-01-01T00:00:00Z".
Proof. reflexivity. Qed.

Example leap_text : formatRFC3339 ((62135596800 + 951868799) * Second) = "2000-02-29T23:59:59Z".
Proof. reflexivity. Qed.

Example nano_text : formatRFC3339Nano (62135596800 * Second + 120030000) = "1970-01-01T00:00:00.12003Z".
Proof. reflexivity. Qed.
