(* ===== verification/TimeParse.v ===== *)
(** * Reading instants from text

    [time.Parse] with the layouts the program uses, and that it gives back what
    [Format] has written: the calendar of GoTime.v is undone by a day count, for
    every day, and the fraction of a second by its digits. *)

From S2P Require Import Prelude GoStrings GoTime.
From Stdlib Require Import Ascii.

Local Open Scope Z_scope.

(** ** Layouts *)

(** The chunks of a layout: the parts of an instant, and literal text. *)
Inductive chunk :=
  | LongYear | ZeroMonth | ZeroDay | Hour24 | ZeroMinute | ZeroSecond | FracSecond9
  | ISO8601ColonTZ | NumColonTZ | Text (l : bytes).

Definition dateChunks : list chunk := [LongYear; Text (chars "-"); ZeroMonth; Text (chars "-"); ZeroDay].
Definition clockChunks : list chunk := [Hour24; Text (chars ":"); ZeroMinute; Text (chars ":"); ZeroSecond].

Definition RFC3339 : list chunk := dateChunks ++ [Text (chars "T")] ++ clockChunks ++ [ISO8601ColonTZ].
Definition RFC3339Nano : list chunk :=
  dateChunks ++ [Text (chars "T")] ++ clockChunks ++ [FracSecond9; ISO8601ColonTZ].
Definition spacedNano : list chunk :=
  dateChunks ++ [Text (chars " ")] ++ clockChunks ++ [FracSecond9; NumColonTZ].
Definition spaced : list chunk := dateChunks ++ [Text (chars " ")] ++ clockChunks.

(** ** The parser *)

(** The locals of [parse]; the offset is that of the zone, none when the text
    names none. *)
Record parsed := MkParsed {
  p_year : Z; p_month : Z; p_day : Z; p_hour : Z; p_min : Z; p_sec : Z; p_nsec : Z; p_offset : option Z
}.

Fixpoint cutspace (l : bytes) : bytes :=
  match l with
  | c :: l' => if bool_decide (c = " "%char) then cutspace l' else l
  | [] => []
  end.

(** [skip]: literal text must be there; a blank, of which no layout here has two in
    a row, stands for any number. *)
Fixpoint skip (prefix value : bytes) : option bytes :=
  match prefix with
  | [] => Some value
  | c :: prefix =>
      if bool_decide (c = " "%char) then
        match value with
        | v :: _ => if bool_decide (v = " "%char) then skip prefix (cutspace value) else None
        | [] => skip prefix []
        end
      else match value with
           | v :: value => if bool_decide (v = c) then skip prefix value else None
           | [] => None
           end
  end.

(** [getnum]: two digits, or one unless [fixed]. *)
Definition getnum (fixed : bool) (value : bytes) : option (Z * bytes) :=
  match value with
  | a :: rest =>
      if isDigit a then
        match rest with
        | b :: rest' =>
            if isDigit b then Some (digitVal a * 10 + digitVal b, rest')
            else if fixed then None else Some (digitVal a, rest)
        | [] => if fixed then None else Some (digitVal a, rest)
        end
      else None
  | [] => None
  end.

Definition inBounds (lo hi : Z) (r : option (Z * bytes)) : option (Z * bytes) :=
  '(z, rest) ← r; if (lo <=? z) && (z <=? hi) then Some (z, rest) else None.

Definition commaOrPeriod (c : ascii) : bool := bool_decide (c = "."%char) || bool_decide (c = ","%char).

(** [parseNanoseconds] of the digits after the point: nine of them count. *)
Definition nanoseconds (ds : bytes) : Z :=
  let ds := take 9 ds in decimal ds * 10 ^ (9 - Z.of_nat (length ds)).

(** A fraction, if there is one. *)
Definition fraction (value : bytes) : option (Z * bytes) :=
  match value with
  | p :: d :: _ =>
      if commaOrPeriod p && isDigit d then
        let '(ds, rest) := spanDigits (tail value) in Some (nanoseconds ds, rest)
      else None
  | _ => None
  end.

(** A numeric offset such as +01:30. *)
Definition numOffset (value : bytes) : option (Z * bytes) :=
  match value with
  | sign :: h1 :: h2 :: colon :: m1 :: m2 :: rest =>
      if bool_decide (colon = ":"%char) then
        '(hr, _) ← inBounds 0 24 (getnum true [h1; h2]);
        '(mm, _) ← inBounds 0 60 (getnum true [m1; m2]);
        let offset := (hr * 60 + mm) * 60 in
        if bool_decide (sign = "+"%char) then Some (offset, rest)
        else if bool_decide (sign = "-"%char) then Some (- offset, rest)
        else None
      else None
  | _ => None
  end.

(** The next chunk that is no text. *)
Fixpoint nextStdChunk (layout : list chunk) : option chunk :=
  match layout with
  | Text _ :: layout => nextStdChunk layout
  | c :: _ => Some c
  | [] => None
  end.

Definition isFraction (c : option chunk) : bool := match c with Some FracSecond9 => true | _ => false end.

(** One chunk of the layout; [rest] is what follows it. *)
Definition parseChunk (c : chunk) (rest : list chunk) (p : parsed) (value : bytes) : option (parsed * bytes) :=
  let '(MkParsed y mo d h mi s ns off) := p in
  match c with
  | LongYear =>
      if (4 <=? length value)%nat && forallb isDigit (take 4 value) then
        Some (MkParsed (decimal (take 4 value)) mo d h mi s ns off, drop 4 value)
      else None
  | ZeroMonth => '(z, v) ← inBounds 1 12 (getnum true value); Some (MkParsed y z d h mi s ns off, v)
  | ZeroDay => '(z, v) ← getnum true value; Some (MkParsed y mo z h mi s ns off, v)
  | Hour24 => '(z, v) ← inBounds 0 23 (getnum false value); Some (MkParsed y mo d z mi s ns off, v)
  | ZeroMinute => '(z, v) ← inBounds 0 59 (getnum true value); Some (MkParsed y mo d h z s ns off, v)
  | ZeroSecond =>
      '(z, v) ← inBounds 0 59 (getnum true value);
      let p := MkParsed y mo d h mi z ns off in
      if isFraction (nextStdChunk rest) then Some (p, v)
      else match fraction v with
           | Some (ns, v) => Some (MkParsed y mo d h mi z ns off, v)
           | None => Some (p, v)
           end
  | FracSecond9 =>
      match fraction value with
      | Some (ns, v) => Some (MkParsed y mo d h mi s ns off, v)
      | None => Some (p, value)
      end
  | ISO8601ColonTZ =>
      match value with
      | z :: v =>
          if bool_decide (z = "Z"%char) then Some (MkParsed y mo d h mi s ns (Some 0), v)
          else '(o, v) ← numOffset value; Some (MkParsed y mo d h mi s ns (Some o), v)
      | [] => None
      end
  | NumColonTZ => '(o, v) ← numOffset value; Some (MkParsed y mo d h mi s ns (Some o), v)
  | Text l => v ← skip l value; Some (p, v)
  end.

Fixpoint parseChunks (layout : list chunk) (p : parsed) (value : bytes) : option parsed :=
  match layout with
  | [] => if isNil value then Some p else None
  | c :: rest => '(p, value) ← parseChunk c rest p value; parseChunks rest p value
  end.

(** ** The calendar *)

Definition isLeap (year : Z) : bool :=
  (year `mod` 4 =? 0) && (negb (year `mod` 100 =? 0) || (year `mod` 400 =? 0)).

Definition daysIn (month year : Z) : Z :=
  if month =? 2 then if isLeap year then 29 else 28
  else if (month =? 4) || (month =? 6) || (month =? 9) || (month =? 11) then 30 else 31.

(** The number of a civil date, the inverse of [civil]: years begin in March. *)
Definition dayNumber (year month day : Z) : Z :=
  let y := if month <=? 2 then year - 1 else year in
  let mp := if month <=? 2 then month + 9 else month - 3 in
  let yoe := y `mod` 400 in
  (y / 400) * 146097 + (365 * yoe + yoe / 4 - yoe / 100) + ((153 * mp + 2) / 5 + day - 1) - 306.

(** [time.Date] in UTC, of a valid date. *)
Definition Date (year month day hour min sec nsec : Z) : Time :=
  (((dayNumber year month day * 24 + hour) * 60 + min) * 60 + sec) * Second + nsec.

(** [time.Parse], and the instant as UTC. *)
Definition TimeParse (layout : list chunk) (value : string) : option Time :=
  p ← parseChunks layout (MkParsed 0 (-1) (-1) 0 0 0 0 None) (chars value);
  if (1 <=? p_day p) && (p_day p <=? daysIn (p_month p) (p_year p)) then
    Some (Date (p_year p) (p_month p) (p_day p) (p_hour p) (p_min p) (p_sec p) (p_nsec p)
          - default 0 (p_offset p) * Second)
  else None.

Example parses_nano : TimeParse RFC3339Nano "1970-01-01T00:00:00.12003Z" = Some (62135596800 * Second + 120030000).
Proof. reflexivity. Qed.
Example parses_offset : TimeParse RFC3339 "2000-02-29T23:59:59+01:30" = TimeParse spaced "2000-02-29 22:29:59".
Proof. reflexivity. Qed.
Example refuses_february : TimeParse spaced "1900-02-29 00:00:00" = None.
Proof. reflexivity. Qed.

(** ** The calendar is undone *)

Section Calendar.
Variable doe : Z.
Hypothesis Hdoe : 0 ≤ doe < 146097.

(** The year of the era, and the day of that year, as [civil] computes them. *)
Let yoe := (doe - doe / 1460 + doe / 36524 - doe / 146096) / 365.
Let doy := doe - (365 * yoe + yoe / 4 - yoe / 100).

Lemma yoe_bounds : 0 ≤ yoe < 400.
Proof using Hdoe. subst yoe doy. Z.to_euclidean_division_equations. lia. Qed.

Lemma doy_bounds : 0 ≤ doy < 365 + ((yoe + 1) / 4 - yoe / 4 - ((yoe + 1) / 100 - yoe / 100) + (yoe + 1) / 400).
Proof using Hdoe. pose proof yoe_bounds as Hy. subst doy yoe. Z.to_euclidean_division_equations. lia. Qed.
End Calendar.

(** The day after a February of [k] days is the first of the next year. *)
Lemma isLeap_march era yoe :
  0 ≤ yoe < 400 →
  (yoe + 1) / 4 - yoe / 4 - ((yoe + 1) / 100 - yoe / 100) + (yoe + 1) / 400 =
  if isLeap (yoe + era * 400 + 1) then 1 else 0.
Proof.
  intros Hy. unfold isLeap.
  replace ((yoe + era * 400 + 1) `mod` 4) with ((yoe + 1) `mod` 4) by (Z.to_euclidean_division_equations; lia).
  replace ((yoe + era * 400 + 1) `mod` 100) with ((yoe + 1) `mod` 100) by (Z.to_euclidean_division_equations; lia).
  replace ((yoe + era * 400 + 1) `mod` 400) with ((yoe + 1) `mod` 400) by (Z.to_euclidean_division_equations; lia).
  destruct (Z.eqb_spec ((yoe + 1) `mod` 4) 0), (Z.eqb_spec ((yoe + 1) `mod` 100) 0), (Z.eqb_spec ((yoe + 1) `mod` 400) 0);
    cbn; Z.to_euclidean_division_equations; lia.
Qed.

Lemma civil_valid day :
  let '(y, m, d) := civil day in
  dayNumber y m d = day ∧ 1 ≤ m ≤ 12 ∧ 1 ≤ d ≤ daysIn m y.
Proof.
  unfold civil. set (z := day + 306). set (doe := z `mod` 146097).
  assert (0 ≤ doe < 146097) as Hdoe by (apply Z.mod_pos_bound; lia).
  assert (z = z / 146097 * 146097 + doe) as Hz by (subst doe; rewrite (Z.mul_comm _ 146097); apply Z.div_mod; lia).
  pose proof (yoe_bounds doe Hdoe) as Hy. pose proof (doy_bounds doe Hdoe) as Hd.
  set (yoe := (doe - doe / 1460 + doe / 36524 - doe / 146096) / 365) in *.
  set (era := z / 146097) in *. set (doy := doe - (365 * yoe + yoe / 4 - yoe / 100)) in *.
  assert (doe = 365 * yoe + yoe / 4 - yoe / 100 + doy) as Hdd by (subst doy; lia).
  rewrite (isLeap_march era) in Hd by done.
  clearbody doe doy yoe era. set (mp := (5 * doy + 2) / 153).
  assert (0 ≤ mp ≤ 11) as Hmp by (subst mp; destruct (isLeap _); Z.to_euclidean_division_equations; lia).
  assert ((153 * mp + 2) / 5 ≤ doy < (153 * (mp + 1) + 2) / 5) as Hin by (subst mp; Z.to_euclidean_division_equations; lia).
  clearbody mp. assert (∀ y, y = yoe + era * 400 → y `mod` 400 = yoe ∧ y / 400 = era) as Hera
    by (intros y ->; Z.to_euclidean_division_equations; lia).
  unfold dayNumber. destruct (Z.ltb_spec mp 10) as [Hlt|Hge].
  - rewrite !(proj2 (Z.leb_gt _ _)) by lia.
    destruct (Hera (yoe + era * 400 + 0)) as [-> ->]; [lia|]. replace (mp + 3 - 3) with mp by lia.
    split_and!; [lia..|]. unfold daysIn. rewrite (proj2 (Z.eqb_neq _ _)) by lia.
    enough ((153 * (mp + 1) + 2) / 5 - (153 * mp + 2) / 5 = if (mp + 3 =? 4) || _ || _ || _ then 30 else 31) as Hlen
      by (rewrite <-Hlen; lia).
    assert (mp = 0 ∨ mp = 1 ∨ mp = 2 ∨ mp = 3 ∨ mp = 4 ∨ mp = 5 ∨ mp = 6 ∨ mp = 7 ∨ mp = 8 ∨ mp = 9)
      as [->|[->|[->|[->|[->|[->|[->|[->|[->| ->]]]]]]]]] by lia; reflexivity.
  - rewrite !(proj2 (Z.leb_le _ _)) by lia.
    destruct (Hera (yoe + era * 400 + 1 - 1)) as [-> ->]; [lia|]. replace (mp - 9 + 9) with mp by lia.
    split_and!; [lia..|]. unfold daysIn.
    assert (mp = 10 ∨ mp = 11) as [->| ->] by lia; [change (doy - 306 + 1 ≤ 31); change (306 ≤ doy < 337) in Hin; lia|].
    change (doy - 337 + 1 ≤ if isLeap (yoe + era * 400 + 1) then 29 else 28). destruct (isLeap _); lia.
Qed.

(** ** Numbers as text *)

Definition digitOf (z : Z) : ascii := ascii_of_nat (48 + Z.to_nat z).

Lemma digitOf_spec z :
  0 ≤ z < 10 → isDigit (digitOf z) = true ∧ digitVal (digitOf z) = z ∧ chars (Itoa z) = [digitOf z].
Proof.
  intros Hz.
  assert (z = 0 ∨ z = 1 ∨ z = 2 ∨ z = 3 ∨ z = 4 ∨ z = 5 ∨ z = 6 ∨ z = 7 ∨ z = 8 ∨ z = 9)
    as [->|[->|[->|[->|[->|[->|[->|[->|[->| ->]]]]]]]]] by lia; by vm_compute.
Qed.

Lemma pretty_N_go_acc (x : N) (s : string) : pretty_N_go x s = pretty_N_go x "" +:+ s.
Proof.
  revert s. induction (N.lt_wf_0 x) as [x _ IH]; intros s.
  destruct (decide (x = 0%N)) as [->|Hx]; [by rewrite !pretty_N_go_0|].
  rewrite !(pretty_N_go_step x) by lia.
  rewrite (IH (x `div` 10)%N ltac:(apply N.div_lt; lia) (String.String _ s)).
  rewrite (IH (x `div` 10)%N ltac:(apply N.div_lt; lia) (String.String _ "")).
  apply chars_inj. by rewrite !chars_app, <-app_assoc.
Qed.

Lemma pretty_N_char_digitOf (x : N) : (x < 10)%N → pretty_N_char x = digitOf (Z.of_N x).
Proof.
  intros Hx. rewrite <-(N2Nat.id x). assert (N.to_nat x < 10)%nat as Hn by lia.
  generalize dependent (N.to_nat x). intros n Hn. do 10 (destruct n as [|n]; [done|]). lia.
Qed.

Lemma Itoa_step z : 10 ≤ z → chars (Itoa z) = chars (Itoa (z / 10)) ++ [digitOf (z `mod` 10)].
Proof.
  intros Hz. destruct z as [|p|p]; [lia| |lia].
  assert (Z.pos p / 10 = Z.of_N (N.pos p `div` 10)) as Hd by (by rewrite N2Z.inj_div).
  assert (Z.pos p `mod` 10 = Z.of_N (N.pos p `mod` 10)) as Hm by (by rewrite N2Z.inj_mod).
  assert (0 < Z.pos p / 10) as Hpos by (apply Z.div_str_pos; lia).
  change (Itoa (Z.pos p)) with (pretty_N_go (N.pos p) ""). rewrite pretty_N_go_step by lia.
  rewrite pretty_N_go_acc, chars_app, Hm, pretty_N_char_digitOf by (by apply N.mod_lt).
  rewrite Hd in Hpos |- *. destruct (N.pos p `div` 10)%N as [|q]; [lia|]. reflexivity.
Qed.

Lemma pad2_chars z : 0 ≤ z < 100 → chars (pad2 z) = [digitOf (z / 10); digitOf (z `mod` 10)].
Proof.
  intros Hz. unfold pad2. destruct (Z.ltb_spec z 10) as [Hlt|Hge].
  - rewrite chars_app, Z.div_small, Z.mod_small by lia. by destruct (digitOf_spec z) as (_ & _ & ->); [lia|].
  - rewrite Itoa_step by lia.
    destruct (digitOf_spec (z / 10)) as (_ & _ & ->); [Z.to_euclidean_division_equations; lia|done].
Qed.

Lemma pad4_chars y : 0 ≤ y < 10000 → chars (pad4 y) = chars (pad2 (y / 100)) ++ chars (pad2 (y `mod` 100)).
Proof.
  intros Hy. rewrite !pad2_chars by (Z.to_euclidean_division_equations; lia).
  assert (y `mod` 100 = y `mod` 10 + 10 * ((y / 10) `mod` 10)) as Hm by (apply (Z.rem_mul_r y 10 10); lia).
  pose proof (Z.mod_pos_bound y 10 ltac:(lia)) as Hb.
  assert (y `mod` 100 / 10 = (y / 10) `mod` 10) as -> by (rewrite Hm, Z.mul_comm, Z.div_add, Z.div_small by lia; lia).
  assert (y `mod` 100 `mod` 10 = y `mod` 10) as ->
    by (rewrite Hm, Z.mul_comm, Z.mod_add, Z.mod_mod by lia; done).
  rewrite (Z.div_div y 100 10) by lia. change (100 * 10) with 1000. clear Hm Hb.
  assert (∀ z, 0 ≤ z < 10 → chars (Itoa z) = [digitOf z]) as H1 by (intros z Hz; apply digitOf_spec; lia).
  assert (∀ z, 10 ≤ z < 100 → chars (Itoa z) = [digitOf (z / 10); digitOf (z `mod` 10)]) as H2.
  { intros z Hz. rewrite Itoa_step, H1 by (Z.to_euclidean_division_equations; lia). done. }
  assert (∀ z, 100 ≤ z < 1000 → chars (Itoa z) = [digitOf (z / 100); digitOf ((z / 10) `mod` 10); digitOf (z `mod` 10)]) as H3.
  { intros z Hz. rewrite Itoa_step, H2 by (Z.to_euclidean_division_equations; lia). by rewrite Z.div_div. }
  unfold pad4. destruct (Z.ltb_spec y 10); [|destruct (Z.ltb_spec y 100); [|destruct (Z.ltb_spec y 1000)]].
  - rewrite chars_app, H1, !(Z.div_small y), (Z.mod_small y) by lia. done.
  - rewrite chars_app, H2, (Z.div_small y 1000), (Z.div_small y 100), (Z.mod_small (y / 10)) by (Z.to_euclidean_division_equations; lia). done.
  - rewrite chars_app, H3, (Z.div_small y 1000), (Z.mod_small (y / 100)) by (Z.to_euclidean_division_equations; lia). done.
  - rewrite Itoa_step, H3 by (Z.to_euclidean_division_equations; lia). by rewrite !Z.div_div.
Qed.

(** Two digits are read back as their number. *)
Lemma getnum_pad2 fixed z rest : 0 ≤ z < 100 → getnum fixed (chars (pad2 z) ++ rest) = Some (z, rest).
Proof.
  intros Hz. rewrite pad2_chars by done. cbn [app getnum].
  destruct (digitOf_spec (z / 10)) as (-> & -> & _); [Z.to_euclidean_division_equations; lia|].
  destruct (digitOf_spec (z `mod` 10)) as (-> & -> & _); [Z.to_euclidean_division_equations; lia|].
  do 2 f_equal. rewrite (Z.div_mod z 10) at 3 by done. lia.
Qed.

Lemma inBounds_pad2 fixed lo hi z rest :
  0 ≤ z < 100 → lo ≤ z ≤ hi → inBounds lo hi (getnum fixed (chars (pad2 z) ++ rest)) = Some (z, rest).
Proof.
  intros Hz Hb. unfold inBounds. rewrite getnum_pad2 by done. cbn.
  by rewrite (proj2 (Z.leb_le _ _)), (proj2 (Z.leb_le _ _)) by lia.
Qed.

(** ** Fractions *)

Lemma decimal_app a b : decimal (a ++ b) = decimal a * 10 ^ Z.of_nat (length b) + decimal b.
Proof. unfold decimal at 1. by rewrite foldl_app, foldl_decimal. Qed.

Lemma fractionDigits_spec n z :
  0 ≤ z < 10 ^ Z.of_nat n →
  length (fractionDigits n z) = n ∧ forallb isDigit (fractionDigits n z) = true ∧ decimal (fractionDigits n z) = z.
Proof.
  revert z. induction n as [|n IH]; intros z Hz.
  { cbn in Hz. split_and!; [done|done|]. change (0 = z). lia. }
  rewrite Nat2Z.inj_succ, Z.pow_succ_r in Hz by lia. cbn [fractionDigits].
  destruct (IH (z / 10)) as (Hl & Hd & Hv); [Z.to_euclidean_division_equations; lia|].
  destruct (digitOf_spec (z `mod` 10)) as (Hdig & Hval & ->); [apply Z.mod_pos_bound; lia|].
  rewrite length_app, forallb_app, decimal_app, Hl, Hd, Hv. cbn [length forallb]. rewrite Hdig. split_and!; [lia|done|].
  change (decimal [digitOf (z `mod` 10)]) with (0 * 10 + digitVal (digitOf (z `mod` 10))). rewrite Hval.
  change (10 ^ Z.of_nat 1) with 10. rewrite (Z.div_mod z 10) at 3 by done. lia.
Qed.

Lemma dropZeros_spec l : ∃ k, l = replicate k "0"%char ++ dropZeros l.
Proof.
  induction l as [|c l [k IH]]; [by exists 0%nat|]. cbn [dropZeros]. case_bool_decide as Hc; [|by exists 0%nat].
  subst c. exists (S k). cbn. by f_equal.
Qed.

Lemma decimal_zeros k : decimal (replicate k "0"%char) = 0.
Proof. induction k as [|k IH]; [done|]. exact IH. Qed.

Lemma fraction_text ns rest :
  0 < ns < Second → match rest with [] => True | c :: _ => isDigit c = false end →
  fraction (chars (fractionText ns) ++ rest) = Some (ns, rest).
Proof.
  intros Hns Hrest. unfold fractionText. rewrite (proj2 (Z.eqb_neq _ _)) by lia.
  destruct (fractionDigits_spec 9 ns) as (Hl & Hd & Hv); [change (10 ^ Z.of_nat 9) with Second; lia|].
  set (ds := fractionDigits 9 ns) in *. destruct (dropZeros_spec (reverse ds)) as [k Hk].
  set (digits := reverse (dropZeros (reverse ds))).
  assert (ds = digits ++ replicate k "0"%char) as Hsplit.
  { rewrite <-(reverse_involutive ds), Hk, reverse_app, reverse_replicate. done. }
  rewrite Hsplit in Hl, Hd, Hv. rewrite length_app, length_replicate in Hl.
  rewrite forallb_app in Hd. apply andb_prop in Hd as [Hd _].
  rewrite decimal_app, length_replicate, decimal_zeros in Hv.
  rewrite chars_app, chars_unchars. clearbody digits. change (chars ".") with ["."%char]. cbn [app].
  destruct digits as [|d digits]; [change (decimal []) with 0 in Hv; lia|].
  unfold fraction. cbn [app tail]. pose proof Hd as [Hd1 _]%andb_prop. rewrite Hd1. cbn [andb commaOrPeriod].
  change (d :: digits ++ rest) with ((d :: digits) ++ rest). rewrite spanDigits_app by done.
  unfold nanoseconds. rewrite take_ge by lia.
  replace (9 - Z.of_nat (length (d :: digits))) with (Z.of_nat k) by lia.
  by replace (decimal (d :: digits) * 10 ^ Z.of_nat k) with ns by lia.
Qed.

(** ** Round trip *)

(** The instants of the years 1 to 9999, which [Format] writes with four digits. *)
Definition inYears (t : Time) : Prop := 0 ≤ t < 3652059 * 86400 * Second.

Lemma daysIn_max m y : daysIn m y ≤ 31.
Proof. unfold daysIn. destruct (m =? 2); [by destruct (isLeap y)|by case_match]. Qed.

Lemma civil_year day : 0 ≤ day < 3652059 → 1 ≤ (civil day).1.1 ≤ 9999.
Proof.
  intros Hd. pose proof (civil_valid day) as Hv. destruct (civil day) as [[y m] d]. destruct Hv as (Hday & Hm & Hdd).
  pose proof (daysIn_max m y) as Hmax. assert (1 ≤ d ≤ 31) as Hd31 by lia. clear Hdd Hmax. cbn [fst].
  unfold dayNumber in Hday. destruct (Z.leb_spec m 2); Z.to_euclidean_division_equations; lia.
Qed.

(** The text of an instant, part by part. *)
Lemma chars_formatRFC3339Nano t :
  let s := t / Second in
  let '(y, m, d) := civil (s / 86400) in
  let r := s `mod` 86400 in
  chars (formatRFC3339Nano t) =
    chars (pad4 y) ++ chars "-" ++ chars (pad2 m) ++ chars "-" ++ chars (pad2 d) ++ chars "T" ++
    chars (pad2 (r / 3600)) ++ chars ":" ++ chars (pad2 ((r / 60) `mod` 60)) ++ chars ":" ++
    chars (pad2 (r `mod` 60)) ++ chars (fractionText (t `mod` Second)) ++ chars "Z".
Proof.
  cbn zeta. unfold formatRFC3339Nano, formatRFC3339. destruct (civil _) as [[y m] d].
  rewrite !chars_app, chars_unchars, !app_assoc, length_app, Nat.add_sub, take_app_length. done.
Qed.

Lemma pad4_digits y :
  0 ≤ y < 10000 → length (chars (pad4 y)) = 4%nat ∧ forallb isDigit (chars (pad4 y)) = true ∧ decimal (chars (pad4 y)) = y.
Proof.
  intros Hy. assert (0 ≤ y / 100 < 100) as Ha by (Z.to_euclidean_division_equations; lia).
  pose proof (Z.mod_pos_bound y 100 ltac:(lia)) as Hb.
  assert (∀ z, 0 ≤ z < 100 → forallb isDigit (chars (pad2 z)) = true ∧ decimal (chars (pad2 z)) = z) as H2.
  { intros z Hz. rewrite pad2_chars by done. cbn [forallb].
    destruct (digitOf_spec (z / 10)) as (-> & Hv1 & _); [Z.to_euclidean_division_equations; lia|].
    destruct (digitOf_spec (z `mod` 10)) as (-> & Hv2 & _); [Z.to_euclidean_division_equations; lia|].
    split; [done|]. unfold decimal. cbn [foldl]. rewrite Hv1, Hv2. pose proof (Z.div_mod z 10). lia. }
  rewrite pad4_chars, length_app, forallb_app, decimal_app by done. destruct (H2 _ Ha) as [-> ->], (H2 _ Hb) as [-> ->].
  rewrite !pad2_chars by done. split_and!; [done|done|]. cbn [length]. change (10 ^ Z.of_nat 2) with 100.
  rewrite (Z.div_mod y 100) at 3 by done. lia.
Qed.

Lemma parseChunks_step c rest p v p' v' :
  parseChunk c rest p v = Some (p', v') → parseChunks (c :: rest) p v = parseChunks rest p' v'.
Proof. intros Hc. cbn [parseChunks]. by rewrite Hc. Qed.

(** A separator that is no blank. *)
Lemma parseChunk_text c rest p v : c ≠ " "%char → parseChunk (Text [c]) rest p ([c] ++ v) = Some (p, v).
Proof. intros Hc. destruct p. cbn. rewrite bool_decide_eq_false_2 by done. cbn. by rewrite bool_decide_eq_true_2. Qed.

Lemma parse_date y m d rest p v :
  0 ≤ y < 10000 → 1 ≤ m ≤ 12 → 1 ≤ d ≤ 31 →
  parseChunks (dateChunks ++ rest) p (chars (pad4 y) ++ chars "-" ++ chars (pad2 m) ++ chars "-" ++ chars (pad2 d) ++ v) =
  parseChunks rest (MkParsed y m d (p_hour p) (p_min p) (p_sec p) (p_nsec p) (p_offset p)) v.
Proof.
  intros Hy Hm Hd. destruct p as [y0 m0 d0 h mi s ns off]. destruct (pad4_digits y Hy) as (Hl & Hdig & Hval).
  unfold dateChunks. cbn [app p_hour p_min p_sec p_nsec p_offset].
  erewrite parseChunks_step.
  2:{ cbn [parseChunk]. rewrite length_app, Hl. change (4 <=? 4 + _)%nat with true.
      rewrite take_app_length' by done. rewrite drop_app_length' by done. rewrite Hdig, Hval. reflexivity. }
  rewrite (parseChunks_step _ _ _ _ _ _ (parseChunk_text "-"%char _ _ _ ltac:(done))).
  erewrite parseChunks_step; [|cbn [parseChunk]; rewrite inBounds_pad2 by lia; reflexivity].
  rewrite (parseChunks_step _ _ _ _ _ _ (parseChunk_text "-"%char _ _ _ ltac:(done))).
  erewrite parseChunks_step; [|cbn [parseChunk]; rewrite getnum_pad2 by lia; reflexivity]. done.
Qed.

Lemma parse_clock h mi s rest p v :
  0 ≤ h < 24 → 0 ≤ mi < 60 → 0 ≤ s < 60 → isFraction (nextStdChunk rest) = true →
  parseChunks (clockChunks ++ rest) p (chars (pad2 h) ++ chars ":" ++ chars (pad2 mi) ++ chars ":" ++ chars (pad2 s) ++ v) =
  parseChunks rest (MkParsed (p_year p) (p_month p) (p_day p) h mi s (p_nsec p) (p_offset p)) v.
Proof.
  intros Hh Hmi Hs Hrest. destruct p as [y m d h0 mi0 s0 ns off]. unfold clockChunks.
  cbn [app p_year p_month p_day p_nsec p_offset].
  erewrite parseChunks_step; [|cbn [parseChunk]; rewrite inBounds_pad2 by lia; reflexivity].
  rewrite (parseChunks_step _ _ _ _ _ _ (parseChunk_text ":"%char _ _ _ ltac:(done))).
  erewrite parseChunks_step; [|cbn [parseChunk]; rewrite inBounds_pad2 by lia; reflexivity].
  rewrite (parseChunks_step _ _ _ _ _ _ (parseChunk_text ":"%char _ _ _ ltac:(done))).
  erewrite parseChunks_step; [|cbn [parseChunk]; rewrite inBounds_pad2 by lia; cbn; rewrite Hrest; reflexivity]. done.
Qed.

(** The fraction, or none, and the zone. *)
Lemma parse_end p ns :
  0 ≤ ns < Second → p_nsec p = 0 →
  parseChunks [FracSecond9; ISO8601ColonTZ] p (chars (fractionText ns) ++ chars "Z") =
  Some (MkParsed (p_year p) (p_month p) (p_day p) (p_hour p) (p_min p) (p_sec p) ns (Some 0)).
Proof.
  intros Hns Hp. destruct p as [y m d h mi s ns0 off]. cbn in Hp. subst ns0. destruct (decide (ns = 0)) as [->|Hne]; [done|].
  erewrite parseChunks_step; [|cbn [parseChunk]; rewrite fraction_text by (done || lia); reflexivity]. done.
Qed.

(** What [Format] wrote, [Parse] reads. *)
Lemma TimeParse_format t : inYears t → TimeParse RFC3339Nano (formatRFC3339Nano t) = Some t.
Proof.
  intros Ht. unfold TimeParse. pose proof (chars_formatRFC3339Nano t) as Htext. cbn zeta in Htext.
  set (s := t / Second) in *. set (r := s `mod` 86400) in *.
  assert (0 ≤ s / 86400 < 3652059) as Hday.
  { unfold inYears in Ht. subst s. unfold Second in *. rewrite Z.div_div by lia. Z.to_euclidean_division_equations; lia. }
  pose proof (civil_year _ Hday) as Hy. pose proof (civil_valid (s / 86400)) as Hv.
  destruct (civil (s / 86400)) as [[y m] d]. destruct Hv as (Hdn & Hm & Hd). cbn in Hy.
  assert (d ≤ 31) as Hd31 by (pose proof (daysIn_max m y); lia).
  pose proof (Z.mod_pos_bound s 86400 ltac:(lia)) as Hr. fold r in Hr.
  rewrite Htext. unfold RFC3339Nano. rewrite parse_date by lia.
  change ([Text (chars "T")] ++ ?l) with (Text ["T"%char] :: l).
  rewrite (parseChunks_step _ _ _ _ _ _ (parseChunk_text "T"%char _ _ _ ltac:(done))).
  rewrite parse_clock; [|Z.to_euclidean_division_equations; lia|apply Z.mod_pos_bound; lia|apply Z.mod_pos_bound; lia|done].
  rewrite parse_end; [|apply Z.mod_pos_bound; unfold Second; lia|done]. cbn.
  rewrite !(proj2 (Z.leb_le _ _)) by lia. cbn. f_equal. unfold Date. rewrite Hdn, Z.sub_0_r.
  assert ((((s / 86400 * 24 + r / 3600) * 60 + (r / 60) `mod` 60) * 60 + r `mod` 60) = s) as ->.
  { subst r. Z.to_euclidean_division_equations. lia. }
  subst s. rewrite (Z.div_mod t Second) at 3 by done. lia.
Qed.
