(* ===== verification/Json.v ===== *)
(** * JSON payloads as encoding/json reads and writes them

    A [json.RawMessage] is modelled by what the decoders of the program can
    observe of its text: it is empty, it is not JSON, or it is the syntax tree
    [json] of a value, with object members in text order and duplicates kept.
    A number literal is observed as the float64 nearest to it and, when it has
    neither fraction nor exponent, as its integer.  Decoding to [any] makes the
    tree [canonical] (the last duplicate wins, numbers become float64);
    encoding a Go map writes its keys in byte order. *)

From S2P Require Import Prelude GoStrings.
From Stdlib Require Import Ascii.
From Stdlib Require String.

Local Open Scope Z_scope.

(** ** Values *)

Record num := Num { nf : float64; ni : option Z }.

Inductive json :=
  | JNull
  | JBool (b : bool)
  | JNum (n : num)
  | JStr (s : string)
  | JArr (l : list json)
  | JObj (fs : list (string * json)).

Inductive raw :=
  | RawEmpty
  | RawBad
  | Raw (j : json).

(** Induction over the tree, with the hypothesis for every element and member. *)
Section json_rect.
Variable P : json → Prop.
Hypothesis Hnull : P JNull.
Hypothesis Hbool : ∀ b, P (JBool b).
Hypothesis Hnum : ∀ n, P (JNum n).
Hypothesis Hstr : ∀ s, P (JStr s).
Hypothesis Harr : ∀ l, Forall P l → P (JArr l).
Hypothesis Hobj : ∀ fs, Forall (λ kv, P kv.2) fs → P (JObj fs).

Fixpoint json_nested_ind (j : json) : P j :=
  match j with
  | JNull => Hnull
  | JBool b => Hbool b
  | JNum n => Hnum n
  | JStr s => Hstr s
  | JArr l => Harr l ((fix go l : Forall P l :=
      match l with
      | [] => Forall_nil_2 _
      | x :: l => Forall_cons_2 _ _ _ (json_nested_ind x) (go l)
      end) l)
  | JObj fs => Hobj fs ((fix go fs : Forall (λ kv, P kv.2) fs :=
      match fs with
      | [] => Forall_nil_2 _
      | kv :: fs => Forall_cons_2 _ _ _ (json_nested_ind kv.2) (go fs)
      end) fs)
  end.
End json_rect.

(** ** Numbers *)

Definition numOfInt (z : Z) : num := Num (ofInt z) (Some z).

(** [json.Marshal] of a float64: an integer literal below 1e21, otherwise a
    fraction or an exponent. *)
Definition numOfFloat (f : float64) : num :=
  Num f (z ← toInt f; if Z.abs z <? 10 ^ 21 then Some (shortest 20 f z) else None).

(** ** Objects *)

(** Assignment to a key of a decoded object, kept in key order. *)
Fixpoint objInsert (k : string) (v : json) (m : list (string * json)) : list (string * json) :=
  match m with
  | [] => [(k, v)]
  | (k', v') :: m' =>
      match String.compare k k' with
      | Lt => (k, v) :: m
      | Eq => (k, v) :: m'
      | Gt => (k', v') :: objInsert k v m'
      end
  end.

Definition objOf (fs : list (string * json)) : list (string * json) :=
  foldl (λ m kv, objInsert kv.1 kv.2 m) [] fs.

Fixpoint objGet (k : string) (m : list (string * json)) : option json :=
  match m with
  | [] => None
  | (k', v) :: m => if bool_decide (k = k') then Some v else objGet k m
  end.

(** The value [any] that [json.Unmarshal] builds from a text. *)
Fixpoint canonical (j : json) : json :=
  match j with
  | JNum n => JNum (numOfFloat n.(nf))
  | JArr l => JArr (canonical <$> l)
  | JObj fs => JObj (objOf ((λ kv, (kv.1, canonical kv.2)) <$> fs))
  | _ => j
  end.

(** A number whose literal overflows float64 is a decoding error. *)
Fixpoint decodable (j : json) : bool :=
  match j with
  | JNum n => finite64 n.(nf)
  | JArr l => forallb decodable l
  | JObj fs => forallb (λ kv, decodable kv.2) fs
  | _ => true
  end.

Definition errDecode : err := ErrOther "json".

(** [json.Unmarshal] into a [map[string]any] that was nil. *)
Definition UnmarshalObject (r : raw) : res (list (string * json)) :=
  match r with
  | Raw JNull => Ok []
  | Raw (JObj fs) =>
      if decodable (JObj fs) then Ok (objOf ((λ kv, (kv.1, canonical kv.2)) <$> fs))
      else Err errDecode
  | _ => Err errDecode
  end.

(** [json.Marshal] of a map, which writes the keys in order. *)
Definition MarshalObject (m : list (string * json)) : raw := Raw (JObj m).

(** [json.Unmarshal] into a [map[string]string]: null stores the empty string. *)
Definition stringEntry (kv : string * json) : res (string * string) :=
  match kv.2 with
  | JStr s => Ok (kv.1, s)
  | JNull => Ok (kv.1, "")
  | _ => Err errDecode
  end.

Definition stringMap (fs : list (string * json)) : res (gmap string string) :=
  es ← traverse stringEntry fs;
  Ok (foldl (λ m e, <[e.1 := e.2]> m) ∅ es).

Definition UnmarshalStringMap (r : raw) : res (gmap string string) :=
  match r with
  | Raw JNull => Ok ∅
  | Raw (JObj fs) => stringMap fs
  | _ => Err errDecode
  end.

Definition MarshalStringMap (m : gmap string string) : raw :=
  Raw (JObj (objOf ((λ kv, (kv.1, JStr kv.2)) <$> map_to_list m))).

(** [json.Unmarshal] into a [[]string]. *)
Definition UnmarshalStrings (r : raw) : res (list string) :=
  match r with
  | Raw JNull => Ok []
  | Raw (JArr l) => traverse (λ j, match j with
                                   | JStr s => Ok s
                                   | JNull => Ok ""
                                   | _ => Err errDecode
                                   end) l
  | _ => Err errDecode
  end.

(** ** Structs *)

(** Member names match field names up to case: [foldName] maps every rune to
    the smallest of its simple folding orbit, which for an ASCII field name
    concerns ASCII letters, U+017F (long s) and U+212A (Kelvin sign). *)
Definition upperByte (c : ascii) : ascii :=
  if isLowerLetter c then ascii_of_nat (code c - 32) else c.

Fixpoint foldBytes (l : bytes) : bytes :=
  match l with
  | [] => []
  | a :: l1 =>
      match l1 with
      | b :: l2 =>
          if (code a =? 197)%nat && (code b =? 191)%nat then "S"%char :: foldBytes l2 else
          match l2 with
          | c :: l3 =>
              if (code a =? 226)%nat && (code b =? 132)%nat && (code c =? 170)%nat
              then "K"%char :: foldBytes l3
              else upperByte a :: foldBytes l1
          | [] => upperByte a :: foldBytes l1
          end
      | [] => [upperByte a]
      end
  end.

Definition foldName (s : string) : bytes := foldBytes (chars s).

(** The values a text assigns to the field [name], in text order. *)
Definition fieldValues (name : string) (fs : list (string * json)) : list json :=
  snd <$> filter (λ kv, foldName kv.1 = foldName name) fs.

(** What one value does to a field: [None] is a type error, [Some None] leaves
    the field alone (null), [Some (Some a)] stores [a]. *)
Definition conv (A : Type) : Type := json → option (option A).

Definition convFloat : conv float64 := λ j,
  match j with
  | JNull => Some None
  | JNum n => if finite64 n.(nf) then Some (Some n.(nf)) else None
  | _ => None
  end.
Definition convBool : conv bool := λ j,
  match j with JNull => Some None | JBool b => Some (Some b) | _ => None end.
Definition convString : conv string := λ j,
  match j with JNull => Some None | JStr s => Some (Some s) | _ => None end.
Definition convInt : conv Z := λ j,
  match j with
  | JNull => Some None
  | JNum n => z ← n.(ni); if bool_decide (in_int64 z) then Some (Some z) else None
  | _ => None
  end.

(** A field after decoding, and whether every value it met had its type.  A
    type error is reported at the end and does not stop the decoder. *)
Definition decodeField {A} (c : conv A) (dflt : A) (name : string)
    (fs : list (string * json)) : A * bool :=
  foldl (λ acc j, match c j with
                  | None => (acc.1, false)
                  | Some None => acc
                  | Some (Some a) => (a, acc.2)
                  end) (dflt, true) (fieldValues name fs).

(** The members a struct decoder walks over; [None] is a syntax or type error
    of the whole text. *)
Definition structFields (r : raw) : option (list (string * json)) :=
  match r with
  | Raw JNull => Some []
  | Raw (JObj fs) => Some fs
  | _ => None
  end.

(** A pointer field: null clears it. *)
Definition convPtr {A} (c : conv A) : conv (option A) := λ j,
  match j with
  | JNull => Some (Some None)
  | _ => match c j with
         | None => None
         | Some None => Some None
         | Some (Some a) => Some (Some (Some a))
         end
  end.

(** A [map[string]any] field: null clears it, an object is merged into it. *)
Definition convObjects (acc : list (string * json) * bool) (j : json) : list (string * json) * bool :=
  match j with
  | JNull => ([], acc.2)
  | JObj fs => if decodable j
               then (foldl (λ m kv, objInsert kv.1 (canonical kv.2) m) acc.1 fs, acc.2)
               else (acc.1, false)
  | _ => (acc.1, false)
  end.
Definition decodeObjectField (name : string) (fs : list (string * json)) : list (string * json) * bool :=
  foldl convObjects ([], true) (fieldValues name fs).

(** A [[]string] field. *)
Definition convStrings : conv (list string) := λ j,
  match UnmarshalStrings (Raw j) with Ok l => Some (Some l) | Err _ => None end.

(** *** Encoding *)

(** [json.Marshal] of a [json.RawMessage]: nil is null, text that is not JSON
    is an error. *)
Definition rawJson (r : raw) : res json :=
  match r with
  | RawEmpty => Ok JNull
  | RawBad => Err errDecode
  | Raw j => Ok j
  end.

(** The members of an encoded struct, in the order of its fields; [Opt] is
    [omitempty]. *)
Definition fStr (k v : string) : list (string * json) := [(k, JStr v)].
Definition fStrOpt (k v : string) : list (string * json) :=
  if bool_decide (v = "") then [] else [(k, JStr v)].
Definition fInt (k : string) (z : Z) : list (string * json) := [(k, JNum (numOfInt z))].
Definition fBool (k : string) (b : bool) : list (string * json) := [(k, JBool b)].
Definition fFloat (k : string) (f : float64) : list (string * json) := [(k, JNum (numOfFloat f))].
Definition fRaw (k : string) (r : raw) : res (list (string * json)) := j ← rawJson r; Ok [(k, j)].
Definition fRawOpt (k : string) (r : raw) : res (list (string * json)) :=
  match r with RawEmpty => Ok [] | _ => fRaw k r end.
Definition MarshalStrings (l : list string) : raw :=
  match l with [] => Raw JNull | _ => Raw (JArr (JStr <$> l)) end.

(** ** Lemmas *)

Lemma compare_refl s : String.compare s s = Eq.
Proof.
  induction s as [|c s IH]; [done|]. cbn.
  unfold Ascii.compare. by rewrite N.compare_refl.
Qed.

Lemma objGet_insert k k' v m :
  objGet k (objInsert k' v m) = if bool_decide (k = k') then Some v else objGet k m.
Proof.
  induction m as [|[k1 v1] m IH]; cbn; [done|].
  destruct (String.compare k' k1) eqn:E; cbn.
  - apply String.compare_eq_iff in E as ->. repeat case_bool_decide; done.
  - done.
  - rewrite IH. repeat case_bool_decide; subst; try done.
    by rewrite compare_refl in E.
Qed.

(** Decoding keeps the last member of a name. *)
Lemma objGet_objOf_snoc k fs k' v :
  objGet k (objOf (fs ++ [(k', v)])) = if bool_decide (k = k') then Some v else objGet k (objOf fs).
Proof. unfold objOf. rewrite foldl_app. cbn. apply objGet_insert. Qed.

Lemma objInsert_keys k v m x : x ∈ (objInsert k v m).*1 ↔ x = k ∨ x ∈ m.*1.
Proof.
  induction m as [|[k1 v1] m IH]; cbn; [set_solver|].
  destruct (String.compare k k1) eqn:E; cbn.
  - apply String.compare_eq_iff in E as ->. set_solver.
  - set_solver.
  - rewrite !elem_of_cons, IH. set_solver.
Qed.

Lemma objGet_None k m : objGet k m = None ↔ k ∉ m.*1.
Proof.
  induction m as [|[k1 v1] m IH]; cbn; [set_solver|].
  case_bool_decide; subst.
  - split; [done|]. set_solver.
  - rewrite IH, not_elem_of_cons. naive_solver.
Qed.

Lemma objGet_Some_elem k v m : objGet k m = Some v → (k, v) ∈ m.
Proof.
  induction m as [|[k1 v1] m IH]; cbn; [done|].
  case_bool_decide; [intros [= ->]; subst; left|intros; right; by apply IH].
Qed.

Lemma objGet_elem k v m : NoDup m.*1 → (k, v) ∈ m → objGet k m = Some v.
Proof.
  induction m as [|[k1 v1] m IH]; cbn; [intros _ H; by apply elem_of_nil in H|].
  intros [Hn Hd]%NoDup_cons. rewrite elem_of_cons. intros [[= -> ->]|Hin].
  - by rewrite bool_decide_eq_true_2.
  - rewrite bool_decide_eq_false_2; [by apply IH|].
    intros ->. apply Hn, list_elem_of_fmap. by exists (k1, v).
Qed.

(** Key order: an object built by assignments lists every key once. *)
Definition keyLt (a b : string * json) : Prop := String.compare a.1 b.1 = Lt.

Lemma compare_trans_lt s t u :
  String.compare s t = Lt → String.compare t u = Lt → String.compare s u = Lt.
Proof.
  revert t u; induction s as [|a s IH]; intros [|b t] [|c u]; cbn; try done.
  unfold Ascii.compare.
  destruct (N_of_ascii a ?= N_of_ascii b)%N eqn:E1; try done.
  - apply N.compare_eq_iff in E1. rewrite E1.
    destruct (N_of_ascii b ?= N_of_ascii c)%N; try done. apply IH.
  - intros _. destruct (N_of_ascii b ?= N_of_ascii c)%N eqn:E2; try done.
    + apply N.compare_eq_iff in E2. by rewrite <-E2, E1.
    + intros _. apply N.compare_lt_iff in E1, E2.
      by assert ((N_of_ascii a ?= N_of_ascii c)%N = Lt) as ->
        by (apply N.compare_lt_iff; eapply N.lt_trans; eassumption).
Qed.

Lemma compare_gt_lt s t : String.compare s t = Gt → String.compare t s = Lt.
Proof. intros H. rewrite String.compare_antisym, H. done. Qed.

Lemma objInsert_sorted k v m :
  StronglySorted keyLt m → StronglySorted keyLt (objInsert k v m).
Proof.
  induction 1 as [|[k1 v1] m Hs IH Hall]; cbn; [by repeat constructor|].
  destruct (String.compare k k1) eqn:E.
  - apply String.compare_eq_iff in E as ->. by constructor.
  - constructor; [by constructor|]. constructor; [done|].
    eapply Forall_impl; [exact Hall|]. intros [k2 v2]. unfold keyLt; cbn.
    by apply compare_trans_lt.
  - constructor; [done|]. apply Forall_forall. intros [k2 v2] Hin.
    assert (k2 = k ∨ k2 ∈ m.*1) as [->|Hm].
    { apply (objInsert_keys k v). apply list_elem_of_fmap. by exists (k2, v2). }
    + unfold keyLt; cbn. by apply compare_gt_lt.
    + apply list_elem_of_fmap in Hm as ([k3 v3] & -> & Hm).
      rewrite Forall_forall in Hall. unfold keyLt in *; cbn. apply (Hall _ Hm).
Qed.

Lemma objOf_sorted fs : StronglySorted keyLt (objOf fs).
Proof.
  unfold objOf. assert (StronglySorted keyLt (@nil (string * json))) as H by constructor.
  revert H. generalize (@nil (string * json)) as m.
  induction fs as [|[k v] fs IH]; intros m Hm; cbn; [done|].
  by apply IH, objInsert_sorted.
Qed.

Lemma sorted_keys_NoDup m : StronglySorted keyLt m → NoDup m.*1.
Proof.
  induction 1 as [|[k v] m Hs IH Hall]; cbn; [constructor|].
  constructor; [|done]. intros ([k1 v1] & -> & Hin)%list_elem_of_fmap.
  rewrite Forall_forall in Hall. specialize (Hall _ Hin).
  unfold keyLt in Hall; cbn in Hall. by rewrite compare_refl in Hall.
Qed.

Lemma objInsert_snoc k v m :
  Forall (λ kv, String.compare kv.1 k = Lt) m → objInsert k v m = m ++ [(k, v)].
Proof.
  induction 1 as [|[k1 v1] m H1 H IH]; cbn; [done|].
  rewrite String.compare_antisym. cbn in H1. rewrite H1. cbn. by rewrite IH.
Qed.

(** Building an object from members already in order changes nothing. *)
Lemma objOf_id m : StronglySorted keyLt m → objOf m = m.
Proof.
  intros Hs. unfold objOf.
  cut (∀ acc, StronglySorted keyLt (acc ++ m) →
              foldl (λ m kv, objInsert kv.1 kv.2 m) acc m = acc ++ m).
  { intros Hc. by rewrite (Hc []). }
  clear Hs. induction m as [|[k v] m IH]; intros acc Hs; cbn; [by rewrite app_nil_r|].
  rewrite objInsert_snoc.
  - rewrite IH, <-app_assoc; [done|]. by rewrite <-app_assoc.
  - apply Forall_forall. intros [k1 v1] Hin.
    apply StronglySorted_app in Hs as (Hx & _ & _). by apply (Hx (k1, v1) (k, v)); [|left].
Qed.

(** ** Decoding is a projection *)

Definition isCanon (j : json) : Prop := canonical j = j.

Lemma objInsert_elem k v m x : x ∈ objInsert k v m → x = (k, v) ∨ x ∈ m.
Proof.
  induction m as [|[k1 v1] m IH]; cbn; [set_solver|].
  destruct (String.compare k k1) eqn:E; [set_solver..|].
  rewrite !elem_of_cons. intros [->|[]%IH]; auto.
Qed.

Lemma objOf_elem fs x : x ∈ objOf fs → x ∈ fs.
Proof.
  unfold objOf.
  cut (∀ acc, x ∈ foldl (λ m kv, objInsert kv.1 kv.2 m) acc fs → x ∈ acc ∨ x ∈ fs).
  { intros Hc [H|H]%Hc; [by apply elem_of_nil in H|done]. }
  induction fs as [|[k v] fs IH]; cbn; intros acc; [auto|].
  intros [[->|?]%objInsert_elem|?]%IH; rewrite ?elem_of_cons; auto.
Qed.

Lemma sorted_map_snd (f : json → json) m :
  StronglySorted keyLt m ↔ StronglySorted keyLt ((λ kv, (kv.1, f kv.2)) <$> m).
Proof.
  induction m as [|[k v] m IH]; cbn; [done|].
  split; intros [Hs Hall]%StronglySorted_inv; constructor; try by apply IH.
  - apply Forall_fmap. eapply Forall_impl; [exact Hall|]. done.
  - rewrite Forall_forall in *. intros [k1 v1] Hin. apply (Hall (k1, f v1)).
    apply list_elem_of_fmap. by exists (k1, v1).
Qed.

Lemma isCanon_obj m :
  isCanon (JObj m) ↔ StronglySorted keyLt m ∧ Forall (λ kv, isCanon kv.2) m.
Proof.
  unfold isCanon; cbn. split.
  - intros [= H]. assert (StronglySorted keyLt m) as Hs by (rewrite <-H; apply objOf_sorted).
    split; [done|].
    rewrite objOf_id in H by (by apply (proj1 (sorted_map_snd canonical m))).
    clear Hs. induction m as [|[k v] m IH]; cbn in *; [constructor|].
    injection H as Hv Hm. constructor; [done|]. by apply IH.
  - intros [Hs Hall]. f_equal.
    rewrite objOf_id by (by apply (proj1 (sorted_map_snd canonical m))).
    induction Hall as [|[k v] m Hv Hall IH]; cbn in *; [done|].
    apply StronglySorted_inv in Hs as [Hs _]. by rewrite Hv, IH.
Qed.

Lemma canonical_idem j : isCanon (canonical j).
Proof.
  induction j as [| | | |l IH|fs IH] using json_nested_ind; try done.
  - unfold isCanon; cbn. f_equal. induction IH as [|x l Hx Hl IH]; cbn; [done|].
    by rewrite Hx, IH.
  - cbn. apply isCanon_obj. split; [apply objOf_sorted|].
    apply Forall_forall. intros kv Hin%objOf_elem.
    apply list_elem_of_fmap in Hin as ([k v] & -> & Hin).
    rewrite Forall_forall in IH. by apply (IH (k, v)).
Qed.

Lemma decodable_obj fs : decodable (JObj fs) = true ↔ Forall (λ kv, decodable kv.2 = true) fs.
Proof.
  cbn. induction fs as [|kv fs IH]; cbn; [done|].
  by rewrite andb_true_iff, Forall_cons, IH.
Qed.

Lemma decodable_canonical j : decodable j = true → decodable (canonical j) = true.
Proof.
  induction j as [| | | |l IH|fs IH] using json_nested_ind; try done.
  - cbn. induction IH as [|x l Hx Hl IHl]; cbn; [done|].
    intros [H1 H2]%andb_prop. by rewrite Hx, IHl.
  - rewrite decodable_obj. intros Hd. apply decodable_obj, Forall_forall.
    intros kv Hin%objOf_elem. apply list_elem_of_fmap in Hin as ([k v] & -> & Hin).
    rewrite Forall_forall in IH, Hd. apply (IH (k, v)); [done|]. by apply (Hd (k, v)).
Qed.

(** A decoded object: in key order, decoded all the way down. *)
Definition decodedObj (m : list (string * json)) : Prop :=
  isCanon (JObj m) ∧ decodable (JObj m) = true.

Lemma UnmarshalObject_decoded r m : UnmarshalObject r = Ok m → decodedObj m.
Proof.
  destruct r as [| |[| | | | |fs]]; try done.
  - by intros [= <-].
  - cbn [UnmarshalObject]. destruct (decodable (JObj fs)) eqn:E; [|done]. intros [= <-].
    split; [apply (canonical_idem (JObj fs))|by apply (decodable_canonical (JObj fs))].
Qed.

(** Encoding a decoded object and decoding it again gives the same object. *)
Lemma UnmarshalObject_Marshal m : decodedObj m → UnmarshalObject (MarshalObject m) = Ok m.
Proof.
  intros [Hc Hd]. unfold UnmarshalObject, MarshalObject. rewrite Hd.
  unfold isCanon in Hc. cbn in Hc. injection Hc as Hc. by rewrite Hc.
Qed.

(** Assigning a decoded value to a member of a decoded object. *)
Lemma decodedObj_insert k v m :
  decodedObj m → isCanon v → decodable v = true → decodedObj (objInsert k v m).
Proof.
  intros [[Hs Hc]%isCanon_obj Hd%decodable_obj] Hv Hdv. split.
  - apply isCanon_obj. split; [by apply objInsert_sorted|]. apply Forall_forall.
    intros x [->|Hx]%objInsert_elem; [done|]. rewrite Forall_forall in Hc. by apply Hc.
  - apply decodable_obj, Forall_forall. intros x [->|Hx]%objInsert_elem; [done|].
    rewrite Forall_forall in Hd. by apply Hd.
Qed.

(** ** String maps *)

Lemma objGet_objOf fs k : NoDup fs.*1 → objGet k (objOf fs) = objGet k fs.
Proof.
  induction fs as [|[k1 v1] fs IH] using rev_ind; [done|].
  rewrite fmap_app, NoDup_app. intros (Hd & Hx & _). rewrite objGet_objOf_snoc.
  rewrite IH by done. clear IH.
  assert (objGet k (fs ++ [(k1, v1)]) =
          match objGet k fs with Some v => Some v | None => objGet k [(k1, v1)] end) as ->.
  { clear. induction fs as [|[k2 v2] fs IH]; cbn; [done|]. by case_bool_decide. }
  case_bool_decide; cbn; [subst|rewrite bool_decide_eq_false_2 by done; by destruct (objGet k fs)].
  destruct (objGet k1 fs) as [v|] eqn:E; [|by rewrite bool_decide_eq_true_2].
  exfalso. apply (Hx k1); [|set_solver].
  apply list_elem_of_fmap. exists (k1, v). split; [done|]. by apply objGet_Some_elem.
Qed.

Lemma foldl_insert_lookup {A} (es : list (string * A)) (acc : gmap string A) k :
  NoDup es.*1 →
  foldl (λ m e, <[e.1 := e.2]> m) acc es !! k =
  match (list_to_map es : gmap string A) !! k with Some s => Some s | None => acc !! k end.
Proof.
  revert acc; induction es as [|[k1 v1] es IH]; intros acc; cbn; [by rewrite lookup_empty|].
  intros [Hn Hd]%NoDup_cons. rewrite IH by done. rewrite !lookup_insert.
  case_decide; subst; [|done].
  assert ((list_to_map es : gmap string A) !! k = None) as ->; [|done].
  by apply not_elem_of_list_to_map_1.
Qed.

Lemma stringMap_pairs (es : list (string * string)) :
  NoDup es.*1 →
  stringMap ((λ kv, (kv.1, JStr kv.2)) <$> es) = Ok (list_to_map es).
Proof.
  intros Hd. unfold stringMap.
  rewrite (traverse_pure _ (λ kv, (kv.1, match kv.2 with JStr s => s | _ => "" end))).
  - cbn. f_equal. apply map_eq. intros k.
    replace ((λ kv : string * json, (kv.1, match kv.2 with JStr s => s | _ => "" end)) <$>
             ((λ kv : string * string, (kv.1, JStr kv.2)) <$> es)) with es.
    + rewrite foldl_insert_lookup by done. rewrite lookup_empty. by case_match.
    + rewrite <-list_fmap_compose. symmetry. apply fmap_id_on. by intros [].
  - intros kv (e & -> & _)%list_elem_of_fmap. done.
Qed.

(** A string map survives encoding and decoding. *)
Lemma UnmarshalStringMap_Marshal m : UnmarshalStringMap (MarshalStringMap m) = Ok m.
Proof.
  unfold MarshalStringMap, UnmarshalStringMap.
  set (g := λ kv : string * string, (kv.1, JStr kv.2)).
  set (fs := objOf (g <$> map_to_list m)).
  set (es := (λ kv : string * json, (kv.1, match kv.2 with JStr s => s | _ => "" end)) <$> fs).
  assert (fs = g <$> es) as Hfs.
  { unfold es. rewrite <-list_fmap_compose. symmetry. apply fmap_id_on.
    intros kv Hin%objOf_elem. apply list_elem_of_fmap in Hin as ([k s] & -> & _). done. }
  assert (fs.*1 = es.*1) as Hk by (rewrite Hfs, <-list_fmap_compose; done).
  assert (NoDup es.*1) as Hd by (rewrite <-Hk; apply sorted_keys_NoDup, objOf_sorted).
  rewrite Hfs. unfold g. rewrite stringMap_pairs by done. f_equal. apply map_eq. intros k.
  apply option_eq. intros s.
  rewrite <-elem_of_list_to_map, <-elem_of_map_to_list by done.
  assert (NoDup (g <$> map_to_list m).*1) as Hdm
    by (rewrite <-list_fmap_compose; apply NoDup_fst_map_to_list).
  assert (∀ l : list (string * string), (k, s) ∈ l ↔ (k, JStr s) ∈ g <$> l) as Hg.
  { intros l. rewrite list_elem_of_fmap. split; [by exists (k, s)|].
    by intros ([k1 s1] & [= -> ->] & ?). }
  rewrite (Hg es), <-Hfs, (Hg (map_to_list m)).
  split; intros H.
  - apply objGet_Some_elem. rewrite <-objGet_objOf by done.
    apply objGet_elem; [apply sorted_keys_NoDup, objOf_sorted|done].
  - apply objGet_Some_elem. unfold fs. rewrite objGet_objOf by done. by apply objGet_elem.
Qed.

Lemma payloadAt_stringMap m k :
  objGet k (objOf ((λ kv, (kv.1, JStr kv.2)) <$> map_to_list m)) = JStr <$> m !! k.
Proof.
  set (g := λ kv : string * string, (kv.1, JStr kv.2)).
  assert (NoDup (g <$> map_to_list m).*1) as Hd
    by (rewrite <-list_fmap_compose; apply NoDup_fst_map_to_list).
  rewrite objGet_objOf by done.
  destruct (m !! k) as [s|] eqn:E; cbn.
  - apply objGet_elem; [done|]. apply list_elem_of_fmap. exists (k, s).
    split; [done|]. by apply elem_of_map_to_list.
  - apply objGet_None. rewrite <-list_fmap_compose.
    intros ([k1 s1] & -> & Hin)%list_elem_of_fmap. cbn in E.
    apply elem_of_map_to_list in Hin. congruence.
Qed.

(** ** Reading the fields of an object that is known *)

(** The names of an object that match the name of a field, and the values they
    pick. *)
Definition matching (name : string) (keys : list string) : list bool :=
  (λ k, bool_decide (foldName k = foldName name)) <$> keys.

Fixpoint pick {A} (bs : list bool) (vs : list A) : list A :=
  match bs, vs with
  | b :: bs, v :: vs => if b then v :: pick bs vs else pick bs vs
  | _, _ => []
  end.

Lemma fieldValues_pick name fs : fieldValues name fs = pick (matching name fs.*1) fs.*2.
Proof.
  unfold fieldValues. induction fs as [|[k v] fs IH]; [done|]. rewrite filter_cons.
  unfold matching in *. rewrite !fmap_cons. cbn [fst snd pick]. rewrite <-IH.
  by case_decide; case_bool_decide.
Qed.

(** The fields of an object whose names are given: the matches are computed. *)
Ltac read_fields :=
  cbn [structFields mbind option_bind default from_option]; unfold decodeField;
  rewrite !fieldValues_pick; cbn [id app fFloat fBool fStr fInt fmap list_fmap fst snd];
  repeat match goal with
    | |- context [matching ?n ?ks] =>
        let b := eval vm_compute in (matching n ks) in
        replace (matching n ks) with b by (vm_compute; reflexivity)
    end; cbn [pick foldl fst snd].

Lemma nf_numOfFloat f : nf (numOfFloat f) = f.
Proof. done. Qed.

Lemma convFloat_num f : finite64 f = true → convFloat (JNum (numOfFloat f)) = Some (Some f).
Proof. intros Hf. unfold convFloat. by rewrite nf_numOfFloat, Hf. Qed.

Lemma convInt_num z : in_int64 z → convInt (JNum (numOfInt z)) = Some (Some z).
Proof. intros Hz. unfold convInt. cbn. by rewrite bool_decide_eq_true_2. Qed.

(** What a decoded field satisfies: its default, or a value some conversion
    gave. *)
Lemma decodeField_inv {A} (P : A → Prop) (c : conv A) dflt name fs :
  P dflt → (∀ j a, c j = Some (Some a) → P a) → P (decodeField c dflt name fs).1.
Proof.
  intros Hd Hc. unfold decodeField.
  assert (∀ acc, P acc.1 → P (foldl (λ (acc : A * bool) j, match c j with
     | None => (acc.1, false) | Some None => acc | Some (Some a) => (a, acc.2) end) acc (fieldValues name fs)).1) as Hf.
  { induction (fieldValues name fs) as [|j js IH]; intros acc Ha; [done|]. cbn [foldl]. apply IH.
    destruct (c j) as [[a|]|] eqn:E; [by apply (Hc j)|done|done]. }
  by apply Hf.
Qed.

Lemma decodeField_int64 name fs : in_int64 (decodeField convInt 0 name fs).1.
Proof.
  apply (decodeField_inv in_int64); [done|]. intros j a. unfold convInt. destruct j as [| |n| | |]; try done.
  destruct (ni n) as [z|]; cbn; [|done]. case_bool_decide; [|done]. by intros [= <-].
Qed.
