(* ===== verification/Perm.v ===== *)
(** * Roles, ownership levels and their resolution (internal/core/perm/perm.go)

    The pure permission model: the world role of a member, the ownership level
    the document, folder and world grant, field visibility, and [Effective],
    which resolves the three layers into one grant. *)

From S2P Require Import Prelude GoStrings Json.

Local Open Scope Z_scope.

(** ** Data *)

(** [type Role string]: a stored role may be any string, [Valid] tells. *)
Definition Role := string.
Definition RoleGM : Role := "gm".
Definition RoleAssistant : Role := "assistant".
Definition RolePlayer : Role := "player".
Definition RoleObserver : Role := "observer".

Definition Valid (r : Role) : bool :=
  bool_decide (r = RoleGM) || bool_decide (r = RoleAssistant)
  || bool_decide (r = RolePlayer) || bool_decide (r = RoleObserver).

Definition IsStaff (r : Role) : bool :=
  bool_decide (r = RoleGM) || bool_decide (r = RoleAssistant).

Inductive Level := LevelNone | LevelLimited | LevelObserver | LevelOwner.

#[export] Instance Level_eq_dec : EqDecision Level.
Proof. solve_decision. Defined.

(** The integer behind [iota]; Go compares levels as integers. *)
Definition levelInt (l : Level) : Z :=
  match l with LevelNone => 0 | LevelLimited => 1 | LevelObserver => 2 | LevelOwner => 3 end.

Definition level_leb (a b : Level) : bool := levelInt a <=? levelInt b.
Definition level_ltb (a b : Level) : bool := levelInt a <? levelInt b.

Definition level_le (a b : Level) : Prop := levelInt a ≤ levelInt b.
#[export] Instance level_le_po : PartialOrder level_le.
Proof.
  split; [split|].
  - intros a. unfold level_le. lia.
  - intros a b c. unfold level_le. lia.
  - intros [] []; unfold level_le; cbn; naive_solver lia.
Qed.

Definition LevelString (l : Level) : string :=
  match l with
  | LevelLimited => "limited"
  | LevelObserver => "observer"
  | LevelOwner => "owner"
  | LevelNone => "none"
  end.

Definition errUnknownLevel : err := ErrOther "perm: unknown ownership level".

Definition ParseLevel (s : string) : res Level :=
  if bool_decide (s = "none") || bool_decide (s = "") then Ok LevelNone
  else if bool_decide (s = "limited") then Ok LevelLimited
  else if bool_decide (s = "observer") then Ok LevelObserver
  else if bool_decide (s = "owner") then Ok LevelOwner
  else Err errUnknownLevel.

(** [type Visibility string]: a field policy may return any string. *)
Definition Visibility := string.
Definition VisibilityPublic : Visibility := "public".
Definition VisibilityObserver : Visibility := "observer".
Definition VisibilityOwner : Visibility := "owner".
Definition VisibilityGM : Visibility := "gm".

Definition required (v : Visibility) : Level :=
  if bool_decide (v = VisibilityObserver) then LevelObserver
  else if bool_decide (v = VisibilityOwner) || bool_decide (v = VisibilityGM) then LevelOwner
  else LevelLimited.

Inductive Source :=
  | SourceRole | SourceExplicit | SourceDocument | SourceFolder | SourceWorld | SourceNone.

Record Grant := MkGrant {
  grant_Role : Role;
  grant_Level : Level;
  grant_Source : Source
}.

Definition CanRead (g : Grant) : bool := level_ltb LevelNone (grant_Level g).

Definition CanEdit (g : Grant) : bool :=
  negb (bool_decide (grant_Role g = RoleObserver)) && level_leb LevelOwner (grant_Level g).

Definition CanSeeGMOnly (g : Grant) : bool := IsStaff (grant_Role g).

Definition Allows (g : Grant) (v : Visibility) : bool :=
  if bool_decide (v = VisibilityGM) then IsStaff (grant_Role g)
  else if IsStaff (grant_Role g) then true
  else level_leb (required v) (grant_Level g).

(** ** Access control lists *)

Definition DefaultKey : string := "default".

Abbreviation ACL := (gmap string Level).

Definition ParseACL (r : raw) : res ACL :=
  match r with
  | RawEmpty => Ok ∅
  | _ =>
      entries ← UnmarshalStringMap r;
      levels ← traverse (λ kv, level ← ParseLevel kv.2; Ok (kv.1, level)) (map_to_list entries);
      Ok (list_to_map levels)
  end.

Record Subject := MkSubject { subject_UserID : ID; subject_Role : Role }.

Record Inputs := MkInputs {
  inputs_Document : ACL;
  inputs_Folder : ACL;
  inputs_World : Level
}.

Definition has (acl : ACL) (key : string) : bool := bool_decide (is_Some (acl !! key)).

(** A Go map read: the zero value when the key is absent. *)
Definition aclGet (acl : ACL) (key : string) : Level := default LevelNone (acl !! key).

Definition Effective (subject : Subject) (inputs : Inputs) : Grant :=
  let role := subject_Role subject in
  if IsStaff role then MkGrant role LevelOwner SourceRole
  else
    let user := subject_UserID subject in
    let '(level, source) :=
      if has (inputs_Document inputs) user then
        (aclGet (inputs_Document inputs) user, SourceExplicit)
      else if has (inputs_Document inputs) DefaultKey then
        (aclGet (inputs_Document inputs) DefaultKey, SourceDocument)
      else if has (inputs_Folder inputs) user then
        (aclGet (inputs_Folder inputs) user, SourceFolder)
      else if has (inputs_Folder inputs) DefaultKey then
        (aclGet (inputs_Folder inputs) DefaultKey, SourceFolder)
      else if level_ltb LevelNone (inputs_World inputs) then
        (inputs_World inputs, SourceWorld)
      else (LevelNone, SourceNone) in
    let level :=
      if bool_decide (role = RoleObserver) && level_ltb LevelObserver level
      then LevelObserver else level in
    let source := if bool_decide (level = LevelNone) then SourceNone else source in
    MkGrant role level source.

(** ** Reference definition *)

(** The levels a non-staff member may be granted, most specific first. *)
Definition candidates (user : ID) (inputs : Inputs) : list (option Level) :=
  [inputs_Document inputs !! user; inputs_Document inputs !! DefaultKey;
   inputs_Folder inputs !! user; inputs_Folder inputs !! DefaultKey;
   Some (inputs_World inputs)].

Fixpoint firstSome {A} (l : list (option A)) : option A :=
  match l with
  | [] => None
  | Some a :: _ => Some a
  | None :: l => firstSome l
  end.

Definition level_min (a b : Level) : Level := if level_leb a b then a else b.

(** What the permission model promises: staff own everything; everyone else
    gets the most specific entry, capped for observers. *)
Definition resolvedLevel (subject : Subject) (inputs : Inputs) : Level :=
  if IsStaff (subject_Role subject) then LevelOwner
  else
    let level := default LevelNone (firstSome (candidates (subject_UserID subject) inputs)) in
    if bool_decide (subject_Role subject = RoleObserver)
    then level_min level LevelObserver else level.

(** ** Theorems *)

Lemma Effective_role s i : grant_Role (Effective s i) = subject_Role s.
Proof. unfold Effective. destruct (IsStaff _); [done|]. by repeat case_match. Qed.

Lemma level_cap l : (if level_ltb LevelObserver l then LevelObserver else l) = level_min l LevelObserver.
Proof. by destruct l. Qed.

Lemma Effective_level s i : grant_Level (Effective s i) = resolvedLevel s i.
Proof.
  unfold Effective, resolvedLevel, has, aclGet, candidates. cbv zeta.
  destruct (IsStaff (subject_Role s)); [done|].
  destruct (inputs_Document i !! subject_UserID s), (inputs_Document i !! DefaultKey),
    (inputs_Folder i !! subject_UserID s), (inputs_Folder i !! DefaultKey);
    cbn; destruct (bool_decide (subject_Role s = RoleObserver)); cbn; rewrite ?level_cap;
    try done; by destruct (inputs_World i).
Qed.

Lemma staff_cases r : IsStaff r = true ↔ r = RoleGM ∨ r = RoleAssistant.
Proof. unfold IsStaff. rewrite orb_true_iff, !bool_decide_eq_true. done. Qed.

Lemma staff_not_observer r : IsStaff r = true → r ≠ RoleObserver.
Proof. intros [-> | ->]%staff_cases; done. Qed.

Lemma CanEdit_spec s i :
  CanEdit (Effective s i) = true ↔ subject_Role s ≠ RoleObserver ∧ resolvedLevel s i = LevelOwner.
Proof.
  unfold CanEdit. rewrite andb_true_iff, negb_true_iff, bool_decide_eq_false.
  rewrite Effective_role, Effective_level. by destruct (resolvedLevel s i); cbn; naive_solver.
Qed.

(** C10: the grant [Effective] computes is the reference resolution, for every
    role, user and combination of document, folder and world entries: staff own
    everything, any other member gets the most specific entry that exists
    (explicit user, document default, folder user, folder default, world), an
    observer never more than [LevelObserver]; and it can be edited exactly when
    that level is owner and the role is not observer. *)
Theorem Effective_resolves : ∀ s i,
  grant_Role (Effective s i) = subject_Role s ∧
  grant_Level (Effective s i) = resolvedLevel s i ∧
  (CanRead (Effective s i) = true ↔ resolvedLevel s i ≠ LevelNone) ∧
  (CanEdit (Effective s i) = true ↔
     subject_Role s ≠ RoleObserver ∧ resolvedLevel s i = LevelOwner).
Proof.
  intros s i. rewrite Effective_role, Effective_level.
  split_and!; [done..| |apply CanEdit_spec].
  unfold CanRead. rewrite Effective_level. by destruct (resolvedLevel s i).
Qed.

(** ** Encoding an access list *)

Lemma ParseLevel_String l : ParseLevel (LevelString l) = Ok l.
Proof. by destruct l. Qed.

(** The text an access list is stored as. *)
Definition encodeACL (acl : ACL) : raw := MarshalStringMap (LevelString <$> acl).

Lemma ParseACL_encode acl : ParseACL (encodeACL acl) = Ok acl.
Proof.
  unfold ParseACL, encodeACL.
  assert (∀ A (x y : A) m, match MarshalStringMap m with RawEmpty => x | _ => y end = y) as ->
    by done.
  rewrite UnmarshalStringMap_Marshal. cbn.
  rewrite map_to_list_fmap.
  rewrite (traverse_pure _ (λ kv, (kv.1, match ParseLevel kv.2 with Ok l => l | _ => LevelNone end))).
  - cbn. f_equal. rewrite <-list_fmap_compose.
    rewrite fmap_id_on; [apply list_to_map_to_list|].
    intros [k l] _. cbn. by rewrite ParseLevel_String.
  - intros kv ([k l] & -> & _)%list_elem_of_fmap. cbn. by rewrite ParseLevel_String.
Qed.

Lemma Allows_mono g h v :
  grant_Role g = grant_Role h → level_le (grant_Level g) (grant_Level h) →
  Allows g v = true → Allows h v = true.
Proof.
  unfold Allows, level_leb, level_le. intros -> Hl. repeat case_match; try done.
  rewrite !Z.leb_le. lia.
Qed.

Lemma gm_only_staff g : Allows g VisibilityGM = IsStaff (grant_Role g).
Proof. unfold Allows. by rewrite bool_decide_eq_true_2. Qed.
