(* ===== verification/Storage.v ===== *)
(** * The storage port (internal/storage/storage.go)

    The records the program stores, the pure predicates on them, and the port
    itself: [Query] and [Tx] are the two Go interfaces as type classes over a
    store state, [QueryLaws] what their clients rely on.  Every operation may
    fail with an arbitrary error, so a theorem proved against the port holds of
    a store whose driver fails.  An operation that reads the clock takes the
    instant as an argument; one that fills in fields of the struct it is handed
    returns that struct. *)

From S2P Require Import Prelude GoStrings Json.

Local Open Scope Z_scope.

(** ** Records *)

Record World := MkWorld {
  world_ID : ID;
  world_Slug : string;
  world_Title : string;
  world_SystemID : string;
  world_SystemVersion : string;
  world_DefaultLocale : string;
  world_ActiveScene : ID;
  world_Settings : raw;
  world_EventSeq : Z;
  world_CreatedAt : Time;
  world_ArchivedAt : option Time
}.

Record User := MkUser {
  user_ID : ID;
  user_Username : string;
  user_Email : string;
  user_PasswordHash : string;
  user_Locale : string;
  user_IsAdmin : bool;
  user_CreatedAt : Time;
  user_DisabledAt : option Time
}.

Definition Disabled (u : User) : bool := bool_decide (is_Some (user_DisabledAt u)).

Record UserSession := MkUserSession {
  session_TokenHash : string;
  session_UserID : ID;
  session_CreatedAt : Time;
  session_ExpiresAt : Time;
  session_LastSeenAt : Time;
  session_UserAgent : string
}.

Record Member := MkMember {
  member_WorldID : ID;
  member_UserID : ID;
  member_Role : string;
  member_JoinedAt : Time
}.

Record Invite := MkInvite {
  invite_ID : ID;
  invite_TokenHash : string;
  invite_WorldID : ID;
  invite_Role : string;
  invite_CreatedBy : ID;
  invite_CreatedAt : Time;
  invite_ExpiresAt : Time;
  invite_MaxUses : Z;
  invite_Uses : Z;
  invite_RevokedAt : option Time
}.

Definition Usable (i : Invite) (now : Time) : bool :=
  if bool_decide (is_Some (invite_RevokedAt i)) || After now (invite_ExpiresAt i) then false
  else (invite_MaxUses i =? 0) || (invite_Uses i <? invite_MaxUses i).

Record Document := MkDocument {
  doc_WorldID : ID;
  doc_ID : ID;
  doc_Kind : string;
  doc_Subtype : string;
  doc_ParentID : ID;
  doc_FolderID : ID;
  doc_Name : string;
  doc_Sort : Z;
  doc_Img : string;
  doc_Data : raw;
  doc_Flags : raw;
  doc_Ownership : raw;
  doc_SourcePack : string;
  doc_SchemaVersion : string;
  doc_CreatedAt : Time;
  doc_UpdatedAt : Time;
  doc_UpdatedSeq : Z;
  doc_DeletedAt : option Time
}.

Record Asset := MkAsset {
  asset_ID : ID;
  asset_WorldID : ID;
  asset_SHA256 : string;
  asset_Mime : string;
  asset_Bytes : Z;
  asset_Width : Z;
  asset_Height : Z;
  asset_DurationMS : Z;
  asset_Variants : raw;
  asset_UploadedBy : ID;
  asset_CreatedAt : Time
}.

Record Event := MkEvent {
  event_WorldID : ID;
  event_Seq : Z;
  event_Timestamp : Time;
  event_ActorUserID : ID;
  event_Kind : string;
  event_TargetKind : string;
  event_TargetID : ID;
  event_SceneID : ID;
  event_Payload : raw;
  event_Audience : raw;
  event_Undo : raw
}.

Inductive DeleteMode := DeleteSoft | DeleteHard.

Record DocumentFilter := MkDocumentFilter {
  filter_Kind : string;
  filter_Subtype : string;
  filter_ParentID : option ID;
  filter_FolderID : option ID;
  filter_IncludeDeleted : bool;
  filter_UpdatedSince : Z;
  filter_Limit : Z
}.

(** The two shapes of filter the program builds: by kind, and by kind and
    parent. *)
Definition ofKind (kind : string) : DocumentFilter :=
  MkDocumentFilter kind "" None None false 0 0.
Definition ofKindIn (kind : string) (parent : ID) (limit : Z) : DocumentFilter :=
  MkDocumentFilter kind "" (Some parent) None false 0 limit.

Record Patch := MkPatch {
  patch_Name : option string;
  patch_Sort : option Z;
  patch_Img : option string;
  patch_FolderID : option ID;
  patch_Set : list (string * json);
  patch_Unset : list string;
  patch_Ownership : option raw;
  patch_Seq : Z
}.

Definition isNone {A} (o : option A) : bool := match o with None => true | _ => false end.

Definition IsEmpty (p : Patch) : bool :=
  isNone (patch_Name p) && isNone (patch_Sort p) && isNone (patch_Img p) &&
  isNone (patch_FolderID p) && bool_decide (patch_Set p = []) &&
  bool_decide (patch_Unset p = []) && isNone (patch_Ownership p).

(** ** The port *)

Class Query (S : Type) := {
  GetWorld : S → ID → res World;
  GetUser : S → ID → res User;
  GetUserByUsername : S → string → res User;
  CountUsers : S → res Z;
  GetUserSession : S → string → res UserSession;
  GetMember : S → ID → ID → res Member;
  ListMembers : S → ID → res (list Member);
  ListWorlds : S → res (list World);
  ListWorldsForUser : S → ID → res (list World);
  GetInviteByTokenHash : S → string → res Invite;
  ListInvites : S → ID → res (list Invite);
  GetDocument : S → ID → ID → res Document;
  ListDocuments : S → ID → DocumentFilter → res (list Document);
  EventsSince : S → ID → Z → Z → res (list Event);
  GetAsset : S → ID → ID → res Asset;
  GetAssetBySHA256 : S → ID → string → res Asset;
  ListAssets : S → ID → Z → res (list Asset);
  SumAssetBytes : S → ID → res Z
}.

Class Tx (S : Type) := {
  tx_query :: Query S;
  PutWorld : Time → World → M S World;
  PutUser : Time → User → M S User;
  PutUserSession : Time → UserSession → M S UserSession;
  TouchUserSession : string → Time → M S unit;
  DeleteUserSession : string → M S unit;
  DeleteUserSessionsOf : ID → M S unit;
  PutMember : Time → Member → M S Member;
  DeleteMember : ID → ID → M S unit;
  PutInvite : Time → Invite → M S Invite;
  ConsumeInvite : ID → ID → M S unit;
  RevokeInvite : Time → ID → ID → M S unit;
  PutDocument : Time → Document → M S Document;
  PatchDocument : Time → ID → ID → Patch → M S Document;
  DeleteDocument : Time → ID → ID → DeleteMode → M S unit;
  AppendEvent : Time → Event → M S Z;
  PutAsset : Time → Asset → M S Asset;
  DeleteAsset : ID → ID → M S unit
}.

(** The JSON columns of a document hold JSON. *)
Definition readable (d : Document) : Prop :=
  doc_Data d ≠ RawBad ∧ doc_Flags d ≠ RawBad ∧ doc_Ownership d ≠ RawBad.

(** What a document listing promises of each row. *)
Definition matchesFilter (w : ID) (f : DocumentFilter) (d : Document) : Prop :=
  doc_WorldID d = w ∧
  (filter_Kind f ≠ "" → doc_Kind d = filter_Kind f) ∧
  (filter_Subtype f ≠ "" → doc_Subtype d = filter_Subtype f) ∧
  (∀ p, filter_ParentID f = Some p → doc_ParentID d = p ∧ p ≠ "") ∧
  (∀ p, filter_FolderID f = Some p → doc_FolderID d = p ∧ p ≠ "") ∧
  (filter_IncludeDeleted f = false → doc_DeletedAt d = None) ∧
  (0 < filter_UpdatedSince f → filter_UpdatedSince f < doc_UpdatedSeq d).

(** What the clients of the port rely on when an operation succeeds on a
    well-formed store. *)
Class QueryLaws (S : Type) `{Query S} := {
  wf : S → Prop;
  GetWorld_key : ∀ s w x, wf s → GetWorld s w = Ok x → world_ID x = w;
  GetUser_key : ∀ s u x, wf s → GetUser s u = Ok x → user_ID x = u;
  GetUserByUsername_key : ∀ s n x, wf s → GetUserByUsername s n = Ok x →
    user_Username x = n ∧ GetUser s (user_ID x) = Ok x;
  GetUserByUsername_found : ∀ s u x, wf s → GetUser s u = Ok x →
    GetUserByUsername s (user_Username x) = Ok x;
  GetMember_key : ∀ s w u m, wf s → GetMember s w u = Ok m →
    member_WorldID m = w ∧ member_UserID m = u;
  ListMembers_of : ∀ s w ms, wf s → ListMembers s w = Ok ms →
    NoDup (member_UserID <$> ms) ∧
    ∀ m, m ∈ ms ↔ GetMember s w (member_UserID m) = Ok m;
  GetDocument_key : ∀ s w i d, wf s → GetDocument s w i = Ok d → doc_WorldID d = w ∧ doc_ID d = i;
  ListDocuments_of : ∀ s w f ds, wf s → ListDocuments s w f = Ok ds →
    Forall (λ d, matchesFilter w f d ∧ GetDocument s w (doc_ID d) = Ok d) ds;
  EventsSince_of : ∀ s w q n es, wf s → EventsSince s w q n = Ok es →
    Forall (λ e, event_WorldID e = w ∧ q < event_Seq e) es ∧
    StronglySorted Z.lt (event_Seq <$> es)
}.

(** What they rely on of the writes: a successful write keeps the store
    well formed, and reads what it wrote. *)
Class TxLaws (S : Type) `{!Tx S} `{!QueryLaws S} := {
  PutWorld_wf : ∀ now w s x s', wf s →
    is_Ok (GetWorld s (world_ID w)) ∨ world_EventSeq w = 0 →
    PutWorld now w s = (Ok x, s') → wf s';
  PutUser_wf : ∀ now u s x s', wf s → PutUser now u s = (Ok x, s') →
    wf s' ∧
    (∃ y, GetUser s' (user_ID u) = Ok y ∧ user_Username y = user_Username u ∧
          user_PasswordHash y = user_PasswordHash u ∧ user_IsAdmin y = user_IsAdmin u ∧
          user_DisabledAt y = user_DisabledAt u) ∧
    (∀ i, i ≠ user_ID u → GetUser s' i = GetUser s i) ∧
    (∀ h, GetUserSession s' h = GetUserSession s h);
  PutUserSession_wf : ∀ now x s y s', wf s → PutUserSession now x s = (Ok y, s') →
    wf s' ∧ (∀ i, GetUser s' i = GetUser s i) ∧
    (∀ h, h ≠ session_TokenHash x → GetUserSession s' h = GetUserSession s h) ∧
    (GetUserSession s (session_TokenHash x) = Err ErrNotFound →
     ∃ r, GetUserSession s' (session_TokenHash x) = Ok r ∧
          session_UserID r = session_UserID x ∧ session_ExpiresAt r = session_ExpiresAt x);
  DeleteUserSession_wf : ∀ h s u s', wf s → DeleteUserSession h s = (Ok u, s') →
    wf s' ∧ (∀ i, GetUser s' i = GetUser s i) ∧ GetUserSession s' h = Err ErrNotFound ∧
    (∀ h', h' ≠ h → GetUserSession s' h' = GetUserSession s h');
  DeleteUserSessionsOf_wf : ∀ u s x s', wf s → DeleteUserSessionsOf u s = (Ok x, s') →
    wf s' ∧ (∀ i, GetUser s' i = GetUser s i) ∧
    (∀ h r, GetUserSession s h = Ok r →
       GetUserSession s' h = if decide (session_UserID r = u) then Err ErrNotFound else Ok r);
  PutMember_wf : ∀ now m s x s', wf s → PutMember now m s = (Ok x, s') →
    wf s' ∧ (∃ m', GetMember s' (member_WorldID m) (member_UserID m) = Ok m' ∧
                   member_Role m' = member_Role m) ∧
    (∀ w u, (w, u) ≠ (member_WorldID m, member_UserID m) → GetMember s' w u = GetMember s w u);
  DeleteMember_wf : ∀ w u s x s', wf s → DeleteMember w u s = (Ok x, s') → wf s';
  PutInvite_wf : ∀ now i s x s', wf s → PutInvite now i s = (Ok x, s') → wf s';
  ConsumeInvite_wf : ∀ w i s x s', wf s → ConsumeInvite w i s = (Ok x, s') → wf s';
  RevokeInvite_wf : ∀ now w i s x s', wf s → RevokeInvite now w i s = (Ok x, s') → wf s';
  PutDocument_wf : ∀ now d s x s', wf s → PutDocument now d s = (Ok x, s') →
    wf s' ∧
    (∃ row, GetDocument s' (doc_WorldID d) (doc_ID d) = Ok row ∧ doc_Kind row = doc_Kind d ∧
            doc_ParentID row = doc_ParentID d ∧ doc_UpdatedSeq row = doc_UpdatedSeq d ∧
            ∀ j, doc_Data d = Raw j → doc_Data row = Raw j) ∧
    (∀ w i, (w, i) ≠ (doc_WorldID d, doc_ID d) → GetDocument s' w i = GetDocument s w i) ∧
    (∀ w u, GetMember s' w u = GetMember s w u) ∧ (∀ w, GetWorld s' w = GetWorld s w);
  PatchDocument_wf : ∀ now w i p s d s', wf s → PatchDocument now w i p s = (Ok d, s') →
    wf s' ∧ GetDocument s' w i = Ok d;
  DeleteDocument_wf : ∀ now w i m s x s', wf s → DeleteDocument now w i m s = (Ok x, s') → wf s';
  AppendEvent_wf : ∀ now e s q s', wf s → AppendEvent now e s = (Ok q, s') →
    wf s' ∧
    (∃ w, GetWorld s (event_WorldID e) = Ok w ∧ q = world_EventSeq w + 1) ∧
    (∃ w, GetWorld s' (event_WorldID e) = Ok w ∧ world_EventSeq w = q) ∧
    (∀ w i, GetDocument s' w i = GetDocument s w i) ∧
    (∀ w u, GetMember s' w u = GetMember s w u);
  PutAsset_wf : ∀ now a s x s', wf s → PutAsset now a s = (Ok x, s') → wf s';
  DeleteAsset_wf : ∀ w i s x s', wf s → DeleteAsset w i s = (Ok x, s') → wf s';
  TouchUserSession_wf : ∀ h at_ s x s', wf s → TouchUserSession h at_ s = (Ok x, s') → wf s'
}.

(** An invite after one more use. *)
Definition usedOnce (i : Invite) : Invite :=
  MkInvite (invite_ID i) (invite_TokenHash i) (invite_WorldID i) (invite_Role i) (invite_CreatedBy i)
    (invite_CreatedAt i) (invite_ExpiresAt i) (invite_MaxUses i) (invite_Uses i + 1) (invite_RevokedAt i).

(** What the endpoints for members and invites rely on beyond that: which
    writes leave memberships and invites alone, and what the others do to
    them. *)
Class AdmissionLaws (S : Type) `{!Tx S} `{!QueryLaws S} := {
  PutWorld_members : ∀ now x s y s', PutWorld now x s = (Ok y, s') →
    world_ID y = world_ID x ∧ ∀ w u, GetMember s' w u = GetMember s w u;
  PutUser_admission : ∀ now x s y s', PutUser now x s = (Ok y, s') →
    user_ID y = user_ID x ∧
    (∀ w u, GetMember s' w u = GetMember s w u) ∧
    (∀ h, GetInviteByTokenHash s' h = GetInviteByTokenHash s h);
  PutUserSession_admission : ∀ now x s y s', PutUserSession now x s = (Ok y, s') →
    (∀ w u, GetMember s' w u = GetMember s w u) ∧
    (∀ h, GetInviteByTokenHash s' h = GetInviteByTokenHash s h);
  PutMember_invites : ∀ now x s y s', PutMember now x s = (Ok y, s') →
    ∀ h, GetInviteByTokenHash s' h = GetInviteByTokenHash s h;
  DeleteMember_members : ∀ w u s y s', DeleteMember w u s = (Ok y, s') →
    GetMember s' w u = Err ErrNotFound ∧
    (∀ w' u', (w', u') ≠ (w, u) → GetMember s' w' u' = GetMember s w' u');
  PutInvite_members : ∀ now x s y s', PutInvite now x s = (Ok y, s') →
    ∀ w u, GetMember s' w u = GetMember s w u;
  RevokeInvite_members : ∀ now w i s y s', RevokeInvite now w i s = (Ok y, s') →
    ∀ w u, GetMember s' w u = GetMember s w u;
  ConsumeInvite_admission : ∀ w id s y s', wf s → ConsumeInvite w id s = (Ok y, s') →
    (∀ w u, GetMember s' w u = GetMember s w u) ∧
    (∀ h i, GetInviteByTokenHash s h = Ok i →
       GetInviteByTokenHash s' h = Ok (if decide (invite_ID i = id) then usedOnce i else i)) ∧
    (∀ h i, GetInviteByTokenHash s h = Ok i → invite_ID i = id →
       invite_RevokedAt i = None ∧ (invite_MaxUses i = 0 ∨ invite_Uses i < invite_MaxUses i));
  ListWorlds_slugs : ∀ s ws w x, wf s → ListWorlds s = Ok ws → GetWorld s w = Ok x → x ∈ ws;
  PutWorld_fresh : ∀ now x s y s', wf s → GetWorld s (world_ID x) = Err ErrNotFound →
    PutWorld now x s = (Ok y, s') →
    ∃ row, GetWorld s' (world_ID x) = Ok row ∧ world_Slug row = world_Slug x ∧ world_Title row = world_Title x
}.

(** What a stored row keeps of the document that was put: every column the
    caller gives, and each payload that is a JSON text. *)
Definition keepsDocument (d row : Document) : Prop :=
  doc_WorldID row = doc_WorldID d ∧ doc_ID row = doc_ID d ∧ doc_Kind row = doc_Kind d ∧
  doc_Subtype row = doc_Subtype d ∧ doc_ParentID row = doc_ParentID d ∧ doc_FolderID row = doc_FolderID d ∧
  doc_Name row = doc_Name d ∧ doc_Img row = doc_Img d ∧ doc_DeletedAt row = doc_DeletedAt d ∧
  doc_UpdatedSeq row = doc_UpdatedSeq d ∧
  (∀ j, doc_Data d = Raw j → doc_Data row = Raw j) ∧
  (∀ j, doc_Ownership d = Raw j → doc_Ownership row = Raw j).

(** What the endpoints for scenes rely on of documents: what a put document
    reads back as, what it returns to the caller, and that a listing is complete
    as long as it stays below the store's own limit. *)
Class DocumentLaws (S : Type) `{!Tx S} `{!QueryLaws S} := {
  list_limit : Z;
  PutDocument_stored : ∀ now d s x s', wf s → PutDocument now d s = (Ok x, s') →
    wf s' ∧ keepsDocument d x ∧
    (∃ row, GetDocument s' (doc_WorldID d) (doc_ID d) = Ok row ∧ keepsDocument d row) ∧
    (∀ w i, (w, i) ≠ (doc_WorldID d, doc_ID d) → GetDocument s' w i = GetDocument s w i) ∧
    (∀ w u, GetMember s' w u = GetMember s w u) ∧ (∀ w, GetWorld s' w = GetWorld s w);
  ListDocuments_complete : ∀ s w f ds d, wf s → ListDocuments s w f = Ok ds → filter_Limit f = 0 →
    Z.of_nat (length ds) < list_limit → GetDocument s w (doc_ID d) = Ok d → matchesFilter w f d → d ∈ ds
}.

Definition keepsAsset (a row : Asset) : Prop :=
  asset_ID row = asset_ID a ∧ asset_WorldID row = asset_WorldID a ∧ asset_SHA256 row = asset_SHA256 a ∧
  asset_Mime row = asset_Mime a ∧ asset_Bytes row = asset_Bytes a ∧ asset_Width row = asset_Width a ∧
  asset_Height row = asset_Height a ∧ (∀ j, asset_Variants a = Raw j → asset_Variants row = Raw j).

(** What the asset endpoints rely on. *)
Class AssetLaws (S : Type) `{!Tx S} `{!QueryLaws S} := {
  GetAsset_key : ∀ s w i a, wf s → GetAsset s w i = Ok a → asset_ID a = i ∧ asset_WorldID a = w;
  GetAssetBySHA256_key : ∀ s w h a, wf s → GetAssetBySHA256 s w h = Ok a →
    asset_SHA256 a = h ∧ GetAsset s w (asset_ID a) = Ok a;
  GetAssetBySHA256_found : ∀ s w i a, wf s → GetAsset s w i = Ok a →
    GetAssetBySHA256 s w (asset_SHA256 a) = Ok a;
  PutAsset_fresh : ∀ now a s x s', wf s → (∀ w, GetAsset s w (asset_ID a) = Err ErrNotFound) →
    PutAsset now a s = (Ok x, s') →
    wf s' ∧ keepsAsset a x ∧
    (∃ row, GetAsset s' (asset_WorldID a) (asset_ID a) = Ok row ∧ keepsAsset a row) ∧
    (∀ w, w ≠ asset_WorldID a → GetAsset s' w (asset_ID a) = Err ErrNotFound) ∧
    (∀ w i, i ≠ asset_ID a → GetAsset s' w i = GetAsset s w i) ∧
    (∀ w u, GetMember s' w u = GetMember s w u) ∧
    (∀ n, SumAssetBytes s (asset_WorldID a) = Ok n →
       SumAssetBytes s' (asset_WorldID a) = Ok (n + asset_Bytes a)) ∧
    (∀ w, w ≠ asset_WorldID a → SumAssetBytes s' w = SumAssetBytes s w)
}.

(** [Store.Tx]: the function runs on the store; an error rolls every change
    back. *)
Definition runTx {S A} (fn : M S A) : M S A := λ s,
  match fn s with
  | (Ok a, s') => (Ok a, s')
  | (Err e, _) => (Err e, s)
  end.

Lemma runTx_Err {S A} (fn : M S A) s e s' : runTx fn s = (Err e, s') → s' = s.
Proof. unfold runTx. destruct (fn s) as [[a|e'] s1]; naive_solver. Qed.

Lemma runTx_Ok {S A} (fn : M S A) s a s' : runTx fn s = (Ok a, s') ↔ fn s = (Ok a, s').
Proof. unfold runTx. destruct (fn s) as [[a'|e'] s1]; naive_solver. Qed.
