(* ===== verification/Torn.v ===== *)
(** * Reads outside a transaction (internal/storage/sqlstore/sqlstore.go)

    [Store.Tx] gives a function the store of one transaction.  [Store.ReadOnly]
    gives it the database itself, so every query of the function is a statement of
    its own, and what others commit between two of them shows.  A read of this
    kind is answered by a family of stores, one for each query; a function written
    against [Query] is evaluated on the family as on a store, and what it answers
    may be true of no single store.

    Two queries that ask the very same are answered alike. *)

From S2P Require Import Prelude GoStrings Json Perm Storage.

(** The queries of [storage.Query], with their arguments. *)
Inductive readCall :=
  | ReadWorld (w : ID)
  | ReadUser (u : ID)
  | ReadUserByUsername (name : string)
  | ReadCountUsers
  | ReadUserSession (tokenHash : string)
  | ReadMember (w u : ID)
  | ReadMembers (w : ID)
  | ReadWorlds
  | ReadWorldsForUser (u : ID)
  | ReadInviteByTokenHash (tokenHash : string)
  | ReadInvites (w : ID)
  | ReadDocument (w i : ID)
  | ReadDocuments (w : ID) (f : DocumentFilter)
  | ReadEventsSince (w : ID) (seq limit : Z)
  | ReadAsset (w i : ID)
  | ReadAssetBySHA256 (w : ID) (sha : string)
  | ReadAssets (w : ID) (limit : Z)
  | ReadSumAssetBytes (w : ID).

(** The store each query finds. *)
Definition reads (S : Type) : Type := readCall → S.

#[export] Instance reads_query {S} `{Query S} : Query (reads S) | 1000 := {|
  GetWorld v w := GetWorld (v (ReadWorld w)) w;
  GetUser v u := GetUser (v (ReadUser u)) u;
  GetUserByUsername v n := GetUserByUsername (v (ReadUserByUsername n)) n;
  CountUsers v := CountUsers (v ReadCountUsers);
  GetUserSession v h := GetUserSession (v (ReadUserSession h)) h;
  GetMember v w u := GetMember (v (ReadMember w u)) w u;
  ListMembers v w := ListMembers (v (ReadMembers w)) w;
  ListWorlds v := ListWorlds (v ReadWorlds);
  ListWorldsForUser v u := ListWorldsForUser (v (ReadWorldsForUser u)) u;
  GetInviteByTokenHash v h := GetInviteByTokenHash (v (ReadInviteByTokenHash h)) h;
  ListInvites v w := ListInvites (v (ReadInvites w)) w;
  GetDocument v w i := GetDocument (v (ReadDocument w i)) w i;
  ListDocuments v w f := ListDocuments (v (ReadDocuments w f)) w f;
  EventsSince v w q n := EventsSince (v (ReadEventsSince w q n)) w q n;
  GetAsset v w i := GetAsset (v (ReadAsset w i)) w i;
  GetAssetBySHA256 v w h := GetAssetBySHA256 (v (ReadAssetBySHA256 w h)) w h;
  ListAssets v w n := ListAssets (v (ReadAssets w n)) w n;
  SumAssetBytes v w := SumAssetBytes (v (ReadSumAssetBytes w)) w
|}.

(** Nothing is committed between the queries. *)
Definition steady {S} (s : S) : reads S := λ _, s.

(** Every query finds a store of the list. *)
Definition drawnFrom {S} (stores : list S) (v : reads S) : Prop := ∀ c, v c ∈ stores.

Lemma drawnFrom_steady {S} (s : S) stores : s ∈ stores → drawnFrom stores (steady s).
Proof. intros Hs c. exact Hs. Qed.

Lemma drawnFrom_mono {S} (l k : list S) v : l ⊆ k → drawnFrom l v → drawnFrom k v.
Proof. intros Hl Hv c. apply Hl, Hv. Qed.
