(* ===== verification/Redact.v ===== *)
(** * Field-level redaction (internal/core/perm/redact.go)

    Field policies, the projection of a document for one subject, and the two
    listings of paths.  A decoded object is a member list in key order; the
    loops of the source range over a Go map in no fixed order and build a map,
    so the key order chosen here shows in no result but the order of the path
    listings, about which only membership is stated. *)

From S2P Require Import Prelude GoStrings Json Perm Storage.

Local Open Scope Z_scope.

(** ** Policies *)

(** [type FieldPolicy interface]: kind, subtype and path to a visibility. *)
Definition FieldPolicy := string → string → string → Visibility.

Abbreviation rules := (gmap string (gmap string Visibility)).

Definition NewStaticPolicy : rules := ∅.

Definition PolicySet (p : rules) (kind subtype path : string) (v : Visibility) : rules :=
  let key := kind +:+ "/" +:+ subtype in
  <[key := <[path := v]> (default ∅ (p !! key))]> p.

Definition StaticVisibilityOf (p : rules) : FieldPolicy := λ kind subtype path,
  match p !! (kind +:+ "/" +:+ subtype) ≫= (.!! path) with
  | Some v => v
  | None =>
      match p !! (kind +:+ "/") ≫= (.!! path) with
      | Some v => v
      | None => VisibilityPublic
      end
  end.

Definition OpenPolicy : FieldPolicy := λ _ _ _, VisibilityPublic.

(** ** Pruning *)

(** The dotted path of a member below [prefix]. *)
Definition childPath (prefix key : string) : string :=
  if bool_decide (prefix = "") then key else prefix +:+ "." +:+ key.

Fixpoint pruneValue (visible : string → bool) (prefix : string) (value : json) : json :=
  match value with
  | JObj source =>
      JObj (omap (λ kv, let path := childPath prefix kv.1 in
                        if visible path then Some (kv.1, pruneValue visible path kv.2)
                        else None) source)
  | _ => value
  end.

Definition fieldVisible (kind subtype : string) (grant : Grant) (policy : FieldPolicy)
    (path : string) : bool := Allows grant (policy kind subtype path).

Definition pruneObject (source : list (string * json)) (kind subtype prefix : string)
    (grant : Grant) (policy : FieldPolicy) : list (string * json) :=
  let visible := fieldVisible kind subtype grant policy in
  omap (λ kv, let path := childPath prefix kv.1 in
              if visible path then Some (kv.1, pruneValue visible path kv.2) else None) source.

Definition emptyObject : raw := Raw (JObj []).

Definition RedactPayload (r : raw) (kind subtype prefix : string)
    (grant : Grant) (policy : FieldPolicy) : res raw :=
  match r with
  | RawEmpty => Ok emptyObject
  | _ =>
      decoded ← UnmarshalObject r;
      Ok (MarshalObject (pruneObject decoded kind subtype prefix grant policy))
  end.

Definition ownershipFor (subject : Subject) (grant : Grant) (r : raw) : raw :=
  if IsStaff (grant_Role grant) then
    match r with RawEmpty => emptyObject | _ => r end
  else
    match ParseACL r with
    | Err _ => emptyObject
    | Ok acl =>
        let own : gmap string string :=
          match acl !! subject_UserID subject with
          | Some level => {[subject_UserID subject := LevelString level]}
          | None => ∅
          end in
        MarshalStringMap own
    end.

(** The document a subject receives, [None] when it receives nothing. *)
Definition RedactDocument (doc : Document) (subject : Subject) (grant : Grant)
    (policy : FieldPolicy) : res (option Document) :=
  if negb (CanRead grant) then Ok None
  else
    let visible data flags :=
      {| doc_WorldID := doc_WorldID doc; doc_ID := doc_ID doc; doc_Kind := doc_Kind doc;
         doc_Subtype := doc_Subtype doc; doc_ParentID := doc_ParentID doc;
         doc_FolderID := doc_FolderID doc; doc_Name := doc_Name doc; doc_Sort := doc_Sort doc;
         doc_Img := doc_Img doc; doc_Data := data; doc_Flags := flags;
         doc_Ownership := ownershipFor subject grant (doc_Ownership doc);
         doc_SourcePack := doc_SourcePack doc; doc_SchemaVersion := doc_SchemaVersion doc;
         doc_CreatedAt := doc_CreatedAt doc; doc_UpdatedAt := doc_UpdatedAt doc;
         doc_UpdatedSeq := doc_UpdatedSeq doc; doc_DeletedAt := doc_DeletedAt doc |} in
    if bool_decide (grant_Level grant = LevelLimited) then
      Ok (Some (visible emptyObject emptyObject))
    else
      data ← RedactPayload (doc_Data doc) (doc_Kind doc) (doc_Subtype doc) "" grant policy;
      if level_leb LevelObserver (grant_Level grant) then
        flags ← RedactPayload (doc_Flags doc) (doc_Kind doc) (doc_Subtype doc) "flags" grant policy;
        Ok (Some (visible data flags))
      else Ok (Some (visible data emptyObject)).

(** ** Path listings *)

Fixpoint hiddenIn (visible : string → bool) (prefix : string) (value : json) : list string :=
  match value with
  | JObj source =>
      source ≫= λ kv, let path := childPath prefix kv.1 in
                      if visible path then hiddenIn visible path kv.2 else [path]
  | _ => []
  end.

Definition collectHidden (source : list (string * json)) (kind subtype prefix : string)
    (grant : Grant) (policy : FieldPolicy) : list string :=
  hiddenIn (fieldVisible kind subtype grant policy) prefix (JObj source).

Definition HiddenPaths (r : raw) (kind subtype : string) (grant : Grant)
    (policy : FieldPolicy) : list string :=
  match r with
  | RawEmpty => []
  | _ => match UnmarshalObject r with
         | Err _ => []
         | Ok decoded => collectHidden decoded kind subtype "" grant policy
         end
  end.

Fixpoint pathsIn (prefix : string) (value : json) : list string :=
  match value with
  | JObj source => source ≫= λ kv, let path := childPath prefix kv.1 in path :: pathsIn path kv.2
  | _ => []
  end.

Definition PathsOf (r : raw) : list string :=
  match UnmarshalObject r with
  | Err _ => []
  | Ok decoded => pathsIn "" (JObj decoded)
  end.

Definition JoinPath (segments : list string) : string := Join "." segments.

(** ** Reading a payload by path *)

Fixpoint getPath (j : json) (ks : list string) : option json :=
  match ks with
  | [] => Some j
  | k :: ks => match j with JObj m => v ← objGet k m; getPath v ks | _ => None end
  end.

(** What a reader of the payload finds below the given keys. *)
Definition payloadAt (r : raw) (ks : list string) : option json :=
  match UnmarshalObject r with Ok m => getPath (JObj m) ks | Err _ => None end.

Fixpoint fullPath (prefix : string) (ks : list string) : string :=
  match ks with [] => prefix | k :: ks => fullPath (childPath prefix k) ks end.

(** Every member on the way is visible. *)
Fixpoint trail (visible : string → bool) (prefix : string) (ks : list string) : bool :=
  match ks with
  | [] => true
  | k :: ks => visible (childPath prefix k) && trail visible (childPath prefix k) ks
  end.

(** ** Pruning, path by path *)

Lemma objGet_omap (visible : string → bool) prefix k m :
  objGet k (omap (λ kv, let path := childPath prefix kv.1 in
                        if visible path then Some (kv.1, pruneValue visible path kv.2)
                        else None) m) =
  if visible (childPath prefix k)
  then pruneValue visible (childPath prefix k) <$> objGet k m else None.
Proof.
  induction m as [|[k1 v1] m IH]; cbn; [by destruct (visible (childPath prefix k))|].
  cbn in IH. destruct (visible (childPath prefix k1)) eqn:E1; cbn; rewrite ?IH;
    repeat case_bool_decide; subst; rewrite ?E1; done.
Qed.

Lemma getPath_prune visible prefix j ks :
  getPath (pruneValue visible prefix j) ks =
  if trail visible prefix ks
  then pruneValue visible (fullPath prefix ks) <$> getPath j ks else None.
Proof.
  revert j prefix; induction ks as [|k ks IH]; intros j prefix; [done|]. cbn.
  destruct j as [| | | | |m]; cbn; try by repeat case_match.
  rewrite objGet_omap. destruct (visible (childPath prefix k)); cbn; [|done].
  destruct (objGet k m) as [v|]; cbn; [apply IH|by case_match].
Qed.

Lemma omap_sorted (visible : string → bool) prefix m :
  StronglySorted keyLt m →
  StronglySorted keyLt (omap (λ kv, let path := childPath prefix kv.1 in
                        if visible path then Some (kv.1, pruneValue visible path kv.2)
                        else None) m).
Proof.
  induction 1 as [|[k v] m Hs IH Hall]; cbn; [constructor|].
  destruct (visible (childPath prefix k)); [|done]. constructor; [done|].
  apply Forall_forall. intros [k1 v1] ([k2 v2] & Hin & Heq)%list_elem_of_omap.
  cbn in Heq. destruct (visible (childPath prefix k2)); [|done]. injection Heq as <- <-.
  rewrite Forall_forall in Hall. apply (Hall (k2, v2) Hin).
Qed.

Lemma prune_canon visible prefix j : isCanon j → isCanon (pruneValue visible prefix j).
Proof.
  revert prefix; induction j as [| | | | |m IH] using json_nested_ind; intros prefix; try done.
  intros [Hs Hall]%isCanon_obj. cbn [pruneValue]. apply isCanon_obj. split.
  - by apply omap_sorted.
  - apply Forall_forall. intros [k1 v1] ([k2 v2] & Hin & Heq)%list_elem_of_omap.
    cbn in Heq. destruct (visible (childPath prefix k2)); [|done]. injection Heq as <- <-. cbn.
    rewrite Forall_forall in IH, Hall. apply (IH _ Hin). by apply (Hall (k2, v2)).
Qed.

Lemma prune_decodable visible prefix j :
  decodable j = true → decodable (pruneValue visible prefix j) = true.
Proof.
  revert prefix; induction j as [| | | | |m IH] using json_nested_ind; intros prefix; try done.
  rewrite decodable_obj. intros Hall. cbn [pruneValue]. apply decodable_obj, Forall_forall.
  intros [k1 v1] ([k2 v2] & Hin & Heq)%list_elem_of_omap.
  cbn in Heq. destruct (visible (childPath prefix k2)); [|done]. injection Heq as <- <-. cbn.
  rewrite Forall_forall in IH, Hall. apply (IH _ Hin). by apply (Hall (k2, v2)).
Qed.

Lemma pruneObject_decoded m kind subtype prefix grant policy :
  decodedObj m → decodedObj (pruneObject m kind subtype prefix grant policy).
Proof.
  intros [Hc Hd]. split.
  - apply (prune_canon _ prefix (JObj m) Hc).
  - apply (prune_decodable _ prefix (JObj m) Hd).
Qed.

Lemma RedactPayload_Ok r kind subtype prefix grant policy out :
  RedactPayload r kind subtype prefix grant policy = Ok out →
  ∃ m, decodedObj m ∧ (r = RawEmpty ∧ m = [] ∨ UnmarshalObject r = Ok m) ∧
       out = MarshalObject (pruneObject m kind subtype prefix grant policy).
Proof.
  destruct r as [| |j]; cbn [RedactPayload].
  - intros [= <-]. exists []. split; [by split|]. split; [by left|done].
  - done.
  - intros (m & Hm & [= <-])%bind_Ok. exists m.
    split; [by eapply UnmarshalObject_decoded|]. split; [by right|done].
Qed.

Lemma payloadAt_pruned m kind subtype prefix grant policy ks :
  decodedObj m →
  payloadAt (MarshalObject (pruneObject m kind subtype prefix grant policy)) ks =
  if trail (fieldVisible kind subtype grant policy) prefix ks
  then pruneValue (fieldVisible kind subtype grant policy) (fullPath prefix ks)
         <$> getPath (JObj m) ks
  else None.
Proof.
  intros Hm. unfold payloadAt.
  rewrite UnmarshalObject_Marshal by (by apply pruneObject_decoded).
  apply (getPath_prune (fieldVisible kind subtype grant policy) prefix (JObj m)).
Qed.

Lemma RedactPayload_paths r kind subtype prefix grant policy out ks :
  RedactPayload r kind subtype prefix grant policy = Ok out → ks ≠ [] →
  payloadAt out ks =
  if trail (fieldVisible kind subtype grant policy) prefix ks
  then pruneValue (fieldVisible kind subtype grant policy) (fullPath prefix ks)
         <$> payloadAt r ks
  else None.
Proof.
  intros (m & Hm & Hr & ->)%RedactPayload_Ok Hks.
  rewrite payloadAt_pruned by done. case_match; [|done]. f_equal.
  destruct Hr as [[-> ->]|Hr]; [by destruct ks|]. unfold payloadAt. by rewrite Hr.
Qed.

(** Staff lose nothing. *)
Lemma prune_all visible prefix j : (∀ p, visible p = true) → pruneValue visible prefix j = j.
Proof.
  intros Hv. revert prefix; induction j as [| | | | |m IH] using json_nested_ind;
    intros prefix; try done.
  cbn. f_equal. induction IH as [|[k v] m Hk Hm IHm]; cbn; [done|].
  rewrite Hv. cbn in Hk. by rewrite Hk, IHm.
Qed.

Lemma staff_Allows g v : IsStaff (grant_Role g) = true → Allows g v = true.
Proof. intros H. unfold Allows. rewrite H. by case_bool_decide. Qed.

(** ** Hidden paths *)

Lemma sorted_objGet m k v : StronglySorted keyLt m → (k, v) ∈ m ↔ objGet k m = Some v.
Proof.
  intros Hs. split; [|apply objGet_Some_elem].
  apply objGet_elem. by apply sorted_keys_NoDup.
Qed.

Lemma hiddenIn_spec visible prefix j p :
  isCanon j →
  p ∈ hiddenIn visible prefix j ↔
  ∃ ks k, p = fullPath prefix (ks ++ [k]) ∧ is_Some (getPath j (ks ++ [k])) ∧
          trail visible prefix ks = true ∧ visible p = false.
Proof.
  revert prefix; induction j as [| | | | |m IH] using json_nested_ind; intros prefix Hc;
    try (split; [by intros ?%elem_of_nil|by intros ([|] & ? & ? & [? ?] & ?)]).
  apply isCanon_obj in Hc as [Hs Hall]. cbn [hiddenIn]. rewrite list_elem_of_bind.
  rewrite Forall_forall in IH, Hall. split.
  - intros ([k1 v1] & Hp & Hin). cbn in Hp. pose proof Hin as Hget.
    apply (sorted_objGet m k1 v1 Hs) in Hget.
    destruct (visible (childPath prefix k1)) eqn:E.
    + apply (IH _ Hin) in Hp as (ks & k & -> & Hg & Ht & Hv); [|by apply (Hall (k1, v1))].
      exists (k1 :: ks), k. cbn. rewrite Hget, E. done.
    + apply list_elem_of_singleton in Hp as ->. exists [], k1. cbn. rewrite Hget. by split_and!.
  - intros (ks & k & -> & [x Hx] & Ht & Hv). destruct ks as [|k1 ks]; cbn in *.
    + destruct (objGet k m) as [v|] eqn:Hg; [|done]. exists (k, v). cbn.
      rewrite Hv. split; [by apply list_elem_of_singleton|by apply objGet_Some_elem].
    + destruct (objGet k1 m) as [v1|] eqn:Hg; [|done]. apply andb_prop in Ht as [E Ht].
      apply objGet_Some_elem in Hg. exists (k1, v1). cbn. rewrite E. split; [|done].
      apply (IH _ Hg); [by apply (Hall (k1, v1))|]. exists ks, k. by split_and!.
Qed.

Lemma fullPath_snoc prefix ks k : fullPath prefix (ks ++ [k]) = childPath (fullPath prefix ks) k.
Proof. revert prefix; induction ks as [|k1 ks IH]; intros prefix; [done|]. apply IH. Qed.

Lemma trail_snoc visible prefix ks k :
  trail visible prefix (ks ++ [k]) = trail visible prefix ks && visible (fullPath prefix (ks ++ [k])).
Proof.
  revert prefix; induction ks as [|k1 ks IH]; intros prefix; cbn; [by rewrite andb_true_r|].
  by rewrite IH, andb_assoc.
Qed.

Lemma getPath_prefix j ks k : is_Some (getPath j (ks ++ [k])) → is_Some (getPath j ks).
Proof.
  revert j; induction ks as [|k1 ks IH]; intros j; [by eexists|].
  cbn. destruct j; try by intros [].
  destruct (objGet k1 fs); cbn; [apply IH|by intros []].
Qed.

(** ** Theorems *)

(** C11: what a recipient reads below any list of member names in a redacted
    payload is determined: if every member on the way is visible under the
    policy at its dotted path, it is the original value (pruned below that
    point), and otherwise nothing at all is there, as if the member had never
    existed. *)
Theorem RedactPayload_exact : ∀ r kind subtype prefix grant policy out ks,
  RedactPayload r kind subtype prefix grant policy = Ok out → ks ≠ [] →
  payloadAt out ks =
  (if trail (fieldVisible kind subtype grant policy) prefix ks
   then pruneValue (fieldVisible kind subtype grant policy) (fullPath prefix ks)
          <$> payloadAt r ks
   else None).
Proof. intros. by apply RedactPayload_paths. Qed.

(** [HiddenPaths] lists exactly the members redaction removes, each at its
    topmost point: a path is listed iff the payload has that member, its parent
    survives redaction, and the member does not. *)
Theorem HiddenPaths_exact : ∀ r kind subtype grant policy out p,
  RedactPayload r kind subtype "" grant policy = Ok out →
  p ∈ HiddenPaths r kind subtype grant policy ↔
  ∃ ks k, p = fullPath "" (ks ++ [k]) ∧ is_Some (payloadAt r (ks ++ [k])) ∧
          is_Some (payloadAt out ks) ∧ payloadAt out (ks ++ [k]) = None.
Proof.
  intros r kind subtype grant policy out p Hred.
  pose proof Hred as (m & Hm & Hr & ->)%RedactPayload_Ok.
  destruct Hr as [[-> ->]|Hr].
  { split; [by intros ?%elem_of_nil|]. intros (ks & k & _ & [? Hx] & _). by destruct ks. }
  assert (HiddenPaths r kind subtype grant policy =
          hiddenIn (fieldVisible kind subtype grant policy) "" (JObj m)) as ->.
  { unfold HiddenPaths. destruct r; [done|..]; by rewrite Hr. }
  rewrite hiddenIn_spec by apply Hm.
  assert (∀ ks, payloadAt r ks = getPath (JObj m) ks) as Hat
    by (intros; unfold payloadAt; by rewrite Hr).
  split; intros (ks & k & -> & Hx & H1 & H2); exists ks, k;
    rewrite Hat, !payloadAt_pruned, trail_snoc in *; try done; split_and!; try done.
  - rewrite H1. apply fmap_is_Some. by eapply getPath_prefix.
  - by rewrite H2, andb_false_r.
  - destruct (trail _ _ ks); [done|]. by destruct H1.
  - destruct (trail _ _ ks); [|by destruct H1]. cbn in H2.
    destruct (fieldVisible _ _ _ _ _); [|done]. destruct Hx as [x Hx]. by rewrite Hx in H2.
Qed.

(** A recipient who is not staff learns at most their own ownership entry. *)
Lemma ownershipFor_own subject grant r k x :
  IsStaff (grant_Role grant) = false →
  payloadAt (ownershipFor subject grant r) [k] = Some x → k = subject_UserID subject.
Proof.
  intros Hns. unfold ownershipFor. rewrite Hns.
  destruct (ParseACL r) as [acl|e]; [|done].
  unfold payloadAt, MarshalStringMap. set (own := match _ with Some _ => _ | None => _ end).
  destruct (UnmarshalObject _) as [m|e] eqn:Em; [|done]. intros Hx.
  assert (objGet k m = JStr <$> own !! k) as Hg.
  { cbn in Em. destruct (forallb _ _); [|done]. injection Em as <-.
    replace ((λ kv : string * json, (kv.1, canonical kv.2)) <$>
             objOf ((λ kv, (kv.1, JStr kv.2)) <$> map_to_list own))
      with (objOf ((λ kv, (kv.1, JStr kv.2)) <$> map_to_list own)).
    - rewrite (objOf_id (objOf _)) by apply objOf_sorted. apply payloadAt_stringMap.
    - symmetry. apply fmap_id_on. intros kv Hin%objOf_elem.
      by apply list_elem_of_fmap in Hin as ([k1 s1] & -> & _). }
  cbn in Hx. rewrite Hg in Hx. unfold own in Hx.
  destruct (acl !! subject_UserID subject) as [l|]; [|by rewrite lookup_empty in Hx].
  destruct (decide (k = subject_UserID subject)) as [|Hne]; [done|].
  by rewrite lookup_singleton_ne in Hx by congruence.
Qed.

(** What a subject receives of a document whose JSON columns hold JSON is JSON. *)
Lemma RedactDocument_readable doc subject grant policy v :
  readable doc → RedactDocument doc subject grant policy = Ok (Some v) → readable v.
Proof.
  intros (_ & _ & Ho). unfold RedactDocument. destruct (CanRead grant); cbn [negb]; [|done].
  assert (∀ r kind subtype prefix out, RedactPayload r kind subtype prefix grant policy = Ok out → out ≠ RawBad) as Hp.
  { intros r kind subtype prefix out Hr. unfold RedactPayload in Hr.
    destruct r; [by injection Hr as <-|..]; by apply bind_Ok in Hr as (m & _ & [= <-]). }
  assert (ownershipFor subject grant (doc_Ownership doc) ≠ RawBad) as Hown.
  { unfold ownershipFor. destruct (IsStaff _); [by destruct (doc_Ownership doc)|]. by destruct (ParseACL _). }
  case_bool_decide; [by intros [= <-]|]. intros (data & Hd & Hr)%bind_Ok. apply Hp in Hd.
  destruct (level_leb _ _); [|by injection Hr as <-].
  apply bind_Ok in Hr as (flags & Hf & [= <-]). by apply Hp in Hf.
Qed.

Lemma RedactDocument_Some doc subject grant policy v :
  RedactDocument doc subject grant policy = Ok (Some v) →
  CanRead grant = true ∧
  doc_ID v = doc_ID doc ∧ doc_WorldID v = doc_WorldID doc ∧ doc_Name v = doc_Name doc ∧
  doc_Ownership v = ownershipFor subject grant (doc_Ownership doc) ∧
  (if bool_decide (grant_Level grant = LevelLimited)
   then doc_Data v = emptyObject ∧ doc_Flags v = emptyObject
   else RedactPayload (doc_Data doc) (doc_Kind doc) (doc_Subtype doc) "" grant policy
          = Ok (doc_Data v) ∧
        RedactPayload (doc_Flags doc) (doc_Kind doc) (doc_Subtype doc) "flags" grant policy
          = Ok (doc_Flags v)).
Proof.
  unfold RedactDocument. destruct (CanRead grant) eqn:Hread; cbn; [|done].
  case_bool_decide as Hlim; [by intros [= <-]|].
  assert (level_leb LevelObserver (grant_Level grant) = true) as ->.
  { unfold CanRead in Hread. by destruct (grant_Level grant). }
  intros H. inv_ok. cbn. by split_and!.
Qed.

(** C12: the document a subject receives leaks no more than the policy allows.
    Nothing is sent to a subject without read access; with limited access the
    payloads are empty; otherwise a member of the data or the flags is readable
    only if every member on its path is visible under the policy; and a subject
    who is not staff sees no ownership entry but their own. *)
Theorem RedactDocument_confines : ∀ doc subject grant policy r,
  RedactDocument doc subject grant policy = Ok r →
  match r with
  | None => grant_Level grant = LevelNone
  | Some v =>
      grant_Level grant ≠ LevelNone ∧
      (∀ ks x, ks ≠ [] → payloadAt (doc_Data v) ks = Some x →
         grant_Level grant ≠ LevelLimited ∧
         trail (fieldVisible (doc_Kind doc) (doc_Subtype doc) grant policy) "" ks = true) ∧
      (∀ ks x, ks ≠ [] → payloadAt (doc_Flags v) ks = Some x →
         grant_Level grant ≠ LevelLimited ∧
         trail (fieldVisible (doc_Kind doc) (doc_Subtype doc) grant policy) "flags" ks = true) ∧
      (∀ k x, IsStaff (grant_Role grant) = false →
         payloadAt (doc_Ownership v) [k] = Some x → k = subject_UserID subject)
  end.
Proof.
  intros doc subject grant policy [v|] Hred.
  2:{ unfold RedactDocument, CanRead in Hred. destruct (grant_Level grant) eqn:El; [done|..];
      cbn in Hred; try (repeat case_bool_decide; inv_ok; done). }
  pose proof Hred as (Hread & _ & _ & _ & Hown & Hpay)%RedactDocument_Some.
  assert (∀ ks x, ks ≠ [] → payloadAt emptyObject ks = Some x → False) as Hemp
    by (intros [|] ? ?; done).
  split_and!.
  - unfold CanRead in Hread. by destruct (grant_Level grant).
  - intros ks x Hks Hx. case_bool_decide as El; destruct Hpay as [H1 H2].
    + rewrite H1 in Hx. by eapply Hemp in Hx.
    + split; [done|]. rewrite (RedactPayload_paths _ _ _ _ _ _ _ _ H1 Hks) in Hx. by case_match.
  - intros ks x Hks Hx. case_bool_decide as El; destruct Hpay as [H1 H2].
    + rewrite H2 in Hx. by eapply Hemp in Hx.
    + split; [done|]. rewrite (RedactPayload_paths _ _ _ _ _ _ _ _ H2 Hks) in Hx. by case_match.
  - intros k x Hns Hx. rewrite Hown in Hx. by eapply ownershipFor_own.
Qed.
