(* ===== verification/Access.v ===== *)
(** * Resolving access against the store (internal/core/access/access.go)

    The part of the permission model that reads its inputs from storage: the
    role of a member, the grant of a subject on a document, the projection of a
    document for every member of a world, and authorization.  Everything is
    stated over the [Query] port. *)

From S2P Require Import Prelude GoStrings Json Perm Storage Redact.

Local Open Scope Z_scope.

(** [worldSettings.DefaultOwnership], decoded: null resets the map, a repeated
    member merges into it, anything else is an error. *)
Definition defaultOwnership (r : raw) : res (gmap string string) :=
  match structFields r with
  | None => Err errDecode
  | Some fs =>
      foldM (λ acc v, match v with
                      | JNull => Ok ∅
                      | JObj es => m ← stringMap es; Ok (m ∪ acc)
                      | _ => Err errDecode
                      end) ∅ (fieldValues "defaultOwnership" fs)
  end.

(** [type Resolver struct]: the store is the argument of every method. *)
Definition NewResolver (policy : option FieldPolicy) : FieldPolicy := default OpenPolicy policy.

Record View := MkView {
  view_Subject : Subject;
  view_Grant : Grant;
  view_Document : Document
}.

Section Resolver.
Context {S : Type} `{Query S}.

Definition RoleOf (q : S) (worldID userID : ID) : res Role :=
  match GetMember q worldID userID with
  | Err e => if errors_Is e ErrNotFound then Err ErrNotFound else Err e
  | Ok member =>
      if Valid (member_Role member) then Ok (member_Role member)
      else Err (ErrOther "access: unknown role")
  end.

Definition worldDefault (q : S) (doc : Document) : res Level :=
  world ← GetWorld q (doc_WorldID doc);
  match world_Settings world with
  | RawEmpty => Ok LevelNone
  | settings =>
      match defaultOwnership settings with
      | Err _ => Ok LevelNone
      | Ok entries =>
          match entries !! (doc_Kind doc +:+ "/" +:+ doc_Subtype doc) with
          | Some level => ParseLevel level
          | None =>
              match entries !! doc_Kind doc with
              | Some level => ParseLevel level
              | None => Ok LevelNone
              end
          end
      end
  end.

Definition folderACL (q : S) (doc : Document) : res ACL :=
  if bool_decide (doc_FolderID doc = "") then Ok ∅
  else match GetDocument q (doc_WorldID doc) (doc_FolderID doc) with
       | Err e => if errors_Is e ErrNotFound then Ok ∅ else Err e
       | Ok folder => ParseACL (doc_Ownership folder)
       end.

Definition GrantOf (q : S) (subject : Subject) (doc : Document) : res Grant :=
  documentACL ← ParseACL (doc_Ownership doc);
  folder ← folderACL q doc;
  world ← worldDefault q doc;
  Ok (Effective subject (MkInputs documentACL folder world)).

Definition projectMember (policy : FieldPolicy) (q : S) (doc : Document)
    (views : gmap ID View) (member : Member) : res (gmap ID View) :=
  if negb (Valid (member_Role member)) then Ok views
  else
    let subject := MkSubject (member_UserID member) (member_Role member) in
    grant ← GrantOf q subject doc;
    visible ← RedactDocument doc subject grant policy;
    match visible with
    | None => Ok views
    | Some v => Ok (<[member_UserID member := MkView subject grant v]> views)
    end.

Definition ProjectForMembers (policy : FieldPolicy) (q : S) (doc : Document)
    : res (gmap ID View) :=
  members ← ListMembers q (doc_WorldID doc);
  foldM (projectMember policy q doc) ∅ members.

Definition Authorize (q : S) (worldID userID : ID) (doc : Document) (write : bool) : res Grant :=
  role ← RoleOf q worldID userID;
  grant ← GrantOf q (MkSubject userID role) doc;
  if write && negb (CanEdit grant) then Err ErrForbidden
  else if negb write && negb (CanRead grant) then Err ErrForbidden
  else Ok grant.

(** ** Lemmas *)

Lemma RoleOf_Ok q w u r :
  RoleOf q w u = Ok r ↔ ∃ m, GetMember q w u = Ok m ∧ member_Role m = r ∧ Valid r = true.
Proof.
  unfold RoleOf. destruct (GetMember q w u) as [m|e].
  - destruct (Valid (member_Role m)) eqn:E; split.
    + intros [= <-]. by exists m.
    + intros (? & [= <-] & <- & _). done.
    + done.
    + intros (? & [= <-] & <- & ?). congruence.
  - split; [by case_match|by intros (? & ? & _)].
Qed.

Lemma GrantOf_Effective q s d g :
  GrantOf q s d = Ok g → ∃ i, g = Effective s i.
Proof. unfold GrantOf. intros. inv_ok. by eexists. Qed.

Lemma GrantOf_role q s d g : GrantOf q s d = Ok g → grant_Role g = subject_Role s.
Proof. intros [i ->]%GrantOf_Effective. apply Effective_role. Qed.

(** The inputs of a grant do not depend on the subject. *)
Lemma GrantOf_inputs q d :
  (∃ i, ∀ s, GrantOf q s d = Ok (Effective s i)) ∨ (∃ e, ∀ s, GrantOf q s d = Err e).
Proof.
  unfold GrantOf.
  destruct (ParseACL (doc_Ownership d)); cbn; [|right; by eexists].
  destruct (folderACL q d); cbn; [|right; by eexists].
  destruct (worldDefault q d); cbn; [left|right]; by eexists.
Qed.

Lemma Authorize_Ok q w u d wr g :
  Authorize q w u d wr = Ok g ↔
  ∃ r, RoleOf q w u = Ok r ∧ GrantOf q (MkSubject u r) d = Ok g ∧
       (if wr then CanEdit g else CanRead g) = true.
Proof.
  unfold Authorize. rewrite bind_Ok. split.
  - intros (r & Hr & (g' & Hg & Hc)%bind_Ok). exists r. destruct wr; cbn in Hc.
    + destruct (CanEdit g') eqn:E; cbn in Hc; inv_ok. by rewrite E.
    + destruct (CanRead g') eqn:E; cbn in Hc; inv_ok. by rewrite E.
  - intros (r & Hr & Hg & Hc). exists r. split; [done|]. apply bind_Ok. exists g.
    split; [done|]. by destruct wr; cbn; rewrite Hc.
Qed.

(** One member's contribution to the views. *)
Definition viewFor (policy : FieldPolicy) (q : S) (doc : Document) (m : Member) (v : View) : Prop :=
  Valid (member_Role m) = true ∧
  view_Subject v = MkSubject (member_UserID m) (member_Role m) ∧
  GrantOf q (view_Subject v) doc = Ok (view_Grant v) ∧
  RedactDocument doc (view_Subject v) (view_Grant v) policy = Ok (Some (view_Document v)).

Lemma projectMember_spec policy q doc views m views' :
  projectMember policy q doc views m = Ok views' →
  (∀ u, u ≠ member_UserID m → views' !! u = views !! u) ∧
  ((∃ v, viewFor policy q doc m v ∧ views' !! member_UserID m = Some v) ∨
   (views' = views ∧ ∀ v, ¬ viewFor policy q doc m v)).
Proof.
  unfold projectMember, viewFor. destruct (Valid (member_Role m)) eqn:Ev; cbn.
  - intros (g & Hg & (r & Hr & Hv)%bind_Ok)%bind_Ok. destruct r as [d|]; inv_ok.
    + split; [intros; by rewrite lookup_insert_ne by congruence|]. left.
      exists (MkView (MkSubject (member_UserID m) (member_Role m)) g d).
      split; [by split_and!|]. by rewrite lookup_insert_eq.
    + split; [done|]. right. split; [done|]. intros [s g' d] (_ & Hs & Hg' & Hd); cbn in *.
      subst s. congruence.
  - intros [= <-]. split; [done|]. right. split; [done|]. intros v [? _]. congruence.
Qed.

Lemma foldM_project policy q doc ms views views' :
  NoDup (member_UserID <$> ms) →
  foldM (projectMember policy q doc) views ms = Ok views' →
  (∀ u, u ∉ member_UserID <$> ms → views' !! u = views !! u) ∧
  (∀ m v, m ∈ ms → views !! member_UserID m = None →
     views' !! member_UserID m = Some v ↔ viewFor policy q doc m v).
Proof.
  revert views; induction ms as [|m ms IH]; intros views; cbn.
  - intros _ [= <-]. split; [done|]. intros ? ? ?%elem_of_nil. done.
  - intros [Hn Hd]%NoDup_cons (views1 & [Hne Hm]%projectMember_spec & Hf)%bind_Ok.
    destruct (IH _ Hd Hf) as [Ho Hi]. split.
    + intros u [Hu1 Hu2]%not_elem_of_cons. by rewrite Ho, Hne.
    + intros m' v [->|Hin]%elem_of_cons Hnone.
      * rewrite Ho by done. destruct Hm as [(v1 & Hv1 & ->)|[-> Hno]].
        -- split; [by intros [= <-]|]. intros Hv. f_equal.
           destruct Hv1 as (_ & Hs1 & Hg1 & Hr1), Hv as (_ & Hs & Hg & Hr).
           destruct v as [s g d], v1 as [s1 g1 d1]; cbn in *. subst. congruence.
        -- rewrite Hnone. split; [done|]. intros Hv. by destruct (Hno v).
      * apply Hi; [done|]. rewrite Hne; [done|]. intros Heq. apply Hn.
        rewrite <-Heq. apply list_elem_of_fmap. by exists m'.
Qed.
End Resolver.

(** ** Theorems *)

Section Theorems.
Context {S : Type} `{!Query S} `{!QueryLaws S}.

Lemma ProjectForMembers_lookup policy (q : S) doc views u v :
  wf q → ProjectForMembers policy q doc = Ok views →
  views !! u = Some v ↔
  ∃ ms m, ListMembers q (doc_WorldID doc) = Ok ms ∧ m ∈ ms ∧ member_UserID m = u ∧
          viewFor policy q doc m v.
Proof.
  intros Hwf (ms & Hms & Hf)%bind_Ok.
  destruct (ListMembers_of q _ _ Hwf Hms) as [Hd _].
  destruct (foldM_project _ _ _ _ _ _ Hd Hf) as [Ho Hi]. split.
  - intros Hv. exists ms.
    destruct (decide (u ∈ member_UserID <$> ms)) as [(m & -> & Hin)%list_elem_of_fmap|Hn].
    + exists m. split_and!; try done. by apply Hi.
    + by rewrite Ho, lookup_empty in Hv.
  - intros (ms' & m & [= <-]%(eq_trans (eq_sym Hms)) & Hin & <- & Hv). by apply Hi.
Qed.

(** C13: the per-recipient projection is exact over any store: a user has a
    view iff they are a member with a valid role whose grant on the document
    lets redaction send something, and the view is then that member's own
    subject, grant and redacted document.  Nobody else is in the map. *)
Theorem ProjectForMembers_exact : ∀ policy (q : S) doc views,
  wf q → ProjectForMembers policy q doc = Ok views →
  ∀ u v, views !! u = Some v ↔
    ∃ ms m, ListMembers q (doc_WorldID doc) = Ok ms ∧ m ∈ ms ∧ member_UserID m = u ∧
            Valid (member_Role m) = true ∧
            view_Subject v = MkSubject u (member_Role m) ∧
            GrantOf q (view_Subject v) doc = Ok (view_Grant v) ∧
            RedactDocument doc (view_Subject v) (view_Grant v) policy
              = Ok (Some (view_Document v)).
Proof.
  intros policy q doc views Hwf Hp u v.
  rewrite (ProjectForMembers_lookup _ _ _ _ _ _ Hwf Hp).
  unfold viewFor. split; intros (ms & m & H1 & H2 & <- & H4); exists ms, m; naive_solver.
Qed.

(** Authorization is sound and complete over any store: writing succeeds
    exactly for a member with a valid stored role whose grant can edit,
    reading exactly for one whose grant can read; the role always comes from
    the membership row, whatever the caller believes. *)
Theorem Authorize_exact : ∀ (q : S) w u doc write g,
  Authorize q w u doc write = Ok g ↔
  ∃ m, GetMember q w u = Ok m ∧ Valid (member_Role m) = true ∧
       GrantOf q (MkSubject u (member_Role m)) doc = Ok g ∧
       (if write then CanEdit g else CanRead g) = true.
Proof.
  intros q w u doc write g. rewrite Authorize_Ok. split.
  - intros (r & (m & Hm & <- & Hv)%RoleOf_Ok & Hg & Hc). by exists m.
  - intros (m & Hm & Hv & Hg & Hc). exists (member_Role m). split_and!; try done.
    apply RoleOf_Ok. by exists m.
Qed.
End Theorems.
