(* ===== verification/Vision.v ===== *)
(** * Line of sight geometry (internal/core/vision/vision.go)

    Segment intersection with a tolerance, visibility of a point past a list
    of blocking segments, and visibility from any of several viewpoints.  The
    arithmetic is a parameter class: [float64Arith] is the IEEE 754 binary64
    arithmetic the program runs (each operation rounded on its own, as on
    amd64), and the theorems hold for any arithmetic. *)

From S2P Require Import Prelude GoStrings.
From Stdlib Require Import SpecFloat.

Local Open Scope Z_scope.

Class Arith (T : Type) := {
  nadd : T → T → T;
  nsub : T → T → T;
  nmul : T → T → T;
  nopp : T → T;
  nlt : T → T → bool;
  nle : T → T → bool;
  nzero : T;
  epsilon : T
}.

(** [const epsilon = 1e-9], the nearest binary64. *)
Definition float64Epsilon : float64 := S754_finite false 4835703278458517 (-82).

#[export] Instance float64Arith : Arith float64 := {|
  nadd := fadd; nsub := fsub; nmul := fmul; nopp := fopp;
  nlt := flt; nle := fle; nzero := fzero; epsilon := float64Epsilon
|}.

Record Point (T : Type) := MkPoint { px : T; py : T }.
Arguments MkPoint {T}. Arguments px {T}. Arguments py {T}.

Record Segment (T : Type) := MkSegment { segA : Point T; segB : Point T }.
Arguments MkSegment {T}. Arguments segA {T}. Arguments segB {T}.

Section Vision.
Context {T : Type} `{Arith T}.

Definition abs (value : T) : T := if nlt value nzero then nopp value else value.
Definition min (a b : T) : T := if nlt a b then a else b.
Definition max (a b : T) : T := if nlt b a then a else b.

Definition orientation (a b c : Point T) : T :=
  nsub (nmul (nsub (px b) (px a)) (nsub (py c) (py a)))
       (nmul (nsub (py b) (py a)) (nsub (px c) (px a))).

Definition onSegment (a b c : Point T) : bool :=
  nle (px c) (nadd (max (px a) (px b)) epsilon) &&
  nle (nsub (min (px a) (px b)) epsilon) (px c) &&
  nle (py c) (nadd (max (py a) (py b)) epsilon) &&
  nle (nsub (min (py a) (py b)) epsilon) (py c).

(** Two orientations on opposite sides, beyond the tolerance. *)
Definition opposite (d1 d2 : T) : bool :=
  (nlt epsilon d1 && nlt d2 (nopp epsilon)) || (nlt d1 (nopp epsilon) && nlt epsilon d2).

Definition Crosses (first second : Segment T) : bool :=
  let d1 := orientation (segA first) (segB first) (segA second) in
  let d2 := orientation (segA first) (segB first) (segB second) in
  let d3 := orientation (segA second) (segB second) (segA first) in
  let d4 := orientation (segA second) (segB second) (segB first) in
  if opposite d1 d2 && opposite d3 d4 then true
  else if nle (abs d1) epsilon && onSegment (segA first) (segB first) (segA second) then true
  else if nle (abs d2) epsilon && onSegment (segA first) (segB first) (segB second) then true
  else if nle (abs d3) epsilon && onSegment (segA second) (segB second) (segA first) then true
  else if nle (abs d4) epsilon && onSegment (segA second) (segB second) (segB first) then true
  else false.

Fixpoint visibleLoop (sight : Segment T) (blockers : list (Segment T)) : bool :=
  match blockers with
  | [] => true
  | blocker :: blockers =>
      if Crosses sight blocker then false else visibleLoop sight blockers
  end.

Definition Visible (from to : Point T) (blockers : list (Segment T)) : bool :=
  visibleLoop (MkSegment from to) blockers.

Fixpoint anyLoop (viewpoints : list (Point T)) (to : Point T) (blockers : list (Segment T)) : bool :=
  match viewpoints with
  | [] => false
  | viewpoint :: viewpoints =>
      if Visible viewpoint to blockers then true else anyLoop viewpoints to blockers
  end.

Definition VisibleFromAny (viewpoints : list (Point T)) (to : Point T)
    (blockers : list (Segment T)) : bool :=
  match viewpoints with
  | [] => true
  | _ => anyLoop viewpoints to blockers
  end.

(** ** Lemmas *)

Lemma Visible_spec from to blockers :
  Visible from to blockers = true ↔
  Forall (λ b, Crosses (MkSegment from to) b = false) blockers.
Proof.
  unfold Visible. induction blockers as [|b bs IH]; cbn [visibleLoop]; [done|].
  rewrite Forall_cons, <-IH. destruct (Crosses _ b); naive_solver.
Qed.

Lemma anyLoop_spec vps to blockers :
  anyLoop vps to blockers = true ↔ Exists (λ p, Visible p to blockers = true) vps.
Proof.
  induction vps as [|p ps IH]; cbn; [by rewrite Exists_nil|].
  rewrite Exists_cons, <-IH. destruct (Visible p to blockers); naive_solver.
Qed.

Lemma VisibleFromAny_spec vps to blockers :
  VisibleFromAny vps to blockers = true ↔
  vps = [] ∨ ∃ p, p ∈ vps ∧ Forall (λ b, Crosses (MkSegment p to) b = false) blockers.
Proof.
  assert (anyLoop vps to blockers = true ↔
          ∃ p, p ∈ vps ∧ Forall (λ b, Crosses (MkSegment p to) b = false) blockers) as Ha.
  { rewrite anyLoop_spec, Exists_exists. by setoid_rewrite Visible_spec. }
  destruct vps as [|p ps]; cbn [VisibleFromAny]; [naive_solver|].
  rewrite Ha. naive_solver.
Qed.

Lemma Crosses_alt s t :
  Crosses s t =
  (opposite (orientation (segA s) (segB s) (segA t)) (orientation (segA s) (segB s) (segB t)) &&
   opposite (orientation (segA t) (segB t) (segA s)) (orientation (segA t) (segB t) (segB s))) ||
  ((nle (abs (orientation (segA s) (segB s) (segA t))) epsilon && onSegment (segA s) (segB s) (segA t)) ||
   (nle (abs (orientation (segA s) (segB s) (segB t))) epsilon && onSegment (segA s) (segB s) (segB t))) ||
  ((nle (abs (orientation (segA t) (segB t) (segA s))) epsilon && onSegment (segA t) (segB t) (segA s)) ||
   (nle (abs (orientation (segA t) (segB t) (segB s))) epsilon && onSegment (segA t) (segB t) (segB s))).
Proof. unfold Crosses. repeat case_match; by repeat destruct (_ && _). Qed.

Lemma Crosses_comm s t : Crosses s t = Crosses t s.
Proof.
  rewrite !Crosses_alt, (andb_comm (opposite _ _)).
  repeat match goal with |- context [nle ?x ?y && ?b] => destruct (nle x y && b) end;
    by destruct (_ && _).
Qed.

(** ** Theorems *)

(** A target is visible from a set of viewpoints exactly when there is no
    viewpoint at all, or some viewpoint whose line to the target crosses none
    of the blockers. *)
Theorem VisibleFromAny_exact : ∀ vps to blockers,
  VisibleFromAny vps to blockers = true ↔
  vps = [] ∨ ∃ p, p ∈ vps ∧ ∀ b, b ∈ blockers → Crosses (MkSegment p to) b = false.
Proof.
  intros. rewrite VisibleFromAny_spec. by setoid_rewrite Forall_forall.
Qed.

(** Whether two segments cross does not depend on which is the line of
    sight and which the wall, rounding included; and walls only ever take
    away: adding blockers hides, removing them reveals, and with none
    everything is visible. *)
Theorem vision_monotone : ∀ s t vps to blockers more,
  Crosses s t = Crosses t s ∧
  (VisibleFromAny vps to (blockers ++ more) = true → VisibleFromAny vps to blockers = true) ∧
  VisibleFromAny vps to [] = true.
Proof.
  intros. split_and!; [apply Crosses_comm| |].
  - rewrite !VisibleFromAny_spec. setoid_rewrite Forall_app. naive_solver.
  - apply VisibleFromAny_spec. destruct vps as [|p ps]; [by left|right].
    exists p. split; [left|constructor].
Qed.
End Vision.
