(* ===== verification/Sight.v ===== *)
(** * Who sees which token (internal/core/sight/sight.go)

    The blockers of a scene, the viewpoints of a subject, and the three filters
    built on them: [Filter] for fan-out, [VisibleTokens] for listings and
    [CanSee] for catch-up. *)

From S2P Require Import Prelude GoStrings Json Perm Storage Redact Access Vision.

Local Open Scope Z_scope.

Abbreviation point := (Point float64).
Abbreviation segment := (Segment float64).

(** ** Geometry stored in documents *)

Record wallGeometry := MkWallGeometry {
  wall_X1 : float64; wall_Y1 : float64; wall_X2 : float64; wall_Y2 : float64;
  wall_BlocksSight : bool; wall_Door : bool; wall_DoorOpen : bool
}.

(** [json.Unmarshal(raw, &wallGeometry)]; [None] is a decoding error. *)
Definition decodeWall (r : raw) : option wallGeometry :=
  fs ← structFields r;
  let '(x1, o1) := decodeField convFloat fzero "x1" fs in
  let '(y1, o2) := decodeField convFloat fzero "y1" fs in
  let '(x2, o3) := decodeField convFloat fzero "x2" fs in
  let '(y2, o4) := decodeField convFloat fzero "y2" fs in
  let '(blocks, o5) := decodeField convBool false "blocksSight" fs in
  let '(door, o6) := decodeField convBool false "door" fs in
  let '(opened, o7) := decodeField convBool false "doorOpen" fs in
  if o1 && o2 && o3 && o4 && o5 && o6 && o7
  then Some (MkWallGeometry x1 y1 x2 y2 blocks door opened) else None.

Definition pointOf (token : Document) : option point :=
  fs ← structFields (doc_Data token);
  let '(x, o1) := decodeField convFloat fzero "x" fs in
  let '(y, o2) := decodeField convFloat fzero "y" fs in
  if o1 && o2 then Some (MkPoint x y) else None.

(** The segment a wall blocks sight with, if it does. *)
Definition blockerOf (wall : Document) : option segment :=
  data ← decodeWall (doc_Data wall);
  if negb (wall_BlocksSight data) || (wall_Door data && wall_DoorOpen data) then None
  else Some (MkSegment (MkPoint (wall_X1 data) (wall_Y1 data))
                       (MkPoint (wall_X2 data) (wall_Y2 data))).

Section Sight.
Context {S : Type} `{Query S}.

Definition BlockersOf (q : S) (worldID sceneID : ID) : res (list segment) :=
  walls ← ListDocuments q worldID (ofKindIn "wall" sceneID 0);
  Ok (omap blockerOf (walls : list Document)).

Definition viewpointStep (q : S) (subject : Subject) (points : list point) (token : Document)
    : res (list point) :=
  grant ← GrantOf q subject token;
  if level_ltb (grant_Level grant) LevelOwner then Ok points
  else match pointOf token with
       | Some point => Ok (points ++ [point])
       | None => Ok points
       end.

Definition ViewpointsOf (q : S) (subject : Subject) (worldID sceneID : ID) : res (list point) :=
  tokens ← ListDocuments q worldID (ofKindIn "token" sceneID 0);
  foldM (viewpointStep q subject) [] tokens.

(** The body of [Filter]'s loop over the views. *)
Definition filterStep (q : S) (worldID sceneID : ID) (target : point) (blockers : list segment)
    (filtered : gmap ID View) (entry : ID * View) : res (gmap ID View) :=
  let '(userID, view) := entry in
  if IsStaff (subject_Role (view_Subject view)) then Ok (<[userID := view]> filtered)
  else
    points ← ViewpointsOf q (view_Subject view) worldID sceneID;
    if VisibleFromAny points target blockers then Ok (<[userID := view]> filtered)
    else Ok filtered.

Definition Filter (q : S) (worldID : ID) (token : Document) (views : gmap ID View)
    : res (gmap ID View) :=
  if negb (bool_decide (doc_Kind token = "token")) || bool_decide (doc_ParentID token = "")
  then Ok views
  else match pointOf token with
       | None => Ok views
       | Some target =>
           blockers ← BlockersOf q worldID (doc_ParentID token);
           match blockers with
           | [] => Ok views
           | _ => foldM (filterStep q worldID (doc_ParentID token) target blockers)
                    ∅ (map_to_list views)
           end
       end.

(** The body of [VisibleTokens]'s loop: a token whose position does not decode
    is skipped. *)
Definition tokenVisible (points : list point) (blockers : list segment) (token : Document) : bool :=
  match pointOf token with
  | None => false
  | Some target => VisibleFromAny points target blockers
  end.

Definition VisibleTokens (q : S) (subject : Subject) (worldID sceneID : ID)
    (tokens : list Document) : res (list Document) :=
  blockers ← BlockersOf q worldID sceneID;
  if isNil blockers || IsStaff (subject_Role subject) then Ok tokens
  else
    points ← ViewpointsOf q subject worldID sceneID;
    match points with
    | [] => Ok tokens
    | _ => Ok (filter (λ token, tokenVisible points blockers token = true) tokens)
    end.

Definition CanSee (q : S) (subject : Subject) (worldID : ID) (token : Document) : res bool :=
  if negb (bool_decide (doc_Kind token = "token")) || bool_decide (doc_ParentID token = "")
     || IsStaff (subject_Role subject)
  then Ok true
  else match pointOf token with
       | None => Ok true
       | Some target =>
           blockers ← BlockersOf q worldID (doc_ParentID token);
           match blockers with
           | [] => Ok true
           | _ =>
               points ← ViewpointsOf q subject worldID (doc_ParentID token);
               Ok (VisibleFromAny points target blockers)
           end
       end.

(** ** Lemmas *)

Local Ltac drop_true := split; [by intros; split|by intros []].

Lemma filterStep_CanSee q w tok target blockers filtered entry filtered' :
  doc_Kind tok = "token" → doc_ParentID tok ≠ "" → pointOf tok = Some target →
  BlockersOf q w (doc_ParentID tok) = Ok blockers → blockers ≠ [] →
  filterStep q w (doc_ParentID tok) target blockers filtered entry = Ok filtered' →
  (CanSee q (view_Subject entry.2) w tok = Ok true ∧ filtered' = <[entry.1 := entry.2]> filtered) ∨
  (CanSee q (view_Subject entry.2) w tok = Ok false ∧ filtered' = filtered).
Proof.
  intros Hk Hp Ht Hb Hne. destruct entry as [u v]; cbn. unfold CanSee.
  rewrite bool_decide_eq_true_2, bool_decide_eq_false_2 by done. cbn.
  destruct (IsStaff _); [intros [= <-]; by left|].
  rewrite Ht, Hb. cbn. destruct blockers as [|b bs]; [done|].
  intros (points & Hps & Hf)%bind_Ok. rewrite Hps. cbn.
  destruct (VisibleFromAny points target (b :: bs)); inv_ok; auto.
Qed.

Lemma foldM_filter q w tok target blockers entries filtered filtered' :
  doc_Kind tok = "token" → doc_ParentID tok ≠ "" → pointOf tok = Some target →
  BlockersOf q w (doc_ParentID tok) = Ok blockers → blockers ≠ [] →
  NoDup entries.*1 →
  foldM (filterStep q w (doc_ParentID tok) target blockers) filtered entries = Ok filtered' →
  ∀ u v, u ∉ dom filtered ∨ u ∉ entries.*1 →
    filtered' !! u = Some v ↔
    filtered !! u = Some v ∨
    ((u, v) ∈ entries ∧ CanSee q (view_Subject v) w tok = Ok true).
Proof.
  intros Hk Hp Ht Hb Hne. revert filtered.
  induction entries as [|[u1 v1] es IH]; intros filtered; cbn [foldM].
  { intros _ [= <-] u v _. rewrite elem_of_nil. naive_solver. }
  rewrite fmap_cons. intros [Hn Hd]%NoDup_cons (f1 & Hs & Hf)%bind_Ok u v Hor.
  pose proof (filterStep_CanSee _ _ _ _ _ _ _ _ Hk Hp Ht Hb Hne Hs) as Hs'. clear Hs.
  rename Hs' into Hs. cbn in Hs, Hn, Hor.
  assert (u ≠ u1 → (u, v) ∈ (u1, v1) :: es ↔ (u, v) ∈ es) as Hcons
    by (intros; rewrite elem_of_cons; naive_solver).
  destruct (decide (u = u1)) as [->|Hu].
  - assert (u1 ∉ dom filtered) as Hdom by (destruct Hor; set_solver).
    apply not_elem_of_dom in Hdom.
    assert (∀ x, (u1, x) ∉ es) as Hnotin.
    { intros x Hx. apply Hn, list_elem_of_fmap. by exists (u1, x). }
    rewrite (IH _ Hd Hf u1 v) by (right; done). rewrite elem_of_cons, Hdom.
    destruct Hs as [[Hc ->]|[Hc ->]]; [rewrite lookup_insert_eq|rewrite Hdom]; split.
    + intros [[= <-]|[[]%Hnotin _]]. right. split; [by left|done].
    + intros [?|[[[= ->]|[]%Hnotin] _]]; [done|by left].
    + intros [?|[[]%Hnotin _]]. done.
    + intros [?|[[[= ->]|[]%Hnotin] Hc']]; [done|]. congruence.
  - rewrite (IH _ Hd Hf u v) by (destruct Hs as [[_ ->]|[_ ->]]; set_solver).
    rewrite Hcons by done.
    destruct Hs as [[Hc ->]|[Hc ->]]; rewrite ?lookup_insert_ne by done; done.
Qed.

Lemma Filter_CanSee q w tok views filtered u v :
  Filter q w tok views = Ok filtered → views !! u = Some v →
  filtered !! u = Some v ↔ CanSee q (view_Subject v) w tok = Ok true.
Proof.
  unfold Filter. intros HF Hv.
  destruct (negb _ || _) eqn:Eg; [inv_ok; unfold CanSee; rewrite Eg; naive_solver|].
  destruct (pointOf tok) as [target|] eqn:Ht;
    [|inv_ok; unfold CanSee; rewrite Eg, Ht; by destruct (IsStaff _); naive_solver].
  apply bind_Ok in HF as (blockers & Hb & HF).
  apply orb_false_iff in Eg as [Hk%negb_false_iff%bool_decide_eq_true Hp%bool_decide_eq_false].
  destruct blockers as [|b bs].
  - inv_ok. unfold CanSee. rewrite bool_decide_eq_true_2, bool_decide_eq_false_2 by done.
    cbn. rewrite Ht, Hb. by destruct (IsStaff _); naive_solver.
  - rewrite (foldM_filter q w tok target (b :: bs) (map_to_list views) ∅ filtered
               Hk Hp Ht Hb ltac:(done) (NoDup_fst_map_to_list _) HF u v ltac:(left; set_solver)).
    rewrite lookup_empty, elem_of_map_to_list. naive_solver.
Qed.

(** A recipient is never added by the filter. *)
Lemma Filter_subset q w tok views filtered u v :
  Filter q w tok views = Ok filtered → filtered !! u = Some v → views !! u = Some v.
Proof.
  unfold Filter. intros HF. case_match; [by inv_ok|].
  destruct (pointOf tok) as [target|]; [|by inv_ok].
  apply bind_Ok in HF as (blockers & Hb & HF). destruct blockers as [|b bs]; [by inv_ok|].
  revert HF. apply (foldM_inv (λ f, f !! u = Some v → views !! u = Some v)).
  - by rewrite lookup_empty.
  - intros [u1 v1] f f' Hin Hf Hs. apply elem_of_map_to_list in Hin. cbn in Hs.
    assert (<[u1:=v1]> f !! u = Some v → views !! u = Some v) as Hins.
    { rewrite lookup_insert. destruct (decide (u1 = u)) as [->|]; [|done]. by intros [= <-]. }
    destruct (IsStaff _); [by inv_ok|]. inv_ok. destruct (VisibleFromAny _ _ _); by inv_ok.
Qed.

Lemma VisibleTokens_CanSee q subject w scene tokens visible tok :
  VisibleTokens q subject w scene tokens = Ok visible →
  doc_Kind tok = "token" → doc_ParentID tok = scene → scene ≠ "" → is_Some (pointOf tok) →
  tok ∈ visible ↔ tok ∈ tokens ∧ CanSee q subject w tok = Ok true.
Proof.
  unfold VisibleTokens, CanSee. intros (blockers & Hb & HV)%bind_Ok Hk <- Hs [target Ht].
  rewrite (bool_decide_eq_true_2 (doc_Kind tok = "token")) by done.
  rewrite (bool_decide_eq_false_2 (doc_ParentID tok = "")) by done. cbn.
  destruct (IsStaff _); [rewrite orb_true_r in HV; inv_ok; drop_true|].
  rewrite orb_false_r in HV. rewrite Ht, Hb. cbn.
  destruct blockers as [|b bs]; cbn in HV; [inv_ok; drop_true|].
  apply bind_Ok in HV as (points & Hps & HV). rewrite Hps. cbn.
  destruct points as [|p ps]; [inv_ok; drop_true|]. inv_ok.
  rewrite list_elem_of_filter. unfold tokenVisible. rewrite Ht. split.
  - intros [Hv Hin]. split; [done|by f_equal].
  - intros [Hin [= Hv]]. done.
Qed.

Lemma VisibleTokens_sound q subject w scene tokens visible tok :
  VisibleTokens q subject w scene tokens = Ok visible → tok ∈ visible →
  tok ∈ tokens ∧
  (doc_Kind tok = "token" → doc_ParentID tok = scene → scene ≠ "" → CanSee q subject w tok = Ok true).
Proof.
  intros HV Hin. split.
  { unfold VisibleTokens in HV. apply bind_Ok in HV as (bs & _ & HV). case_match; [by injection HV as <-|].
    apply bind_Ok in HV as (ps & _ & HV). destruct ps; injection HV as <-; [done|].
    by apply list_elem_of_filter in Hin as [_ ?]. }
  intros Hk Hp Hs. destruct (pointOf tok) eqn:Ht.
  - by apply (VisibleTokens_CanSee _ _ _ _ _ _ _ HV Hk Hp Hs ltac:(by rewrite Ht)) in Hin as [_ ?].
  - unfold CanSee. rewrite Ht. by case_match.
Qed.

(** ** Theorems *)

(** C17: fan-out and catch-up ask the same question.  Over any store, when the
    fan-out filter succeeds, a recipient who would receive a document keeps
    it exactly when [CanSee] answers yes for that recipient, and the filter
    adds nobody. *)
Theorem Filter_agrees_with_CanSee : ∀ (q : S) w tok views filtered,
  Filter q w tok views = Ok filtered →
  ∀ u v, filtered !! u = Some v ↔
         views !! u = Some v ∧ CanSee q (view_Subject v) w tok = Ok true.
Proof.
  intros q w tok views filtered HF u v. split.
  - intros Hf. pose proof (Filter_subset _ _ _ _ _ _ _ HF Hf) as Hv.
    split; [done|]. by apply (Filter_CanSee q w tok views filtered u v HF Hv).
  - intros [Hv Hc]. by apply (Filter_CanSee q w tok views filtered u v HF Hv).
Qed.

(** Listing a scene asks the same question as fan-out for every token
    whose position decodes: such a token is listed exactly when [CanSee]
    answers yes for the subject. *)
Theorem VisibleTokens_agrees_with_CanSee : ∀ (q : S) subject w scene tokens visible tok,
  VisibleTokens q subject w scene tokens = Ok visible →
  doc_Kind tok = "token" → doc_ParentID tok = scene → scene ≠ "" → is_Some (pointOf tok) →
  tok ∈ visible ↔ tok ∈ tokens ∧ CanSee q subject w tok = Ok true.
Proof. intros. by apply (VisibleTokens_CanSee q subject w scene tokens). Qed.

(** For a token whose position does not decode the paths disagree:
    behind a wall, a player with a viewpoint on the scene is not listed the
    token, while [CanSee] (and with it fan-out and catch-up) lets it
    through. *)
Theorem undecodable_token_disagrees : ∀ (q : S) subject w tok tokens b bs p ps,
  IsStaff (subject_Role subject) = false → pointOf tok = None →
  BlockersOf q w (doc_ParentID tok) = Ok (b :: bs) →
  ViewpointsOf q subject w (doc_ParentID tok) = Ok (p :: ps) →
  CanSee q subject w tok = Ok true ∧
  ∃ visible, VisibleTokens q subject w (doc_ParentID tok) tokens = Ok visible ∧ tok ∉ visible.
Proof.
  intros q subject w tok tokens b bs p ps Hs Ht Hb Hps. split.
  - unfold CanSee. rewrite Hs, Ht. by case_match.
  - unfold VisibleTokens. rewrite Hb. cbn. rewrite Hs, Hps. cbn. eexists. split; [done|].
    rewrite list_elem_of_filter. unfold tokenVisible. rewrite Ht. naive_solver.
Qed.
End Sight.
