(* ===== verification/SqlStore.v ===== *)
(** * The SQL implementation of the port (internal/storage/sqlstore)

    The tables of the schema as finite maps keyed by their primary keys, and
    every operation of the port as the effect of its statement: upserts with
    the columns the [ON CONFLICT] clause lists, the unique and foreign key
    constraints of the migrations, conditional updates with their row counts,
    orderings and limits.  What differs between the engines (the JSON path
    functions and the order of stored timestamps) is the class [Dialect]. *)

From S2P Require Import Prelude GoStrings Json Perm Storage.
From Stdlib Require Import Ascii.
From Stdlib Require String.

Local Open Scope Z_scope.

(** ** Tables *)

Record db := MkDb {
  worlds : gmap ID World;
  documents : gmap (ID * ID) Document;
  world_events : gmap (ID * Z) Event;
  world_members : gmap (ID * ID) Member;
  users : gmap ID User;
  user_sessions : gmap string UserSession;
  invites : gmap ID Invite;
  assets : gmap ID Asset
}.

Definition emptyDb : db := MkDb ∅ ∅ ∅ ∅ ∅ ∅ ∅ ∅.

(** [type conn struct]: the tables behind a connection, and whether it may
    write. *)
Record conn := MkConn { tables : db; writable : bool }.

Definition with_worlds (t : gmap ID World) (d : db) : db :=
  MkDb t (documents d) (world_events d) (world_members d) (users d) (user_sessions d) (invites d) (assets d).
Definition with_documents (t : gmap (ID * ID) Document) (d : db) : db :=
  MkDb (worlds d) t (world_events d) (world_members d) (users d) (user_sessions d) (invites d) (assets d).
Definition with_members (t : gmap (ID * ID) Member) (d : db) : db :=
  MkDb (worlds d) (documents d) (world_events d) t (users d) (user_sessions d) (invites d) (assets d).
Definition with_users (t : gmap ID User) (d : db) : db :=
  MkDb (worlds d) (documents d) (world_events d) (world_members d) t (user_sessions d) (invites d) (assets d).
Definition with_sessions (t : gmap string UserSession) (d : db) : db :=
  MkDb (worlds d) (documents d) (world_events d) (world_members d) (users d) t (invites d) (assets d).
Definition with_invites (t : gmap ID Invite) (d : db) : db :=
  MkDb (worlds d) (documents d) (world_events d) (world_members d) (users d) (user_sessions d) t (assets d).
Definition with_assets (t : gmap ID Asset) (d : db) : db :=
  MkDb (worlds d) (documents d) (world_events d) (world_members d) (users d) (user_sessions d) (invites d) t.
Definition with_log (w : gmap ID World) (e : gmap (ID * Z) Event) (d : db) : db :=
  MkDb w (documents d) e (world_members d) (users d) (user_sessions d) (invites d) (assets d).

(** What the engines do differently. *)
Class Dialect := {
  JSONSet : json → list string → json → json;
  JSONRemove : json → list (list string) → json;
  timeLe : Time → Time → bool
}.

(** ** Rows *)

Definition errConstraint : err := ErrOther "constraint failed".

Definition rows {K A} `{Countable K} (t : gmap K A) : list A := snd <$> map_to_list t.

(** [ORDER BY]: a sort by a boolean order. *)
Definition leRel {A} (le : A → A → bool) : relation A := λ a b, le a b = true.
#[export] Instance leRel_dec {A} (le : A → A → bool) : RelDecision (leRel le).
Proof. intros a b. unfold leRel. apply _. Defined.

Definition orderBy {A} (le : A → A → bool) (l : list A) : list A := merge_sort (leRel le) l.

Definition limitTo {A} (n : Z) (l : list A) : list A := take (Z.to_nat n) l.

(** [jsonArg]: an empty message is stored as the fallback; the engine refuses
    text that is not JSON. *)
Definition jsonArg (r : raw) (fallback : raw) : res raw :=
  match r with
  | RawEmpty => Ok fallback
  | RawBad => Err (ErrOther "malformed JSON")
  | Raw _ => Ok r
  end.

Definition rawNull : raw := Raw JNull.
Definition rawObject : raw := Raw (JObj []).
Definition rawArray : raw := Raw (JArr []).

(** ** Statements *)

Section Statements.
Context `{Dialect}.

Definition requireWritable {A} (fn : db → res A * db) : M conn A := λ c,
  if writable c then let '(r, d) := fn (tables c) in (r, MkConn d true)
  else (Err ErrReadOnly, c).

Definition orNotFound {A} (o : option A) : res A :=
  match o with Some a => Ok a | None => Err ErrNotFound end.

(** *** Worlds *)

Definition sqlGetWorld (c : conn) (id : ID) : res World := orNotFound (worlds (tables c) !! id).

Definition slugTaken (d : db) (w : World) : bool :=
  existsb (λ x, bool_decide (world_Slug x = world_Slug w) && negb (bool_decide (world_ID x = world_ID w)))
    (rows (worlds d)).

Definition sqlPutWorld (now : Time) (world : World) : M conn World :=
  requireWritable (λ d,
    let created := if IsZero (world_CreatedAt world) then now else world_CreatedAt world in
    let locale := if bool_decide (world_DefaultLocale world = "") then "en" else world_DefaultLocale world in
    let filled := MkWorld (world_ID world) (world_Slug world) (world_Title world)
      (world_SystemID world) (world_SystemVersion world) locale (world_ActiveScene world)
      (world_Settings world) (world_EventSeq world) created (world_ArchivedAt world) in
    match jsonArg (world_Settings world) rawObject with
    | Err e => (Err e, d)
    | Ok settings =>
        if slugTaken d filled then (Err ErrAlreadyExists, d)
        else
          let '(seq, at_) := match worlds d !! world_ID world with
                             | Some old => (world_EventSeq old, world_CreatedAt old)
                             | None => (world_EventSeq world, created)
                             end in
          let row := MkWorld (world_ID world) (world_Slug world) (world_Title world)
            (world_SystemID world) (world_SystemVersion world) locale (world_ActiveScene world)
            settings seq at_ (world_ArchivedAt world) in
          (Ok filled, with_worlds (<[world_ID world := row]> (worlds d)) d)
    end).

Definition sqlListWorlds (c : conn) : res (list World) :=
  Ok (orderBy (λ a b, String.leb (world_Title a) (world_Title b)) (rows (worlds (tables c)))).

Definition sqlListWorldsForUser (c : conn) (userID : ID) : res (list World) :=
  Ok (orderBy (λ a b, String.leb (world_Title a) (world_Title b))
    (filter (λ w, is_Some (world_members (tables c) !! (world_ID w, userID)))
      (rows (worlds (tables c))))).

(** *** Members *)

Definition sqlGetMember (c : conn) (worldID userID : ID) : res Member :=
  orNotFound (world_members (tables c) !! (worldID, userID)).

Definition sqlListMembers (c : conn) (worldID : ID) : res (list Member) :=
  Ok (orderBy (λ a b, String.leb (member_UserID a) (member_UserID b))
    (filter (λ m, member_WorldID m = worldID) (rows (world_members (tables c))))).

Definition sqlPutMember (now : Time) (member : Member) : M conn Member :=
  requireWritable (λ d,
    let joined := if IsZero (member_JoinedAt member) then now else member_JoinedAt member in
    let filled := MkMember (member_WorldID member) (member_UserID member) (member_Role member) joined in
    let key := (member_WorldID member, member_UserID member) in
    match world_members d !! key with
    | Some old =>
        let row := MkMember (member_WorldID old) (member_UserID old) (member_Role member)
          (member_JoinedAt old) in
        (Ok filled, with_members (<[key := row]> (world_members d)) d)
    | None =>
        match worlds d !! member_WorldID member with
        | None => (Err errConstraint, d)
        | Some _ => (Ok filled, with_members (<[key := filled]> (world_members d)) d)
        end
    end).

Definition sqlDeleteMember (worldID userID : ID) : M conn unit :=
  requireWritable (λ d,
    match world_members d !! (worldID, userID) with
    | None => (Err ErrNotFound, d)
    | Some _ => (Ok tt, with_members (delete (worldID, userID) (world_members d)) d)
    end).

(** *** Users and sessions *)

Definition sqlGetUser (c : conn) (id : ID) : res User := orNotFound (users (tables c) !! id).

Definition sqlGetUserByUsername (c : conn) (username : string) : res User :=
  orNotFound (head (filter (λ u, user_Username u = username) (rows (users (tables c))))).

Definition sqlCountUsers (c : conn) : res Z := Ok (Z.of_nat (size (users (tables c)))).

(** The two unique columns; an absent e-mail address is NULL and never
    collides. *)
Definition userTaken (d : db) (u : User) : bool :=
  existsb (λ x, negb (bool_decide (user_ID x = user_ID u)) &&
    (bool_decide (user_Username x = user_Username u) ||
     (bool_decide (user_Email x = user_Email u) && negb (bool_decide (user_Email u = "")))))
    (rows (users d)).

Definition sqlPutUser (now : Time) (user : User) : M conn User :=
  requireWritable (λ d,
    let created := if IsZero (user_CreatedAt user) then now else user_CreatedAt user in
    let filled := MkUser (user_ID user) (user_Username user) (user_Email user)
      (user_PasswordHash user) (user_Locale user) (user_IsAdmin user) created (user_DisabledAt user) in
    if userTaken d user then (Err ErrAlreadyExists, d)
    else
      let at_ := match users d !! user_ID user with Some old => user_CreatedAt old | None => created end in
      let row := MkUser (user_ID user) (user_Username user) (user_Email user)
        (user_PasswordHash user) (user_Locale user) (user_IsAdmin user) at_ (user_DisabledAt user) in
      (Ok filled, with_users (<[user_ID user := row]> (users d)) d)).

Definition sqlGetUserSession (c : conn) (tokenHash : string) : res UserSession :=
  orNotFound (user_sessions (tables c) !! tokenHash).

Definition sqlPutUserSession (now : Time) (session : UserSession) : M conn UserSession :=
  requireWritable (λ d,
    let created := if IsZero (session_CreatedAt session) then now else session_CreatedAt session in
    let seen := if IsZero (session_LastSeenAt session) then now else session_LastSeenAt session in
    let filled := MkUserSession (session_TokenHash session) (session_UserID session) created
      (session_ExpiresAt session) seen (session_UserAgent session) in
    match user_sessions d !! session_TokenHash session with
    | Some old =>
        let row := MkUserSession (session_TokenHash old) (session_UserID old)
          (session_CreatedAt old) (session_ExpiresAt session) seen (session_UserAgent old) in
        (Ok filled, with_sessions (<[session_TokenHash session := row]> (user_sessions d)) d)
    | None =>
        match users d !! session_UserID session with
        | None => (Err errConstraint, d)
        | Some _ => (Ok filled, with_sessions (<[session_TokenHash session := filled]> (user_sessions d)) d)
        end
    end).

Definition sqlTouchUserSession (tokenHash : string) (seenAt : Time) : M conn unit :=
  requireWritable (λ d,
    (Ok tt, with_sessions (alter (λ s, MkUserSession (session_TokenHash s) (session_UserID s)
       (session_CreatedAt s) (session_ExpiresAt s) seenAt (session_UserAgent s)) tokenHash
       (user_sessions d)) d)).

Definition sqlDeleteUserSession (tokenHash : string) : M conn unit :=
  requireWritable (λ d, (Ok tt, with_sessions (delete tokenHash (user_sessions d)) d)).

Definition sqlDeleteUserSessionsOf (userID : ID) : M conn unit :=
  requireWritable (λ d,
    (Ok tt, with_sessions (filter (λ kv, session_UserID kv.2 ≠ userID) (user_sessions d)) d)).

(** *** Invites *)

Definition sqlGetInviteByTokenHash (c : conn) (tokenHash : string) : res Invite :=
  orNotFound (head (filter (λ i, invite_TokenHash i = tokenHash) (rows (invites (tables c))))).

Definition sqlListInvites (c : conn) (worldID : ID) : res (list Invite) :=
  Ok (orderBy (λ a b, timeLe (invite_CreatedAt b) (invite_CreatedAt a))
    (filter (λ i, invite_WorldID i = worldID) (rows (invites (tables c))))).

Definition hashTaken (d : db) (i : Invite) : bool :=
  existsb (λ x, bool_decide (invite_TokenHash x = invite_TokenHash i)) (rows (invites d)).

Definition sqlPutInvite (now : Time) (invite : Invite) : M conn Invite :=
  requireWritable (λ d,
    let created := if IsZero (invite_CreatedAt invite) then now else invite_CreatedAt invite in
    let filled := MkInvite (invite_ID invite) (invite_TokenHash invite) (invite_WorldID invite)
      (invite_Role invite) (invite_CreatedBy invite) created (invite_ExpiresAt invite)
      (invite_MaxUses invite) (invite_Uses invite) (invite_RevokedAt invite) in
    match invites d !! invite_ID invite with
    | Some old =>
        let row := MkInvite (invite_ID old) (invite_TokenHash old) (invite_WorldID old)
          (invite_Role invite) (invite_CreatedBy old) (invite_CreatedAt old) (invite_ExpiresAt invite)
          (invite_MaxUses invite) (invite_Uses old) (invite_RevokedAt invite) in
        (Ok filled, with_invites (<[invite_ID invite := row]> (invites d)) d)
    | None =>
        match worlds d !! invite_WorldID invite with
        | None => (Err errConstraint, d)
        | Some _ =>
            if hashTaken d invite then (Err errConstraint, d)
            else (Ok filled, with_invites (<[invite_ID invite := filled]> (invites d)) d)
        end
    end).

Definition inviteSpendable (worldID : ID) (i : Invite) : bool :=
  bool_decide (invite_WorldID i = worldID) && isNone (invite_RevokedAt i) &&
  ((invite_MaxUses i =? 0) || (invite_Uses i <? invite_MaxUses i)).

Definition sqlConsumeInvite (worldID id : ID) : M conn unit :=
  requireWritable (λ d,
    match invites d !! id with
    | Some i =>
        if inviteSpendable worldID i then
          let row := MkInvite (invite_ID i) (invite_TokenHash i) (invite_WorldID i)
            (invite_Role i) (invite_CreatedBy i) (invite_CreatedAt i) (invite_ExpiresAt i)
            (invite_MaxUses i) (invite_Uses i + 1) (invite_RevokedAt i) in
          (Ok tt, with_invites (<[id := row]> (invites d)) d)
        else (Err ErrNotFound, d)
    | None => (Err ErrNotFound, d)
    end).

Definition sqlRevokeInvite (now : Time) (worldID id : ID) : M conn unit :=
  requireWritable (λ d,
    match invites d !! id with
    | Some i =>
        if bool_decide (invite_WorldID i = worldID) && isNone (invite_RevokedAt i) then
          let row := MkInvite (invite_ID i) (invite_TokenHash i) (invite_WorldID i)
            (invite_Role i) (invite_CreatedBy i) (invite_CreatedAt i) (invite_ExpiresAt i)
            (invite_MaxUses i) (invite_Uses i) (Some now) in
          (Ok tt, with_invites (<[id := row]> (invites d)) d)
        else (Err ErrNotFound, d)
    | None => (Err ErrNotFound, d)
    end).

(** *** Documents *)

Definition defaultLimit : Z := 1000.

Definition effectiveLimit (limit : Z) : Z := if limit <=? 0 then defaultLimit else limit.

Definition sqlGetDocument (c : conn) (worldID id : ID) : res Document :=
  orNotFound (documents (tables c) !! (worldID, id)).

(** The [WHERE] clause; an empty parent or folder is stored as NULL, which
    equals nothing. *)
Definition filterMatches (worldID : ID) (f : DocumentFilter) (doc : Document) : bool :=
  bool_decide (doc_WorldID doc = worldID) &&
  (bool_decide (filter_Kind f = "") || bool_decide (doc_Kind doc = filter_Kind f)) &&
  (bool_decide (filter_Subtype f = "") || bool_decide (doc_Subtype doc = filter_Subtype f)) &&
  (match filter_ParentID f with
   | None => true
   | Some p => bool_decide (doc_ParentID doc = p) && negb (bool_decide (p = ""))
   end) &&
  (match filter_FolderID f with
   | None => true
   | Some p => bool_decide (doc_FolderID doc = p) && negb (bool_decide (p = ""))
   end) &&
  (filter_IncludeDeleted f || isNone (doc_DeletedAt doc)) &&
  (if 0 <? filter_UpdatedSince f then filter_UpdatedSince f <? doc_UpdatedSeq doc else true).

(** [ORDER BY sort, id]. *)
Definition docLe (a b : Document) : bool :=
  (doc_Sort a <? doc_Sort b) ||
  ((doc_Sort a =? doc_Sort b) && String.leb (doc_ID a) (doc_ID b)).

Definition sqlListDocuments (c : conn) (worldID : ID) (f : DocumentFilter) : res (list Document) :=
  Ok (limitTo (effectiveLimit (filter_Limit f))
    (orderBy docLe (filter (λ d, filterMatches worldID f d = true) (rows (documents (tables c)))))).

Definition sqlPutDocument (now : Time) (doc : Document) : M conn Document :=
  requireWritable (λ d,
    let created := if IsZero (doc_CreatedAt doc) then now else doc_CreatedAt doc in
    let fill data flags ownership at_ :=
      MkDocument (doc_WorldID doc) (doc_ID doc) (doc_Kind doc) (doc_Subtype doc) (doc_ParentID doc)
        (doc_FolderID doc) (doc_Name doc) (doc_Sort doc) (doc_Img doc) data flags ownership
        (doc_SourcePack doc) (doc_SchemaVersion doc) at_ now (doc_UpdatedSeq doc) (doc_DeletedAt doc) in
    let stored :=
      data ← jsonArg (doc_Data doc) rawObject;
      flags ← jsonArg (doc_Flags doc) rawObject;
      ownership ← jsonArg (doc_Ownership doc) rawObject;
      let key := (doc_WorldID doc, doc_ID doc) in
      let at_ := match documents d !! key with Some old => doc_CreatedAt old | None => created end in
      match worlds d !! doc_WorldID doc with
      | None => Err errConstraint
      | Some _ => Ok (fill data flags ownership at_)
      end in
    match stored with
    | Err e => (Err e, d)
    | Ok row =>
        (Ok (fill (doc_Data doc) (doc_Flags doc) (doc_Ownership doc) created),
         with_documents (<[(doc_WorldID doc, doc_ID doc) := row]> (documents d)) d)
    end).

(** [splitPath]: dot separated segments of letters, digits, [_] and [-]. *)
Definition segmentByte (c : Ascii.ascii) : bool :=
  isDigit c || isLowerLetter c || isUpperLetter c || (code c =? 95)%nat || (code c =? 45)%nat.

Definition segmentPattern (s : string) : bool :=
  negb (isNil (chars s)) && forallb segmentByte (chars s).

Definition splitPath (path : string) : res (list string) :=
  if bool_decide (path = "") then Err ErrInvalidPath
  else
    let segments := Split "."%char path in
    if forallb segmentPattern segments then Ok segments else Err ErrInvalidPath.

Definition splitPaths (paths : list string) : res (list (list string)) := traverse splitPath paths.

(** [sortedKeys]: insertion of each key into the keys sorted so far. *)
Fixpoint insertKey (k : string) (sorted : list string) : list string :=
  match sorted with
  | [] => [k]
  | k' :: sorted => if String.ltb k k' then k :: k' :: sorted else k' :: insertKey k sorted
  end.

Definition sortedKeys (keys : list string) : list string :=
  foldl (λ sorted k, insertKey k sorted) [] keys.

(** The [data = ...] expression of a patch: the paths of [Unset] are removed,
    then those of [Set] are set in key order. *)
Definition patchData (patch : Patch) (data : json) : res json :=
  removed ← (if isNil (patch_Unset patch) then Ok data
             else paths ← splitPaths (patch_Unset patch); Ok (JSONRemove data paths));
  foldM (λ acc key,
    path ← splitPath key;
    match objGet key (patch_Set patch) with
    | Some value => Ok (JSONSet acc path value)
    | None => Ok acc
    end) removed (sortedKeys (patch_Set patch).*1).

Definition patchRow (now : Time) (patch : Patch) (doc : Document) : res Document :=
  ownership ← match patch_Ownership patch with
              | None => Ok (doc_Ownership doc)
              | Some o => jsonArg o rawObject
              end;
  data ← match doc_Data doc with
         | Raw j =>
             if isNil (patch_Set patch) && isNil (patch_Unset patch) then Ok (Raw j)
             else j' ← patchData patch j; Ok (Raw j')
         | r => Ok r
         end;
  Ok (MkDocument (doc_WorldID doc) (doc_ID doc) (doc_Kind doc) (doc_Subtype doc) (doc_ParentID doc)
        (default (doc_FolderID doc) (patch_FolderID patch))
        (default (doc_Name doc) (patch_Name patch))
        (default (doc_Sort doc) (patch_Sort patch))
        (default (doc_Img doc) (patch_Img patch))
        data (doc_Flags doc) ownership (doc_SourcePack doc) (doc_SchemaVersion doc)
        (doc_CreatedAt doc) now (patch_Seq patch) (doc_DeletedAt doc)).

Definition sqlPatchDocument (now : Time) (worldID id : ID) (patch : Patch) : M conn Document :=
  requireWritable (λ d,
    if IsEmpty patch then (orNotFound (documents d !! (worldID, id)), d)
    else
      (** The paths are validated while the statement is built. *)
      match patchData patch (JObj []) with
      | Err e => (Err e, d)
      | Ok _ =>
          match documents d !! (worldID, id) with
          | None => (Err ErrNotFound, d)
          | Some doc =>
              match patchRow now patch doc with
              | Err e => (Err e, d)
              | Ok row => (Ok row, with_documents (<[(worldID, id) := row]> (documents d)) d)
              end
          end
      end).

Definition deleteTarget (worldID id : ID) (doc : Document) : bool :=
  bool_decide (doc_WorldID doc = worldID) &&
  (bool_decide (doc_ID doc = id) || (bool_decide (doc_ParentID doc = id) && negb (bool_decide (id = "")))).

Definition markDeleted (now : Time) (doc : Document) : Document :=
  MkDocument (doc_WorldID doc) (doc_ID doc) (doc_Kind doc) (doc_Subtype doc) (doc_ParentID doc)
    (doc_FolderID doc) (doc_Name doc) (doc_Sort doc) (doc_Img doc) (doc_Data doc) (doc_Flags doc)
    (doc_Ownership doc) (doc_SourcePack doc) (doc_SchemaVersion doc) (doc_CreatedAt doc)
    (doc_UpdatedAt doc) (doc_UpdatedSeq doc) (Some now).

Definition sqlDeleteDocument (now : Time) (worldID id : ID) (mode : DeleteMode) : M conn unit :=
  requireWritable (λ d,
    let hit doc := match mode with
                   | DeleteHard => deleteTarget worldID id doc
                   | DeleteSoft => deleteTarget worldID id doc && isNone (doc_DeletedAt doc)
                   end in
    if existsb hit (rows (documents d)) then
      let docs := match mode with
                  | DeleteHard => filter (λ kv, hit kv.2 = false) (documents d)
                  | DeleteSoft => (λ doc, if hit doc then markDeleted now doc else doc) <$> documents d
                  end in
      (Ok tt, with_documents docs d)
    else (Err ErrNotFound, d)).

(** *** Events *)

Definition sqlAppendEvent (now : Time) (event : Event) : M conn Z :=
  requireWritable (λ d,
    match worlds d !! event_WorldID event with
    | None => (Err ErrNotFound, d)
    | Some w =>
        let seq := world_EventSeq w + 1 in
        let ts := if IsZero (event_Timestamp event) then now else event_Timestamp event in
        let inserted :=
          payload ← jsonArg (event_Payload event) rawObject;
          audience ← jsonArg (event_Audience event) rawArray;
          undo ← jsonArg (event_Undo event) rawNull;
          match world_events d !! (event_WorldID event, seq) with
          | Some _ => Err errConstraint
          | None => Ok (MkEvent (event_WorldID event) seq ts (event_ActorUserID event)
              (event_Kind event) (event_TargetKind event) (event_TargetID event)
              (event_SceneID event) payload audience undo)
          end in
        let bumped := MkWorld (world_ID w) (world_Slug w) (world_Title w) (world_SystemID w)
          (world_SystemVersion w) (world_DefaultLocale w) (world_ActiveScene w) (world_Settings w)
          seq (world_CreatedAt w) (world_ArchivedAt w) in
        let worlds' := <[event_WorldID event := bumped]> (worlds d) in
        match inserted with
        | Err e => (Err e, with_worlds worlds' d)
        | Ok row => (Ok seq, with_log worlds' (<[(event_WorldID event, seq) := row]> (world_events d)) d)
        end
    end).

Definition sqlEventsSince (c : conn) (worldID : ID) (seq limit : Z) : res (list Event) :=
  Ok (limitTo (effectiveLimit limit)
    (orderBy (λ a b, event_Seq a <=? event_Seq b)
      (filter (λ e, event_WorldID e = worldID ∧ seq < event_Seq e)
        (rows (world_events (tables c)))))).

(** *** Assets *)

Definition defaultAssetLimit : Z := 200.

Definition sqlGetAsset (c : conn) (worldID id : ID) : res Asset :=
  match assets (tables c) !! id with
  | Some a => if bool_decide (asset_WorldID a = worldID) then Ok a else Err ErrNotFound
  | None => Err ErrNotFound
  end.

Definition sqlGetAssetBySHA256 (c : conn) (worldID : ID) (sha256 : string) : res Asset :=
  orNotFound (head (filter (λ a, asset_WorldID a = worldID ∧ asset_SHA256 a = sha256)
    (rows (assets (tables c))))).

(** [ORDER BY created_at DESC, id DESC]. *)
Definition assetLe (a b : Asset) : bool :=
  if timeLe (asset_CreatedAt b) (asset_CreatedAt a)
  then (if timeLe (asset_CreatedAt a) (asset_CreatedAt b)
        then String.leb (asset_ID b) (asset_ID a) else true)
  else false.

Definition sqlListAssets (c : conn) (worldID : ID) (limit : Z) : res (list Asset) :=
  let limit := if (limit <=? 0) || (defaultAssetLimit <? limit) then defaultAssetLimit else limit in
  Ok (limitTo limit (orderBy assetLe
    (filter (λ a, asset_WorldID a = worldID) (rows (assets (tables c)))))).

Definition sqlSumAssetBytes (c : conn) (worldID : ID) : res Z :=
  Ok (foldr (λ a acc, asset_Bytes a + acc) 0
    (filter (λ a, asset_WorldID a = worldID) (rows (assets (tables c))))).

Definition shaTaken (d : db) (a : Asset) : bool :=
  existsb (λ x, bool_decide (asset_WorldID x = asset_WorldID a) &&
                bool_decide (asset_SHA256 x = asset_SHA256 a)) (rows (assets d)).

Definition sqlPutAsset (now : Time) (asset : Asset) : M conn Asset :=
  requireWritable (λ d,
    let created := if IsZero (asset_CreatedAt asset) then now else asset_CreatedAt asset in
    let filled := MkAsset (asset_ID asset) (asset_WorldID asset) (asset_SHA256 asset) (asset_Mime asset)
      (asset_Bytes asset) (asset_Width asset) (asset_Height asset) (asset_DurationMS asset)
      (asset_Variants asset) (asset_UploadedBy asset) created in
    match jsonArg (asset_Variants asset) rawObject with
    | Err e => (Err e, d)
    | Ok variants =>
        match assets d !! asset_ID asset with
        | Some old =>
            let row := MkAsset (asset_ID old) (asset_WorldID old) (asset_SHA256 old) (asset_Mime asset)
              (asset_Bytes asset) (asset_Width asset) (asset_Height asset) (asset_DurationMS asset)
              variants (asset_UploadedBy old) (asset_CreatedAt old) in
            (Ok filled, with_assets (<[asset_ID asset := row]> (assets d)) d)
        | None =>
            match worlds d !! asset_WorldID asset with
            | None => (Err errConstraint, d)
            | Some _ =>
                if shaTaken d asset then (Err ErrAlreadyExists, d)
                else
                  let row := MkAsset (asset_ID asset) (asset_WorldID asset) (asset_SHA256 asset)
                    (asset_Mime asset) (asset_Bytes asset) (asset_Width asset) (asset_Height asset)
                    (asset_DurationMS asset) variants (asset_UploadedBy asset) created in
                  (Ok filled, with_assets (<[asset_ID asset := row]> (assets d)) d)
            end
        end
    end).

Definition sqlDeleteAsset (worldID id : ID) : M conn unit :=
  requireWritable (λ d,
    match assets d !! id with
    | Some a => if bool_decide (asset_WorldID a = worldID)
                then (Ok tt, with_assets (delete id (assets d)) d)
                else (Err ErrNotFound, d)
    | None => (Err ErrNotFound, d)
    end).
End Statements.

(** ** The port, implemented *)

#[export] Instance sqlQuery `{Dialect} : Query conn := {|
  GetWorld := sqlGetWorld; GetUser := sqlGetUser; GetUserByUsername := sqlGetUserByUsername;
  CountUsers := sqlCountUsers; GetUserSession := sqlGetUserSession; GetMember := sqlGetMember;
  ListMembers := sqlListMembers; ListWorlds := sqlListWorlds;
  ListWorldsForUser := sqlListWorldsForUser; GetInviteByTokenHash := sqlGetInviteByTokenHash;
  ListInvites := sqlListInvites; GetDocument := sqlGetDocument; ListDocuments := sqlListDocuments;
  EventsSince := sqlEventsSince; GetAsset := sqlGetAsset; GetAssetBySHA256 := sqlGetAssetBySHA256;
  ListAssets := sqlListAssets; SumAssetBytes := sqlSumAssetBytes
|}.

#[export] Instance sqlTx `{Dialect} : Tx conn := {|
  PutWorld := sqlPutWorld; PutUser := sqlPutUser; PutUserSession := sqlPutUserSession;
  TouchUserSession := sqlTouchUserSession; DeleteUserSession := sqlDeleteUserSession;
  DeleteUserSessionsOf := sqlDeleteUserSessionsOf; PutMember := sqlPutMember;
  DeleteMember := sqlDeleteMember; PutInvite := sqlPutInvite; ConsumeInvite := sqlConsumeInvite;
  RevokeInvite := sqlRevokeInvite; PutDocument := sqlPutDocument;
  PatchDocument := sqlPatchDocument; DeleteDocument := sqlDeleteDocument;
  AppendEvent := sqlAppendEvent; PutAsset := sqlPutAsset; DeleteAsset := sqlDeleteAsset
|}.
