(* ===== verification/SqlLaws.v ===== *)
(** * The SQL store keeps its invariant and implements the port

    [storeOK] is the invariant of the schema: every row sits under its own key,
    the unique columns are unique, the foreign keys resolve, the JSON columns of
    documents hold JSON, and the event log of each world is gapless up to the
    world's sequence number.  Every
    statement that succeeds preserves it, and on such a store the statements
    satisfy the laws of the port. *)

From S2P Require Import Prelude GoStrings Json Perm Storage SqlStore.
From Stdlib Require String.

Local Open Scope Z_scope.

Record storeOK (d : db) : Prop := {
  ok_world_key : map_Forall (λ k w, world_ID w = k) (worlds d);
  ok_doc_key : map_Forall (λ k x, (doc_WorldID x, doc_ID x) = k) (documents d);
  ok_event_key : map_Forall (λ k e, (event_WorldID e, event_Seq e) = k) (world_events d);
  ok_member_key : map_Forall (λ k m, (member_WorldID m, member_UserID m) = k) (world_members d);
  ok_user_key : map_Forall (λ k u, user_ID u = k) (users d);
  ok_session_key : map_Forall (λ k s, session_TokenHash s = k) (user_sessions d);
  ok_invite_key : map_Forall (λ k i, invite_ID i = k) (invites d);
  ok_asset_key : map_Forall (λ k a, asset_ID a = k) (assets d);
  ok_slugs : ∀ i j v w, worlds d !! i = Some v → worlds d !! j = Some w →
    world_Slug v = world_Slug w → i = j;
  ok_usernames : ∀ i j u v, users d !! i = Some u → users d !! j = Some v →
    user_Username u = user_Username v → i = j;
  ok_hashes : ∀ i j u v, invites d !! i = Some u → invites d !! j = Some v →
    invite_TokenHash u = invite_TokenHash v → i = j;
  ok_shas : ∀ i j a b, assets d !! i = Some a → assets d !! j = Some b →
    asset_WorldID a = asset_WorldID b → asset_SHA256 a = asset_SHA256 b → i = j;
  ok_doc_world : map_Forall (λ k _, is_Some (worlds d !! k.1)) (documents d);
  ok_member_world : map_Forall (λ k _, is_Some (worlds d !! k.1)) (world_members d);
  ok_invite_world : map_Forall (λ _ i, is_Some (worlds d !! invite_WorldID i)) (invites d);
  ok_asset_world : map_Forall (λ _ a, is_Some (worlds d !! asset_WorldID a)) (assets d);
  ok_session_user : map_Forall (λ _ s, is_Some (users d !! session_UserID s)) (user_sessions d);
  ok_doc_json : map_Forall (λ _ x, readable x) (documents d);
  ok_log_world : map_Forall (λ k _, is_Some (worlds d !! k.1)) (world_events d);
  ok_log : ∀ i w, worlds d !! i = Some w →
    0 ≤ world_EventSeq w ∧
    ∀ q, is_Some (world_events d !! (i, q)) ↔ 1 ≤ q ≤ world_EventSeq w
}.

Lemma storeOK_empty : storeOK emptyDb.
Proof. split; try apply map_Forall_empty; by intros *; rewrite ?lookup_empty. Qed.

(** ** Rows and keys *)

Lemma elem_of_rows {K A} `{Countable K} (t : gmap K A) x : x ∈ rows t ↔ ∃ k, t !! k = Some x.
Proof.
  unfold rows. rewrite list_elem_of_fmap. split.
  - intros ([k y] & -> & Hin). apply elem_of_map_to_list in Hin. by exists k.
  - intros [k Hk]. exists (k, x). split; [done|]. by apply elem_of_map_to_list.
Qed.

Lemma existsb_rows {K A} `{Countable K} (f : A → bool) (t : gmap K A) k x :
  existsb f (rows t) = false → t !! k = Some x → f x = false.
Proof.
  intros Hf Hk. destruct (f x) eqn:E; [|done]. exfalso.
  assert (existsb f (rows t) = true); [|congruence].
  apply existsb_exists. exists x. split; [|done].
  apply list_elem_of_In, elem_of_rows. by exists k.
Qed.

Lemma rows_key_NoDup {K A B} `{Countable K} (t : gmap K A) (f : A → B) (P : A → Prop) `{∀ x, Decision (P x)} :
  (∀ i j x y, t !! i = Some x → t !! j = Some y → P x → P y → f x = f y → i = j) →
  NoDup (f <$> filter P (rows t)).
Proof.
  intros Hinj. unfold rows. pose proof (NoDup_map_to_list t) as Hd.
  assert (∀ kv, kv ∈ map_to_list t → t !! kv.1 = Some kv.2) as Hl
    by (intros [] ?; by apply elem_of_map_to_list).
  induction (map_to_list t) as [|[k x] l IH]; [constructor|].
  change (snd <$> (k, x) :: l) with (x :: (snd <$> l)).
  apply NoDup_cons in Hd as [Hn Hd].
  assert (NoDup (f <$> filter P (snd <$> l))) as Hrec by (apply IH; [done|]; intros; apply Hl; by right).
  rewrite filter_cons. destruct (decide (P x)) as [Px|]; [|done]. cbn. constructor; [|done].
  intros (y & Hf & Hin)%list_elem_of_fmap. apply list_elem_of_filter in Hin as [Py Hin].
  apply list_elem_of_fmap in Hin as ([k' y'] & -> & Hin). cbn in *.
  assert (k = k') as ->.
  { apply (Hinj k k' x y'); try done; [apply (Hl (k, x)); left|apply (Hl (k', y')); by right]. }
  assert (t !! k' = Some x) as H1 by (apply (Hl (k', x)); left).
  assert (t !! k' = Some y') as H2 by (apply (Hl (k', y')); by right).
  apply Hn. congruence.
Qed.

Lemma orderBy_perm {A} (le : A → A → bool) l : orderBy le l ≡ₚ l.
Proof. apply merge_sort_Permutation. Qed.

Lemma elem_of_orderBy {A} (le : A → A → bool) l x : x ∈ orderBy le l ↔ x ∈ l.
Proof. by rewrite orderBy_perm. Qed.

Lemma elem_of_limitTo {A} n (l : list A) x : x ∈ limitTo n l → x ∈ l.
Proof. unfold limitTo. intros H. apply elem_of_take in H as (i & Hi & _). by eapply list_elem_of_lookup_2. Qed.

Lemma head_filter {A} (P : A → Prop) `{∀ x, Decision (P x)} (l : list A) x :
  head (filter P l) = Some x → P x ∧ x ∈ l.
Proof.
  intros Hh. assert (x ∈ filter P l) as Hx by (destruct (filter P l); naive_solver set_solver).
  by apply list_elem_of_filter in Hx.
Qed.

(** ** Preservation *)

Ltac unwritable :=
  match goal with
  | H : requireWritable _ ?c = (Ok _, _) |- _ =>
      unfold requireWritable in H; destruct (writable c); [|discriminate H]; cbn in H
  end.

Lemma is_Some_insert {K A} `{Countable K} (t : gmap K A) i x k :
  is_Some (t !! k) → is_Some (<[i := x]> t !! k).
Proof. intros Hk. rewrite lookup_insert. case_decide; [by eexists|done]. Qed.

#[export] Hint Resolve is_Some_insert map_Forall_insert_2 map_Forall_delete : store.
#[export] Hint Extern 1 (map_Forall _ (<[_ := _]> _)) => apply map_Forall_insert_2 : store.

Lemma map_Forall_worlds {K A} `{Countable K} (f : K → A → ID) (t : gmap K A) (W : gmap ID World) i w :
  map_Forall (λ k a, is_Some (W !! f k a)) t →
  map_Forall (λ k a, is_Some (<[i := w]> W !! f k a)) t.
Proof. intros Hm k a Hk. apply is_Some_insert. by apply (Hm k a). Qed.

(** Replacing or adding one row keeps a column unique when no other row has its
    value. *)
Lemma unique_insert {K A B} `{Countable K} (f : A → B) (t : gmap K A) k x :
  (∀ i j a b, t !! i = Some a → t !! j = Some b → f a = f b → i = j) →
  (∀ i a, t !! i = Some a → f a = f x → i = k) →
  ∀ i j a b, <[k := x]> t !! i = Some a → <[k := x]> t !! j = Some b → f a = f b → i = j.
Proof.
  intros Hu Hk i j a b. rewrite !lookup_insert. repeat case_decide; subst.
  - done.
  - intros [= <-] Hj Hf. symmetry. by eapply Hk.
  - intros Hi [= <-] Hf. by eapply Hk.
  - apply Hu.
Qed.

(** The fields of [storeOK] a statement does not touch. *)
Ltac keep OK := destruct OK; constructor; cbn in *; try assumption.

Section Preservation.
Context `{Dialect}.

Lemma slugTaken_false d w i v :
  storeOK d → slugTaken d w = false → worlds d !! i = Some v →
  world_Slug v = world_Slug w → i = world_ID w.
Proof.
  intros OK Hs Hi Heq. pose proof (existsb_rows _ _ _ _ Hs Hi) as Hf. cbn in Hf.
  rewrite bool_decide_eq_true_2 in Hf by done. cbn in Hf.
  apply negb_false_iff, bool_decide_eq_true in Hf.
  rewrite <-Hf. symmetry. by apply (ok_world_key d OK).
Qed.

Lemma userTaken_false d u i v :
  storeOK d → userTaken d u = false → users d !! i = Some v →
  user_Username v = user_Username u → i = user_ID u.
Proof.
  intros OK Hs Hi Heq. pose proof (existsb_rows _ _ _ _ Hs Hi) as Hf. cbn in Hf.
  rewrite (bool_decide_eq_true_2 (user_Username v = _)) in Hf by done.
  cbn in Hf. rewrite andb_true_r in Hf. apply negb_false_iff, bool_decide_eq_true in Hf.
  rewrite <-Hf. symmetry. by apply (ok_user_key d OK).
Qed.

(** A world row replaced without touching its log. *)
Lemma storeOK_put_world d w :
  storeOK d →
  (∀ i v, worlds d !! i = Some v → world_Slug v = world_Slug w → i = world_ID w) →
  match worlds d !! world_ID w with
  | Some old => world_EventSeq w = world_EventSeq old
  | None => world_EventSeq w = 0
  end →
  storeOK (with_worlds (<[world_ID w := w]> (worlds d)) d).
Proof.
  intros OK Hslug Hseq. pose proof OK as OK'. keep OK'.
  - by apply map_Forall_insert_2.
  - by apply (unique_insert world_Slug).
  - by apply (map_Forall_worlds (λ k _, k.1)).
  - by apply (map_Forall_worlds (λ k _, k.1)).
  - by apply (map_Forall_worlds (λ _ i, invite_WorldID i)).
  - by apply (map_Forall_worlds (λ _ a, asset_WorldID a)).
  - by apply (map_Forall_worlds (λ k _, k.1)).
  - intros i v. rewrite lookup_insert. case_decide as Hi; [intros [= <-]; subst i|by apply ok_log0].
    destruct (worlds d !! world_ID w) as [old|] eqn:E.
    + rewrite Hseq. by apply ok_log0.
    + rewrite Hseq. split; [lia|]. intros q. split; [|lia].
      intros [e He]. apply ok_log_world0 in He. cbn in He. rewrite E in He. by destruct He.
Qed.

Lemma sqlPutWorld_OK now w c x c' :
  storeOK (tables c) →
  is_Ok (sqlGetWorld c (world_ID w)) ∨ world_EventSeq w = 0 →
  sqlPutWorld now w c = (Ok x, c') → storeOK (tables c').
Proof.
  intros OK Hnew Hput. unfold sqlPutWorld in Hput. unwritable.
  destruct (jsonArg _ _) as [settings|]; cbn in Hput; [|done].
  destruct (slugTaken _ _) eqn:Hs; cbn in Hput; [done|].
  destruct (worlds (tables c) !! world_ID w) as [old|] eqn:E; cbn in Hput; injection Hput as _ <-; cbn.
  - match goal with |- storeOK (with_worlds (<[_ := ?r]> _) _) => apply (storeOK_put_world _ r) end;
      cbn; [done| |by rewrite E].
    intros i v Hi Heq. by apply (slugTaken_false _ _ i v OK Hs).
  - match goal with |- storeOK (with_worlds (<[_ := ?r]> _) _) => apply (storeOK_put_world _ r) end;
      cbn; [done| |rewrite E].
    + intros i v Hi Heq. by apply (slugTaken_false _ _ i v OK Hs).
    + destruct Hnew as [[y Hy]|?]; [|done]. unfold sqlGetWorld in Hy. by rewrite E in Hy.
Qed.

Lemma sqlAppendEvent_spec now e c q c' :
  storeOK (tables c) → sqlAppendEvent now e c = (Ok q, c') →
  ∃ w, worlds (tables c) !! event_WorldID e = Some w ∧ q = world_EventSeq w + 1 ∧
       storeOK (tables c') ∧
       worlds (tables c') !! event_WorldID e = Some
         (MkWorld (world_ID w) (world_Slug w) (world_Title w) (world_SystemID w)
           (world_SystemVersion w) (world_DefaultLocale w) (world_ActiveScene w) (world_Settings w)
           q (world_CreatedAt w) (world_ArchivedAt w)) ∧
       documents (tables c') = documents (tables c) ∧
       world_members (tables c') = world_members (tables c) ∧
       (∃ row, world_events (tables c') = <[(event_WorldID e, q) := row]> (world_events (tables c))
          ∧ event_Kind row = event_Kind e ∧ event_ActorUserID row = event_ActorUserID e
          ∧ event_TargetID row = event_TargetID e).
Proof.
  intros OK Ha. unfold sqlAppendEvent in Ha. unwritable.
  destruct (worlds (tables c) !! event_WorldID e) as [w|] eqn:Ew; cbn in Ha; [|done].
  destruct (jsonArg (event_Payload e) rawObject) as [payload|]; cbn in Ha; [|done].
  destruct (jsonArg (event_Audience e) rawArray) as [audience|]; cbn in Ha; [|done].
  destruct (jsonArg (event_Undo e) rawNull) as [undo|]; cbn in Ha; [|done].
  destruct (world_events (tables c) !! _) eqn:Ee; cbn in Ha; [done|].
  injection Ha as <- <-. exists w. cbn.
  split_and!; try done; [|by rewrite lookup_insert_eq|by eexists].
  pose proof (ok_world_key _ OK _ _ Ew) as Hkey.
  destruct (ok_log _ OK _ _ Ew) as [Hseq Hlog]. keep OK.
  - by apply map_Forall_insert_2.
  - by apply map_Forall_insert_2.
  - apply (unique_insert world_Slug); [done|]. intros i v Hi Heq. cbn in Heq. by eapply ok_slugs0.
  - by apply (map_Forall_worlds (λ k _, k.1)).
  - by apply (map_Forall_worlds (λ k _, k.1)).
  - by apply (map_Forall_worlds (λ _ i, invite_WorldID i)).
  - by apply (map_Forall_worlds (λ _ a, asset_WorldID a)).
  - apply map_Forall_insert_2; [by rewrite lookup_insert_eq|].
    by apply (map_Forall_worlds (λ k _, k.1)).
  - intros i v. rewrite lookup_insert. case_decide as Hi; [intros [= <-]; subst i; cbn|].
    + split; [lia|]. intros q. rewrite lookup_insert. case_decide as Hq.
      * injection Hq as <-. split; [lia|by eexists].
      * rewrite Hlog. split; [lia|]. intros ?. assert (q ≠ world_EventSeq w + 1) by congruence. lia.
    + intros Hv. destruct (ok_log0 _ _ Hv) as [? Hl]. split; [done|]. intros q.
      rewrite lookup_insert_ne by congruence. apply Hl.
Qed.

(** A document row replaced or added under its own key, in a world that
    exists. *)
Lemma storeOK_put_document d x :
  storeOK d → is_Some (worlds d !! doc_WorldID x) → readable x →
  storeOK (with_documents (<[(doc_WorldID x, doc_ID x) := x]> (documents d)) d).
Proof. intros OK Hw Hr. keep OK; by apply map_Forall_insert_2. Qed.

Lemma jsonArg_readable r fallback r' : fallback ≠ RawBad → jsonArg r fallback = Ok r' → r' ≠ RawBad.
Proof. intros Hf. destruct r; cbn; [by intros [= <-]|done|by intros [= <-]]. Qed.

Lemma sqlPutDocument_OK now x c y c' :
  storeOK (tables c) → sqlPutDocument now x c = (Ok y, c') →
  storeOK (tables c') ∧
  (∃ row, documents (tables c') = <[(doc_WorldID x, doc_ID x) := row]> (documents (tables c)) ∧
          doc_WorldID row = doc_WorldID x ∧ doc_ID row = doc_ID x ∧ doc_Kind row = doc_Kind x ∧
          doc_ParentID row = doc_ParentID x ∧ doc_UpdatedSeq row = doc_UpdatedSeq x ∧
          jsonArg (doc_Data x) rawObject = Ok (doc_Data row) ∧
          jsonArg (doc_Ownership x) rawObject = Ok (doc_Ownership row)) ∧
  world_members (tables c') = world_members (tables c) ∧ worlds (tables c') = worlds (tables c).
Proof.
  intros OK Hp. unfold sqlPutDocument in Hp. unwritable.
  destruct (jsonArg (doc_Data x) rawObject) as [data|] eqn:Ed; cbn in Hp; [|done].
  destruct (jsonArg (doc_Flags x) rawObject) as [flags|] eqn:Ef; cbn in Hp; [|done].
  destruct (jsonArg (doc_Ownership x) rawObject) as [own|] eqn:Eo; cbn in Hp; [|done].
  destruct (worlds (tables c) !! doc_WorldID x) as [w|] eqn:Ew; cbn in Hp; [|done].
  injection Hp as _ <-. cbn. split; [|split; [by eexists|done]].
  match goal with |- storeOK (with_documents (<[_ := ?r]> _) _) =>
    apply (storeOK_put_document _ r) end; cbn; [done|by rewrite Ew|].
  by split_and!; (eapply jsonArg_readable; [|eassumption]).
Qed.

Lemma patchRow_key now p x y : patchRow now p x = Ok y →
  doc_WorldID y = doc_WorldID x ∧ doc_ID y = doc_ID x ∧ doc_Kind y = doc_Kind x ∧
  doc_ParentID y = doc_ParentID x ∧ doc_UpdatedSeq y = patch_Seq p.
Proof. unfold patchRow. intros. inv_ok. done. Qed.

Lemma patchRow_readable now p x y : readable x → patchRow now p x = Ok y → readable y.
Proof.
  intros (Hd & Hf & Ho). unfold patchRow. intros (o & Ep & (d & Edata & [= <-])%bind_Ok)%bind_Ok.
  unfold readable. cbn. split_and!; [|done|].
  - destruct (doc_Data x); [by injection Edata as <-|done|]. destruct (_ && _); [by injection Edata as <-|].
    by apply bind_Ok in Edata as (j' & _ & [= <-]).
  - destruct (patch_Ownership p); [by eapply (jsonArg_readable _ rawObject)|by injection Ep as <-].
Qed.

Lemma sqlPatchDocument_OK now w i p c x c' :
  storeOK (tables c) → sqlPatchDocument now w i p c = (Ok x, c') →
  storeOK (tables c') ∧ documents (tables c') !! (w, i) = Some x.
Proof.
  intros OK Hp. unfold sqlPatchDocument in Hp. unwritable.
  destruct (IsEmpty p).
  - unfold orNotFound in Hp. destruct (documents _ !! _) eqn:E; [|done].
    injection Hp as <- <-. done.
  - destruct (patchData _ _); [|done]. destruct (documents _ !! _) as [old|] eqn:E; [|done].
    destruct (patchRow now p old) as [row|] eqn:Er; [|done]. injection Hp as <- <-. cbn.
    pose proof (patchRow_readable _ _ _ _ (ok_doc_json _ OK _ _ E) Er) as Hread.
    apply patchRow_key in Er as (Hw & Hi & _).
    pose proof (ok_doc_key _ OK _ _ E) as Hk. injection Hk as Hk1 Hk2.
    rewrite lookup_insert_eq. split; [|done].
    replace (w, i) with (doc_WorldID row, doc_ID row) by congruence.
    apply storeOK_put_document; [done| |done]. rewrite Hw, Hk1.
    apply (ok_doc_world _ OK _ _ E).
Qed.

Lemma sqlDeleteDocument_OK now w i m c x c' :
  storeOK (tables c) → sqlDeleteDocument now w i m c = (Ok x, c') → storeOK (tables c').
Proof.
  intros OK Hp. unfold sqlDeleteDocument in Hp. unwritable.
  destruct (existsb _ _); [|done]. injection Hp as _ <-. cbn. destruct m; keep OK.
  - intros k y. rewrite lookup_fmap, fmap_Some. intros (z & Hz & ->). apply ok_doc_key0 in Hz.
    by case_match.
  - intros k y. rewrite lookup_fmap, fmap_Some. intros (z & Hz & ->). by apply ok_doc_world0 in Hz.
  - intros k y. rewrite lookup_fmap, fmap_Some. intros (z & Hz & ->). apply ok_doc_json0 in Hz.
    by case_match.
  - intros k y [Hz _]%map_lookup_filter_Some. by apply ok_doc_key0.
  - intros k y [Hz _]%map_lookup_filter_Some. by apply ok_doc_world0 in Hz.
  - intros k y [Hz _]%map_lookup_filter_Some. by apply ok_doc_json0 in Hz.
Qed.

Lemma sqlPutMember_OK now m c x c' :
  storeOK (tables c) → sqlPutMember now m c = (Ok x, c') →
  storeOK (tables c') ∧
  ∃ row, world_members (tables c')
           = <[(member_WorldID m, member_UserID m) := row]> (world_members (tables c)) ∧
         member_Role row = member_Role m.
Proof.
  intros OK Hp. unfold sqlPutMember in Hp. unwritable.
  destruct (world_members _ !! _) as [old|] eqn:Eo; [|destruct (worlds _ !! _) as [w|] eqn:Ew; [|done]];
    injection Hp as _ <-; cbn; (split; [|by eexists]); keep OK; apply map_Forall_insert_2; try done.
  - by apply (ok_member_key0 _ old Eo).
  - by apply (ok_member_world0 _ old Eo).
Qed.

Lemma sqlDeleteMember_OK w u c x c' :
  storeOK (tables c) → sqlDeleteMember w u c = (Ok x, c') → storeOK (tables c').
Proof.
  intros OK Hp. unfold sqlDeleteMember in Hp. unwritable.
  destruct (world_members _ !! _); [|done]. injection Hp as _ <-. cbn.
  keep OK; by apply map_Forall_delete.
Qed.

Lemma sqlPutUser_OK now u c x c' :
  storeOK (tables c) → sqlPutUser now u c = (Ok x, c') →
  storeOK (tables c') ∧
  ∃ row, users (tables c') = <[user_ID u := row]> (users (tables c)) ∧
         user_Username row = user_Username u ∧ user_PasswordHash row = user_PasswordHash u ∧
         user_IsAdmin row = user_IsAdmin u ∧ user_DisabledAt row = user_DisabledAt u.
Proof.
  intros OK Hp. unfold sqlPutUser in Hp. unwritable.
  destruct (userTaken _ _) eqn:Ht; [done|]. injection Hp as _ <-. cbn.
  split; [|by eexists]. pose proof OK as OK'. keep OK.
  - by apply map_Forall_insert_2.
  - apply (unique_insert user_Username); [done|]. intros i v Hi Heq.
    by apply (userTaken_false _ u i v OK' Ht).
  - intros k s Hk. apply is_Some_insert. by apply (ok_session_user0 k s).
Qed.

Lemma sqlPutUserSession_OK now x c y c' :
  storeOK (tables c) → sqlPutUserSession now x c = (Ok y, c') → storeOK (tables c').
Proof.
  intros OK Hp. unfold sqlPutUserSession in Hp. unwritable.
  destruct (user_sessions _ !! _) as [old|] eqn:Eo; [|destruct (users _ !! _) as [w|] eqn:Ew; [|done]];
    injection Hp as _ <-; cbn; keep OK; apply map_Forall_insert_2; try done; cbn;
    [by apply ok_session_key0|by apply (ok_session_user0 _ old Eo)].
Qed.

Lemma sqlTouchUserSession_OK h t c x c' :
  storeOK (tables c) → sqlTouchUserSession h t c = (Ok x, c') → storeOK (tables c').
Proof.
  intros OK Hp. unfold sqlTouchUserSession in Hp. unwritable. injection Hp as _ <-. cbn.
  keep OK; intros k s; rewrite lookup_alter; case_decide; subst; [|apply ok_session_key0| |apply ok_session_user0];
    intros (z & Hz & ->)%fmap_Some; cbn; [by apply ok_session_key0|by apply (ok_session_user0 k z Hz)].
Qed.

Lemma sqlDeleteUserSession_OK h c x c' :
  storeOK (tables c) → sqlDeleteUserSession h c = (Ok x, c') → storeOK (tables c').
Proof.
  intros OK Hp. unfold sqlDeleteUserSession in Hp. unwritable. injection Hp as _ <-. cbn.
  keep OK; by apply map_Forall_delete.
Qed.

Lemma sqlDeleteUserSessionsOf_OK u c x c' :
  storeOK (tables c) → sqlDeleteUserSessionsOf u c = (Ok x, c') → storeOK (tables c').
Proof.
  intros OK Hp. unfold sqlDeleteUserSessionsOf in Hp. unwritable. injection Hp as _ <-. cbn.
  keep OK; intros k y [Hz _]%map_lookup_filter_Some;
    [by apply ok_session_key0|by apply (ok_session_user0 k)].
Qed.

(** What the session statements do to the rows the service reads. *)
Lemma sqlPutUser_sessions now u c x c' h :
  sqlPutUser now u c = (Ok x, c') → sqlGetUserSession c' h = sqlGetUserSession c h.
Proof.
  intros Hp. unfold sqlPutUser in Hp. unwritable. destruct (userTaken _ _); [done|].
  by injection Hp as _ <-.
Qed.

Lemma sqlPutUserSession_rows now x c y c' :
  sqlPutUserSession now x c = (Ok y, c') →
  (∀ i, sqlGetUser c' i = sqlGetUser c i) ∧
  (∀ h, h ≠ session_TokenHash x → sqlGetUserSession c' h = sqlGetUserSession c h) ∧
  (sqlGetUserSession c (session_TokenHash x) = Err ErrNotFound →
   ∃ r, sqlGetUserSession c' (session_TokenHash x) = Ok r ∧
        session_UserID r = session_UserID x ∧ session_ExpiresAt r = session_ExpiresAt x).
Proof.
  intros Hp. unfold sqlPutUserSession in Hp. unwritable.
  unfold sqlGetUser, sqlGetUserSession.
  destruct (user_sessions _ !! _) as [old|] eqn:Eo; [|destruct (users _ !! _) as [w|] eqn:Ew; [|done]];
    injection Hp as _ <-; cbn; (split_and!; [done|intros h Hh; by rewrite lookup_insert_ne|]);
    rewrite lookup_insert_eq; [done|]. intros _. by eexists.
Qed.

Lemma sqlDeleteUserSession_rows h c x c' :
  sqlDeleteUserSession h c = (Ok x, c') →
  (∀ i, sqlGetUser c' i = sqlGetUser c i) ∧ sqlGetUserSession c' h = Err ErrNotFound ∧
  (∀ h', h' ≠ h → sqlGetUserSession c' h' = sqlGetUserSession c h').
Proof.
  intros Hp. unfold sqlDeleteUserSession in Hp. unwritable. injection Hp as _ <-.
  unfold sqlGetUser, sqlGetUserSession. cbn. split_and!; [done|by rewrite lookup_delete_eq|].
  intros h' Hh. by rewrite lookup_delete_ne.
Qed.

Lemma sqlDeleteUserSessionsOf_rows u c x c' :
  sqlDeleteUserSessionsOf u c = (Ok x, c') →
  (∀ i, sqlGetUser c' i = sqlGetUser c i) ∧
  (∀ h r, sqlGetUserSession c h = Ok r →
     sqlGetUserSession c' h = if decide (session_UserID r = u) then Err ErrNotFound else Ok r).
Proof.
  intros Hp. unfold sqlDeleteUserSessionsOf in Hp. unwritable. injection Hp as _ <-.
  unfold sqlGetUser, sqlGetUserSession. cbn. split; [done|]. intros h r Hr.
  destruct (user_sessions _ !! h) as [r'|] eqn:E; [|done]. injection Hr as ->.
  destruct (decide (session_UserID r = u)) as [Hu|Hu].
  - rewrite (proj2 (map_lookup_filter_None _ _ _)); [done|]. right. intros z Hz.
    rewrite E in Hz. injection Hz as <-. cbn. tauto.
  - by rewrite (proj2 (map_lookup_filter_Some _ _ _ r)).
Qed.

(** An invite row replaced by one that differs in nothing a constraint sees. *)
Lemma storeOK_alter_invite d id old row :
  storeOK d → invites d !! id = Some old →
  invite_ID row = invite_ID old → invite_TokenHash row = invite_TokenHash old →
  invite_WorldID row = invite_WorldID old →
  storeOK (with_invites (<[id := row]> (invites d)) d).
Proof.
  intros OK Ho Hi Hh Hw. keep OK.
  - apply map_Forall_insert_2; [|done]. rewrite Hi. by apply ok_invite_key0.
  - apply (unique_insert invite_TokenHash); [done|]. intros i a Ha Heq.
    eapply ok_hashes0; [done..|congruence].
  - apply map_Forall_insert_2; [|done]. rewrite Hw. by apply (ok_invite_world0 id).
Qed.

Lemma sqlPutInvite_OK now i c x c' :
  storeOK (tables c) → sqlPutInvite now i c = (Ok x, c') → storeOK (tables c').
Proof.
  intros OK Hp. unfold sqlPutInvite in Hp. unwritable.
  destruct (invites _ !! _) as [old|] eqn:Eo.
  - injection Hp as _ <-. cbn. by eapply storeOK_alter_invite.
  - destruct (worlds _ !! _) as [w|] eqn:Ew; [|done].
    destruct (hashTaken _ _) eqn:Ht; [done|]. injection Hp as _ <-. cbn. keep OK.
    + by apply map_Forall_insert_2.
    + apply (unique_insert invite_TokenHash); [done|]. intros j a Ha Heq. exfalso.
      pose proof (existsb_rows _ _ _ _ Ht Ha) as Hf. cbn in Hf.
      by rewrite bool_decide_eq_true_2 in Hf.
    + apply map_Forall_insert_2; [|done]. cbn. by rewrite Ew.
Qed.

Lemma sqlConsumeInvite_spec w i c x c' :
  storeOK (tables c) → sqlConsumeInvite w i c = (Ok x, c') →
  storeOK (tables c') ∧
  ∃ old row, invites (tables c) !! i = Some old ∧ inviteSpendable w old = true ∧
    invites (tables c') = <[i := row]> (invites (tables c)) ∧
    invite_Uses row = invite_Uses old + 1 ∧ invite_MaxUses row = invite_MaxUses old.
Proof.
  intros OK Hp. unfold sqlConsumeInvite in Hp. unwritable.
  destruct (invites _ !! _) as [old|] eqn:Eo; [|done].
  destruct (inviteSpendable w old) eqn:Es; [|done]. injection Hp as _ <-. cbn.
  split; [by eapply storeOK_alter_invite|by do 2 eexists].
Qed.

Lemma sqlRevokeInvite_OK now w i c x c' :
  storeOK (tables c) → sqlRevokeInvite now w i c = (Ok x, c') → storeOK (tables c').
Proof.
  intros OK Hp. unfold sqlRevokeInvite in Hp. unwritable.
  destruct (invites _ !! _) as [old|] eqn:Eo; [|done].
  destruct (_ && _); [|done]. injection Hp as _ <-. cbn. by eapply storeOK_alter_invite.
Qed.

Lemma sqlPutAsset_OK now a c x c' :
  storeOK (tables c) → sqlPutAsset now a c = (Ok x, c') → storeOK (tables c').
Proof.
  intros OK Hp. unfold sqlPutAsset in Hp. unwritable.
  destruct (jsonArg _ _) as [v|]; [|done].
  destruct (assets _ !! _) as [old|] eqn:Eo.
  - injection Hp as _ <-. cbn. keep OK.
    + apply map_Forall_insert_2; [|done]. cbn. apply (ok_asset_key0 _ _ Eo).
    + intros i j y z. rewrite !lookup_insert.
      repeat case_decide; subst; intros Hy Hz; simplify_eq/=; intros; try done; by eapply ok_shas0.
    + apply map_Forall_insert_2; [|done]. cbn. by apply (ok_asset_world0 _ old Eo).
  - destruct (worlds _ !! _) as [w|] eqn:Ew; [|done].
    destruct (shaTaken _ _) eqn:Ht; [done|]. injection Hp as _ <-. cbn. keep OK.
    + by apply map_Forall_insert_2.
    + assert (∀ k y, assets (tables c) !! k = Some y →
        asset_WorldID y = asset_WorldID a → asset_SHA256 y = asset_SHA256 a → False) as Hno.
      { intros k y Hk Hw Hs. pose proof (existsb_rows _ _ _ _ Ht Hk) as Hf. cbn in Hf.
        by rewrite !bool_decide_eq_true_2 in Hf. }
      intros i j y z. rewrite !lookup_insert.
      repeat case_decide; subst; intros Hy Hz; simplify_eq/=; intros; try done;
        [by destruct (Hno _ _ Hz)|by destruct (Hno _ _ Hy)|by eapply ok_shas0].
    + apply map_Forall_insert_2; [|done]. cbn. by rewrite Ew.
Qed.

Lemma sqlDeleteAsset_OK w i c x c' :
  storeOK (tables c) → sqlDeleteAsset w i c = (Ok x, c') → storeOK (tables c').
Proof.
  intros OK Hp. unfold sqlDeleteAsset in Hp. unwritable.
  destruct (assets _ !! _) as [a|] eqn:Ea; [|done]. destruct (bool_decide _); [|done].
  injection Hp as _ <-. cbn. keep OK; try by apply map_Forall_delete.
  intros j k y z. rewrite !lookup_delete. repeat case_decide; try done. apply ok_shas0.
Qed.
End Preservation.

(** ** The laws of the port *)

Lemma filterMatches_spec w f x : filterMatches w f x = true ↔ matchesFilter w f x.
Proof.
  unfold filterMatches, matchesFilter.
  rewrite !andb_true_iff, !orb_true_iff, !bool_decide_eq_true.
  assert ((if 0 <? filter_UpdatedSince f then filter_UpdatedSince f <? doc_UpdatedSeq x else true)
          = true ↔ (0 < filter_UpdatedSince f → filter_UpdatedSince f < doc_UpdatedSeq x)) as ->.
  { destruct (Z.ltb_spec 0 (filter_UpdatedSince f)); [|split; [lia|done]].
    rewrite Z.ltb_lt. split; [done|]. by intros Hx; apply Hx. }
  assert (∀ (o : option string) i, (match o with
      | None => true
      | Some p => bool_decide (i = p) && negb (bool_decide (p = ""))
      end = true) ↔ (∀ p, o = Some p → i = p ∧ p ≠ "")) as Ho.
  { intros [p|] i; [|done]. rewrite andb_true_iff, negb_true_iff, bool_decide_eq_true, bool_decide_eq_false.
    split; [by intros ? ? [= <-]|]. intros Hx. by apply Hx. }
  rewrite !Ho.
  assert (isNone (doc_DeletedAt x) = true ↔ doc_DeletedAt x = None) as ->
    by (by destruct (doc_DeletedAt x)).
  destruct (decide (filter_Kind f = "")), (decide (filter_Subtype f = "")),
    (filter_IncludeDeleted f); intuition congruence.
Qed.

Lemma StronglySorted_take {A} (R : relation A) n l : StronglySorted R l → StronglySorted R (take n l).
Proof.
  intros Hs. revert n; induction Hs as [|x l Hs IH Hall]; intros [|n]; try constructor.
  - apply IH.
  - by apply Forall_take.
Qed.

Lemma sorted_lt_of_le (l : list Z) : StronglySorted Z.le l → NoDup l → StronglySorted Z.lt l.
Proof.
  induction 1 as [|x l Hs IH Hall]; intros Hd; [constructor|].
  apply NoDup_cons in Hd as [Hn Hd]. constructor; [by apply IH|].
  rewrite Forall_forall in *. intros y Hy. specialize (Hall y Hy).
  assert (x ≠ y) by (intros ->; done). lia.
Qed.

Lemma StronglySorted_fmap {A B} (f : A → B) (R : relation A) (Q : relation B) l :
  (∀ x y, R x y → Q (f x) (f y)) → StronglySorted R l → StronglySorted Q (f <$> l).
Proof.
  intros HRQ. induction 1 as [|x l Hs IH Hall]; [constructor|].
  constructor; [done|]. apply Forall_fmap. eapply Forall_impl; [done|]. intros y. apply HRQ.
Qed.

(** Of numbers that go up from [q], the first [n] elements hold all that are at
    most [q + n]. *)
Lemma elem_of_take_upto {A} (f : A → Z) q n (l : list A) x :
  StronglySorted Z.lt (f <$> l) → Forall (λ y, q < f y) l → f x ≤ q + n → x ∈ l → x ∈ take (Z.to_nat n) l.
Proof.
  revert q n. induction l as [|y l IH]; intros q n Hs Hq Hle Hin; [by apply elem_of_nil in Hin|].
  rewrite fmap_cons in Hs. apply StronglySorted_inv in Hs as [Hs Hy]. apply Forall_cons in Hq as [Hqy Hq].
  assert (Forall (λ z, f y < f z) l) as Hl by (by rewrite Forall_fmap in Hy).
  assert (f y ≤ f x) as Hyx.
  { apply elem_of_cons in Hin as [->|Hin]; [done|]. rewrite Forall_forall in Hl. specialize (Hl x Hin). cbn in Hl. lia. }
  replace (Z.to_nat n) with (Datatypes.S (Z.to_nat (n - 1))) by lia. cbn [take].
  apply elem_of_cons in Hin as [->|Hin]; [left|]. right. by apply (IH (f y)); [|exact Hl|lia|].
Qed.

Section Laws.
Context `{Dialect}.

(** The events of a world after a number, in the order the query asks for. *)
Lemma sorted_by_seq c w q :
  storeOK (tables c) →
  StronglySorted Z.lt (event_Seq <$> orderBy (λ a b, event_Seq a <=? event_Seq b)
    (filter (λ e, event_WorldID e = w ∧ q < event_Seq e) (rows (world_events (tables c))))).
Proof.
  intros OK. apply sorted_lt_of_le.
  - eapply StronglySorted_fmap; [|apply StronglySorted_merge_sort].
    + intros x y Hxy. apply Z.leb_le, Hxy.
    + intros x y z. unfold leRel. rewrite !Z.leb_le. lia.
    + intros x y. unfold leRel. rewrite !Z.leb_le. lia.
  - rewrite orderBy_perm. apply rows_key_NoDup. intros i j x y Hi Hj [Hx _] [Hy _] Heq.
    apply (ok_event_key _ OK) in Hi. apply (ok_event_key _ OK) in Hj. congruence.
Qed.

Lemma events_sorted c w q n es :
  storeOK (tables c) → sqlEventsSince c w q n = Ok es → StronglySorted Z.lt (event_Seq <$> es).
Proof.
  intros OK [= <-]. unfold limitTo. rewrite fmap_take. by apply StronglySorted_take, sorted_by_seq.
Qed.

Lemma username_found c u x :
  storeOK (tables c) → users (tables c) !! u = Some x →
  sqlGetUserByUsername c (user_Username x) = Ok x.
Proof.
  intros OK Hu. unfold sqlGetUserByUsername.
  assert (x ∈ filter (λ y, user_Username y = user_Username x) (rows (users (tables c)))) as Hx.
  { apply list_elem_of_filter. split; [done|]. apply elem_of_rows. by exists u. }
  destruct (filter _ _) as [|y l] eqn:E; [by apply elem_of_nil in Hx|]. cbn.
  assert (head (filter (λ y, user_Username y = user_Username x) (rows (users (tables c)))) = Some y)
    as [Hy Hin]%head_filter by (by rewrite E).
  apply elem_of_rows in Hin as [k Hk].
  assert (k = u) as -> by (by eapply (ok_usernames _ OK)). congruence.
Qed.

Lemma members_listed c w ms :
  storeOK (tables c) → sqlListMembers c w = Ok ms →
  NoDup (member_UserID <$> ms) ∧ ∀ m, m ∈ ms ↔ sqlGetMember c w (member_UserID m) = Ok m.
Proof.
  intros OK [= <-]. split.
  - rewrite orderBy_perm. apply rows_key_NoDup. intros i j x y Hi Hj Hx Hy Heq.
    apply (ok_member_key _ OK) in Hi. apply (ok_member_key _ OK) in Hj. congruence.
  - intros m. rewrite elem_of_orderBy, list_elem_of_filter, elem_of_rows.
    unfold sqlGetMember, orNotFound. split.
    + intros [Hw [k Hk]]. pose proof (ok_member_key _ OK _ _ Hk) as Hkey. cbn in Hkey.
      rewrite <-Hkey, Hw in Hk. by rewrite Hk.
    + destruct (world_members _ !! _) as [x|] eqn:E; [|done]. intros [= ->].
      pose proof (ok_member_key _ OK _ _ E) as Hkey. cbn in Hkey.
      split; [congruence|by eexists].
Qed.

Lemma documents_listed c w f ds :
  storeOK (tables c) → sqlListDocuments c w f = Ok ds →
  Forall (λ x, matchesFilter w f x ∧ sqlGetDocument c w (doc_ID x) = Ok x) ds.
Proof.
  intros OK [= <-]. apply Forall_forall. intros x Hx%elem_of_limitTo.
  apply elem_of_orderBy, list_elem_of_filter in Hx as [Hf [k Hk]%elem_of_rows].
  split; [by apply filterMatches_spec|].
  apply filterMatches_spec in Hf as [Hw _].
  pose proof (ok_doc_key _ OK _ _ Hk) as Hkey. cbn in Hkey.
  unfold sqlGetDocument. rewrite <-Hkey, Hw in Hk. by rewrite Hk.
Qed.

Lemma orNotFound_Ok {A} (o : option A) x : orNotFound o = Ok x ↔ o = Some x.
Proof. destruct o; cbn; naive_solver. Qed.

#[export] Instance sqlQueryLaws : QueryLaws conn.
Proof.
  refine {| wf := λ c, storeOK (tables c) |}.
  - intros c w x OK Hx%orNotFound_Ok. by apply (ok_world_key _ OK).
  - intros c w x OK Hx%orNotFound_Ok. by apply (ok_user_key _ OK).
  - intros c n x OK Hx%orNotFound_Ok. apply head_filter in Hx as [Hn [k Hk]%elem_of_rows].
    split; [done|]. pose proof (ok_user_key _ OK _ _ Hk) as Hkey. cbn in Hkey. subst k.
    by apply orNotFound_Ok.
  - intros c u x OK Hx%orNotFound_Ok. by apply (username_found c u).
  - intros c w u m OK Hm%orNotFound_Ok. apply (ok_member_key _ OK) in Hm. naive_solver.
  - apply members_listed.
  - intros c w i x OK Hx%orNotFound_Ok. apply (ok_doc_key _ OK) in Hx. naive_solver.
  - apply documents_listed.
  - intros c w q n es OK Hes. split; [|by eapply events_sorted].
    injection Hes as <-. apply Forall_forall. intros e He%elem_of_limitTo.
    by apply elem_of_orderBy, list_elem_of_filter in He as [? _].
Defined.
End Laws.

Section Transactions.
Context `{Dialect}.

#[export] Instance sqlTxLaws : TxLaws conn.
Proof.
  split.
  - intros now w c x c' OK Hn. by apply sqlPutWorld_OK.
  - intros now u c x c' OK Hp. destruct (sqlPutUser_OK _ _ _ _ _ OK Hp) as [OK' (row & Hu & Hf)].
    split; [done|]. cbn. unfold sqlGetUser. rewrite Hu. split.
    + exists row. by rewrite lookup_insert_eq.
    + split; [intros i Hi; by rewrite lookup_insert_ne|].
      intros h. exact (sqlPutUser_sessions _ _ _ _ _ h Hp).
  - intros now x c y c' OK Hp. split; [exact (sqlPutUserSession_OK _ _ _ _ _ OK Hp)|].
    exact (sqlPutUserSession_rows _ _ _ _ _ Hp).
  - intros h c u c' OK Hp. split; [exact (sqlDeleteUserSession_OK _ _ _ _ OK Hp)|].
    exact (sqlDeleteUserSession_rows _ _ _ _ Hp).
  - intros h c u c' OK Hp. split; [exact (sqlDeleteUserSessionsOf_OK _ _ _ _ OK Hp)|].
    exact (sqlDeleteUserSessionsOf_rows _ _ _ _ Hp).
  - intros now m c x c' OK Hp. destruct (sqlPutMember_OK _ _ _ _ _ OK Hp) as [OK' (row & Hm & Hr)].
    split; [done|]. cbn. unfold sqlGetMember. rewrite Hm. split.
    + exists row. by rewrite lookup_insert_eq.
    + intros w u Hne. by rewrite lookup_insert_ne.
  - intros w u c x c'. apply sqlDeleteMember_OK.
  - intros now i c x c'. apply sqlPutInvite_OK.
  - intros w i c x c' OK Hp. exact (proj1 (sqlConsumeInvite_spec _ _ _ _ _ OK Hp)).
  - intros now w i c x c'. apply sqlRevokeInvite_OK.
  - intros now x c y c' OK Hp.
    destruct (sqlPutDocument_OK _ _ _ _ _ OK Hp)
      as (OK' & (row & Hd & _ & _ & Hk & Hpar & Hseq & Hdata & _) & Hm & Hw).
    cbn. unfold sqlGetDocument, sqlGetMember, sqlGetWorld. rewrite Hd, Hm, Hw. split_and!; try done.
    + exists row. rewrite lookup_insert_eq. split_and!; try done. intros j Hj.
      rewrite Hj in Hdata. by injection Hdata.
    + intros w i Hne. by rewrite lookup_insert_ne.
  - intros now w i p c x c' OK Hp. destruct (sqlPatchDocument_OK _ _ _ _ _ _ _ OK Hp) as [? Hx].
    split; [done|]. cbn. unfold sqlGetDocument. by rewrite Hx.
  - intros now w i m c x c'. apply sqlDeleteDocument_OK.
  - intros now e c q c' OK Hp.
    destruct (sqlAppendEvent_spec _ _ _ _ _ OK Hp) as (w & Hw & Hq & OK' & Hw' & Hd & Hm & _).
    cbn. unfold sqlGetWorld, sqlGetDocument, sqlGetMember. rewrite Hw, Hw', Hd, Hm.
    split_and!; try done; by eexists.
  - intros now a c x c'. apply sqlPutAsset_OK.
  - intros w i c x c'. apply sqlDeleteAsset_OK.
  - intros h t c x c'. apply sqlTouchUserSession_OK.
Qed.

Lemma invite_found c h i :
  storeOK (tables c) →
  sqlGetInviteByTokenHash c h = Ok i ↔ ∃ k, invites (tables c) !! k = Some i ∧ invite_TokenHash i = h.
Proof.
  intros OK. unfold sqlGetInviteByTokenHash. split.
  - intros Hi%orNotFound_Ok. apply head_filter in Hi as [Hh [k Hk]%elem_of_rows]. by exists k.
  - intros (k & Hk & Hh).
    assert (i ∈ filter (λ y, invite_TokenHash y = h) (rows (invites (tables c)))) as Hx.
    { apply list_elem_of_filter. split; [done|]. apply elem_of_rows. by exists k. }
    destruct (filter _ _) as [|y l] eqn:E; [by apply elem_of_nil in Hx|]. cbn.
    assert (head (filter (λ y, invite_TokenHash y = h) (rows (invites (tables c)))) = Some y)
      as [Hy Hin]%head_filter by (by rewrite E).
    apply elem_of_rows in Hin as [k' Hk'].
    assert (k' = k) as -> by (eapply (ok_hashes _ OK); [done..|by rewrite Hy, Hh]). congruence.
Qed.

Lemma sqlConsumeInvite_admission w id c y c' :
  storeOK (tables c) → sqlConsumeInvite w id c = (Ok y, c') →
  (∀ w u, sqlGetMember c' w u = sqlGetMember c w u) ∧
  (∀ h i, sqlGetInviteByTokenHash c h = Ok i →
     sqlGetInviteByTokenHash c' h = Ok (if decide (invite_ID i = id) then usedOnce i else i)) ∧
  (∀ h i, sqlGetInviteByTokenHash c h = Ok i → invite_ID i = id →
     invite_RevokedAt i = None ∧ (invite_MaxUses i = 0 ∨ invite_Uses i < invite_MaxUses i)).
Proof.
  intros OK Hp. pose proof (proj1 (sqlConsumeInvite_spec _ _ _ _ _ OK Hp)) as OK'.
  unfold sqlConsumeInvite in Hp. unwritable.
  destruct (invites (tables c) !! id) as [old|] eqn:Eo; [|done].
  destruct (inviteSpendable w old) eqn:Es; [|done]. injection Hp as _ <-.
  pose proof (ok_invite_key _ OK _ _ Eo) as Hid. cbn in Hid.
  split_and!; [done| |].
  - intros h i (k & Hk & Hh)%(invite_found c h i OK). apply (invite_found _ _ _ OK'). cbn.
    pose proof (ok_invite_key _ OK _ _ Hk) as Hkey. cbn in Hkey. exists k.
    case_decide as Hd.
    + assert (k = id) as -> by congruence. rewrite lookup_insert_eq.
      assert (i = old) as -> by congruence. done.
    + rewrite lookup_insert_ne by congruence. done.
  - intros h i (k & Hk & Hh)%(invite_found c h i OK) Hi.
    pose proof (ok_invite_key _ OK _ _ Hk) as Hkey. cbn in Hkey.
    assert (i = old) as -> by congruence. unfold inviteSpendable in Es.
    apply andb_true_iff in Es as [[_ Hr]%andb_true_iff Hu]. split; [by destruct (invite_RevokedAt old)|].
    apply orb_true_iff in Hu as [Hu|Hu]; [left|right]; lia.
Qed.

#[export] Instance sqlAdmissionLaws : AdmissionLaws conn.
Proof.
  split; cbn.
  - intros now x c y c' Hp. unfold sqlPutWorld in Hp. unwritable.
    destruct (jsonArg _ _); [|done]. destruct (slugTaken _ _); [done|].
    destruct (worlds (tables c) !! _); by injection Hp as <- <-.
  - intros now x c y c' Hp. unfold sqlPutUser in Hp. unwritable.
    destruct (userTaken _ _); [done|]. by injection Hp as <- <-.
  - intros now x c y c' Hp. unfold sqlPutUserSession in Hp. unwritable.
    destruct (user_sessions _ !! _); [|destruct (users _ !! _); [|done]]; by injection Hp as _ <-.
  - intros now x c y c' Hp. unfold sqlPutMember in Hp. unwritable.
    destruct (world_members _ !! _); [|destruct (worlds _ !! _); [|done]]; by injection Hp as _ <-.
  - intros w u c y c' Hp. unfold sqlDeleteMember in Hp. unwritable.
    destruct (world_members _ !! _); [|done]. injection Hp as _ <-. unfold sqlGetMember. cbn.
    rewrite lookup_delete_eq. split; [done|]. intros w' u' Hne. by rewrite lookup_delete_ne.
  - intros now x c y c' Hp. unfold sqlPutInvite in Hp. unwritable.
    destruct (invites _ !! _); [by injection Hp as _ <-|].
    destruct (worlds _ !! _); [|done]. destruct (hashTaken _ _); [done|]. by injection Hp as _ <-.
  - intros now w i c y c' Hp. unfold sqlRevokeInvite in Hp. unwritable.
    destruct (invites _ !! _); [|done]. destruct (_ && _); [|done]. by injection Hp as _ <-.
  - apply sqlConsumeInvite_admission.
  - intros c ws w x OK [= <-] Hx%orNotFound_Ok. apply elem_of_orderBy, elem_of_rows. by exists w.
  - intros now x c y c' OK Hnone Hp. unfold sqlPutWorld in Hp. unwritable.
    destruct (jsonArg _ _); [|done]. destruct (slugTaken _ _); [done|].
    unfold sqlGetWorld in *. destruct (worlds (tables c) !! world_ID x) eqn:E; [done|].
    injection Hp as _ <-. cbn. rewrite lookup_insert_eq. by eexists.
Qed.

Lemma limitTo_short {A} n (l : list A) x : Z.of_nat (length (limitTo n l)) < n → x ∈ l → x ∈ limitTo n l.
Proof. unfold limitTo. rewrite length_take. intros Hn Hx. rewrite take_ge by lia. done. Qed.

Lemma sqlPutDocument_keeps now x c y c' :
  sqlPutDocument now x c = (Ok y, c') →
  keepsDocument x y ∧ ∃ row, documents (tables c') !! (doc_WorldID x, doc_ID x) = Some row ∧ keepsDocument x row.
Proof.
  intros Hp. unfold sqlPutDocument in Hp. unwritable.
  destruct (jsonArg (doc_Data x) rawObject) as [data|] eqn:Ed; cbn in Hp; [|done].
  destruct (jsonArg (doc_Flags x) rawObject) as [flags|]; cbn in Hp; [|done].
  destruct (jsonArg (doc_Ownership x) rawObject) as [own|] eqn:Eo; cbn in Hp; [|done].
  destruct (worlds (tables c) !! doc_WorldID x) as [w|]; cbn in Hp; [|done]. injection Hp as <- <-. cbn.
  split; [done|]. eexists. split; [apply lookup_insert_eq|]. unfold keepsDocument. cbn. split_and!; try done.
  - intros j Hj. rewrite Hj in Ed. by injection Ed.
  - intros j Hj. rewrite Hj in Eo. by injection Eo.
Qed.

Lemma sqlPutDocument_stored now x c y c' :
  storeOK (tables c) → sqlPutDocument now x c = (Ok y, c') →
  storeOK (tables c') ∧ keepsDocument x y ∧
  (∃ row, sqlGetDocument c' (doc_WorldID x) (doc_ID x) = Ok row ∧ keepsDocument x row) ∧
  (∀ w i, (w, i) ≠ (doc_WorldID x, doc_ID x) → sqlGetDocument c' w i = sqlGetDocument c w i) ∧
  (∀ w u, sqlGetMember c' w u = sqlGetMember c w u) ∧ (∀ w, sqlGetWorld c' w = sqlGetWorld c w).
Proof.
  intros OK Hp. destruct (sqlPutDocument_keeps _ _ _ _ _ Hp) as [Hy (row & Hrow & Hk)].
  destruct (sqlPutDocument_OK _ _ _ _ _ OK Hp) as (OK' & (row' & Hd & _) & Hm & Hw).
  unfold sqlGetDocument, sqlGetMember, sqlGetWorld. rewrite Hm, Hw. split_and!; try done.
  - exists row. by rewrite Hrow.
  - intros w i Hne. by rewrite Hd, lookup_insert_ne.
Qed.

Lemma sqlListDocuments_complete c w f ds x :
  storeOK (tables c) → sqlListDocuments c w f = Ok ds → filter_Limit f = 0 →
  Z.of_nat (length ds) < defaultLimit → sqlGetDocument c w (doc_ID x) = Ok x → matchesFilter w f x → x ∈ ds.
Proof.
  intros OK [= <-] Hl. rewrite Hl. cbn. intros Hn Hx%orNotFound_Ok Hf.
  apply limitTo_short; [done|]. apply elem_of_orderBy, list_elem_of_filter.
  split; [by apply filterMatches_spec|]. apply elem_of_rows. by exists (w, doc_ID x).
Qed.

#[export] Instance sqlDocumentLaws : DocumentLaws conn := {|
  list_limit := defaultLimit;
  PutDocument_stored := sqlPutDocument_stored;
  ListDocuments_complete := sqlListDocuments_complete
|}.

(** Assets. *)
Lemma asset_found c w i a :
  storeOK (tables c) → sqlGetAsset c w i = Ok a ↔ assets (tables c) !! i = Some a ∧ asset_WorldID a = w.
Proof.
  intros OK. unfold sqlGetAsset. destruct (assets (tables c) !! i) as [b|]; [|by split; [|intros [? _]]].
  case_bool_decide as Hw; split; try done; naive_solver.
Qed.

Lemma sqlGetAsset_key c w i a :
  storeOK (tables c) → sqlGetAsset c w i = Ok a → asset_ID a = i ∧ asset_WorldID a = w.
Proof. intros OK [Ha Hw]%(asset_found _ _ _ _ OK). split; [by apply (ok_asset_key _ OK i a)|done]. Qed.

Lemma sqlGetAssetBySHA256_key c w h a :
  storeOK (tables c) → sqlGetAssetBySHA256 c w h = Ok a →
  asset_SHA256 a = h ∧ sqlGetAsset c w (asset_ID a) = Ok a.
Proof.
  intros OK Ha%orNotFound_Ok. apply head_filter in Ha as [[Hw Hh] [k Hk]%elem_of_rows].
  split; [done|]. apply (asset_found _ _ _ _ OK). by rewrite (ok_asset_key _ OK k a Hk).
Qed.

Lemma sqlGetAssetBySHA256_found c w i a :
  storeOK (tables c) → sqlGetAsset c w i = Ok a → sqlGetAssetBySHA256 c w (asset_SHA256 a) = Ok a.
Proof.
  intros OK [Ha Hw]%(asset_found _ _ _ _ OK). unfold sqlGetAssetBySHA256.
  set (P := λ x, asset_WorldID x = w ∧ asset_SHA256 x = asset_SHA256 a).
  assert (a ∈ filter P (rows (assets (tables c)))) as Hx.
  { apply list_elem_of_filter. split; [by split|]. apply elem_of_rows. by exists i. }
  destruct (filter P (rows (assets (tables c)))) as [|b l] eqn:E; [by apply elem_of_nil in Hx|].
  assert (b ∈ filter P (rows (assets (tables c)))) as Hb by (rewrite E; left).
  apply list_elem_of_filter in Hb as [[Hbw Hbh] [k Hk]%elem_of_rows]. cbn. f_equal.
  assert (i = k) as <- by (by apply (ok_shas _ OK i k a b); rewrite ?Hbw, ?Hbh).
  congruence.
Qed.

Definition sumBytes (l : list Asset) : Z := foldr (λ a acc, asset_Bytes a + acc) 0 l.

Lemma sqlSum c w :
  sqlSumAssetBytes c w = Ok (sumBytes (filter (λ a, asset_WorldID a = w) (rows (assets (tables c))))).
Proof. done. Qed.

Lemma sumBytes_perm l k : l ≡ₚ k → sumBytes l = sumBytes k.
Proof. unfold sumBytes. induction 1; cbn [foldr] in *; lia. Qed.

Lemma sumBytes_insert (t : gmap ID Asset) i a w :
  t !! i = None →
  sumBytes (filter (λ x, asset_WorldID x = w) (rows (<[i := a]> t))) =
  (if decide (asset_WorldID a = w) then asset_Bytes a else 0) + sumBytes (filter (λ x, asset_WorldID x = w) (rows t)).
Proof.
  intros Hi. assert (rows (<[i := a]> t) ≡ₚ a :: rows t) as Hp.
  { unfold rows. by rewrite map_to_list_insert. }
  rewrite (sumBytes_perm _ (filter (λ x, asset_WorldID x = w) (a :: rows t))) by (by rewrite Hp).
  rewrite filter_cons. by case_decide.
Qed.

Lemma sqlPutAsset_fresh now a c x c' :
  storeOK (tables c) → (∀ w, sqlGetAsset c w (asset_ID a) = Err ErrNotFound) →
  sqlPutAsset now a c = (Ok x, c') →
  storeOK (tables c') ∧ keepsAsset a x ∧
  (∃ row, sqlGetAsset c' (asset_WorldID a) (asset_ID a) = Ok row ∧ keepsAsset a row) ∧
  (∀ w, w ≠ asset_WorldID a → sqlGetAsset c' w (asset_ID a) = Err ErrNotFound) ∧
  (∀ w i, i ≠ asset_ID a → sqlGetAsset c' w i = sqlGetAsset c w i) ∧
  (∀ w u, sqlGetMember c' w u = sqlGetMember c w u) ∧
  (∀ n, sqlSumAssetBytes c (asset_WorldID a) = Ok n →
     sqlSumAssetBytes c' (asset_WorldID a) = Ok (n + asset_Bytes a)) ∧
  (∀ w, w ≠ asset_WorldID a → sqlSumAssetBytes c' w = sqlSumAssetBytes c w).
Proof.
  intros OK Hfresh Hp. pose proof (sqlPutAsset_OK _ _ _ _ _ OK Hp) as OK'.
  unfold sqlPutAsset in Hp. unwritable.
  assert (assets (tables c) !! asset_ID a = None) as Hnone.
  { destruct (assets (tables c) !! asset_ID a) as [b|] eqn:E; [|done]. specialize (Hfresh (asset_WorldID b)).
    rewrite (proj2 (asset_found c (asset_WorldID b) (asset_ID a) b OK)) in Hfresh; done. }
  rewrite Hnone in Hp. destruct (jsonArg _ _) as [v|] eqn:Ev; [|done].
  destruct (worlds _ !! _) as [w0|]; [|done]. destruct (shaTaken _ _); [done|]. injection Hp as <- <-.
  cbn [tables] in *. set (row := MkAsset _ _ _ _ _ _ _ _ v _ _) in *.
  split_and!; try done.
  - exists row. unfold sqlGetAsset. cbn. rewrite lookup_insert_eq. cbn. rewrite bool_decide_eq_true_2 by done.
    split; [done|]. unfold keepsAsset. cbn. split_and!; try done. intros j Hj. rewrite Hj in Ev. by injection Ev.
  - intros w Hw. unfold sqlGetAsset. cbn. rewrite lookup_insert_eq. cbn. by rewrite bool_decide_eq_false_2.
  - intros w i Hi. unfold sqlGetAsset. cbn. by rewrite lookup_insert_ne.
  - intros n. rewrite !sqlSum. cbn [tables with_assets assets]. intros [= <-].
    rewrite (sumBytes_insert _ _ row _ Hnone), decide_True by done. cbn [asset_Bytes row]. f_equal. lia.
  - intros w Hw. rewrite !sqlSum. cbn [tables with_assets assets].
    by rewrite (sumBytes_insert _ _ row _ Hnone), decide_False by done.
Qed.

#[export] Instance sqlAssetLaws : AssetLaws conn := {|
  GetAsset_key := sqlGetAsset_key;
  GetAssetBySHA256_key := sqlGetAssetBySHA256_key;
  GetAssetBySHA256_found := sqlGetAssetBySHA256_found;
  PutAsset_fresh := sqlPutAsset_fresh
|}.

(** One successful write of a transaction. *)
Inductive storeStep : conn → conn → Prop :=
  | step_PutWorld now w c x c' :
      is_Ok (sqlGetWorld c (world_ID w)) ∨ world_EventSeq w = 0 →
      sqlPutWorld now w c = (Ok x, c') → storeStep c c'
  | step_PutUser now u c x c' : sqlPutUser now u c = (Ok x, c') → storeStep c c'
  | step_PutUserSession now s c x c' : sqlPutUserSession now s c = (Ok x, c') → storeStep c c'
  | step_TouchUserSession h t c x c' : sqlTouchUserSession h t c = (Ok x, c') → storeStep c c'
  | step_DeleteUserSession h c x c' : sqlDeleteUserSession h c = (Ok x, c') → storeStep c c'
  | step_DeleteUserSessionsOf u c x c' : sqlDeleteUserSessionsOf u c = (Ok x, c') → storeStep c c'
  | step_PutMember now m c x c' : sqlPutMember now m c = (Ok x, c') → storeStep c c'
  | step_DeleteMember w u c x c' : sqlDeleteMember w u c = (Ok x, c') → storeStep c c'
  | step_PutInvite now i c x c' : sqlPutInvite now i c = (Ok x, c') → storeStep c c'
  | step_ConsumeInvite w i c x c' : sqlConsumeInvite w i c = (Ok x, c') → storeStep c c'
  | step_RevokeInvite now w i c x c' : sqlRevokeInvite now w i c = (Ok x, c') → storeStep c c'
  | step_PutDocument now d c x c' : sqlPutDocument now d c = (Ok x, c') → storeStep c c'
  | step_PatchDocument now w i p c x c' : sqlPatchDocument now w i p c = (Ok x, c') → storeStep c c'
  | step_DeleteDocument now w i m c x c' : sqlDeleteDocument now w i m c = (Ok x, c') → storeStep c c'
  | step_AppendEvent now e c q c' : sqlAppendEvent now e c = (Ok q, c') → storeStep c c'
  | step_PutAsset now a c x c' : sqlPutAsset now a c = (Ok x, c') → storeStep c c'
  | step_DeleteAsset w i c x c' : sqlDeleteAsset w i c = (Ok x, c') → storeStep c c'.

Lemma storeStep_OK c c' : storeOK (tables c) → storeStep c c' → storeOK (tables c').
Proof.
  intros OK Hs. destruct Hs as [????? Hw Hp|????? Hp|????? Hp|????? Hp|???? Hp|???? Hp|????? Hp|????? Hp|????? Hp|????? Hp|?????? Hp|????? Hp|??????? Hp|??????? Hp|????? Hp|????? Hp|????? Hp].
  - exact (sqlPutWorld_OK _ _ _ _ _ OK Hw Hp).
  - exact (proj1 (sqlPutUser_OK _ _ _ _ _ OK Hp)).
  - exact (sqlPutUserSession_OK _ _ _ _ _ OK Hp).
  - exact (sqlTouchUserSession_OK _ _ _ _ _ OK Hp).
  - exact (sqlDeleteUserSession_OK _ _ _ _ OK Hp).
  - exact (sqlDeleteUserSessionsOf_OK _ _ _ _ OK Hp).
  - exact (proj1 (sqlPutMember_OK _ _ _ _ _ OK Hp)).
  - exact (sqlDeleteMember_OK _ _ _ _ _ OK Hp).
  - exact (sqlPutInvite_OK _ _ _ _ _ OK Hp).
  - exact (proj1 (sqlConsumeInvite_spec _ _ _ _ _ OK Hp)).
  - exact (sqlRevokeInvite_OK _ _ _ _ _ _ OK Hp).
  - exact (proj1 (sqlPutDocument_OK _ _ _ _ _ OK Hp)).
  - exact (proj1 (sqlPatchDocument_OK _ _ _ _ _ _ _ OK Hp)).
  - exact (sqlDeleteDocument_OK _ _ _ _ _ _ _ OK Hp).
  - by destruct (sqlAppendEvent_spec _ _ _ _ _ OK Hp) as (? & _ & _ & OK' & _).
  - exact (sqlPutAsset_OK _ _ _ _ _ OK Hp).
  - exact (sqlDeleteAsset_OK _ _ _ _ _ OK Hp).
Qed.

Lemma storeSteps_OK c c' : storeOK (tables c) → rtc storeStep c c' → storeOK (tables c').
Proof. intros OK. induction 1; eauto using storeStep_OK. Qed.

(** ** Theorems *)

(** C28: every store reachable from the empty one by successful writes (a
    world always being created with sequence 0) is well formed: rows sit
    under their own keys, slugs, usernames, invite hashes and asset hashes
    are unique, foreign keys resolve, and the event log of each world is
    gapless: it holds exactly the numbers 1 to the world's sequence. *)
Theorem reachable_store_OK : ∀ c,
  rtc storeStep (MkConn emptyDb true) c →
  storeOK (tables c) ∧
  ∀ i w q, worlds (tables c) !! i = Some w →
    is_Some (world_events (tables c) !! (i, q)) ↔ 1 ≤ q ≤ world_EventSeq w.
Proof.
  intros c Hr. assert (storeOK (tables c)) as OK by exact (storeSteps_OK (MkConn emptyDb true) _ storeOK_empty Hr).
  split; [done|]. intros i w q Hw. by apply (ok_log _ OK).
Qed.

(** Appending to the log of an existing world takes the next number, no
    other, and puts the event there; the number becomes the world's sequence,
    so two appends never share a number and none is skipped. *)
Theorem AppendEvent_next : ∀ now e c q c',
  storeOK (tables c) → sqlAppendEvent now e c = (Ok q, c') →
  (∃ w w', worlds (tables c) !! event_WorldID e = Some w ∧ q = world_EventSeq w + 1 ∧
     worlds (tables c') !! event_WorldID e = Some w' ∧ world_EventSeq w' = q) ∧
  world_events (tables c) !! (event_WorldID e, q) = None ∧
  (∃ row, world_events (tables c') !! (event_WorldID e, q) = Some row ∧
     event_Kind row = event_Kind e ∧ event_ActorUserID row = event_ActorUserID e ∧
     event_TargetID row = event_TargetID e) ∧
  (∀ k, k ≠ (event_WorldID e, q) →
     world_events (tables c') !! k = world_events (tables c) !! k).
Proof.
  intros now e c q c' OK Ha.
  destruct (sqlAppendEvent_spec _ _ _ _ _ OK Ha) as (w & Hw & Hq & _ & Hw' & _ & _ & row & Hev & Hrow).
  split_and!.
  - by do 2 eexists.
  - destruct (world_events (tables c) !! _) eqn:E; [|done]. exfalso.
    destruct (ok_log _ OK _ _ Hw) as [_ Hl]. destruct (Hl q) as [Hl' _].
    specialize (Hl' ltac:(by rewrite E)). lia.
  - exists row. by rewrite Hev, lookup_insert_eq.
  - intros k Hk. by rewrite Hev, lookup_insert_ne.
Qed.

(** What a write does on a connection that is not writable. *)
Definition refusedOn {A} (d : db) (m : M conn A) : Prop :=
  m (MkConn d false) = (Err ErrReadOnly, MkConn d false).

(** The connection a View hands out is not writable: each of the
    seventeen writes of the port, run on it, fails with [ErrReadOnly] and
    leaves the tables as they were, whatever its arguments. *)
Theorem read_only_writes_nothing : ∀ d,
  (∀ now w, refusedOn d (sqlPutWorld now w)) ∧ (∀ now u, refusedOn d (sqlPutUser now u)) ∧
  (∀ now x, refusedOn d (sqlPutUserSession now x)) ∧ (∀ h t, refusedOn d (sqlTouchUserSession h t)) ∧
  (∀ h, refusedOn d (sqlDeleteUserSession h)) ∧ (∀ u, refusedOn d (sqlDeleteUserSessionsOf u)) ∧
  (∀ now m, refusedOn d (sqlPutMember now m)) ∧ (∀ w u, refusedOn d (sqlDeleteMember w u)) ∧
  (∀ now i, refusedOn d (sqlPutInvite now i)) ∧ (∀ w i, refusedOn d (sqlConsumeInvite w i)) ∧
  (∀ now w i, refusedOn d (sqlRevokeInvite now w i)) ∧ (∀ now x, refusedOn d (sqlPutDocument now x)) ∧
  (∀ now w i p, refusedOn d (sqlPatchDocument now w i p)) ∧
  (∀ now w i m, refusedOn d (sqlDeleteDocument now w i m)) ∧
  (∀ now e, refusedOn d (sqlAppendEvent now e)) ∧ (∀ now a, refusedOn d (sqlPutAsset now a)) ∧
  (∀ w i, refusedOn d (sqlDeleteAsset w i)).
Proof. intros d. by repeat split. Qed.
End Transactions.
