(* ===== verification/SqlText.v ===== *)
(** * The text of the statements (internal/storage/sqlstore, sqlite, postgres)

    The statements whose text depends on the request: listings with a filter,
    queries on the JSON data of documents, and patches.  A statement is the
    text handed to the driver with the values bound to its placeholders.  The
    paths of a query or a patch are spliced into the text as literals; the
    theorem of this file is that whatever the request says, the text keeps the
    shape the program gave it: quotes are balanced, no placeholder falls inside
    a literal, and there is one value per placeholder.

    [SqlDialect] is the textual half of the interface [Dialect], [sqlite] and
    [postgres] are its two implementations, and [SqlDialectLaws] is what the
    builders need of an implementation. *)

From S2P Require Import Prelude GoStrings GoTime Json Perm Storage SqlStore.
From Stdlib Require Import Ascii.
From Stdlib Require String.

Local Open Scope Z_scope.

(** ** Values and conditions *)

(** A value bound to a placeholder. *)
Inductive arg :=
  | ArgText (s : string)
  | ArgInt (z : Z)
  | ArgFloat (f : float64)
  | ArgTime (t : Time)
  | ArgJSON (r : raw)
  | ArgNull.

Inductive JSONOp :=
  | OpEqual | OpNotEqual | OpLess | OpLessEqual | OpGreater | OpGreaterEqual
  | OpContains | OpExists | OpUnknown (op : string).

(** The dynamic value of a condition; [printed] is what [fmt.Sprint] makes of
    it. *)
Inductive anyValue :=
  | AnyBool (b : bool)
  | AnyInt (z : Z)
  | AnyFloat (f : float64) (printed : string)
  | AnyString (s : string)
  | AnyNil
  | AnyOther (printed : string).

Record JSONCondition := MkJSONCondition {
  cond_Path : string;
  cond_Op : JSONOp;
  cond_Value : anyValue
}.

Record JSONQuery := MkJSONQuery {
  query_Kind : string;
  query_Subtype : string;
  query_Conditions : list JSONCondition;
  query_Limit : Z
}.

(** ** Dialects *)

Record SqlDialect := MkSqlDialect {
  Name : string;
  Rebind : string → string;
  JSONArg : string;
  JSONColumn : string → string;
  JSONSetText : string → list string → string;
  JSONRemoveText : string → list (list string) → string;
  JSONText : string → list string → string;
  JSONNumber : string → list string → string;
  JSONType : string → list string → string;
  JSONBool : string → list string → string;
  JSONArrayContains : string → list string → string
}.

Definition question : ascii := "?"%char.
Definition quote : ascii := "'"%char.

(** [RebindDollar]: the loop over the bytes with the running index. *)
Fixpoint rebindFrom (index : nat) (l : bytes) : bytes :=
  match l with
  | [] => []
  | c :: l =>
      if bool_decide (c = question)
      then "$"%char :: chars (Itoa (Z.of_nat (S index))) ++ rebindFrom (S index) l
      else c :: rebindFrom index l
  end.

Definition RebindDollar (query : string) : string := unchars (rebindFrom 0 (chars query)).

Definition sqlitePath (path : list string) : string := "$." +:+ Join "." path.

Definition sqliteJSONSet (expr : string) (path : list string) : string :=
  "jsonb_set(" +:+ expr +:+ ", '" +:+ sqlitePath path +:+ "', json(?))".

Definition sqliteJSONRemove (expr : string) (paths : list (list string)) : string :=
  "jsonb_remove(" +:+ expr +:+ ", " +:+
  Join ", " ((λ path, "'" +:+ sqlitePath path +:+ "'") <$> paths) +:+ ")".

Definition sqliteJSONText (column : string) (path : list string) : string :=
  "CAST(json_extract(" +:+ column +:+ ", '" +:+ sqlitePath path +:+ "') AS TEXT)".

Definition sqliteJSONNumber (column : string) (path : list string) : string :=
  let literal := sqlitePath path in
  "CASE WHEN json_type(" +:+ column +:+ ", '" +:+ literal +:+
  "') IN ('integer', 'real') THEN CAST(json_extract(" +:+ column +:+ ", '" +:+ literal +:+
  "') AS REAL) ELSE NULL END".

Definition sqliteJSONType (column : string) (path : list string) : string :=
  "json_type(" +:+ column +:+ ", '" +:+ sqlitePath path +:+ "')".

Definition sqliteJSONBool (column : string) (path : list string) : string :=
  let literal := sqlitePath path in
  "CASE WHEN json_type(" +:+ column +:+ ", '" +:+ literal +:+
  "') IN ('true', 'false') THEN json_type(" +:+ column +:+ ", '" +:+ literal +:+ "') ELSE NULL END".

Definition sqliteJSONArrayContains (column : string) (path : list string) : string :=
  "EXISTS (SELECT 1 FROM json_each(" +:+ column +:+ ", '" +:+ sqlitePath path +:+
  "') WHERE CAST(json_each.value AS TEXT) = ?)".

(** [TimeArg]: the text an instant is stored, compared and sorted as. *)
Definition sqliteTimeArg (t : Time) : string := formatRFC3339Nano t.

Definition sqlite : SqlDialect := {|
  Name := "sqlite"; Rebind := λ query, query; JSONArg := "jsonb(?)";
  JSONColumn := λ column, "json(" +:+ column +:+ ")";
  JSONSetText := sqliteJSONSet; JSONRemoveText := sqliteJSONRemove; JSONText := sqliteJSONText;
  JSONNumber := sqliteJSONNumber; JSONType := sqliteJSONType; JSONBool := sqliteJSONBool;
  JSONArrayContains := sqliteJSONArrayContains
|}.

Definition pgPath (path : list string) : string := "{" +:+ Join "," path +:+ "}".

Definition postgresJSONSet (expr : string) (path : list string) : string :=
  "jsonb_set(" +:+ expr +:+ ", '" +:+ pgPath path +:+ "', ?::jsonb, true)".

Definition postgresJSONRemove (expr : string) (paths : list (list string)) : string :=
  foldl (λ result path, "(" +:+ result +:+ " #- '" +:+ pgPath path +:+ "')") expr paths.

Definition postgresJSONText (column : string) (path : list string) : string :=
  "(" +:+ column +:+ " #>> '" +:+ pgPath path +:+ "')".

Definition postgresJSONNumber (column : string) (path : list string) : string :=
  let literal := pgPath path in
  "CASE WHEN jsonb_typeof(" +:+ column +:+ " #> '" +:+ literal +:+ "') = 'number' THEN (" +:+
  column +:+ " #>> '" +:+ literal +:+ "')::numeric ELSE NULL END".

Definition postgresJSONType (column : string) (path : list string) : string :=
  "jsonb_typeof(" +:+ column +:+ " #> '" +:+ pgPath path +:+ "')".

Definition postgresJSONBool (column : string) (path : list string) : string :=
  let literal := pgPath path in
  "CASE WHEN jsonb_typeof(" +:+ column +:+ " #> '" +:+ literal +:+ "') = 'boolean' THEN " +:+
  column +:+ " #>> '" +:+ literal +:+ "' ELSE NULL END".

Definition postgresJSONArrayContains (column : string) (path : list string) : string :=
  let literal := pgPath path in
  "EXISTS (SELECT 1 FROM jsonb_array_elements_text(CASE WHEN jsonb_typeof(" +:+ column +:+
  " #> '" +:+ literal +:+ "') = 'array' THEN " +:+ column +:+ " #> '" +:+ literal +:+
  "' ELSE '[]'::jsonb END) AS element(value) WHERE element.value = ?)".

Definition postgres : SqlDialect := {|
  Name := "postgres"; Rebind := RebindDollar; JSONArg := "?::jsonb";
  JSONColumn := λ column, column +:+ "::text";
  JSONSetText := postgresJSONSet; JSONRemoveText := postgresJSONRemove; JSONText := postgresJSONText;
  JSONNumber := postgresJSONNumber; JSONType := postgresJSONType; JSONBool := postgresJSONBool;
  JSONArrayContains := postgresJSONArrayContains
|}.

(** ** Builders *)

Abbreviation statement := (string * list arg)%type.

Definition nullableID (id : ID) : arg := if bool_decide (id = "") then ArgNull else ArgText id.

Definition scalarText (v : anyValue) : string :=
  match v with
  | AnyString s => s
  | AnyNil => ""
  | AnyBool b => if b then "true" else "false"
  | AnyInt z => Itoa z
  | AnyFloat _ printed | AnyOther printed => printed
  end.

Definition comparisonOperator (op : JSONOp) : res string :=
  match op with
  | OpEqual => Ok "="
  | OpNotEqual => Ok "<>"
  | OpLess => Ok "<"
  | OpLessEqual => Ok "<="
  | OpGreater => Ok ">"
  | OpGreaterEqual => Ok ">="
  | _ => Err (ErrOther "storage: unsupported operator")
  end.

Section Builders.
Variable d : SqlDialect.

Definition documentColumns : string :=
  Join ", " ["world_id"; "id"; "kind"; "subtype"; "parent_id"; "folder_id"; "name"; "sort"; "img";
    JSONColumn d "data"; JSONColumn d "flags"; JSONColumn d "ownership";
    "source_pack"; "schema_version"; "created_at"; "updated_at"; "updated_seq"; "deleted_at"].

Definition conditionSQL (c : JSONCondition) : res statement :=
  path ← splitPath (cond_Path c);
  match cond_Op c with
  | OpExists => Ok (JSONType d "data" path +:+ " IS NOT NULL", [])
  | OpContains => Ok (JSONArrayContains d "data" path, [ArgText (scalarText (cond_Value c))])
  | op =>
      operator ← comparisonOperator op;
      match cond_Value c with
      | AnyBool value =>
          let literal := if value then "true" else "false" in
          Ok (JSONBool d "data" path +:+ " " +:+ operator +:+ " ?", [ArgText literal])
      | AnyInt z => Ok (JSONNumber d "data" path +:+ " " +:+ operator +:+ " ?", [ArgInt z])
      | AnyFloat f _ => Ok (JSONNumber d "data" path +:+ " " +:+ operator +:+ " ?", [ArgFloat f])
      | value =>
          Ok (JSONText d "data" path +:+ " " +:+ operator +:+ " ?", [ArgText (scalarText value)])
      end
  end.

(** [where = append(where, ...); args = append(args, ...)]. *)
Definition also (part : statement) (acc : list string * list arg) : list string * list arg :=
  (acc.1 ++ [part.1], acc.2 ++ part.2).

Definition alsoWhen (b : bool) (part : statement) (acc : list string * list arg) :
    list string * list arg :=
  if b then also part acc else acc.

Definition alsoSome {A} (o : option A) (part : A → statement) (acc : list string * list arg) :
    list string * list arg :=
  match o with Some a => also (part a) acc | None => acc end.

Definition selectDocuments (acc : list string * list arg) (limit : Z) : statement :=
  ("SELECT " +:+ documentColumns +:+ " FROM documents WHERE " +:+ Join " AND " acc.1 +:+
   " ORDER BY sort, id LIMIT ?",
   acc.2 ++ [ArgInt (effectiveLimit limit)]).

Definition listDocumentsSQL (worldID : ID) (filter : DocumentFilter) : statement :=
  let acc := (["world_id = ?"], [ArgText worldID]) in
  let acc := alsoWhen (negb (bool_decide (filter_Kind filter = "")))
               ("kind = ?", [ArgText (filter_Kind filter)]) acc in
  let acc := alsoWhen (negb (bool_decide (filter_Subtype filter = "")))
               ("subtype = ?", [ArgText (filter_Subtype filter)]) acc in
  let acc := alsoSome (filter_ParentID filter) (λ p, ("parent_id = ?", [ArgText p])) acc in
  let acc := alsoSome (filter_FolderID filter) (λ f, ("folder_id = ?", [ArgText f])) acc in
  let acc := alsoWhen (negb (filter_IncludeDeleted filter)) ("deleted_at IS NULL", []) acc in
  let acc := alsoWhen (0 <? filter_UpdatedSince filter)
               ("updated_seq > ?", [ArgInt (filter_UpdatedSince filter)]) acc in
  selectDocuments acc (filter_Limit filter).

Definition querySystemDataSQL (worldID : ID) (spec : JSONQuery) : res statement :=
  let acc := (["world_id = ?"; "deleted_at IS NULL"], [ArgText worldID]) in
  let acc := alsoWhen (negb (bool_decide (query_Kind spec = "")))
               ("kind = ?", [ArgText (query_Kind spec)]) acc in
  let acc := alsoWhen (negb (bool_decide (query_Subtype spec = "")))
               ("subtype = ?", [ArgText (query_Subtype spec)]) acc in
  acc ← foldM (λ acc condition, part ← conditionSQL condition; Ok (also part acc))
          acc (query_Conditions spec);
  Ok (selectDocuments acc (query_Limit spec)).

(** The [data = ...] assignment of a patch: the expression with the values in
    the order of its placeholders. *)
Definition patchDataSQL (patch : Patch) : res statement :=
  expression ← (if isNil (patch_Unset patch) then Ok "data"
                else paths ← splitPaths (patch_Unset patch); Ok (JSONRemoveText d "data" paths));
  part ← foldM (λ acc key,
    path ← splitPath key;
    match objGet key (patch_Set patch) with
    | Some value => Ok (JSONSetText d acc.1 path, acc.2 ++ [ArgJSON (Raw value)])
    | None => Ok acc
    end) (expression, []) (sortedKeys (patch_Set patch).*1);
  Ok ("data = " +:+ part.1, part.2).

Definition patchDocumentSQL (now : Time) (worldID id : ID) (patch : Patch) : res statement :=
  let acc := (["updated_at = ?"; "updated_seq = ?"], [ArgTime now; ArgInt (patch_Seq patch)]) in
  let acc := alsoSome (patch_Name patch) (λ n, ("name = ?", [ArgText n])) acc in
  let acc := alsoSome (patch_Sort patch) (λ s, ("sort = ?", [ArgInt s])) acc in
  let acc := alsoSome (patch_Img patch) (λ i, ("img = ?", [ArgText i])) acc in
  let acc := alsoSome (patch_FolderID patch) (λ f, ("folder_id = ?", [nullableID f])) acc in
  let acc := alsoSome (patch_Ownership patch)
               (λ o, ("ownership = " +:+ JSONArg d, [ArgJSON o])) acc in
  acc ← (if isNil (patch_Set patch) && isNil (patch_Unset patch) then Ok acc
         else part ← patchDataSQL patch; Ok (also part acc));
  Ok ("UPDATE documents SET " +:+ Join ", " acc.1 +:+
      " WHERE world_id = ? AND id = ? RETURNING " +:+ documentColumns,
      acc.2 ++ [ArgText worldID; ArgText id]).
End Builders.

(** ** Placeholders of a text *)

(** Reading a text from left to right, inside or outside a quoted literal: the
    state it ends in and the placeholders it passes, or nothing when one of
    them lies inside a literal. *)
Fixpoint scan (quoted : bool) (l : bytes) : option (bool * nat) :=
  match l with
  | [] => Some (quoted, 0%nat)
  | c :: l =>
      if Ascii.eqb c quote then scan (negb quoted) l
      else if Ascii.eqb c question then
        if quoted then None else '(q, n) ← scan quoted l; Some (q, S n)
      else scan quoted l
  end.

(** The number of placeholders of a text whose literals are closed and hold
    none. *)
Definition placeholders (s : string) : option nat :=
  match scan false (chars s) with
  | Some (false, n) => Some n
  | _ => None
  end.

(** One value for each placeholder. *)
Definition bound (part : statement) : Prop := placeholders part.1 = Some (length part.2).

(** What may be written inside a literal. *)
Definition literalByte (c : ascii) : bool :=
  negb (Ascii.eqb c quote) && negb (Ascii.eqb c question).
Definition literalSafe (s : string) : bool := forallb literalByte (chars s).

Lemma scan_app q l k :
  scan q (l ++ k) =
    ('(q1, n) ← scan q l; '(q2, m) ← scan q1 k; Some (q2, (n + m)%nat)).
Proof.
  revert q; induction l as [|c l IH]; intros q; cbn.
  { by destruct (scan q k) as [[??]|]. }
  destruct (Ascii.eqb c quote); [apply IH|]. destruct (Ascii.eqb c question); [|apply IH].
  destruct q; [done|]. rewrite IH. destruct (scan false l) as [[q1 n]|]; [|done]. cbn.
  by destruct (scan q1 k) as [[q2 m]|].
Qed.

Lemma scan_safe q l k : forallb literalByte l = true → scan q (l ++ k) = scan q k.
Proof.
  induction l as [|c l IH]; cbn; [done|]. intros [Hc Hl]%andb_prop.
  unfold literalByte in Hc. apply andb_prop in Hc as [H1 H2].
  apply negb_true_iff in H1 as ->. apply negb_true_iff in H2 as ->. by apply IH.
Qed.

Lemma scan_placeholders s n k :
  placeholders s = Some n → scan false (chars s ++ k) = ('(q, m) ← scan false k; Some (q, (n + m)%nat)).
Proof.
  unfold placeholders. rewrite scan_app.
  destruct (scan false (chars s)) as [[[] ?]|]; [done| |done]. by intros [= ->].
Qed.

Lemma placeholders_app s t n m :
  placeholders s = Some n → placeholders t = Some m → placeholders (s +:+ t) = Some (n + m)%nat.
Proof.
  intros Hs. unfold placeholders at 1 2. rewrite chars_app, (scan_placeholders _ _ _ Hs).
  destruct (scan false (chars t)) as [[[] ?]|]; [done| |done]. cbn. by intros [= ->].
Qed.

(** Texts are compared piece by piece: a literal is skipped, an expression
    adds its placeholders, what the program wrote itself is computed. *)
Ltac read_text :=
  unfold placeholders; rewrite ?chars_app; cbn;
  repeat (first [ rewrite scan_safe by eassumption
                | erewrite scan_placeholders by eassumption ]; cbn);
  cbn.

Lemma Join_safe sep path :
  literalSafe sep = true → forallb literalSafe path = true → literalSafe (Join sep path) = true.
Proof.
  intros Hsep. destruct path as [|s path]; [done|]. cbn. intros [Hs Hp]%andb_prop.
  revert s Hs Hp. induction path as [|t path IH]; intros s Hs; [done|]. cbn.
  intros [Ht Hp]%andb_prop. apply IH; [|done].
  unfold literalSafe in *. rewrite !chars_app, !forallb_app, Hs, Hsep, Ht. done.
Qed.

(** [strings.Join] of fragments is a text with the placeholders of all. *)
Lemma Join_placeholders sep parts :
  placeholders sep = Some 0%nat → parts ≠ [] → Forall bound parts →
  placeholders (Join sep parts.*1) = Some (length (concat parts.*2)).
Proof.
  intros Hsep Hne Hp. destruct Hp as [|[s a] parts Hs Hp]; [done|]. cbn. clear Hne.
  revert s a Hs. induction Hp as [|[t b] parts Ht Hp IH]; intros s a Hs; cbn.
  { by rewrite app_nil_r. }
  rewrite app_assoc. apply (IH (s +:+ sep +:+ t) (a ++ b)).
  unfold bound in *. cbn in *. rewrite length_app.
  replace (length a + length b)%nat with (length a + (0 + length b))%nat by lia.
  eauto using placeholders_app.
Qed.

(** A path the program accepts can stand inside a literal. *)
Lemma segmentByte_literal c : segmentByte c = true → literalByte c = true.
Proof.
  unfold literalByte. intros H.
  destruct (Ascii.eqb_spec c quote) as [->|_]; [by vm_compute in H|].
  destruct (Ascii.eqb_spec c question) as [->|_]; [by vm_compute in H|]. done.
Qed.

Lemma splitPath_safe path segments : splitPath path = Ok segments → forallb literalSafe segments = true.
Proof.
  unfold splitPath. case_bool_decide; [done|].
  destruct (forallb segmentPattern _) eqn:E; [|done]. intros [= <-].
  rewrite forallb_forall in E |- *. intros s Hs. specialize (E s Hs).
  unfold segmentPattern in E. apply andb_prop in E as [_ E].
  unfold literalSafe. rewrite forallb_forall in E |- *. auto using segmentByte_literal.
Qed.

Lemma splitPaths_safe paths pss :
  splitPaths paths = Ok pss → forallb (forallb literalSafe) pss = true.
Proof.
  unfold splitPaths. revert pss. induction paths as [|p paths IH]; cbn.
  { by intros ? [= <-]. }
  intros pss. destruct (splitPath p) as [ps|] eqn:E; [|done]. cbn.
  destruct (traverse splitPath paths) as [rest|] eqn:E'; [|done]. cbn. intros [= <-]. cbn.
  by rewrite (splitPath_safe _ _ E), (IH rest).
Qed.

(** ** What a dialect promises *)

Class SqlDialectLaws (d : SqlDialect) := {
  JSONArg_one : placeholders (JSONArg d) = Some 1%nat;
  JSONColumn_none : ∀ c, placeholders c = Some 0%nat → placeholders (JSONColumn d c) = Some 0%nat;
  JSONSet_one : ∀ e path n, placeholders e = Some n → forallb literalSafe path = true →
    placeholders (JSONSetText d e path) = Some (S n);
  JSONRemove_none : ∀ e paths n, placeholders e = Some n → paths ≠ [] →
    forallb (forallb literalSafe) paths = true →
    placeholders (JSONRemoveText d e paths) = Some n;
  JSONText_none : ∀ c path, placeholders c = Some 0%nat → forallb literalSafe path = true →
    placeholders (JSONText d c path) = Some 0%nat;
  JSONNumber_none : ∀ c path, placeholders c = Some 0%nat → forallb literalSafe path = true →
    placeholders (JSONNumber d c path) = Some 0%nat;
  JSONType_none : ∀ c path, placeholders c = Some 0%nat → forallb literalSafe path = true →
    placeholders (JSONType d c path) = Some 0%nat;
  JSONBool_none : ∀ c path, placeholders c = Some 0%nat → forallb literalSafe path = true →
    placeholders (JSONBool d c path) = Some 0%nat;
  JSONArrayContains_one : ∀ c path, placeholders c = Some 0%nat → forallb literalSafe path = true →
    placeholders (JSONArrayContains d c path) = Some 1%nat
}.

Lemma sqlitePath_safe path : forallb literalSafe path = true → literalSafe (sqlitePath path) = true.
Proof. intros H. unfold sqlitePath, literalSafe. rewrite chars_app, forallb_app. cbn. by apply Join_safe. Qed.

Lemma pgPath_safe path : forallb literalSafe path = true → literalSafe (pgPath path) = true.
Proof.
  intros H. pose proof (Join_safe "," path eq_refl H) as HJ.
  unfold pgPath, literalSafe in *. by rewrite !chars_app, !forallb_app, HJ.
Qed.

Lemma sqliteRemove_placeholders e paths n :
  placeholders e = Some n → paths ≠ [] → forallb (forallb literalSafe) paths = true →
  placeholders (sqliteJSONRemove e paths) = Some n.
Proof.
  intros He Hne Hp.
  set (parts := (λ path, ("'" +:+ sqlitePath path +:+ "'", [] : list arg)) <$> paths).
  assert (HJ : placeholders (Join ", " parts.*1) = Some (length (concat parts.*2))).
  { apply Join_placeholders; [done| |].
    - subst parts. by destruct paths.
    - subst parts. rewrite Forall_fmap. rewrite forallb_forall in Hp.
      apply Forall_forall. intros path Hin. apply list_elem_of_In, Hp, sqlitePath_safe in Hin.
      unfold bound, compose. cbn [fst snd length].
      generalize dependent (sqlitePath path). intros. by read_text. }
  replace (length (concat parts.*2)) with 0%nat in HJ.
  2:{ subst parts. clear. induction paths; cbn; done. }
  replace parts.*1 with ((λ path, "'" +:+ sqlitePath path +:+ "'") <$> paths) in HJ.
  2:{ subst parts. by rewrite <-list_fmap_compose. }
  unfold sqliteJSONRemove. read_text. f_equal. lia.
Qed.

#[export] Instance sqliteLaws : SqlDialectLaws sqlite.
Proof.
  split; cbn; [done|..]; intros; [..|by apply sqliteRemove_placeholders| | | | | ];
    unfold sqliteJSONSet, sqliteJSONText, sqliteJSONNumber, sqliteJSONType, sqliteJSONBool,
      sqliteJSONArrayContains;
    try match goal with H : forallb literalSafe ?p = true |- _ =>
      apply sqlitePath_safe in H; generalize dependent (sqlitePath p) end;
    intros; read_text; f_equal; lia.
Qed.

Lemma pgRemove_placeholders paths e n :
  placeholders e = Some n → forallb (forallb literalSafe) paths = true →
  placeholders (postgresJSONRemove e paths) = Some n.
Proof.
  unfold postgresJSONRemove. revert e. induction paths as [|p paths IH]; intros e He; [done|]. cbn.
  intros [Hp Hps]%andb_prop. apply pgPath_safe in Hp. apply IH; [|done].
  generalize dependent (pgPath p). intros. read_text. f_equal. lia.
Qed.

#[export] Instance postgresLaws : SqlDialectLaws postgres.
Proof.
  split; cbn; [done|..]; intros; [..|by apply pgRemove_placeholders| | | | | ];
    unfold postgresJSONSet, postgresJSONText, postgresJSONNumber, postgresJSONType, postgresJSONBool,
      postgresJSONArrayContains;
    try match goal with H : forallb literalSafe ?p = true |- _ =>
      apply pgPath_safe in H; generalize dependent (pgPath p) end;
    intros; read_text; f_equal; lia.
Qed.

(** ** Every value is bound *)

(** Fragments and values, added together and in step. *)
Definition aligned (acc : list string * list arg) : Prop :=
  ∃ parts, parts ≠ [] ∧ acc = (parts.*1, concat parts.*2) ∧ Forall bound parts.

Lemma aligned_also acc part : aligned acc → bound part → aligned (also part acc).
Proof.
  intros (parts & Hne & -> & Hp) Hb. exists (parts ++ [part]). split_and!.
  - by destruct parts.
  - unfold also. cbn. rewrite !fmap_app, concat_app. cbn. by rewrite app_nil_r.
  - apply Forall_app; split; [done|]. by constructor.
Qed.

Lemma aligned_alsoWhen b acc part : aligned acc → bound part → aligned (alsoWhen b part acc).
Proof. destruct b; cbn; auto using aligned_also. Qed.

Lemma aligned_alsoSome {A} (o : option A) f acc :
  aligned acc → (∀ a, bound (f a)) → aligned (alsoSome o f acc).
Proof. destruct o; cbn; auto using aligned_also. Qed.

(** Fragments joined between a head and a tail. *)
Lemma aligned_bound acc sep pre post extra :
  aligned acc → placeholders sep = Some 0%nat → placeholders pre = Some 0%nat →
  placeholders post = Some (length extra) →
  bound (pre +:+ Join sep acc.1 +:+ post, acc.2 ++ extra).
Proof.
  intros (parts & Hne & -> & Hp) Hsep Hpre Hpost. unfold bound. cbn [fst snd].
  rewrite length_app.
  apply (placeholders_app _ _ 0); [done|]. apply placeholders_app; [|done].
  by apply Join_placeholders.
Qed.

Section Bound.
Context (d : SqlDialect) `{!SqlDialectLaws d}.

Lemma documentColumns_none : placeholders (documentColumns d) = Some 0%nat.
Proof.
  pose proof (JSONColumn_none (d := d)) as HC. unfold documentColumns.
  set (parts := (λ s, (s, [] : list arg)) <$>
    ["world_id"; "id"; "kind"; "subtype"; "parent_id"; "folder_id"; "name"; "sort"; "img";
     JSONColumn d "data"; JSONColumn d "flags"; JSONColumn d "ownership";
     "source_pack"; "schema_version"; "created_at"; "updated_at"; "updated_seq"; "deleted_at"]).
  apply (Join_placeholders ", " parts); [done|done|].
  subst parts. cbn. repeat (constructor; [by (apply HC || reflexivity)|]). constructor.
Qed.

Lemma selectDocuments_bound acc limit : aligned acc → bound (selectDocuments d acc limit).
Proof.
  intros Ha. unfold selectDocuments.
  replace ("SELECT " +:+ documentColumns d +:+ " FROM documents WHERE " +:+ Join " AND " acc.1 +:+
           " ORDER BY sort, id LIMIT ?")
    with (("SELECT " +:+ documentColumns d +:+ " FROM documents WHERE ") +:+ Join " AND " acc.1 +:+
           " ORDER BY sort, id LIMIT ?").
  2:{ apply chars_inj. rewrite !chars_app, <-!app_assoc. done. }
  apply aligned_bound; [done..| |done].
  apply (placeholders_app _ _ 0 0); [done|].
  by apply (placeholders_app _ _ 0 0); [apply documentColumns_none|].
Qed.

Lemma listDocumentsSQL_bound w f : bound (listDocumentsSQL d w f).
Proof.
  apply selectDocuments_bound.
  repeat first [apply aligned_alsoWhen; [|done] | apply aligned_alsoSome; [|done]].
  exists [("world_id = ?", [ArgText w])]. split_and!; [done..|]. by repeat constructor.
Qed.

Lemma comparison_bound e operator a :
  placeholders e = Some 0%nat → placeholders operator = Some 0%nat →
  bound (e +:+ " " +:+ operator +:+ " ?", [a]).
Proof.
  intros He Ho. unfold bound. cbn [fst snd length].
  apply (placeholders_app _ _ 0 1); [done|]. apply (placeholders_app " " _ 0 1); [done|].
  by apply (placeholders_app _ _ 0 1).
Qed.

Lemma conditionSQL_bound c part : conditionSQL d c = Ok part → bound part.
Proof.
  unfold conditionSQL. destruct (splitPath (cond_Path c)) as [path|] eqn:Hpath; [|done]. cbn.
  apply splitPath_safe in Hpath.
  destruct (cond_Op c); cbn; try done;
    try (intros [= <-]; unfold bound; cbn [fst snd length];
         first [by apply (JSONArrayContains_one (d := d))
               | apply (placeholders_app _ _ 0 0); [by apply (JSONType_none (d := d))|done]]);
    destruct (cond_Value c) as [[]| | | | |]; intros [= <-]; apply comparison_bound; try done;
    first [by apply (JSONBool_none (d := d)) | by apply (JSONNumber_none (d := d))
          | by apply (JSONText_none (d := d))].
Qed.

Lemma querySystemDataSQL_bound w spec st : querySystemDataSQL d w spec = Ok st → bound st.
Proof.
  unfold querySystemDataSQL.
  match goal with |- context [foldM ?g ?a ?l] => set (f := g); set (acc := a) end.
  assert (Ha : aligned acc).
  { subst acc. repeat (apply aligned_alsoWhen; [|done]).
    exists [("world_id = ?", [ArgText w]); ("deleted_at IS NULL", [])].
    split_and!; [done..|]. by repeat constructor. }
  destruct (foldM f acc (query_Conditions spec)) as [acc'|] eqn:E; [|done]. cbn. intros [= <-].
  apply selectDocuments_bound. revert E. apply (foldM_inv aligned); [done|].
  subst f. cbn. intros c acc1 acc2 _ Hacc. destruct (conditionSQL d c) as [part|] eqn:Ec; [|done]. cbn.
  intros [= <-]. apply aligned_also; [done|]. by eapply conditionSQL_bound.
Qed.

(** The nested expression of a patch has one placeholder per value. *)
Lemma patchDataSQL_bound patch part : patchDataSQL d patch = Ok part → bound part.
Proof.
  unfold patchDataSQL. intros Hbuild.
  destruct (if isNil (patch_Unset patch) then _ else _) as [e|] eqn:Ee; [|done]. cbn in Hbuild.
  assert (He : placeholders e = Some 0%nat).
  { destruct (patch_Unset patch) as [|u us] eqn:Hu; cbn [isNil] in Ee;
      [by injection Ee as <-|].
    destruct (splitPaths (u :: us)) as [paths|] eqn:Hp; [|done]. injection Ee as <-.
    apply (JSONRemove_none (d := d)); [done| |by eapply splitPaths_safe].
    intros ->. unfold splitPaths in Hp. cbn in Hp. destruct (splitPath u); [|done]. cbn in Hp.
    by destruct (traverse splitPath us). }
  destruct (foldM _ _ _) as [acc|] eqn:Ef in Hbuild; [|done]. cbn in Hbuild. injection Hbuild as <-.
  assert (placeholders acc.1 = Some (length acc.2)) as Hacc.
  { revert Ef. apply (foldM_inv (λ acc, placeholders acc.1 = Some (length acc.2))); [done|].
    cbn. intros k [e1 a1] acc2 _ H1. destruct (splitPath k) as [path|] eqn:Hk; [|done]. cbn.
    destruct (objGet k _); intros [= <-]; [|done]. cbn [fst snd].
    rewrite length_app, Nat.add_1_r.
    apply (JSONSet_one (d := d)); [done|by eapply splitPath_safe]. }
  by apply (placeholders_app "data = " _ 0).
Qed.

Lemma patchDocumentSQL_bound now w i patch st :
  patchDocumentSQL d now w i patch = Ok st → bound st.
Proof.
  unfold patchDocumentSQL.
  match goal with |- context [if _ then Ok ?a else _] => set (acc := a) end.
  assert (Ha : aligned acc).
  { subst acc.
    repeat (apply aligned_alsoSome; [|intros; first [done | unfold bound; cbn [fst snd length];
      by apply (placeholders_app _ _ 0 1); [|apply (JSONArg_one (d := d))]]]).
    exists [("updated_at = ?", [ArgTime now]); ("updated_seq = ?", [ArgInt (patch_Seq patch)])].
    split_and!; [done..|]. by repeat constructor. }
  assert (Hdone : ∀ acc, aligned acc → bound ("UPDATE documents SET " +:+ Join ", " acc.1 +:+
    " WHERE world_id = ? AND id = ? RETURNING " +:+ documentColumns d,
    acc.2 ++ [ArgText w; ArgText i])).
  { intros acc' Ha'. apply aligned_bound; [done..|].
    by apply (placeholders_app _ _ 2 0); [|apply documentColumns_none]. }
  destruct (_ && _); cbn; [intros [= <-]; by apply Hdone|].
  destruct (patchDataSQL d patch) as [part|] eqn:Ep; [|done]. cbn. intros [= <-].
  apply (Hdone (also part acc)), aligned_also; [done|]. by eapply patchDataSQL_bound.
Qed.
End Bound.

(** C16: no request changes the shape of a statement.  Listings, queries on JSON
    data and patches, in the text of either engine, have balanced quotes, no
    placeholder inside a literal, and exactly one bound value per placeholder:
    the paths that are spliced into the text cannot close a literal or shift
    the values that follow. *)
Theorem statements_keep_their_shape (d : SqlDialect) `{!SqlDialectLaws d} :
  (∀ w f, bound (listDocumentsSQL d w f)) ∧
  (∀ w spec st, querySystemDataSQL d w spec = Ok st → bound st) ∧
  (∀ now w i patch st, patchDocumentSQL d now w i patch = Ok st → bound st).
Proof.
  split_and!; intros.
  - by apply listDocumentsSQL_bound.
  - by eapply querySystemDataSQL_bound.
  - by eapply patchDocumentSQL_bound.
Qed.

(** ** Statements and their effects *)

(** What is written to the driver and what the store's model does with a patch
    fail on the same paths with the same error. *)
Definition errorOf {A} (r : res A) : option err := match r with Ok _ => None | Err e => Some e end.

Lemma foldM_outcome {A B C} (f : B → A → res B) (g : C → A → res C) l b c :
  (∀ x b c, errorOf (f b x) = errorOf (g c x)) →
  errorOf (foldM f b l) = errorOf (foldM g c l).
Proof.
  intros Hfg. revert b c. induction l as [|x l IH]; intros b c; [done|]. cbn.
  specialize (Hfg x b c). destruct (f b x), (g c x); cbn in *; done.
Qed.

Section Effects.
Context `{!Dialect} (d : SqlDialect).

Lemma patchData_outcome patch j :
  errorOf (patchDataSQL d patch) = errorOf (patchData patch j).
Proof.
  unfold patchDataSQL, patchData.
  match goal with |- errorOf (_ ← _; part ← foldM ?f _ ?l; _) = errorOf (_ ← _; foldM ?g _ _) =>
    assert (Hrest : ∀ b c, errorOf (foldM f b l) = errorOf (foldM g c l)) end.
  { intros b c. apply foldM_outcome. intros k b' c'. destruct (splitPath k); [|done]. cbn.
    by destruct (objGet k _). }
  destruct (isNil (patch_Unset patch)); cbn [mbind res_bind].
  - rewrite <-(Hrest ("data", []) j). by destruct (foldM _ _ _).
  - destruct (splitPaths (patch_Unset patch)) as [paths|]; [|done]. cbn [mbind res_bind].
    rewrite <-(Hrest (JSONRemoveText d "data" paths, []) (JSONRemove j paths)).
    by destruct (foldM _ _ _).
Qed.

Lemma patchDocumentSQL_outcome now w i patch :
  errorOf (patchDocumentSQL d now w i patch) = errorOf (patchData patch (JObj [])).
Proof.
  unfold patchDocumentSQL. destruct (isNil (patch_Set patch) && isNil (patch_Unset patch)) eqn:E.
  - apply andb_prop in E as [E1 E2]. unfold patchData. rewrite E2.
    by destruct (patch_Set patch).
  - rewrite <-(patchData_outcome patch (JObj [])). by destruct (patchDataSQL d patch).
Qed.

(** A patch whose statement cannot be built is refused with that error and
    changes nothing; one whose statement is built is never refused for its
    paths. *)
Theorem patch_refused_alike now w i patch c :
  writable c = true → IsEmpty patch = false →
  match patchDocumentSQL d now w i patch with
  | Err e => sqlPatchDocument now w i patch c = (Err e, c)
  | Ok _ => (sqlPatchDocument now w i patch c).1 ≠ Err ErrInvalidPath
  end.
Proof.
  intros Hw He. pose proof (patchDocumentSQL_outcome now w i patch) as Ho.
  destruct c as [t wr]. cbn in Hw. subst wr. unfold sqlPatchDocument, requireWritable. cbn. rewrite He.
  destruct (patchData patch (JObj [])) as [j0|e] eqn:Ep; cbn in Ho.
  2:{ destruct (patchDocumentSQL _ _ _ _ _); cbn in Ho; [done|]. by injection Ho as ->. }
  destruct (patchDocumentSQL _ _ _ _ _); cbn in Ho; [|done].
  destruct (documents t !! (w, i)) as [doc|]; [|done].
  destruct (patchRow now patch doc) as [row|e] eqn:Er; [done|]. cbn. intros [= ->].
  unfold patchRow in Er.
  destruct (patch_Ownership patch) as [[]|]; cbn in Er; try done;
    (destruct (doc_Data doc) as [| |j1]; cbn in Er; [done|done|];
     destruct (isNil (patch_Set patch) && isNil (patch_Unset patch)); cbn in Er; [done|];
     pose proof (patchData_outcome patch j1) as H1;
     pose proof (patchData_outcome patch (JObj [])) as H2; rewrite Ep in H2;
     destruct (patchData patch j1); cbn in *; [done|congruence]).
Qed.
End Effects.

(** ** Numbered placeholders *)

(** The pieces between question marks with [$1], [$2], ... written between
    them. *)
Fixpoint numbered (index : nat) (pieces : list bytes) : bytes :=
  match pieces with
  | [] => []
  | [p] => p
  | p :: pieces => p ++ "$"%char :: chars (Itoa (Z.of_nat (S index))) ++ numbered (S index) pieces
  end.

Lemma splitBytes_ne sep l : splitBytes sep l ≠ [].
Proof. induction l; cbn; [done|]. case_bool_decide; [done|]. by destruct (splitBytes sep l). Qed.

Lemma rebindFrom_numbered index l : rebindFrom index l = numbered index (splitBytes question l).
Proof.
  revert index; induction l as [|c l IH]; intros index; cbn [rebindFrom splitBytes]; [done|].
  case_bool_decide.
  - rewrite IH. pose proof (splitBytes_ne question l). by destruct (splitBytes question l).
  - rewrite IH. pose proof (splitBytes_ne question l).
    destruct (splitBytes question l) as [|p [|p' ps]]; cbn [numbered]; done.
Qed.

(** [RebindDollar] numbers the placeholders from left to right and changes
    nothing else. *)
Theorem RebindDollar_numbers query :
  RebindDollar query = unchars (numbered 0 (chars <$> Split question query)).
Proof.
  unfold RebindDollar, Split. rewrite rebindFrom_numbered. f_equal. f_equal.
  rewrite <-list_fmap_compose. rewrite <-(list_fmap_id (splitBytes _ _)) at 1.
  apply list_fmap_ext. intros ? p _. cbn. by rewrite chars_unchars.
Qed.

(** ** The order of stored instants *)

(** The text SQLite sorts by is not in the order of the instants: a fraction
    sorts after the longer ones it begins. *)
Theorem sqlite_time_order :
  ∃ a b, a < b ∧ String.ltb (sqliteTimeArg b) (sqliteTimeArg a) = true.
Proof.
  exists (62135596800 * Second + 500000000), (62135596800 * Second + 510000000).
  split; [lia|vm_compute; reflexivity].
Qed.
