(* ===== verification/SqlQuery.v ===== *)
(** * Queries on the JSON data of documents (sqlstore/documents.go)

    [QuerySystemData] as the effect of its statement on the tables.  The
    expressions of a dialect that read a path ([JSONText], [JSONNumber],
    [JSONType], [JSONBool], [JSONArrayContains]) are evaluated by the engine:
    the class [JsonEngine] gives, for the value at a path, how it compares with
    a bound value, [None] standing for NULL, which satisfies no comparison. *)

From S2P Require Import Prelude GoStrings Json Perm Storage SqlStore SqlLaws SqlText.
From Stdlib Require Import Ascii.
From Stdlib Require String.
From Stdlib Require Import OrdersEx.

Local Open Scope Z_scope.

(** A number bound to a comparison. *)
Inductive number := NumberInt (z : Z) | NumberFloat (f : float64).

Class JsonEngine := {
  compareText : json → list string → string → option comparison;
  compareNumber : json → list string → number → option comparison;
  compareBool : json → list string → string → option comparison;
  typeOf : json → list string → option string;
  containsText : json → list string → string → bool
}.

Section Query.
Context `{JsonEngine}.

(** [e operator ?], where [c] is how the value of [e] compares with the bound
    one. *)
Definition holds (op : JSONOp) (c : option comparison) : bool :=
  match c with
  | None => false
  | Some c =>
      match op, c with
      | OpEqual, Eq | OpNotEqual, (Lt | Gt) | OpLess, Lt | OpLessEqual, (Lt | Eq)
      | OpGreater, Gt | OpGreaterEqual, (Gt | Eq) => true
      | _, _ => false
      end
  end.

(** The predicate of a condition on the data of a row. *)
Definition conditionHolds (c : JSONCondition) : res (json → bool) :=
  path ← splitPath (cond_Path c);
  match cond_Op c with
  | OpExists => Ok (λ data, negb (isNone (typeOf data path)))
  | OpContains => Ok (λ data, containsText data path (scalarText (cond_Value c)))
  | op =>
      _ ← comparisonOperator op;
      match cond_Value c with
      | AnyBool value =>
          let literal := if value then "true" else "false" in
          Ok (λ data, holds op (compareBool data path literal))
      | AnyInt z => Ok (λ data, holds op (compareNumber data path (NumberInt z)))
      | AnyFloat f _ => Ok (λ data, holds op (compareNumber data path (NumberFloat f)))
      | value => Ok (λ data, holds op (compareText data path (scalarText value)))
      end
  end.

Definition queryMatches (worldID : ID) (spec : JSONQuery) (conditions : list (json → bool))
    (doc : Document) : bool :=
  bool_decide (doc_WorldID doc = worldID) && isNone (doc_DeletedAt doc) &&
  (bool_decide (query_Kind spec = "") || bool_decide (doc_Kind doc = query_Kind spec)) &&
  (bool_decide (query_Subtype spec = "") || bool_decide (doc_Subtype doc = query_Subtype spec)) &&
  match doc_Data doc with
  | Raw data => forallb (λ p, p data) conditions
  | _ => isNil conditions
  end.

Definition sqlQuerySystemData (c : conn) (worldID : ID) (spec : JSONQuery) : res (list Document) :=
  conditions ← traverse conditionHolds (query_Conditions spec);
  Ok (limitTo (effectiveLimit (query_Limit spec))
    (orderBy docLe (filter (λ d, queryMatches worldID spec conditions d = true)
      (rows (documents (tables c)))))).

(** ** Its answers *)

(** What a condition asks, said without the model of the statement.  An
    operator asks for how the value stored compares with the one bound. *)
Definition asksFor (op : JSONOp) (c : comparison) : Prop :=
  match op with
  | OpEqual => c = Eq
  | OpNotEqual => c ≠ Eq
  | OpLess => c = Lt
  | OpLessEqual => c ≠ Gt
  | OpGreater => c = Gt
  | OpGreaterEqual => c ≠ Lt
  | OpContains | OpExists | OpUnknown _ => False
  end.

(** The comparison a bound value calls for: as a truth value, as a number or as
    text; [fmt.Sprint] prints what is neither. *)
Inductive compared (data : json) (path : list string) : anyValue → comparison → Prop :=
  | compared_true c : compareBool data path "true" = Some c → compared data path (AnyBool true) c
  | compared_false c : compareBool data path "false" = Some c → compared data path (AnyBool false) c
  | compared_int z c : compareNumber data path (NumberInt z) = Some c → compared data path (AnyInt z) c
  | compared_float f printed c :
      compareNumber data path (NumberFloat f) = Some c → compared data path (AnyFloat f printed) c
  | compared_string t c : compareText data path t = Some c → compared data path (AnyString t) c
  | compared_nil c : compareText data path "" = Some c → compared data path AnyNil c
  | compared_other printed c :
      compareText data path printed = Some c → compared data path (AnyOther printed) c.

(** A document meets a condition at a dotted path: there is a value ([exists]),
    the array there has the text as a member ([contains]), or there is a value
    that compares as the operator asks. *)
Inductive meets (data : json) : JSONCondition → Prop :=
  | meets_exists path v type :
      typeOf data (Split "."%char path) = Some type → meets data (MkJSONCondition path OpExists v)
  | meets_contains path v :
      containsText data (Split "."%char path) (scalarText v) = true →
      meets data (MkJSONCondition path OpContains v)
  | meets_compared path op v c :
      compared data (Split "."%char path) v c → asksFor op c → meets data (MkJSONCondition path op v).

Lemma holds_asked op o : holds op o = true ↔ ∃ c, o = Some c ∧ asksFor op c.
Proof. destruct o as [[]|], op; cbn; naive_solver. Qed.

Lemma splitPath_Split path segments : splitPath path = Ok segments → segments = Split "."%char path.
Proof. unfold splitPath. case_bool_decide; [done|]. destruct (forallb _ _); [by intros [= <-]|done]. Qed.

Ltac meets_by_comparison :=
  rewrite holds_asked; split;
  [ intros (c & ? & ?); eapply meets_compared; [by constructor|done]
  | inversion 1; subst; try done;
    match goal with Hc : compared _ _ _ _ |- _ => inversion Hc; subst end; eauto ].

(** The condition the code builds holds exactly of the data that meet it. *)
Lemma conditionHolds_meets c p data : conditionHolds c = Ok p → p data = true ↔ meets data c.
Proof.
  unfold conditionHolds. destruct c as [path op v]. cbn.
  destruct (splitPath path) as [segments|] eqn:Hpath; [|done]. apply splitPath_Split in Hpath as ->. cbn.
  destruct op; cbn; try done;
    try (destruct v as [[]| | | | |]; intros [= <-]; meets_by_comparison).
  - intros [= <-]. split; [by constructor|]. by inversion 1; subst.
  - intros [= <-]. destruct (typeOf data _) as [type|] eqn:E; cbn; (split; [intros; try done|]).
    + by econstructor.
    + done.
    + inversion 1; subst; [congruence|done].
Qed.

Lemma traverse_Forall2 {A B} (f : A → res B) l k :
  traverse f l = Ok k → Forall2 (λ a b, f a = Ok b) l k.
Proof.
  revert k. induction l as [|a l IH]; cbn; intros k.
  - intros [= <-]. constructor.
  - destruct (f a) as [b|] eqn:E; [|done]. cbn.
    destruct (traverse f l) as [k'|]; [|done]. cbn. intros [= <-]. constructor; auto.
Qed.

Lemma conditions_met cs ps data :
  Forall2 (λ c p, conditionHolds c = Ok p) cs ps →
  forallb (λ p, p data) ps = true ↔ Forall (meets data) cs.
Proof.
  induction 1 as [|c p cs ps Hc _ IH]; cbn; [by split|].
  by rewrite andb_true_iff, IH, Forall_cons, (conditionHolds_meets _ _ _ Hc).
Qed.

(** The documents a query asks for. *)
Definition asked (w : ID) (spec : JSONQuery) (d : Document) : Prop :=
  doc_WorldID d = w ∧ doc_DeletedAt d = None ∧
  (query_Kind spec = "" ∨ doc_Kind d = query_Kind spec) ∧
  (query_Subtype spec = "" ∨ doc_Subtype d = query_Subtype spec) ∧
  (query_Conditions spec = [] ∨
   ∃ data, doc_Data d = Raw data ∧ Forall (meets data) (query_Conditions spec)).

Lemma queryMatches_asked w spec ps d :
  Forall2 (λ c p, conditionHolds c = Ok p) (query_Conditions spec) ps →
  queryMatches w spec ps d = true ↔ asked w spec d.
Proof.
  intros Hps. unfold queryMatches, asked.
  rewrite !andb_true_iff, !orb_true_iff, !bool_decide_eq_true.
  assert (isNone (doc_DeletedAt d) = true ↔ doc_DeletedAt d = None) as ->.
  { by destruct (doc_DeletedAt d). }
  assert (match doc_Data d with Raw data => forallb (λ p, p data) ps | _ => isNil ps end = true ↔
          query_Conditions spec = [] ∨
          ∃ data, doc_Data d = Raw data ∧ Forall (meets data) (query_Conditions spec)) as ->.
  { destruct Hps as [|c p cs ps Hc Hps].
    { split; [by left|]. by destruct (doc_Data d). }
    destruct (doc_Data d) as [| |j]; [naive_solver..|].
    rewrite (conditions_met (c :: cs) (p :: ps)) by by constructor.
    split; [eauto|]. by intros [?|(? & [= <-] & ?)]. }
  tauto.
Qed.
End Query.

(** ** The order of a listing *)

Lemma string_compare_spec a b : CompSpec eq String_as_OT.lt a b (String.compare a b).
Proof. exact (String_as_OT.compare_spec a b). Qed.

Lemma string_lt_compare a b : String_as_OT.lt a b → String.compare a b = Lt.
Proof. done. Qed.

Lemma string_leb_trans a b c : String.leb a b = true → String.leb b c = true → String.leb a c = true.
Proof.
  unfold String.leb.
  destruct (string_compare_spec a b) as [->|Hab|]; [done| |done].
  destruct (string_compare_spec b c) as [<-|Hbc|]; [|intros _ _|done].
  - by rewrite (string_lt_compare a b).
  - rewrite (string_lt_compare a c); [done|]. by transitivity b.
Qed.

(** A listing is in the order of [sort], then of [id]. *)
Definition listedBefore (a b : Document) : Prop :=
  doc_Sort a < doc_Sort b ∨ (doc_Sort a = doc_Sort b ∧ String.leb (doc_ID a) (doc_ID b) = true).

Lemma docLe_listedBefore a b : leRel docLe a b ↔ listedBefore a b.
Proof.
  unfold leRel, docLe, listedBefore. by rewrite orb_true_iff, andb_true_iff, Z.ltb_lt, Z.eqb_eq.
Qed.

#[export] Instance docLe_trans : Transitive (leRel docLe).
Proof.
  intros a b c. unfold leRel, docLe.
  rewrite !orb_true_iff, !andb_true_iff, !Z.ltb_lt, !Z.eqb_eq.
  intros [H1|[H1 H1']] [H2|[H2 H2']]; [left; lia..|right].
  split; [lia|]. by eapply string_leb_trans.
Qed.

#[export] Instance docLe_total : Total (leRel docLe).
Proof.
  intros a b. unfold leRel, docLe.
  rewrite !orb_true_iff, !andb_true_iff, !Z.ltb_lt, !Z.eqb_eq.
  destruct (Z.lt_total (doc_Sort a) (doc_Sort b)) as [|[E|]]; [by left; left| |by right; left].
  destruct (String.leb_total (doc_ID a) (doc_ID b)); [left|right]; right; split; congruence.
Qed.

Lemma orderBy_listedBefore ds : StronglySorted listedBefore (orderBy docLe ds).
Proof.
  assert (StronglySorted (leRel docLe) (orderBy docLe ds)) as Hs by (apply StronglySorted_merge_sort; apply _).
  induction Hs as [|x l _ IH Hx]; constructor; [done|].
  eapply Forall_impl; [exact Hx|]. intros y. by rewrite docLe_listedBefore.
Qed.

(** ** A query is refused as its statement is *)

Lemma conditionHolds_outcome `{JsonEngine} d c :
  errorOf (conditionHolds c) = errorOf (conditionSQL d c).
Proof.
  unfold conditionHolds, conditionSQL. destruct (splitPath (cond_Path c)); [|done]. cbn.
  by destruct (cond_Op c); cbn; try done; destruct (cond_Value c).
Qed.

Lemma traverse_outcome `{JsonEngine} d cs acc :
  errorOf (traverse conditionHolds cs) =
  errorOf (foldM (λ acc condition, part ← conditionSQL d condition; Ok (also part acc)) acc cs).
Proof.
  revert acc. induction cs as [|c cs IH]; intros acc; [done|]. cbn.
  pose proof (conditionHolds_outcome d c) as Hc.
  destruct (conditionHolds c), (conditionSQL d c) as [part|]; cbn in *; try done.
  rewrite <-(IH (also part acc)). by destruct (traverse conditionHolds cs).
Qed.

Lemma query_outcome `{JsonEngine} d c w spec :
  errorOf (sqlQuerySystemData c w spec) = errorOf (querySystemDataSQL d w spec).
Proof.
  unfold sqlQuerySystemData, querySystemDataSQL.
  match goal with |- context [foldM ?f ?a _] =>
    pose proof (traverse_outcome d (query_Conditions spec) a) as Ho end.
  destruct (traverse _ _), (foldM _ _ _); cbn in *; done.
Qed.

(** The rows a limit lets through: a thousand where none is given. *)
Definition limitOf (limit : Z) : nat := if decide (0 < limit) then Z.to_nat limit else 1000%nat.

Lemma limitOf_effectiveLimit limit : Z.to_nat (effectiveLimit limit) = limitOf limit.
Proof. unfold limitOf, effectiveLimit, defaultLimit. destruct (Z.leb_spec limit 0), decide; lia. Qed.

(** C30: either the query is refused, exactly when its statement cannot be built and
    with the same error, or its answer is the first rows, in the order of
    [sort] and [id], of precisely the documents it asks for, each as often as it is stored: those of the world
    that are not deleted, of the kind and subtype where one is named, whose data
    meet every condition.  [meets] says what each operator asks (an ordering, a
    value being there, an array having a member) independently of how the
    statement is put together; how two JSON values compare is the engine's. *)
Theorem query_answers_what_is_asked `{JsonEngine} (d : SqlDialect) c w spec :
  match sqlQuerySystemData c w spec with
  | Err e => querySystemDataSQL d w spec = Err e
  | Ok ds =>
      is_Ok (querySystemDataSQL d w spec) ∧
      ∃ all, ds = take (limitOf (query_Limit spec)) all ∧
        StronglySorted listedBefore all ∧
        ∃ others, rows (documents (tables c)) ≡ₚ all ++ others ∧
          Forall (asked w spec) all ∧ Forall (λ x, ¬ asked w spec x) others
  end.
Proof.
  pose proof (query_outcome d c w spec) as Ho.
  destruct (sqlQuerySystemData c w spec) as [ds|e] eqn:E.
  2:{ destruct (querySystemDataSQL d w spec); cbn in Ho; congruence. }
  split; [destruct (querySystemDataSQL d w spec) as [st|]; [by exists st|done]|].
  unfold sqlQuerySystemData in E.
  destruct (traverse conditionHolds (query_Conditions spec)) as [ps|] eqn:Ep; [|done].
  injection E as <-. eexists. rewrite <-limitOf_effectiveLimit. split; [done|]. split_and!.
  - apply orderBy_listedBefore.
  - assert (Hm : ∀ x, queryMatches w spec ps x = true ↔ asked w spec x).
    { intros x. by apply queryMatches_asked, traverse_Forall2. }
    exists (filter (λ x, ¬ queryMatches w spec ps x = true) (rows (documents (tables c)))).
    split_and!.
    + by rewrite orderBy_perm, filter_app_complement.
    + apply Forall_forall. intros x [Hx _]%elem_of_orderBy%list_elem_of_filter. by apply Hm.
    + apply Forall_forall. intros x [Hx _]%list_elem_of_filter. by rewrite <-Hm.
Qed.
