(* ===== verification/Migrations.v ===== *)
(** * Schema migrations (sqlstore.go, sqlite.go, postgres.go)

    [Migrate] as the sequence of its transactions over a database whose driver
    may refuse any of them, and the two schemas as data.  A statement is kept
    abstract where only the loop matters; the schemas are read as table and
    index definitions and run on a catalog of tables. *)

From S2P Require Import Prelude GoStrings Storage.
From Stdlib Require String.

Local Open Scope Z_scope.

(** ** Definitions of tables *)

Record column := MkColumn {
  column_name : string;
  column_type : string;
  column_constraints : list string
}.

Inductive ddl :=
  | CreateTable (table : string) (columns : list column) (primaryKey : list string)
  | CreateIndex (index table : string) (columns : list string) (unique : bool) (clause : string)
  | AddColumn (table : string) (c : column).

(** What the engine keeps of the definitions. *)
Record catalog := MkCatalog {
  catalog_tables : list (string * (list column * list string));
  catalog_indexes : list (string * (string * list string * bool))
}.

Definition emptyCatalog : catalog := MkCatalog [] [].

Definition columnsOf (c : catalog) (table : string) : option (list column) :=
  fst ∘ snd <$> head (filter (λ t, t.1 = table) (catalog_tables c)).

Definition namesOf (columns : list column) : list string := column_name <$> columns.

Definition subsetOf (small big : list string) : bool := forallb (λ s, bool_decide (s ∈ big)) small.

Definition errDefinition : err := ErrOther "definition refused".

(** Executing a definition: names are free, and keys and indexes are on columns
    that exist. *)
Definition define (d : ddl) (c : catalog) : res catalog :=
  match d with
  | CreateTable table columns primaryKey =>
      if isNone (columnsOf c table) && bool_decide (NoDup (namesOf columns)) &&
         subsetOf primaryKey (namesOf columns)
      then Ok (MkCatalog (catalog_tables c ++ [(table, (columns, primaryKey))]) (catalog_indexes c))
      else Err errDefinition
  | CreateIndex index table columns unique _ =>
      match columnsOf c table with
      | Some existing =>
          if subsetOf columns (namesOf existing) && bool_decide (index ∉ (catalog_indexes c).*1)
          then Ok (MkCatalog (catalog_tables c) (catalog_indexes c ++ [(index, (table, columns, unique))]))
          else Err errDefinition
      | None => Err errDefinition
      end
  | AddColumn table column =>
      match columnsOf c table with
      | Some existing =>
          if bool_decide (column_name column ∈ namesOf existing) then Err errDefinition
          else Ok (MkCatalog
            ((λ t, if bool_decide (t.1 = table) then (t.1, (t.2.1 ++ [column], t.2.2)) else t)
               <$> catalog_tables c) (catalog_indexes c))
      | None => Err errDefinition
      end
  end.

(** ** The loop *)

Section Migrate.
Context {statement D : Type}.

(** The driver: executing a statement, and whether beginning, recording and
    committing version [v] succeed. *)
Variable exec : statement → D → res D.
Variable begins records commits : Z → res unit.

(** A database: what the statements act on, and the rows of
    [schema_migrations]. *)
Record database := MkDatabase { schema : D; versions : list Z }.

(** [SELECT COALESCE(MAX(version), 0)]. *)
Definition appliedVersion (db : database) : Z := foldr Z.max 0 (versions db).

Definition migrateOne (version : Z) (statements : list statement) : M database unit := λ db,
  let run :=
    _ ← begins version;
    schema' ← foldM (λ s statement, exec statement s) (schema db) statements;
    _ ← records version;
    _ ← commits version;
    Ok (MkDatabase schema' (versions db ++ [version])) in
  match run with
  | Ok db' => (Ok tt, db')
  | Err e => (Err e, db)
  end.

Fixpoint migrateFrom (index : Z) (migrations : list (list statement)) (applied : Z) :
    M database unit :=
  match migrations with
  | [] => mret tt
  | statements :: migrations =>
      let version := index + 1 in
      if version <=? applied then migrateFrom version migrations applied
      else migrateOne version statements ≫= λ _, migrateFrom version migrations applied
  end.

(** [Store.Migrate], the table [schema_migrations] existing. *)
Definition Migrate (migrations : list (list statement)) : M database unit := λ db,
  migrateFrom 0 migrations (appliedVersion db) db.
End Migrate.
Arguments MkDatabase {D} _ _.
Arguments schema {D} _.
Arguments versions {D} _.
Arguments appliedVersion {D} _.

(** ** The schemas *)

Abbreviation NOT_NULL := "NOT NULL".
Abbreviation PRIMARY_KEY := "PRIMARY KEY".
Abbreviation UNIQUE := "UNIQUE".
Abbreviation IN_WORLD := "REFERENCES worlds(id) ON DELETE CASCADE".
Abbreviation OF_USER := "REFERENCES users(id) ON DELETE CASCADE".
Abbreviation EMPTY := "DEFAULT ''".
Abbreviation ZERO := "DEFAULT 0".

(** The names an engine gives to the types of the columns. *)
Record typeNames := MkTypeNames {
  t_text : string; t_json : string; t_time : string; t_bool : string; t_int : string; t_long : string;
  false_literal : string
}.

(** The statements as both engines have them, up to the names of the types. *)
Definition commonMigrations (t : typeNames) : list (list ddl) :=
  let T := t_text t in let J := t_json t in let W := t_time t in
  let B := t_bool t in let I := t_int t in let L := t_long t in
  [ [ CreateTable "worlds"
        [ MkColumn "id" T [PRIMARY_KEY]; MkColumn "slug" T [NOT_NULL; UNIQUE];
          MkColumn "title" T [NOT_NULL]; MkColumn "system_id" T [NOT_NULL];
          MkColumn "system_version" T [NOT_NULL];
          MkColumn "default_locale" T [NOT_NULL; "DEFAULT 'en'"];
          MkColumn "settings" J [NOT_NULL]; MkColumn "event_seq" L [NOT_NULL; ZERO];
          MkColumn "created_at" W [NOT_NULL]; MkColumn "archived_at" W [] ] ["id"];
      CreateTable "documents"
        [ MkColumn "world_id" T [NOT_NULL; IN_WORLD]; MkColumn "id" T [NOT_NULL];
          MkColumn "kind" T [NOT_NULL]; MkColumn "subtype" T [NOT_NULL; EMPTY];
          MkColumn "parent_id" T []; MkColumn "folder_id" T []; MkColumn "name" T [NOT_NULL];
          MkColumn "sort" I [NOT_NULL; ZERO]; MkColumn "img" T [NOT_NULL; EMPTY];
          MkColumn "data" J [NOT_NULL]; MkColumn "flags" J [NOT_NULL];
          MkColumn "ownership" J [NOT_NULL]; MkColumn "source_pack" T [NOT_NULL; EMPTY];
          MkColumn "schema_version" T [NOT_NULL; EMPTY]; MkColumn "created_at" W [NOT_NULL];
          MkColumn "updated_at" W [NOT_NULL]; MkColumn "updated_seq" L [NOT_NULL; ZERO];
          MkColumn "deleted_at" W [] ] ["world_id"; "id"];
      CreateIndex "documents_kind_idx" "documents" ["world_id"; "kind"; "deleted_at"] false "";
      CreateIndex "documents_parent_idx" "documents" ["world_id"; "parent_id"] false
        "WHERE parent_id IS NOT NULL";
      CreateIndex "documents_folder_idx" "documents" ["world_id"; "folder_id"] false
        "WHERE folder_id IS NOT NULL";
      CreateIndex "documents_seq_idx" "documents" ["world_id"; "updated_seq"] false "";
      CreateTable "world_events"
        [ MkColumn "world_id" T [NOT_NULL; IN_WORLD]; MkColumn "seq" L [NOT_NULL];
          MkColumn "ts" W [NOT_NULL]; MkColumn "actor_user_id" T [NOT_NULL; EMPTY];
          MkColumn "kind" T [NOT_NULL]; MkColumn "target_kind" T [NOT_NULL; EMPTY];
          MkColumn "target_id" T [NOT_NULL; EMPTY]; MkColumn "scene_id" T [NOT_NULL; EMPTY];
          MkColumn "payload" J [NOT_NULL]; MkColumn "audience" J [NOT_NULL];
          MkColumn "undo" J [] ] ["world_id"; "seq"];
      CreateIndex "world_events_ts_idx" "world_events" ["world_id"; "ts"] false "" ];
    [ CreateTable "world_members"
        [ MkColumn "world_id" T [NOT_NULL; IN_WORLD]; MkColumn "user_id" T [NOT_NULL];
          MkColumn "role" T [NOT_NULL]; MkColumn "joined_at" W [NOT_NULL] ]
        ["world_id"; "user_id"] ];
    [ CreateTable "users"
        [ MkColumn "id" T [PRIMARY_KEY]; MkColumn "username" T [NOT_NULL; UNIQUE];
          MkColumn "email" T [UNIQUE]; MkColumn "password_hash" T [NOT_NULL; EMPTY];
          MkColumn "locale" T [NOT_NULL; EMPTY];
          MkColumn "is_admin" B [NOT_NULL; "DEFAULT " +:+ false_literal t];
          MkColumn "created_at" W [NOT_NULL]; MkColumn "disabled_at" W [] ] ["id"];
      CreateTable "user_sessions"
        [ MkColumn "token_hash" T [PRIMARY_KEY]; MkColumn "user_id" T [NOT_NULL; OF_USER];
          MkColumn "created_at" W [NOT_NULL]; MkColumn "expires_at" W [NOT_NULL];
          MkColumn "last_seen_at" W [NOT_NULL]; MkColumn "user_agent" T [NOT_NULL; EMPTY] ]
        ["token_hash"];
      CreateIndex "user_sessions_user_idx" "user_sessions" ["user_id"] false "";
      CreateIndex "user_sessions_expiry_idx" "user_sessions" ["expires_at"] false "" ];
    [ CreateTable "invites"
        [ MkColumn "id" T [PRIMARY_KEY]; MkColumn "token_hash" T [NOT_NULL; UNIQUE];
          MkColumn "world_id" T [NOT_NULL; IN_WORLD]; MkColumn "role" T [NOT_NULL];
          MkColumn "created_by" T [NOT_NULL]; MkColumn "created_at" W [NOT_NULL];
          MkColumn "expires_at" W [NOT_NULL]; MkColumn "max_uses" I [NOT_NULL; ZERO];
          MkColumn "uses" I [NOT_NULL; ZERO]; MkColumn "revoked_at" W [] ] ["id"];
      CreateIndex "invites_world_idx" "invites" ["world_id"] false "" ];
    [ AddColumn "worlds" (MkColumn "active_scene" T [NOT_NULL; EMPTY]) ];
    [ CreateTable "assets"
        [ MkColumn "id" T [PRIMARY_KEY]; MkColumn "world_id" T [NOT_NULL; IN_WORLD];
          MkColumn "sha256" T [NOT_NULL]; MkColumn "mime" T [NOT_NULL];
          MkColumn "bytes" L [NOT_NULL]; MkColumn "width" I [NOT_NULL; ZERO];
          MkColumn "height" I [NOT_NULL; ZERO]; MkColumn "duration_ms" I [NOT_NULL; ZERO];
          MkColumn "variants" J [NOT_NULL]; MkColumn "uploaded_by" T [NOT_NULL; EMPTY];
          MkColumn "created_at" W [NOT_NULL] ] ["id"];
      CreateIndex "assets_sha_idx" "assets" ["world_id"; "sha256"] true "";
      CreateIndex "assets_world_idx" "assets" ["world_id"; "created_at"] false "" ] ].

Definition sqliteMigrations : list (list ddl) :=
  commonMigrations (MkTypeNames "TEXT" "BLOB" "TEXT" "INTEGER" "INTEGER" "INTEGER" "0").

(** PostgreSQL has one more index, after that on [updated_seq]. *)
Definition addGin (d : ddl) : list ddl :=
  match d with
  | CreateIndex "documents_seq_idx" _ _ _ _ =>
      [d; CreateIndex "documents_data_gin" "documents" ["data"] false "USING GIN jsonb_path_ops"]
  | _ => [d]
  end.

Definition postgresMigrations : list (list ddl) :=
  mbind addGin <$>
    commonMigrations (MkTypeNames "TEXT" "JSONB" "TIMESTAMPTZ" "BOOLEAN" "INTEGER" "BIGINT" "FALSE").

(** ** What is left after any number of attempts *)

Section Convergence.
Context {statement D : Type} (exec : statement → D → res D).
Variable migrations : list (list statement).
Variable fresh : D.

Definition runAll (ss : list statement) (s : D) : res D :=
  foldM (λ s statement, exec statement s) s ss.

(** Exactly the first [n] migrations have been run, and recorded. *)
Definition migratedTo (n : nat) (db : database (D := D)) : Prop :=
  (n ≤ length migrations)%nat ∧ versions db = Z.of_nat <$> seq 1 n ∧
  runAll (concat (take n migrations)) fresh = Ok (schema db).

Definition migrateAttempt (db db' : database (D := D)) : Prop :=
  ∃ begins records commits r, Migrate exec begins records commits migrations db = (r, db').

Lemma foldr_max_seq n k : foldr Z.max 0 (Z.of_nat <$> seq (S k) n) =
  if decide (n = 0%nat) then 0 else Z.of_nat (k + n).
Proof.
  revert k. induction n as [|n IH]; intros k; [done|].
  cbn [seq fmap list_fmap foldr]. change (list_fmap _ _ Z.of_nat) with (fmap (M := list) Z.of_nat).
  rewrite IH. do 2 case_decide; lia.
Qed.

Lemma migratedTo_version n db : migratedTo n db → appliedVersion db = Z.of_nat n.
Proof.
  intros (_ & Hv & _). unfold appliedVersion. rewrite Hv, foldr_max_seq. case_decide; lia.
Qed.

Lemma migratedTo_fresh : migratedTo 0 (MkDatabase fresh []).
Proof. split_and!; [lia|done|done]. Qed.

Section Driver.
Variable begins records commits : Z → res unit.
Local Abbreviation run := (Migrate exec begins records commits migrations).
Local Abbreviation from := (migrateFrom exec begins records commits).

Lemma migrateOne_cases n statements db r db' :
  migratedTo n db → migrations !! n = Some statements →
  migrateOne exec begins records commits (Z.of_nat n + 1) statements db = (r, db') →
  (r = Ok tt ∧ migratedTo (S n) db') ∨ (∃ e, r = Err e) ∧ db' = db.
Proof.
  intros (Hn & Hv & Hs) Hm. unfold migrateOne.
  destruct (_ ← begins _; _) as [d|e] eqn:E; intros [= <- <-]; [left|right; eauto].
  inv_ok. split; [done|]. split_and!; cbn [versions schema].
  - by apply lookup_lt_Some in Hm.
  - rewrite Hv, seq_S, fmap_app. cbn. do 2 f_equal. lia.
  - rewrite (take_S_r _ _ _ Hm), concat_app. cbn. rewrite app_nil_r. unfold runAll in *.
    rewrite foldM_app, Hs. done.
Qed.

(** With [k] migrations already looked at, of which [a] had been applied when the
    run began. *)
Lemma migrateFrom_cases ms k a db r db' :
  migratedTo (a `max` k) db → drop k migrations = ms →
  from (Z.of_nat k) ms (Z.of_nat a) db = (r, db') →
  ∃ m, (a ≤ m)%nat ∧ migratedTo m db' ∧ (r = Ok tt → m = length migrations) ∧
       (r ≠ Ok tt → (m < length migrations)%nat).
Proof.
  revert k db. induction ms as [|statements ms IH]; intros k db Hto Hms; cbn [migrateFrom].
  - intros [= <- <-]. exists (a `max` k)%nat. destruct Hto as (Hle & Hto). split_and!; [lia|by split| |done].
    intros _. apply (f_equal length) in Hms. rewrite length_drop in Hms. cbn in Hms. lia.
  - assert (Hk : migrations !! k = Some statements).
    { rewrite <-(Nat.add_0_r k), <-lookup_drop, Hms. done. }
    assert (Hrest : drop (S k) migrations = ms).
    { rewrite <-Nat.add_1_r, <-drop_drop, Hms. done. }
    replace (Z.of_nat k + 1) with (Z.of_nat (S k)) by lia.
    case_match eqn:E.
    + apply Z.leb_le in E. apply IH; [|done]. by replace (a `max` S k)%nat with (a `max` k)%nat by lia.
    + apply Z.leb_gt in E. replace (a `max` k)%nat with k in Hto by lia.
      destruct (migrateOne exec begins records commits (Z.of_nat (S k)) statements db)
        as [r1 db1] eqn:E1.
      unfold mbind, M_bind. rewrite E1.
      replace (Z.of_nat (S k)) with (Z.of_nat k + 1) in E1 by lia.
      destruct (migrateOne_cases _ _ _ _ _ Hto Hk E1) as [[-> Hto1]|[[e ->] ->]].
      * apply IH; [|done]. by replace (a `max` S k)%nat with (S k) by lia.
      * intros [= <- <-]. exists k. apply lookup_lt_Some in Hk. split_and!; [lia|done..].
Qed.

(** One attempt: some further migrations are run, all of them on success. *)
Lemma Migrate_cases n db r db' :
  migratedTo n db → run db = (r, db') →
  ∃ m, (n ≤ m)%nat ∧ migratedTo m db' ∧ (r = Ok tt → m = length migrations) ∧
       (r ≠ Ok tt → (m < length migrations)%nat).
Proof.
  intros Hto. unfold Migrate. rewrite (migratedTo_version _ _ Hto).
  apply (migrateFrom_cases migrations 0); [|done]. by rewrite Nat.max_0_r.
Qed.

(** A database that is up to date is left alone, whatever the driver does. *)
Lemma Migrate_again db : migratedTo (length migrations) db → run db = (Ok tt, db).
Proof.
  intros Hto. unfold Migrate. rewrite (migratedTo_version _ _ Hto).
  assert (Hskip : ∀ ms k, (k + length ms ≤ length migrations)%nat →
    from (Z.of_nat k) ms (Z.of_nat (length migrations)) db = (Ok tt, db)).
  { induction ms as [|ss ms IH]; intros k Hk; [done|]. cbn in *.
    replace (Z.of_nat k + 1) with (Z.of_nat (S k)) by lia.
    rewrite (proj2 (Z.leb_le _ _)) by lia. apply IH. lia. }
  by apply (Hskip migrations 0%nat).
Qed.
End Driver.

Lemma attempts_migrated db : rtc migrateAttempt (MkDatabase fresh []) db → ∃ n, migratedTo n db.
Proof.
  assert (Hinv : ∀ d d', rtc migrateAttempt d d' → ∀ n, migratedTo n d → ∃ m, migratedTo m d').
  { induction 1 as [|d1 d2 d3 (b & rs & cs & r & Hrun) _ IH]; [eauto|]. intros n Hn.
    destruct (Migrate_cases _ _ _ _ _ _ _ Hn Hrun) as (m & _ & Hm & _). eauto. }
  intros H. by eapply Hinv, migratedTo_fresh.
Qed.
End Convergence.

(** C29: migrating converges.  Whatever attempts were made on a fresh database,
    each over a driver that may refuse any transaction, a successful [Migrate]
    leaves exactly the schema of all migrations run once, in order, recorded as
    versions [1] to their number; and every later [Migrate] succeeds and
    changes nothing. *)
Theorem migrations_converge {statement D} (exec : statement → D → res D) migrations fresh
    db db' begins records commits :
  rtc (migrateAttempt exec migrations) (MkDatabase fresh []) db →
  Migrate exec begins records commits migrations db = (Ok tt, db') →
  runAll exec (concat migrations) fresh = Ok (schema db') ∧
  versions db' = Z.of_nat <$> seq 1 (length migrations) ∧
  ∀ begins' records' commits',
    Migrate exec begins' records' commits' migrations db' = (Ok tt, db').
Proof.
  intros (n & Hn)%attempts_migrated Hrun.
  destruct (Migrate_cases _ _ _ _ _ _ _ _ _ _ Hn Hrun) as (m & _ & Hm & Hok & _).
  specialize (Hok eq_refl) as ->. pose proof Hm as (_ & Hv & Hs). rewrite firstn_all in Hs.
  split_and!; [done|done|]. intros. by eapply Migrate_again.
Qed.

(** ** The two schemas *)

Definition shape (r : res catalog) : option (list (string * (list string * list string))) :=
  match r with
  | Ok c => Some ((λ t, (t.1, (namesOf t.2.1, t.2.2))) <$> catalog_tables c)
  | Err _ => None
  end.

(** Both engines accept their migrations on an empty database and end with the
    same tables, columns and keys. *)
Lemma schemas_agree :
  is_Some (shape (runAll define (concat sqliteMigrations) emptyCatalog)) ∧
  shape (runAll define (concat postgresMigrations) emptyCatalog) =
  shape (runAll define (concat sqliteMigrations) emptyCatalog).
Proof. split; [vm_compute; by eexists|vm_compute; reflexivity]. Qed.
