(* ===== verification/Rows.v ===== *)
(** * Rows (internal/storage/sqlstore: the column lists, bindings and scanners)

    Every table has an INSERT that names columns and binds one value to each, and
    SELECTs that name columns in an order of their own and scan the values into
    the fields of a record.  Here the two meet: what the driver gives back of a
    row, read through the SELECT's list by the scanners, is the record that was
    put in as the engine keeps it: its instants whole on SQLite, which keeps them
    as text, and cut to the microsecond on Postgres, and its empty JSON replaced
    by the fallback; and the columns exist in the schema the migrations build.

    JSON text is kept by what it reads as, as in the rest of the development. *)

From S2P Require Import Prelude GoStrings GoTime TimeParse Json Storage SqlStore SqlText Migrations.
From Stdlib Require Import Ascii.
From Stdlib Require String.

Local Open Scope Z_scope.

(** ** Values *)

(** A value bound to a placeholder or given back by the driver ([any]). *)
Inductive cell :=
  | NullCell
  | TextCell (s : string)
  | BytesCell (b : bytes)
  | IntCell (z : Z)
  | BoolCell (b : bool)
  | TimeCell (t : Time)
  | JSONCell (r : raw).

(** The engines, as far as their values differ. *)
Inductive backend := Sqlite | Postgres.

Definition TimeArg (b : backend) (t : Time) : cell :=
  match b with Sqlite => TextCell (sqliteTimeArg t) | Postgres => TimeCell t end.
Definition TimePtrArg (b : backend) (t : option Time) : cell :=
  match t with None => NullCell | Some t => TimeArg b t end.

(** [jsonArg], before the engine looks at the text. *)
Definition rawOr (r fallback : raw) : raw := match r with RawEmpty => fallback | _ => r end.
Definition jsonCell (r fallback : raw) : cell := JSONCell (rawOr r fallback).

Definition nullableCell (id : ID) : cell := if bool_decide (id = "") then NullCell else TextCell id.

(** ** Scanners *)

Definition errScan : err := ErrOther "storage: cannot scan".

Fixpoint firstParse (layouts : list (list chunk)) (text : string) : option Time :=
  match layouts with
  | [] => None
  | layout :: layouts =>
      match TimeParse layout text with Some t => Some t | None => firstParse layouts text end
  end.

Definition parseTimeInto (text : string) : res Time :=
  match firstParse [RFC3339Nano; RFC3339; spacedNano; spaced] text with
  | Some t => Ok t
  | None => Err errScan
  end.

Definition timeScanner (value : cell) : res Time :=
  match value with
  | NullCell => Ok 0
  | TimeCell t => Ok t
  | TextCell s => parseTimeInto s
  | BytesCell b => parseTimeInto (unchars b)
  | _ => Err errScan
  end.

Definition nullTimeScanner (value : cell) : res (option Time) :=
  match value with
  | NullCell => Ok None
  | _ => t ← timeScanner value; Ok (Some t)
  end.

Definition boolScanner (value : cell) : res bool :=
  match value with
  | NullCell => Ok false
  | BoolCell b => Ok b
  | IntCell z => Ok (negb (z =? 0))
  | BytesCell [c] => Ok (bool_decide (c = "t"%char) || bool_decide (c = "1"%char))
  | BytesCell _ => Ok false
  | TextCell s => Ok (bool_decide (s = "t") || bool_decide (s = "true") || bool_decide (s = "1"))
  | _ => Err errScan
  end.

(** What a text that was not bound as JSON decodes to. *)
Class JsonReader := rawOf : string → raw.

Definition jsonScanner `{JsonReader} (fallback : raw) (value : cell) : res raw :=
  match value with
  | NullCell => Ok fallback
  | JSONCell r => Ok r
  | TextCell s => Ok (rawOf s)
  | BytesCell b => Ok (rawOf (unchars b))
  | _ => Err errScan
  end.

(** [Scan] into a string, an integer and a [sql.NullString] ([convertAssign] of
    database/sql); no column of text holds an instant or JSON. *)
Definition scanText (value : cell) : res string :=
  match value with
  | TextCell s => Ok s
  | BytesCell b => Ok (unchars b)
  | IntCell z => Ok (Itoa z)
  | BoolCell b => Ok (if b then "true" else "false")
  | _ => Err errScan
  end.

Definition scanInt (value : cell) : res Z :=
  match value with
  | IntCell z => Ok z
  | TextCell s => match Atoi s with Some z => Ok z | None => Err errScan end
  | BytesCell b => match Atoi (unchars b) with Some z => Ok z | None => Err errScan end
  | _ => Err errScan
  end.

Definition scanNullString (value : cell) : res string :=
  match value with NullCell => Ok "" | _ => scanText value end.

(** ** The driver *)

(** What a driver may give back for a value it was given: text as a string or as
    bytes, a boolean as one or as a bit, an instant to the microsecond. *)
Inductive returned : cell → cell → Prop :=
  | returned_null : returned NullCell NullCell
  | returned_text s : returned (TextCell s) (TextCell s)
  | returned_bytes s : returned (TextCell s) (BytesCell (chars s))
  | returned_int z : returned (IntCell z) (IntCell z)
  | returned_bool b : returned (BoolCell b) (BoolCell b)
  | returned_bit (b : bool) : returned (BoolCell b) (IntCell (if b then 1 else 0))
  | returned_json r : returned (JSONCell r) (JSONCell r)
  | returned_time t : returned (TimeCell t) (TimeCell (t - t `mod` 1000)).

(** What an engine keeps of an instant: SQLite the text of it, to the nanosecond,
    and Postgres its whole microseconds. *)
Definition kept (b : backend) (t : Time) : Time :=
  match b with Sqlite => t | Postgres => t - t `mod` 1000 end.
Definition keptPtr (b : backend) (t : option Time) : option Time := kept b <$> t.

Lemma scanText_returned s c : returned (TextCell s) c → scanText c = Ok s.
Proof. inversion 1; subst; [done|]. cbn. by rewrite unchars_chars. Qed.

Lemma scanInt_returned z c : returned (IntCell z) c → scanInt c = Ok z.
Proof. by inversion 1. Qed.

Lemma scanNullString_returned id c : returned (nullableCell id) c → scanNullString c = Ok id.
Proof.
  unfold nullableCell. case_bool_decide as Hid; [subst id; by inversion 1|].
  intros Hr. pose proof (scanText_returned _ _ Hr) as Hs. by destruct c.
Qed.

Lemma boolScanner_returned b c : returned (BoolCell b) c → boolScanner c = Ok b.
Proof. inversion 1; subst; [done|]. by destruct b. Qed.

Lemma jsonScanner_returned `{JsonReader} r fallback c :
  returned (jsonCell r fallback) c → jsonScanner fallback c = Ok (rawOr r fallback).
Proof. by inversion 1. Qed.

Lemma timeScanner_returned b t c : returned (TimeArg b t) c → inYears t → timeScanner c = Ok (kept b t).
Proof.
  assert (inYears t → parseTimeInto (sqliteTimeArg t) = Ok t) as Hp.
  { intros Ht. unfold parseTimeInto, sqliteTimeArg. cbn [firstParse]. by rewrite TimeParse_format. }
  destruct b; cbn [TimeArg kept]; inversion 1; subst; cbn [timeScanner]; intros Ht.
  - by apply Hp.
  - rewrite unchars_chars. by apply Hp.
  - done.
Qed.

Lemma returned_null_inv c : returned c NullCell → c = NullCell.
Proof. by inversion 1. Qed.

Lemma nullTimeScanner_returned b t c :
  returned (TimePtrArg b t) c → Forall inYears (option_list t) → nullTimeScanner c = Ok (keptPtr b t).
Proof.
  destruct t as [t|]; cbn [TimePtrArg]; [|by inversion 1].
  intros Hr [Ht _]%Forall_cons. pose proof (timeScanner_returned b t c Hr Ht) as Hs.
  destruct c; [apply returned_null_inv in Hr; by destruct b|..];
    unfold nullTimeScanner; rewrite Hs; reflexivity.
Qed.

(** ** Codecs of rows *)

(** A record and its table: what an INSERT binds to which column, what a SELECT
    asks for, how the values become a record, and what is kept of a record. *)
Record rowCodec (A : Type) := MkCodec {
  c_table : string;
  c_insert : list string;
  c_args : backend → A → list cell;
  c_select : list string;
  c_scan : list cell → res A;
  c_stored : backend → A → A;
  c_times : A → list Time
}.
Arguments MkCodec {A}.
Arguments c_table {A}. Arguments c_insert {A}. Arguments c_args {A}. Arguments c_select {A}.
Arguments c_scan {A}. Arguments c_stored {A}. Arguments c_times {A}.

Definition rowOf {A} (k : rowCodec A) (b : backend) (x : A) : list (string * cell) := zip (c_insert k) (c_args k b x).

Fixpoint columnOf (row : list (string * cell)) (name : string) : option cell :=
  match row with
  | [] => None
  | (n, c) :: row => if bool_decide (n = name) then Some c else columnOf row name
  end.

(** The values a SELECT gives of a row. *)
Definition selected (row : list (string * cell)) (names : list string) (values : list cell) : Prop :=
  Forall2 (λ name value, ∃ given, columnOf row name = Some given ∧ returned given value) names values.

Definition readsBack {A} (k : rowCodec A) : Prop :=
  ∀ b x values, Forall inYears (c_times k x) → selected (rowOf k b x) (c_select k) values →
  c_scan k values = Ok (c_stored k b x).

(** The loop over the rows of an answer: the first that cannot be scanned, or the
    error that ends the cursor, is the result. *)
Definition collectRows {A} (scan : list cell → res A) (answer : list (list cell)) (ended : res unit) : res (list A) :=
  xs ← traverse scan answer; _ ← ended; Ok xs.

(** A listing is read back row by row, in the order it was given. *)
Lemma collectRows_back {A} (k : rowCodec A) b xs answer :
  readsBack k → Forall (λ x, Forall inYears (c_times k x)) xs →
  Forall2 (λ x values, selected (rowOf k b x) (c_select k) values) xs answer →
  collectRows (c_scan k) answer (Ok tt) = Ok (c_stored k b <$> xs).
Proof.
  intros Hk Hxs Hall. unfold collectRows. enough (traverse (c_scan k) answer = Ok (c_stored k b <$> xs)) as -> by done.
  apply traverse_Ok. induction Hall as [|x values xs answer Hx Hall IH]; [constructor|].
  apply Forall_cons in Hxs as [Hx' Hxs]. constructor; [by eapply Hk|by apply IH].
Qed.

Definition errColumns : err := ErrOther "sql: expected another number of destination arguments".

Section Codecs.
Context `{JsonReader}.

Definition worldColumns : list string :=
  ["id"; "slug"; "title"; "system_id"; "system_version"; "default_locale"; "active_scene"; "settings";
   "event_seq"; "created_at"; "archived_at"].

Definition worldArgs (b : backend) (w : World) : list cell :=
  [TextCell (world_ID w); TextCell (world_Slug w); TextCell (world_Title w); TextCell (world_SystemID w);
   TextCell (world_SystemVersion w); TextCell (world_DefaultLocale w); TextCell (world_ActiveScene w);
   jsonCell (world_Settings w) rawObject; IntCell (world_EventSeq w);
   TimeArg b (world_CreatedAt w); TimePtrArg b (world_ArchivedAt w)].

Definition scanWorld (values : list cell) : res World :=
  match values with
  | [id; slug; title; system; version; locale; scene; settings; seq; created; archived] =>
      id ← scanText id; slug ← scanText slug; title ← scanText title; system ← scanText system;
      version ← scanText version; locale ← scanText locale; scene ← scanText scene;
      settings ← jsonScanner rawObject settings; seq ← scanInt seq;
      created ← timeScanner created; archived ← nullTimeScanner archived;
      Ok (MkWorld id slug title system version locale scene settings seq created archived)
  | _ => Err errColumns
  end.

Definition storedWorld (b : backend) (w : World) : World :=
  MkWorld (world_ID w) (world_Slug w) (world_Title w) (world_SystemID w) (world_SystemVersion w)
    (world_DefaultLocale w) (world_ActiveScene w) (rawOr (world_Settings w) rawObject) (world_EventSeq w)
    (kept b (world_CreatedAt w)) (keptPtr b (world_ArchivedAt w)).

Definition worldRows : rowCodec World :=
  MkCodec "worlds" worldColumns worldArgs worldColumns scanWorld storedWorld
    (λ w, world_CreatedAt w :: option_list (world_ArchivedAt w)).

Definition memberColumns : list string := ["world_id"; "user_id"; "role"; "joined_at"].

Definition memberArgs (b : backend) (m : Member) : list cell :=
  [TextCell (member_WorldID m); TextCell (member_UserID m); TextCell (member_Role m); TimeArg b (member_JoinedAt m)].

Definition scanMember (values : list cell) : res Member :=
  match values with
  | [world; user; role; joined] =>
      world ← scanText world; user ← scanText user; role ← scanText role; joined ← timeScanner joined;
      Ok (MkMember world user role joined)
  | _ => Err errColumns
  end.

Definition storedMember (b : backend) (m : Member) : Member :=
  MkMember (member_WorldID m) (member_UserID m) (member_Role m) (kept b (member_JoinedAt m)).

Definition memberRows : rowCodec Member :=
  MkCodec "world_members" memberColumns memberArgs memberColumns scanMember storedMember (λ m, [member_JoinedAt m]).

Definition userColumns : list string :=
  ["id"; "username"; "email"; "password_hash"; "locale"; "is_admin"; "created_at"; "disabled_at"].

Definition userArgs (b : backend) (u : User) : list cell :=
  [TextCell (user_ID u); TextCell (user_Username u); nullableCell (user_Email u); TextCell (user_PasswordHash u);
   TextCell (user_Locale u); BoolCell (user_IsAdmin u); TimeArg b (user_CreatedAt u); TimePtrArg b (user_DisabledAt u)].

Definition scanUser (values : list cell) : res User :=
  match values with
  | [id; username; email; hash; locale; admin; created; disabled] =>
      id ← scanText id; username ← scanText username; email ← scanNullString email; hash ← scanText hash;
      locale ← scanText locale; admin ← boolScanner admin; created ← timeScanner created;
      disabled ← nullTimeScanner disabled;
      Ok (MkUser id username email hash locale admin created disabled)
  | _ => Err errColumns
  end.

Definition storedUser (b : backend) (u : User) : User :=
  MkUser (user_ID u) (user_Username u) (user_Email u) (user_PasswordHash u) (user_Locale u) (user_IsAdmin u)
    (kept b (user_CreatedAt u)) (keptPtr b (user_DisabledAt u)).

Definition userRows : rowCodec User :=
  MkCodec "users" userColumns userArgs userColumns scanUser storedUser
    (λ u, user_CreatedAt u :: option_list (user_DisabledAt u)).

Definition sessionColumns : list string :=
  ["token_hash"; "user_id"; "created_at"; "expires_at"; "last_seen_at"; "user_agent"].

Definition sessionArgs (b : backend) (s : UserSession) : list cell :=
  [TextCell (session_TokenHash s); TextCell (session_UserID s); TimeArg b (session_CreatedAt s);
   TimeArg b (session_ExpiresAt s); TimeArg b (session_LastSeenAt s); TextCell (session_UserAgent s)].

Definition scanUserSession (values : list cell) : res UserSession :=
  match values with
  | [hash; user; created; expires; seen; agent] =>
      hash ← scanText hash; user ← scanText user; created ← timeScanner created; expires ← timeScanner expires;
      seen ← timeScanner seen; agent ← scanText agent;
      Ok (MkUserSession hash user created expires seen agent)
  | _ => Err errColumns
  end.

Definition storedSession (b : backend) (s : UserSession) : UserSession :=
  MkUserSession (session_TokenHash s) (session_UserID s) (kept b (session_CreatedAt s))
    (kept b (session_ExpiresAt s)) (kept b (session_LastSeenAt s)) (session_UserAgent s).

Definition sessionRows : rowCodec UserSession :=
  MkCodec "user_sessions" sessionColumns sessionArgs sessionColumns scanUserSession storedSession
    (λ s, [session_CreatedAt s; session_ExpiresAt s; session_LastSeenAt s]).

Definition inviteColumns : list string :=
  ["id"; "token_hash"; "world_id"; "role"; "created_by"; "created_at"; "expires_at"; "max_uses"; "uses"; "revoked_at"].

Definition inviteArgs (b : backend) (i : Invite) : list cell :=
  [TextCell (invite_ID i); TextCell (invite_TokenHash i); TextCell (invite_WorldID i); TextCell (invite_Role i);
   TextCell (invite_CreatedBy i); TimeArg b (invite_CreatedAt i); TimeArg b (invite_ExpiresAt i);
   IntCell (invite_MaxUses i); IntCell (invite_Uses i); TimePtrArg b (invite_RevokedAt i)].

Definition scanInvite (values : list cell) : res Invite :=
  match values with
  | [id; hash; world; role; by_; created; expires; max; uses; revoked] =>
      id ← scanText id; hash ← scanText hash; world ← scanText world; role ← scanText role; by_ ← scanText by_;
      created ← timeScanner created; expires ← timeScanner expires; max ← scanInt max; uses ← scanInt uses;
      revoked ← nullTimeScanner revoked;
      Ok (MkInvite id hash world role by_ created expires max uses revoked)
  | _ => Err errColumns
  end.

Definition storedInvite (b : backend) (i : Invite) : Invite :=
  MkInvite (invite_ID i) (invite_TokenHash i) (invite_WorldID i) (invite_Role i) (invite_CreatedBy i)
    (kept b (invite_CreatedAt i)) (kept b (invite_ExpiresAt i)) (invite_MaxUses i) (invite_Uses i)
    (keptPtr b (invite_RevokedAt i)).

Definition inviteRows : rowCodec Invite :=
  MkCodec "invites" inviteColumns inviteArgs inviteColumns scanInvite storedInvite
    (λ i, invite_CreatedAt i :: invite_ExpiresAt i :: option_list (invite_RevokedAt i)).

Definition documentRowColumns : list string :=
  ["world_id"; "id"; "kind"; "subtype"; "parent_id"; "folder_id"; "name"; "sort"; "img"; "data"; "flags";
   "ownership"; "source_pack"; "schema_version"; "created_at"; "updated_at"; "updated_seq"; "deleted_at"].

Definition documentArgs (b : backend) (x : Document) : list cell :=
  [TextCell (doc_WorldID x); TextCell (doc_ID x); TextCell (doc_Kind x); TextCell (doc_Subtype x);
   nullableCell (doc_ParentID x); nullableCell (doc_FolderID x); TextCell (doc_Name x); IntCell (doc_Sort x);
   TextCell (doc_Img x); jsonCell (doc_Data x) rawObject; jsonCell (doc_Flags x) rawObject;
   jsonCell (doc_Ownership x) rawObject; TextCell (doc_SourcePack x); TextCell (doc_SchemaVersion x);
   TimeArg b (doc_CreatedAt x); TimeArg b (doc_UpdatedAt x); IntCell (doc_UpdatedSeq x);
   TimePtrArg b (doc_DeletedAt x)].

Definition scanDocument (values : list cell) : res Document :=
  match values with
  | [world; id; kind; subtype; parent; folder; name; sort; img; data; flags; owner; pack; version; created;
     updated; seq; deleted] =>
      world ← scanText world; id ← scanText id; kind ← scanText kind; subtype ← scanText subtype;
      parent ← scanNullString parent; folder ← scanNullString folder; name ← scanText name; sort ← scanInt sort;
      img ← scanText img; data ← jsonScanner rawObject data; flags ← jsonScanner rawObject flags;
      owner ← jsonScanner rawObject owner; pack ← scanText pack; version ← scanText version;
      created ← timeScanner created; updated ← timeScanner updated; seq ← scanInt seq;
      deleted ← nullTimeScanner deleted;
      Ok (MkDocument world id kind subtype parent folder name sort img data flags owner pack version created
            updated seq deleted)
  | _ => Err errColumns
  end.

Definition storedDocument (b : backend) (x : Document) : Document :=
  MkDocument (doc_WorldID x) (doc_ID x) (doc_Kind x) (doc_Subtype x) (doc_ParentID x) (doc_FolderID x) (doc_Name x)
    (doc_Sort x) (doc_Img x) (rawOr (doc_Data x) rawObject) (rawOr (doc_Flags x) rawObject)
    (rawOr (doc_Ownership x) rawObject) (doc_SourcePack x) (doc_SchemaVersion x)
    (kept b (doc_CreatedAt x)) (kept b (doc_UpdatedAt x)) (doc_UpdatedSeq x) (keptPtr b (doc_DeletedAt x)).

Definition documentRows : rowCodec Document :=
  MkCodec "documents" documentRowColumns documentArgs documentRowColumns scanDocument storedDocument
    (λ x, doc_CreatedAt x :: doc_UpdatedAt x :: option_list (doc_DeletedAt x)).

Definition assetColumns : list string :=
  ["id"; "world_id"; "sha256"; "mime"; "bytes"; "width"; "height"; "duration_ms"; "variants"; "uploaded_by"; "created_at"].

Definition assetArgs (b : backend) (a : Asset) : list cell :=
  [TextCell (asset_ID a); TextCell (asset_WorldID a); TextCell (asset_SHA256 a); TextCell (asset_Mime a);
   IntCell (asset_Bytes a); IntCell (asset_Width a); IntCell (asset_Height a); IntCell (asset_DurationMS a);
   jsonCell (asset_Variants a) rawObject; TextCell (asset_UploadedBy a); TimeArg b (asset_CreatedAt a)].

Definition scanAsset (values : list cell) : res Asset :=
  match values with
  | [id; world; sha; mime; size; width; height; duration; variants; by_; created] =>
      id ← scanText id; world ← scanText world; sha ← scanText sha; mime ← scanText mime; size ← scanInt size;
      width ← scanInt width; height ← scanInt height; duration ← scanInt duration;
      variants ← jsonScanner rawObject variants; by_ ← scanText by_; created ← timeScanner created;
      Ok (MkAsset id world sha mime size width height duration variants by_ created)
  | _ => Err errColumns
  end.

Definition storedAsset (b : backend) (a : Asset) : Asset :=
  MkAsset (asset_ID a) (asset_WorldID a) (asset_SHA256 a) (asset_Mime a) (asset_Bytes a) (asset_Width a)
    (asset_Height a) (asset_DurationMS a) (rawOr (asset_Variants a) rawObject) (asset_UploadedBy a)
    (kept b (asset_CreatedAt a)).

Definition assetRows : rowCodec Asset :=
  MkCodec "assets" assetColumns assetArgs assetColumns scanAsset storedAsset (λ a, [asset_CreatedAt a]).

Definition eventColumns : list string :=
  ["world_id"; "seq"; "ts"; "actor_user_id"; "kind"; "target_kind"; "target_id"; "scene_id"; "payload"; "audience"; "undo"].

Definition eventArgs (b : backend) (e : Event) : list cell :=
  [TextCell (event_WorldID e); IntCell (event_Seq e); TimeArg b (event_Timestamp e); TextCell (event_ActorUserID e);
   TextCell (event_Kind e); TextCell (event_TargetKind e); TextCell (event_TargetID e); TextCell (event_SceneID e);
   jsonCell (event_Payload e) rawObject; jsonCell (event_Audience e) rawArray; jsonCell (event_Undo e) rawNull].

Definition scanEvent (values : list cell) : res Event :=
  match values with
  | [world; seq; ts; actor; kind; targetKind; target; scene; payload; audience; undo] =>
      world ← scanText world; seq ← scanInt seq; ts ← timeScanner ts; actor ← scanText actor; kind ← scanText kind;
      targetKind ← scanText targetKind; target ← scanText target; scene ← scanText scene;
      payload ← jsonScanner rawObject payload; audience ← jsonScanner rawArray audience;
      undo ← jsonScanner rawNull undo;
      Ok (MkEvent world seq ts actor kind targetKind target scene payload audience undo)
  | _ => Err errColumns
  end.

Definition storedEvent (b : backend) (e : Event) : Event :=
  MkEvent (event_WorldID e) (event_Seq e) (kept b (event_Timestamp e)) (event_ActorUserID e) (event_Kind e)
    (event_TargetKind e) (event_TargetID e) (event_SceneID e) (rawOr (event_Payload e) rawObject)
    (rawOr (event_Audience e) rawArray) (rawOr (event_Undo e) rawNull).

Definition eventRows : rowCodec Event :=
  MkCodec "world_events" eventColumns eventArgs eventColumns scanEvent storedEvent (λ e, [event_Timestamp e]).

(** ** Reading back *)

Lemma selected_cons row n names values :
  selected row (n :: names) values →
  ∃ v rest, values = v :: rest ∧ (∃ given, columnOf row n = Some given ∧ returned given v) ∧ selected row names rest.
Proof. intros (v & rest & Hv & Hr & ->)%Forall2_cons_inv_l. by exists v, rest. Qed.

Lemma selected_nil row values : selected row [] values → values = [].
Proof. apply Forall2_nil_inv_l. Qed.
End Codecs.

(** The values of a row, one after the other. *)
Ltac take_values :=
  repeat match goal with
    | Hs : selected _ (_ :: _) _ |- _ =>
        apply selected_cons in Hs as (? & ? & -> & (? & [=<-] & ?) & Hs)
    | Hs : selected _ [] _ |- _ => apply selected_nil in Hs as ->
    end.

Ltac scan_value :=
  match goal with
  | |- context [scanText ?c] => erewrite (scanText_returned _ c) by eassumption
  | |- context [scanInt ?c] => erewrite (scanInt_returned _ c) by eassumption
  | |- context [scanNullString ?c] => erewrite (scanNullString_returned _ c) by eassumption
  | |- context [boolScanner ?c] => erewrite (boolScanner_returned _ c) by eassumption
  | |- context [jsonScanner ?f ?c] => erewrite (jsonScanner_returned _ f c) by eassumption
  | |- context [nullTimeScanner ?c] => erewrite (nullTimeScanner_returned _ _ c) by eassumption
  | |- context [timeScanner ?c] => erewrite (timeScanner_returned _ _ c) by eassumption
  end.

(** For a codec with these columns, arguments and scan. *)
Tactic Notation "reads_back" reference(columns) reference(args) reference(scan) :=
  intros b x values Htimes Hs; cbn in Htimes; rewrite ?Forall_cons in Htimes; destruct_and? Htimes;
  unfold rowOf in Hs; cbn [c_insert c_args c_select] in Hs; unfold columns, args in Hs; take_values;
  cbn [c_scan]; unfold scan; repeat (scan_value; cbn [mbind res_bind]); destruct x; reflexivity.

Section Readings.
Context `{JsonReader}.

Lemma world_reads_back : readsBack worldRows.
Proof. unfold worldRows. reads_back worldColumns worldArgs scanWorld. Qed.
Lemma member_reads_back : readsBack memberRows.
Proof. unfold memberRows. reads_back memberColumns memberArgs scanMember. Qed.
Lemma user_reads_back : readsBack userRows.
Proof. unfold userRows. reads_back userColumns userArgs scanUser. Qed.
Lemma session_reads_back : readsBack sessionRows.
Proof. unfold sessionRows. reads_back sessionColumns sessionArgs scanUserSession. Qed.
Lemma invite_reads_back : readsBack inviteRows.
Proof. unfold inviteRows. reads_back inviteColumns inviteArgs scanInvite. Qed.
Lemma document_reads_back : readsBack documentRows.
Proof. unfold documentRows. reads_back documentRowColumns documentArgs scanDocument. Qed.
Lemma asset_reads_back : readsBack assetRows.
Proof. unfold assetRows. reads_back assetColumns assetArgs scanAsset. Qed.
Lemma event_reads_back : readsBack eventRows.
Proof. unfold eventRows. reads_back eventColumns eventArgs scanEvent. Qed.

(** ** Tables of the schema *)

(** A column that an INSERT has to bind. *)
Definition isRequired (c : column) : bool :=
  (bool_decide ("NOT NULL" ∈ column_constraints c) || bool_decide ("PRIMARY KEY" ∈ column_constraints c)) &&
  forallb (λ s, negb (String.prefix "DEFAULT" s)) (column_constraints c).

(** The columns an INSERT and a SELECT name are in the table, and every column
    that needs a value is bound. *)
Definition fits (c : catalog) (t : string * list string * list string) : bool :=
  let '(table, insert, select) := t in
  match columnsOf c table with
  | Some columns =>
      subsetOf insert (namesOf columns) && subsetOf select (namesOf columns) &&
      subsetOf (namesOf (filter (λ x, isRequired x = true) columns)) insert
  | None => false
  end.

Definition tableOf {A} (k : rowCodec A) : string * list string * list string := (c_table k, c_insert k, c_select k).

Definition allTables : list (string * list string * list string) :=
  [tableOf worldRows; tableOf memberRows; tableOf userRows; tableOf sessionRows; tableOf inviteRows;
   tableOf documentRows; tableOf assetRows; tableOf eventRows].

(** The stored form of JSON is the one the model of the store keeps. *)
Lemma jsonArg_rawOr r fallback : r ≠ RawBad → jsonArg r fallback = Ok (rawOr r fallback).
Proof. by destruct r. Qed.

(** C20: what is put into a row is what is read from it, as the engine keeps it.
    For each of the eight tables, on either engine, and a record whose instants
    are in the years 1 to 9999: bind its fields as the INSERT does, let the driver
    give the values back in any form it may (text as bytes, a boolean as a bit, an
    instant as RFC 3339 text or to the microsecond), pick them by the column list
    of the SELECT and scan them; the result is the record with every field as it
    was, but for two: empty JSON has become its fallback, and on Postgres an
    instant has lost what it had beyond whole microseconds.  SQLite keeps instants
    to the nanosecond.  In both migrated schemas every column named exists, and
    every column that needs a value gets one. *)
Theorem rows_read_back :
  (readsBack worldRows ∧ readsBack memberRows ∧ readsBack userRows ∧ readsBack sessionRows ∧
   readsBack inviteRows ∧ readsBack documentRows ∧ readsBack assetRows ∧ readsBack eventRows) ∧
  Forall (λ migrations, ∃ schema, runAll define (concat migrations) emptyCatalog = Ok schema ∧
            Forall (λ t, fits schema t = true) allTables) [sqliteMigrations; postgresMigrations].
Proof.
  split.
  - split_and!; [apply world_reads_back|apply member_reads_back|apply user_reads_back|apply session_reads_back
      |apply invite_reads_back|apply document_reads_back|apply asset_reads_back|apply event_reads_back].
  - repeat constructor; eexists; (split; [vm_compute; reflexivity|]); repeat constructor; vm_compute; reflexivity.
Qed.
End Readings.
