(* ===== verification/Upserts.v ===== *)
(** * Upserts (internal/storage/sqlstore)

    SqlStore.v models a statement by its effect on the tables.  The seven
    [INSERT ... ON CONFLICT ... DO UPDATE SET] statements of the store are given
    here by their text as well, the columns they conflict on and the columns they
    set, over the rows that Rows.v binds: both readings are the same. *)

From S2P Require Import Prelude GoStrings Json Storage SqlStore SqlLaws SqlText Migrations Rows.

Local Open Scope Z_scope.

(** ** The statements *)

Record conflict := MkConflict { on_columns : list string; set_columns : list string }.

Definition worldConflict : conflict :=
  MkConflict ["id"] ["slug"; "title"; "system_id"; "system_version"; "default_locale"; "active_scene"; "settings";
                     "archived_at"].
Definition memberConflict : conflict := MkConflict ["world_id"; "user_id"] ["role"].
Definition userConflict : conflict :=
  MkConflict ["id"] ["username"; "email"; "password_hash"; "locale"; "is_admin"; "disabled_at"].
Definition sessionConflict : conflict := MkConflict ["token_hash"] ["expires_at"; "last_seen_at"].
Definition inviteConflict : conflict := MkConflict ["id"] ["role"; "expires_at"; "max_uses"; "revoked_at"].
Definition documentConflict : conflict :=
  MkConflict ["world_id"; "id"]
    ["kind"; "subtype"; "parent_id"; "folder_id"; "name"; "sort"; "img"; "data"; "flags"; "ownership";
     "source_pack"; "schema_version"; "updated_at"; "updated_seq"; "deleted_at"].
Definition assetConflict : conflict :=
  MkConflict ["id"] ["mime"; "bytes"; "width"; "height"; "duration_ms"; "variants"].

(** [DO UPDATE SET c = excluded.c] for the columns named: the others keep the value
    of the row that is there. *)
Definition excludedInto (set : list string) (excluded old : list (string * cell)) : list (string * cell) :=
  (λ col, (col.1, if bool_decide (col.1 ∈ set) then default col.2 (columnOf excluded col.1) else col.2)) <$> old.

(** The values of the columns that decide whether a row is the same. *)
Definition conflictKey (on : list string) (row : list (string * cell)) : list (option cell) := columnOf row <$> on.

(** ** Both readings *)

Section Upserts.
Context `{JsonReader}.

(** An upsert that succeeds puts one row under its key.  A row that was there has
    the same values in the columns of the conflict, and is changed as the statement
    says by the row the arguments bind; else that row is inserted. *)
Definition upsertsAs {A K} `{Countable K} (k : rowCodec A) (on : conflict) (table : db → gmap K A) (key : A → K)
    (put : Time → A → M conn A) : Prop :=
  ∀ b now x c filled c', storeOK (tables c) → put now x c = (Ok filled, c') →
  key filled = key x ∧
  ∃ row, table (tables c') = <[key x := row]> (table (tables c)) ∧
    match table (tables c) !! key x with
    | None => rowOf k b row = rowOf k b filled
    | Some old =>
        conflictKey (on_columns on) (rowOf k b old) = conflictKey (on_columns on) (rowOf k b filled) ∧
        rowOf k b row = excludedInto (set_columns on) (rowOf k b filled) (rowOf k b old)
    end.

Lemma jsonArg_cell r fallback j : jsonArg r fallback = Ok j → jsonCell j fallback = jsonCell r fallback.
Proof. destruct r; intros [= <-]; [by destruct fallback|done]. Qed.

Lemma requireWritable_Ok {A} (fn : db → res A * db) c x c' :
  requireWritable fn c = (Ok x, c') → fn (tables c) = (Ok x, tables c').
Proof. unfold requireWritable. destruct (writable c); [|done]. destruct (fn (tables c)) as [r d]. by intros [= -> <-]. Qed.

(** The row that was there is under its own key; column by column the rows agree. *)
Ltac old_row law HOK Eo :=
  let E := fresh "E" in let E1 := fresh "E1" in let E2 := fresh "E2" in
  pose proof (law _ HOK _ _ Eo) as E; cbn in E; unfold rowOf, conflictKey; cbn;
  first [injection E as E1 E2; rewrite E1, E2 | rewrite E].

Lemma worlds_upsert : upsertsAs worldRows worldConflict worlds world_ID sqlPutWorld.
Proof.
  intros b now x c filled c' HOK Hp%requireWritable_Ok. cbn zeta in Hp.
  destruct (jsonArg (world_Settings x) rawObject) as [settings|] eqn:Es; [|done]. apply jsonArg_cell in Es.
  destruct (slugTaken _ _); [done|].
  destruct (worlds (tables c) !! world_ID x) as [old|] eqn:Eo; injection Hp as <- <-; (split; [done|]);
    eexists; (split; [reflexivity|]).
  - old_row ok_world_key HOK Eo. by rewrite Es.
  - unfold rowOf. cbn. by rewrite Es.
Qed.

Lemma members_upsert : upsertsAs memberRows memberConflict world_members (λ m, (member_WorldID m, member_UserID m)) sqlPutMember.
Proof.
  intros b now x c filled c' HOK Hp%requireWritable_Ok. cbn zeta in Hp.
  destruct (world_members (tables c) !! _) as [old|] eqn:Eo;
    [|destruct (worlds (tables c) !! member_WorldID x); [|done]]; injection Hp as <- <-; (split; [done|]);
    eexists; (split; [reflexivity|]); [|done]. by old_row ok_member_key HOK Eo.
Qed.

Lemma users_upsert : upsertsAs userRows userConflict users user_ID sqlPutUser.
Proof.
  intros b now x c filled c' HOK Hp%requireWritable_Ok. cbn zeta in Hp. destruct (userTaken _ _); [done|].
  destruct (users (tables c) !! user_ID x) as [old|] eqn:Eo; injection Hp as <- <-; (split; [done|]);
    eexists; (split; [reflexivity|]); [|done]. by old_row ok_user_key HOK Eo.
Qed.

Lemma sessions_upsert : upsertsAs sessionRows sessionConflict user_sessions session_TokenHash sqlPutUserSession.
Proof.
  intros b now x c filled c' HOK Hp%requireWritable_Ok. cbn zeta in Hp.
  destruct (user_sessions (tables c) !! _) as [old|] eqn:Eo;
    [|destruct (users (tables c) !! session_UserID x); [|done]]; injection Hp as <- <-; (split; [done|]);
    eexists; (split; [reflexivity|]); [|done]. by old_row ok_session_key HOK Eo.
Qed.

Lemma invites_upsert : upsertsAs inviteRows inviteConflict invites invite_ID sqlPutInvite.
Proof.
  intros b now x c filled c' HOK Hp%requireWritable_Ok. cbn zeta in Hp.
  destruct (invites (tables c) !! invite_ID x) as [old|] eqn:Eo.
  - injection Hp as <- <-. split; [done|]. eexists. split; [reflexivity|]. by old_row ok_invite_key HOK Eo.
  - destruct (worlds (tables c) !! invite_WorldID x); [|done]. destruct (hashTaken _ _); [done|].
    injection Hp as <- <-. split; [done|]. eexists. split; [reflexivity|]. done.
Qed.

Lemma documents_upsert : upsertsAs documentRows documentConflict documents (λ x, (doc_WorldID x, doc_ID x)) sqlPutDocument.
Proof.
  intros b now x c filled c' HOK Hp%requireWritable_Ok. cbn zeta in Hp.
  destruct (jsonArg (doc_Data x) rawObject) as [data|] eqn:Ed; [|done]. apply jsonArg_cell in Ed. cbn [mbind res_bind] in Hp.
  destruct (jsonArg (doc_Flags x) rawObject) as [flags|] eqn:Ef; [|done]. apply jsonArg_cell in Ef. cbn [mbind res_bind] in Hp.
  destruct (jsonArg (doc_Ownership x) rawObject) as [owner|] eqn:Ew; [|done]. apply jsonArg_cell in Ew. cbn [mbind res_bind] in Hp.
  destruct (worlds (tables c) !! doc_WorldID x); [|done].
  destruct (documents (tables c) !! _) as [old|] eqn:Eo; injection Hp as <- <-; (split; [done|]);
    eexists; (split; [reflexivity|]).
  - old_row ok_doc_key HOK Eo. by rewrite Ed, Ef, Ew.
  - unfold rowOf. cbn. by rewrite Ed, Ef, Ew.
Qed.

Lemma assets_upsert : upsertsAs assetRows assetConflict assets asset_ID sqlPutAsset.
Proof.
  intros b now x c filled c' HOK Hp%requireWritable_Ok. cbn zeta in Hp.
  destruct (jsonArg (asset_Variants x) rawObject) as [variants|] eqn:Ev; [|done]. apply jsonArg_cell in Ev.
  destruct (assets (tables c) !! asset_ID x) as [old|] eqn:Eo.
  - injection Hp as <- <-. split; [done|]. eexists. split; [reflexivity|].
    old_row ok_asset_key HOK Eo. by rewrite Ev.
  - destruct (worlds (tables c) !! asset_WorldID x); [|done]. destruct (shaTaken _ _); [done|].
    injection Hp as <- <-. split; [done|]. eexists. split; [reflexivity|]. unfold rowOf. cbn. by rewrite Ev.
Qed.

(** C21: every upsert does what its statement says.  For each of the seven tables, on
    either engine and whatever is stored already: an upsert that succeeds changes
    its table at one key; a new row has the values that were bound; a row that was
    there is the one the statement's conflict names, gets the bound values in the
    columns of its update list and keeps every other (when a world, a user or an
    asset was created, the event counter of a world, how often an invite was used,
    whose a session is). *)
Theorem upserts_follow_their_statements :
  upsertsAs worldRows worldConflict worlds world_ID sqlPutWorld ∧
  upsertsAs memberRows memberConflict world_members (λ m, (member_WorldID m, member_UserID m)) sqlPutMember ∧
  upsertsAs userRows userConflict users user_ID sqlPutUser ∧
  upsertsAs sessionRows sessionConflict user_sessions session_TokenHash sqlPutUserSession ∧
  upsertsAs inviteRows inviteConflict invites invite_ID sqlPutInvite ∧
  upsertsAs documentRows documentConflict documents (λ x, (doc_WorldID x, doc_ID x)) sqlPutDocument ∧
  upsertsAs assetRows assetConflict assets asset_ID sqlPutAsset.
Proof.
  split_and!; [apply worlds_upsert|apply members_upsert|apply users_upsert|apply sessions_upsert|apply invites_upsert
    |apply documents_upsert|apply assets_upsert].
Qed.
End Upserts.
