(* ===== verification/Engine.v ===== *)
(** * A reference engine

    A concrete instance of what the model takes from the database engines: JSON
    paths walk object members, comparisons are those of JSON values of one type,
    and stored instants compare as instants.  The conformance suite and the
    closed instances of the theorems run on it. *)

From S2P Require Import Prelude GoStrings Json Storage SqlStore SqlText SqlQuery.
From Stdlib Require Import SpecFloat.
From Stdlib Require String.

Local Open Scope Z_scope.

Fixpoint setMember (k : string) (v : json) (fs : list (string * json)) : list (string * json) :=
  match fs with
  | [] => [(k, v)]
  | (k', v') :: fs => if bool_decide (k = k') then (k, v) :: fs else (k', v') :: setMember k v fs
  end.

Fixpoint setPath (j : json) (path : list string) (v : json) : json :=
  match path with
  | [] => v
  | k :: path =>
      match j with
      | JObj fs => JObj (setMember k (setPath (default (JObj []) (objGet k fs)) path v) fs)
      | _ => j
      end
  end.

Fixpoint removePath (j : json) (path : list string) : json :=
  match path, j with
  | [k], JObj fs => JObj (filter (λ kv, kv.1 ≠ k) fs)
  | k :: path, JObj fs =>
      JObj ((λ kv, if bool_decide (kv.1 = k) then (kv.1, removePath kv.2 path) else kv) <$> fs)
  | _, _ => j
  end.

#[export] Instance referenceDialect : Dialect := {|
  JSONSet := setPath;
  JSONRemove j paths := foldl removePath j paths;
  timeLe := Z.leb
|}.

Fixpoint jsonAt (j : json) (path : list string) : option json :=
  match path with
  | [] => Some j
  | k :: path => match j with JObj fs => v ← objGet k fs; jsonAt v path | _ => None end
  end.

Definition typeName (j : json) : string :=
  match j with
  | JNull => "null" | JBool _ => "boolean" | JNum _ => "number" | JStr _ => "string"
  | JArr _ => "array" | JObj _ => "object"
  end.

Definition numberOf (n : number) : float64 :=
  match n with NumberInt z => ofInt z | NumberFloat f => f end.

#[export] Instance referenceEngine : JsonEngine := {|
  compareText j path s :=
    match jsonAt j path with Some (JStr s') => Some (String.compare s' s) | _ => None end;
  compareNumber j path n :=
    match jsonAt j path with Some (JNum m) => SFcompare (nf m) (numberOf n) | _ => None end;
  compareBool j path s :=
    match jsonAt j path with
    | Some (JBool b) => Some (String.compare (if b then "true" else "false") s)
    | _ => None
    end;
  typeOf j path := typeName <$> jsonAt j path;
  containsText j path s :=
    match jsonAt j path with
    | Some (JArr l) => existsb (λ x, match x with JStr s' => bool_decide (s' = s) | _ => false end) l
    | _ => false
    end
|}.
