(* ===== verification/Conformance.v ===== *)
(** * The store's conformance suite (internal/storage/storetest)

    The suite every implementation of the port is run against, as executable
    tests on the SQL model.  A test is a function of the seeded store; a
    [t.Fatal] or [t.Error] makes it false.  The engine is a reference one: JSON
    paths walk object members, comparisons are those of JSON values of one type,
    and stored instants compare as instants.  That the model passes the suite
    ties its definitions to the behaviour the program's authors check on SQLite
    and PostgreSQL. *)

From S2P Require Import Prelude GoStrings Json Perm Storage SqlStore SqlLaws SqlText SqlQuery Engine.
From Stdlib Require Import SpecFloat.
From Stdlib Require String.

Local Open Scope Z_scope.

(** ** Tests *)

Definition Test : Type := conn → bool.

Definition passed : Test := λ _, true.

(** [t.Errorf] unless the condition holds. *)
Definition expect (b : bool) (k : Test) : Test := λ c, b && k c.

(** [store.Tx] with [t.Fatalf] on an error, and with the error as the result. *)
Definition inTx {A} (fn : M conn A) (k : A → Test) : Test := λ c,
  match runTx fn c with (Ok a, c') => k a c' | (Err _, _) => false end.
Definition failsTx {A} (fn : M conn A) (k : err → Test) : Test := λ c,
  match runTx fn c with (Err e, c') => k e c' | (Ok _, _) => false end.

(** [store.ReadOnly] hands out a connection that cannot write. *)
Definition readOnlyOn (c : conn) : conn := MkConn (tables c) false.
Definition reads {A} (fn : conn → res A) (k : A → Test) : Test := λ c,
  match fn (readOnlyOn c) with Ok a => k a c | Err _ => false end.
Definition failsRead {A} (fn : conn → res A) (want : err) (k : Test) : Test := λ c,
  match fn (readOnlyOn c) with Err e => errors_Is e want && k c | Ok _ => false end.

Local Notation "x ⇠ m ; k" := (m (λ x, k))
  (at level 20, m at level 100, k at level 200, right associativity).

(** The instants the tests read from the clock. *)
Definition started : Time := 1000000 * Hour.
Definition later : Time := TimeAdd started Second.

Definition worldID : ID := "world-1".

Definition whole (z : Z) : json := JNum (numOfInt z).
Definition object (fs : list (string * json)) : raw := Raw (JObj fs).

(** [decode(t, raw)[key]]. *)
Definition decoded (r : raw) (key : string) : option json :=
  match UnmarshalObject r with Ok m => objGet key m | Err _ => None end.

Definition isNumber (o : option json) (z : Z) : bool :=
  match o with
  | Some (JNum n) => match SFcompare (nf n) (ofInt z) with Some Eq => true | _ => false end
  | _ => false
  end.
Definition isText (o : option json) (s : string) : bool :=
  match o with Some (JStr s') => bool_decide (s' = s) | _ => false end.
Definition present {A} (o : option A) : bool := negb (isNone o).
Definition member (o : option json) (key : string) : option json :=
  match o with Some (JObj fs) => objGet key fs | _ => None end.

Definition worldFixture (id slug title system : string) : World :=
  MkWorld id slug title system "0.0.0" "" "" RawEmpty 0 0 None.

Definition seedWorld (test : Test) : Test :=
  _ ⇠ inTx (sqlPutWorld started (worldFixture worldID "blood-and-rain" "Blood and Rain" "wod5e"));
  test.

Fixpoint putAll (docs : list Document) : M conn unit :=
  match docs with
  | [] => mret tt
  | doc :: docs => sqlPutDocument started doc ≫= λ _, putAll docs
  end.

Definition put (docs : list Document) (k : Test) : Test := _ ⇠ inTx (putAll docs); k.

Definition document (id kind subtype parent folder name : string) (sort : Z)
    (data flags ownership : raw) : Document :=
  MkDocument worldID id kind subtype parent folder name sort "" data flags ownership "" "1.0.0"
    0 0 0 None.

Definition actor (id name : string) (data : raw) : Document :=
  document id "actor" "vampire" "" "" name 0 data RawEmpty RawEmpty.

Definition ids (documents : list Document) : list string := doc_ID <$> documents.

Definition getDocument (id : ID) : conn → res Document := λ c, sqlGetDocument c worldID id.
Definition listDocuments (f : DocumentFilter) : conn → res (list Document) :=
  λ c, sqlListDocuments c worldID f.

(** *** Worlds, members, users *)

Definition testWorldRoundTrip : Test :=
  world ⇠ reads (λ c, sqlGetWorld c worldID);
  expect (bool_decide (world_Slug world = "blood-and-rain") && bool_decide (world_SystemID world = "wod5e"))
  (expect (bool_decide (world_DefaultLocale world = "en"))
  (expect (negb (IsZero (world_CreatedAt world))) passed)).

Definition getMember (user : ID) : conn → res Member := λ c, sqlGetMember c worldID user.

Definition testMemberRoundTrip : Test :=
  _ ⇠ inTx (sqlPutMember started (MkMember worldID "user-1" "gm" 0) ≫= λ _,
            sqlPutMember started (MkMember worldID "user-2" "player" 0));
  member ⇠ reads (getMember "user-1");
  members ⇠ reads (λ c, sqlListMembers c worldID);
  expect (bool_decide (member_Role member = "gm"))
  (expect (negb (IsZero (member_JoinedAt member)))
  (expect (bool_decide (member_UserID <$> members = ["user-1"; "user-2"]))
  (_ ⇠ inTx (sqlPutMember started (MkMember worldID "user-2" "assistant" 0));
   member ⇠ reads (getMember "user-2");
   expect (bool_decide (member_Role member = "assistant")) passed))).

Definition testMissingMemberIsNotFound : Test := failsRead (getMember "stranger") ErrNotFound passed.

Definition userFixture (email hash locale : string) (admin : bool) : User :=
  MkUser "user-1" "nadia" email hash locale admin 0 None.

Definition testUserRoundTrip : Test :=
  _ ⇠ inTx (sqlPutUser started (userFixture "nadia@example.org" "$argon2id$fake" "de" true));
  byID ⇠ reads (λ c, sqlGetUser c "user-1");
  byName ⇠ reads (λ c, sqlGetUserByUsername c "nadia");
  count ⇠ reads sqlCountUsers;
  expect (bool_decide (user_Username byID = "nadia") &&
          bool_decide (user_Email byID = "nadia@example.org") && user_IsAdmin byID)
  (expect (bool_decide (user_ID byName = user_ID byID))
  (expect (negb (IsZero (user_CreatedAt byID)))
  (expect (negb (Disabled byID))
  (expect (count =? 1)
  (let disabled := MkUser (user_ID byID) (user_Username byID) (user_Email byID)
     (user_PasswordHash byID) (user_Locale byID) false (user_CreatedAt byID)
     (Some (user_CreatedAt byID)) in
   _ ⇠ inTx (sqlPutUser later disabled);
   byID ⇠ reads (λ c, sqlGetUser c "user-1");
   expect (Disabled byID && negb (user_IsAdmin byID)) passed))))).

Definition sessionFixture (hash agent : string) : UserSession :=
  MkUserSession hash "user-1" 0 (TimeAdd started Hour) 0 agent.

Definition getSession (hash : string) : conn → res UserSession := λ c, sqlGetUserSession c hash.

Definition testUserSessionLifecycle : Test :=
  _ ⇠ inTx (sqlPutUser started (userFixture "" "" "" false) ≫= λ _,
            sqlPutUserSession started (sessionFixture "hash-1" "go-test"));
  session ⇠ reads (getSession "hash-1");
  expect (bool_decide (session_UserID session = "user-1") &&
          bool_decide (session_UserAgent session = "go-test"))
  (expect (negb (Before (session_ExpiresAt session) (session_CreatedAt session)))
  (_ ⇠ inTx (sqlTouchUserSession "hash-1" (TimeAdd later Minute));
   session ⇠ reads (getSession "hash-1");
   expect (After (session_LastSeenAt session) (session_CreatedAt session))
   (_ ⇠ inTx (sqlDeleteUserSession "hash-1");
    failsRead (getSession "hash-1") ErrNotFound passed))).

Definition testUserCascade : Test :=
  _ ⇠ inTx (sqlPutUser started (userFixture "" "" "" false) ≫= λ _,
            sqlPutUserSession started (sessionFixture "hash-1" "") ≫= λ _,
            sqlPutUserSession started (sessionFixture "hash-2" ""));
  _ ⇠ inTx (sqlDeleteUserSessionsOf "user-1");
  failsRead (getSession "hash-1") ErrNotFound (failsRead (getSession "hash-2") ErrNotFound passed).

Definition testWorldListings : Test :=
  _ ⇠ inTx (sqlPutWorld started (worldFixture "world-2" "second" "Another Table" "dnd5e") ≫= λ _,
            sqlPutMember started (MkMember worldID "user-1" "gm" 0));
  all ⇠ reads sqlListWorlds;
  mine ⇠ reads (λ c, sqlListWorldsForUser c "user-1");
  expect (length all =? 2)%nat
  (expect (bool_decide (world_ID <$> mine = [worldID]))
  (_ ⇠ inTx (sqlDeleteMember worldID "user-1");
   mine ⇠ reads (λ c, sqlListWorldsForUser c "user-1");
   expect (isNil mine)
   (e ⇠ failsTx (sqlDeleteMember worldID "user-1");
    expect (errors_Is e ErrNotFound) passed))).

(** *** Invites *)

Definition invite (id hash role : string) (maxUses : Z) : Invite :=
  MkInvite id hash worldID role "user-1" 0 (TimeAdd started Hour) maxUses 0 None.

(** [n] uses, one transaction each. *)
Fixpoint consumeTimes (n : nat) (id : ID) (k : Test) : Test :=
  match n with
  | O => k
  | S n => _ ⇠ inTx (sqlConsumeInvite worldID id); consumeTimes n id k
  end.

Definition testInviteLifecycle : Test :=
  _ ⇠ inTx (sqlPutInvite started (invite "invite-1" "hash-1" "player" 2));
  loaded ⇠ reads (λ c, sqlGetInviteByTokenHash c "hash-1");
  expect (bool_decide (invite_Role loaded = "player") && (invite_MaxUses loaded =? 2) &&
          (invite_Uses loaded =? 0))
  (expect (Usable loaded later)
  (consumeTimes 2 "invite-1"
  (e ⇠ failsTx (sqlConsumeInvite worldID "invite-1");
   expect (errors_Is e ErrNotFound)
   (_ ⇠ inTx (sqlPutInvite started (invite "invite-2" "hash-2" "observer" 0));
    consumeTimes 3 "invite-2"
    (_ ⇠ inTx (sqlRevokeInvite later worldID "invite-2");
     e ⇠ failsTx (sqlConsumeInvite worldID "invite-2");
     expect (errors_Is e ErrNotFound)
     (invites ⇠ reads (λ c, sqlListInvites c worldID);
      expect (length invites =? 2)%nat
      (expect (forallb (λ entry, implb (bool_decide (invite_ID entry = "invite-2"))
                 (present (invite_RevokedAt entry))) invites) passed))))))).

(** *** Documents *)

Definition testDocumentRoundTrip : Test :=
  put [document "actor-1" "actor" "vampire" "" "" "Nadia Kovac" 0
         (object [("hunger", whole 2); ("attributes", JObj [("strength", whole 3)])])
         (object [("tavora-dice-tray", JObj [("pinned", JBool true)])])
         (object [("user-1", JStr "owner")])]
  (loaded ⇠ reads (getDocument "actor-1");
   expect (bool_decide (doc_Name loaded = "Nadia Kovac") && bool_decide (doc_Kind loaded = "actor") &&
           bool_decide (doc_Subtype loaded = "vampire"))
   (expect (isNumber (decoded (doc_Data loaded) "hunger") 2)
   (expect (present (decoded (doc_Flags loaded) "tavora-dice-tray"))
   (expect (isText (decoded (doc_Ownership loaded) "user-1") "owner")
   (expect (negb (IsZero (doc_CreatedAt loaded)) && negb (IsZero (doc_UpdatedAt loaded)))
   (expect (isNone (doc_DeletedAt loaded)) passed)))))).

Definition testUpsertPreservesCreatedAt : Test :=
  put [actor "actor-1" "First" (object [("hunger", whole 1)])]
  (first ⇠ reads (getDocument "actor-1");
   _ ⇠ inTx (sqlPutDocument later (actor "actor-1" "Second" (object [("hunger", whole 4)])));
   second ⇠ reads (getDocument "actor-1");
   expect (bool_decide (doc_Name second = "Second"))
   (expect (doc_CreatedAt second =? doc_CreatedAt first) passed)).

Definition testMissingDocumentIsNotFound : Test := failsRead (getDocument "nope") ErrNotFound passed.

Definition testPatchScalarFields : Test :=
  put [actor "actor-1" "Nadia" (object [("hunger", whole 2)])]
  (patched ⇠ inTx (sqlPatchDocument later worldID "actor-1"
     (MkPatch (Some "Nadia Kovac") (Some 42) None (Some "folder-1") [] [] None 7));
   expect (bool_decide (doc_Name patched = "Nadia Kovac") && (doc_Sort patched =? 42) &&
           bool_decide (doc_FolderID patched = "folder-1"))
   (expect (doc_UpdatedSeq patched =? 7)
   (expect (isNumber (decoded (doc_Data patched) "hunger") 2) passed))).

Definition testPatchJSONPaths : Test :=
  put [actor "actor-1" "Nadia" (object [("hunger", whole 2);
         ("attributes", JObj [("strength", whole 3); ("dexterity", whole 2)]);
         ("stale", JBool true)])]
  (patched ⇠ inTx (sqlPatchDocument later worldID "actor-1"
     (MkPatch None None None None
        [("hunger", whole 4); ("attributes.strength", whole 5); ("attributes.composure", whole 1);
         ("conditions", JArr [JStr "hungry"; JStr "wounded"])]
        ["stale"; "attributes.dexterity"] None 3));
   let data := decoded (doc_Data patched) in
   expect (isNumber (data "hunger") 4)
   (expect (isNone (data "stale"))
   (let attributes := member (data "attributes") in
    expect (isNumber (attributes "strength") 5)
    (expect (isNumber (attributes "composure") 1)
    (expect (isNone (attributes "dexterity"))
    (expect (match data "conditions" with
             | Some (JArr [JStr a; JStr b]) => bool_decide (a = "hungry") && bool_decide (b = "wounded")
             | _ => false
             end) passed)))))).

Definition testPatchRejectsInvalidPath : Test :=
  put [actor "actor-1" "Nadia" (object [("hunger", whole 2)])]
  (e ⇠ failsTx (sqlPatchDocument later worldID "actor-1"
     (MkPatch None None None None [("hunger'); DROP TABLE documents; --", whole 1)] [] None 0));
   expect (errors_Is e ErrInvalidPath) passed).

Definition anyDeleted (kind : string) : DocumentFilter := MkDocumentFilter kind "" None None true 0 0.

Definition testSoftDelete : Test :=
  put [actor "actor-1" "Nadia" (object []); actor "actor-2" "Tomas" (object [])]
  (_ ⇠ inTx (sqlDeleteDocument later worldID "actor-1" DeleteSoft);
   visible ⇠ reads (listDocuments (ofKind "actor"));
   all ⇠ reads (listDocuments (anyDeleted "actor"));
   expect (bool_decide (ids visible = ["actor-2"]))
   (expect (length all =? 2)%nat
   (deleted ⇠ reads (getDocument "actor-1");
    expect (present (doc_DeletedAt deleted)) passed))).

Definition testHardDeleteRemovesChildren : Test :=
  put [actor "actor-1" "Nadia" (object []);
       document "item-1" "item" "discipline" "actor-1" "" "Presence" 0 (object []) RawEmpty RawEmpty]
  (_ ⇠ inTx (sqlDeleteDocument later worldID "actor-1" DeleteHard);
   failsRead (getDocument "item-1") ErrNotFound passed).

Definition withSort (doc : Document) (sort : Z) : Document :=
  document (doc_ID doc) (doc_Kind doc) (doc_Subtype doc) (doc_ParentID doc) (doc_FolderID doc)
    (doc_Name doc) sort (doc_Data doc) (doc_Flags doc) (doc_Ownership doc).

Definition testListFilters : Test :=
  put [withSort (actor "actor-1" "Nadia" (object [])) 20;
       withSort (actor "actor-2" "Tomas" (object [])) 10;
       document "item-1" "item" "weapon" "actor-1" "folder-1" "Dagger" 0 (object []) RawEmpty RawEmpty]
  (byKind ⇠ reads (listDocuments (ofKind "actor"));
   byParent ⇠ reads (listDocuments (MkDocumentFilter "" "" (Some "actor-1") None false 0 0));
   byFolder ⇠ reads (listDocuments (MkDocumentFilter "" "" None (Some "folder-1") false 0 0));
   bySubtype ⇠ reads (listDocuments (MkDocumentFilter "" "weapon" None None false 0 0));
   expect (bool_decide (ids byKind = ["actor-2"; "actor-1"]))
   (expect (bool_decide (ids byParent = ["item-1"]))
   (expect (bool_decide (ids byFolder = ["item-1"]))
   (expect (bool_decide (ids bySubtype = ["item-1"])) passed)))).

(** *** Queries *)

Definition queryIDs (conditions : list JSONCondition) (k : list string → Test) : Test :=
  found ⇠ reads (λ c, sqlQuerySystemData c worldID (MkJSONQuery "actor" "" conditions 0));
  k (ids found).

Definition seedQueryFixtures : Test → Test :=
  put [actor "actor-1" "Nadia" (object [("clan", JStr "Ventrue"); ("hunger", whole 2);
         ("embraced", JBool true); ("tags", JArr [JStr "kindred"; JStr "elder"])]);
       actor "actor-2" "Tomas" (object [("clan", JStr "Brujah"); ("hunger", whole 5);
         ("embraced", JBool false); ("tags", JArr [JStr "kindred"])]);
       actor "actor-3" "Mira" (object [("clan", JStr "Ventrue"); ("hunger", JStr "unknown");
         ("tags", JArr [])])].

(** One query of a test, and the ids it must answer. *)
Definition asks (conditions : list JSONCondition) (want : list string) (k : Test) : Test :=
  got ⇠ queryIDs conditions; expect (bool_decide (got = want)) k.

Definition testQueryText : Test :=
  seedQueryFixtures
  (asks [MkJSONCondition "clan" OpEqual (AnyString "Ventrue")] ["actor-1"; "actor-3"]
  (asks [MkJSONCondition "clan" OpNotEqual (AnyString "Ventrue")] ["actor-2"] passed)).

Definition testQueryNumber : Test :=
  seedQueryFixtures
  (asks [MkJSONCondition "hunger" OpGreaterEqual (AnyInt 3)] ["actor-2"]
  (asks [MkJSONCondition "hunger" OpLess (AnyInt 3);
         MkJSONCondition "clan" OpEqual (AnyString "Ventrue")] ["actor-1"] passed)).

Definition testQueryBool : Test :=
  seedQueryFixtures
  (asks [MkJSONCondition "embraced" OpEqual (AnyBool true)] ["actor-1"]
  (asks [MkJSONCondition "embraced" OpEqual (AnyBool false)] ["actor-2"] passed)).

Definition testQueryExists : Test :=
  seedQueryFixtures
  (asks [MkJSONCondition "embraced" OpExists AnyNil] ["actor-1"; "actor-2"] passed).

Definition testQueryArrayContains : Test :=
  seedQueryFixtures
  (asks [MkJSONCondition "tags" OpContains (AnyString "elder")] ["actor-1"]
  (asks [MkJSONCondition "tags" OpContains (AnyString "kindred")] ["actor-1"; "actor-2"] passed)).

Definition testQueryIgnoresMistypedValues : Test :=
  seedQueryFixtures
  (asks [MkJSONCondition "hunger" OpGreaterEqual (AnyInt 0)] ["actor-1"; "actor-2"] passed).

(** *** Events and transactions *)

Definition event (actorID kind targetKind targetID sceneID : string) (payload audience : raw) : Event :=
  MkEvent worldID 0 0 actorID kind targetKind targetID sceneID payload audience RawEmpty.

(** [n] appends in one transaction, with the numbers they return. *)
Fixpoint appendTimes (n : nat) (e : Event) : M conn (list Z) :=
  match n with
  | O => mret []
  | S n => sqlAppendEvent started e ≫= λ seq, appendTimes n e ≫= λ rest, mret (seq :: rest)
  end.

Definition testEventSequence : Test :=
  sequences ⇠ inTx (appendTimes 3 (event "" "scene.token.move" "" "" "" (object [("x", whole 1)]) RawEmpty));
  expect (bool_decide (sequences = [1; 2; 3]))
  (world ⇠ reads (λ c, sqlGetWorld c worldID);
   expect (world_EventSeq world =? 3) passed).

Definition testEventsSince : Test :=
  _ ⇠ inTx (appendTimes 5 (event "user-1" "scene.token.move" "token" "token-1" "scene-1"
        (object [("x", whole 1); ("y", whole 2)]) (Raw (JArr [JStr "user-1"; JStr "gm"]))));
  events ⇠ reads (λ c, sqlEventsSince c worldID 2 10);
  expect (length events =? 3)%nat
  (expect (bool_decide (event_Seq <$> head events = Some 3) && bool_decide (event_Seq <$> last events = Some 5))
  (expect (bool_decide ((λ e, (event_ActorUserID e, event_SceneID e)) <$> head events =
             Some ("user-1", "scene-1")))
  (expect (forallb (λ e, negb (IsZero (event_Timestamp e))) (take 1 events))
  (expect (forallb (λ e, isNumber (decoded (event_Payload e) "y") 2) (take 1 events))
  (limited ⇠ reads (λ c, sqlEventsSince c worldID 0 2);
   expect (length limited =? 2)%nat passed))))).

Definition testTransactionRollback : Test :=
  let sentinel := ErrOther "deliberate" in
  e ⇠ failsTx (sqlPutDocument started (actor "actor-1" "Nadia" (object [])) ≫= λ _,
               sqlAppendEvent started (event "" "actor.create" "" "" "" RawEmpty RawEmpty) ≫= λ _,
               (fail sentinel : M conn unit));
  expect (errors_Is e sentinel)
  (failsRead (getDocument "actor-1") ErrNotFound
  (world ⇠ reads (λ c, sqlGetWorld c worldID);
   expect (world_EventSeq world =? 0) passed)).

(** The connection of a read also has the writing methods; the tables after
    its attempt are those the next read sees. *)
Definition testReadOnlyRejectsWrites : Test := λ c,
  let '(r, c') := sqlPutDocument started (actor "actor-1" "Nadia" (object [])) (readOnlyOn c) in
  match r with Err e => errors_Is e ErrReadOnly | Ok _ => true end &&
  failsRead (getDocument "actor-1") ErrNotFound passed (MkConn (tables c') (writable c)).

(** *** Assets *)

Definition assetFixture (id sha256 : string) (bytes width height : Z) (variants : raw) (uploader : ID) : Asset :=
  MkAsset id worldID sha256 "image/png" bytes width height 0 variants uploader 0.

Definition getAsset (id : ID) : conn → res Asset := λ c, sqlGetAsset c worldID id.

Definition testAssetRoundTrip : Test :=
  _ ⇠ inTx (sqlPutAsset started (assetFixture "asset-1" "aa11" 4096 800 600
        (object [("thumb", JObj [("key", JStr "aa11-thumb")])]) "user-1"));
  loaded ⇠ reads (getAsset "asset-1");
  listed ⇠ reads (λ c, sqlListAssets c worldID 0);
  total ⇠ reads (λ c, sqlSumAssetBytes c worldID);
  expect (bool_decide (asset_Mime loaded = "image/png") && (asset_Width loaded =? 800) &&
          (asset_Height loaded =? 600))
  (expect (negb (IsZero (asset_CreatedAt loaded)))
  (expect (present (decoded (asset_Variants loaded) "thumb"))
  (expect (length listed =? 1)%nat
  (expect (total =? 4096)
  (_ ⇠ inTx (sqlDeleteAsset worldID "asset-1");
   failsRead (getAsset "asset-1") ErrNotFound passed))))).

Definition testAssetContentAddressing : Test :=
  _ ⇠ inTx (sqlPutAsset started (assetFixture "asset-1" "deadbeef" 10 0 0 RawEmpty ""));
  e ⇠ failsTx (sqlPutAsset started (assetFixture "asset-2" "deadbeef" 10 0 0 RawEmpty ""));
  expect (errors_Is e ErrAlreadyExists)
  (found ⇠ reads (λ c, sqlGetAssetBySHA256 c worldID "deadbeef");
   expect (bool_decide (asset_ID found = "asset-1")) passed).

(** *** The suite *)

Definition suite : list (string * Test) :=
  [ ("WorldRoundTrip", testWorldRoundTrip);
    ("MemberRoundTrip", testMemberRoundTrip);
    ("UserRoundTrip", testUserRoundTrip);
    ("UserSessionLifecycle", testUserSessionLifecycle);
    ("DeletingAUserRemovesItsSessions", testUserCascade);
    ("WorldListings", testWorldListings);
    ("InviteLifecycle", testInviteLifecycle);
    ("MissingMemberIsNotFound", testMissingMemberIsNotFound);
    ("DocumentRoundTrip", testDocumentRoundTrip);
    ("UpsertPreservesCreatedAt", testUpsertPreservesCreatedAt);
    ("MissingDocumentIsNotFound", testMissingDocumentIsNotFound);
    ("PatchScalarFields", testPatchScalarFields);
    ("PatchSetsAndUnsetsJSONPaths", testPatchJSONPaths);
    ("PatchRejectsInvalidPath", testPatchRejectsInvalidPath);
    ("SoftDeleteHidesDocument", testSoftDelete);
    ("HardDeleteRemovesChildren", testHardDeleteRemovesChildren);
    ("ListFilters", testListFilters);
    ("QueryText", testQueryText);
    ("QueryNumber", testQueryNumber);
    ("QueryBool", testQueryBool);
    ("QueryExists", testQueryExists);
    ("QueryArrayContains", testQueryArrayContains);
    ("QueryIgnoresMistypedValues", testQueryIgnoresMistypedValues);
    ("EventSequenceIsMonotonic", testEventSequence);
    ("EventsSince", testEventsSince);
    ("TransactionRollsBack", testTransactionRollback);
    ("ReadOnlyRejectsWrites", testReadOnlyRejectsWrites);
    ("AssetRoundTrip", testAssetRoundTrip);
    ("TheSameContentIsStoredOnce", testAssetContentAddressing) ].

(** A store whose tables have just been created. *)
Definition migrated : conn := MkConn emptyDb true.

Definition failing (s : list (string * Test)) : list string :=
  fst <$> filter (λ t, seedWorld t.2 migrated = false) s.

(** The model passes the conformance suite of the program's stores: every
    one of its 29 tests succeeds on a freshly created and seeded store.  This
    validates the definitions of SqlStore.v; what they promise is proved in
    SqlLaws.v, SqlQuery.v, Rows.v and Upserts.v. *)
Example model_conforms : failing suite = [].
Proof. vm_compute. reflexivity. Qed.
