(* ===== verification/Dice.v ===== *)
(** * Dice expressions (internal/core/dice/dice.go)

    The parser and evaluator of expressions such as [2d6+3] or [4d6kh3], with
    the dice budget, the keep and drop selections and the [int] arithmetic of
    the totals.  The random source is a parameter: a state and a function from
    the number of faces to a value. *)

From S2P Require Import Prelude GoStrings.
From Stdlib Require Import Ascii.

Local Open Scope Z_scope.

Definition MaxDice : Z := 200.
Definition MaxFaces : Z := 1000.
Definition MaxTermsLen : Z := 200.

Record Die := MkDie { die_Faces : Z; die_Value : Z; die_Kept : bool }.

Record Term := MkTerm {
  term_Sign : Z;
  term_Expression : string;
  term_Dice : list Die;
  term_Constant : option Z;
  term_Subtotal : Z
}.

Record Result := MkResult {
  result_Expression : string;
  result_Terms : list Term;
  result_Total : Z
}.

(** [type Source interface]: [G] is what the source keeps between rolls. *)
Class DiceSource (G : Type) := rollDie : Z → G → Z * G.

(** What the program relies on of a source: a die shows one of its faces. *)
Class FairSource (G : Type) `{DiceSource G} :=
  fair : ∀ faces g, 1 ≤ faces → 1 ≤ (rollDie faces g).1 ≤ faces.

(** [FixedSource]: the values left to show; 1 when none is left. *)
Record FixedSource := MkFixedSource { fixed_Values : list Z; fixed_index : nat }.

#[export] Instance FixedSource_Roll : DiceSource FixedSource := λ faces s,
  match fixed_Values s !! fixed_index s with
  | None => (1, s)
  | Some value =>
      let s' := MkFixedSource (fixed_Values s) (S (fixed_index s)) in
      if value <? 1 then (1, s')
      else if faces <? value then (faces, s')
      else (value, s')
  end.

(** ** Selection *)

Definition setKept (b : bool) (d : Die) : Die := MkDie (die_Faces d) (die_Value d) b.

Definition valueAt (dice : list Die) (index : nat) : Z := from_option die_Value 0 (dice !! index).

(** Whether the two neighbours are out of order. *)
Definition outOfOrder (descending : bool) (left right : Z) : bool :=
  (descending && (left <? right)) || (negb descending && (right <? left)).

Definition swapAt (j : nat) (order : list nat) : list nat :=
  match order !! pred j, order !! j with
  | Some a, Some b => <[pred j := b]> (<[j := a]> order)
  | _, _ => order
  end.

(** The inner loop: [for j := i; j > 0; j--]. *)
Fixpoint sink (dice : list Die) (descending : bool) (j : nat) (order : list nat) : list nat :=
  match j with
  | O => order
  | S j' =>
      match order !! j', order !! j with
      | Some a, Some b =>
          if outOfOrder descending (valueAt dice a) (valueAt dice b)
          then sink dice descending j' (swapAt j order)
          else order
      | _, _ => order
      end
  end.

(** The outer loop: [for i := 1; i < len(order); i++]. *)
Definition selectionOrder (dice : list Die) (descending : bool) : list nat :=
  foldl (λ order i, sink dice descending i order) (seq 0 (length dice)) (seq 1 (pred (length dice))).

(** The last loop, at one position of the order. *)
Definition mark (keeping : bool) (amount : Z) (dice : list Die) (entry : nat * nat) : list Die :=
  let '(position, index) := entry in
  if keeping then alter (setKept (Z.of_nat position <? amount)) index dice
  else if Z.of_nat position <? amount then alter (setKept false) index dice
  else dice.

Definition applySelection (dice : list Die) (mode : string) (amount : Z) : list Die :=
  let descending := bool_decide (mode = "kh") || bool_decide (mode = "dh") in
  let keeping := bool_decide (mode = "kh") || bool_decide (mode = "kl") in
  foldl (mark keeping amount) dice (imap pair (selectionOrder dice descending)).

(** ** Terms *)

(** [termPattern]: the digits before the [d], those after it, and the selection
    with its digits. *)
Definition matchTerm (piece : string) : option (string * string * option (string * string)) :=
  let '(count, rest) := spanDigits (chars piece) in
  match rest with
  | c :: rest =>
      if negb (bool_decide (c = "d"%char)) then None
      else
        let '(faces, rest) := spanDigits rest in
        if isNil faces then None
        else match rest with
             | [] => Some (unchars count, unchars faces, None)
             | a :: b :: rest =>
                 let mode := unchars [a; b] in
                 let '(amount, rest) := spanDigits rest in
                 if bool_decide (mode ∈ ["kh"; "kl"; "dh"; "dl"]) && negb (isNil amount) && isNil rest
                 then Some (unchars count, unchars faces, Some (mode, unchars amount))
                 else None
             | _ => None
             end
  | [] => None
  end.

Section Dice.
Context {G : Type} `{DiceSource G} `{Unicode}.

Fixpoint rollDice (count : nat) (faces : Z) (g : G) : list Die * G :=
  match count with
  | O => ([], g)
  | S count =>
      let '(v, g) := rollDie faces g in
      let '(dice, g) := rollDice count faces g in
      (MkDie faces v true :: dice, g)
  end.

Definition subtotalOf (dice : list Die) : Z :=
  foldl (λ acc d, if die_Kept d then wrap64 (acc + die_Value d) else acc) 0 dice.

Definition evaluate (piece : string) (sign : Z) (budget : Z) (g : G) : res (Term * Z * G) :=
  match Atoi piece with
  | Some constant => Ok (MkTerm sign piece [] (Some constant) constant, budget, g)
  | None =>
      match matchTerm piece with
      | None => Err ErrMalformed
      | Some (m1, m2, sel) =>
          count ← (if bool_decide (m1 = "") then Ok 1
                   else match Atoi m1 with Some n => Ok n | None => Err ErrMalformed end);
          match Atoi m2 with
          | None => Err ErrUnsupportedDie
          | Some faces =>
              if (faces <? 2) || (MaxFaces <? faces) then Err ErrUnsupportedDie
              else if count <? 1 then Err ErrMalformed
              else if budget <? count then Err ErrTooManyDice
              else
                let '(dice, g) := rollDice (Z.to_nat count) faces g in
                dice ← match sel with
                       | None => Ok dice
                       | Some (mode, amount) =>
                           match Atoi amount with
                           | None => Err ErrMalformed
                           | Some keep => if keep <? 0 then Err ErrMalformed
                                          else Ok (applySelection dice mode keep)
                           end
                       end;
                Ok (MkTerm sign piece dice None (subtotalOf dice), budget - count, g)
          end
      end
  end.

(** The variables of [Roll]'s loop; the buffer is kept in order. *)
Record rollState := MkRollState {
  rs_sign : Z; rs_buffer : bytes; rs_terms : list Term; rs_total : Z; rs_budget : Z; rs_source : G
}.

Definition flush (st : rollState) : res rollState :=
  match rs_buffer st with
  | [] => Err ErrMalformed
  | buffer =>
      '(term, budget, g) ← evaluate (unchars buffer) (rs_sign st) (rs_budget st) (rs_source st);
      Ok (MkRollState (rs_sign st) [] (rs_terms st ++ [term])
            (wrap64 (rs_total st + wrap64 (rs_sign st * term_Subtotal term))) budget g)
  end.

Definition withSign (sign : Z) (st : rollState) : rollState :=
  MkRollState sign (rs_buffer st) (rs_terms st) (rs_total st) (rs_budget st) (rs_source st).

Definition isSign (c : ascii) : bool := bool_decide (c = "+"%char) || bool_decide (c = "-"%char).

(** The body of [Roll]'s loop on the character at [index]. *)
Definition rollStep (st : rollState) (entry : nat * ascii) : res rollState :=
  let '(index, character) := entry in
  if isSign character && (0 <? index)%nat then
    st ← flush st;
    Ok (withSign (if bool_decide (character = "-"%char) then -1 else 1) st)
  else if bool_decide (character = "+"%char) && (index =? 0)%nat then Ok st
  else if bool_decide (character = "-"%char) && (index =? 0)%nat then Ok (withSign (-1) st)
  else Ok (MkRollState (rs_sign st) (rs_buffer st ++ [character]) (rs_terms st) (rs_total st)
             (rs_budget st) (rs_source st)).

Definition Roll (expression : string) (source : G) : res (Result * G) :=
  let normalised := removeSpaces (ToLower (TrimSpace expression)) in
  if bool_decide (normalised = "") then Err ErrEmptyExpression
  else if MaxTermsLen <? Z.of_nat (len normalised) then Err ErrMalformed
  else
    st ← foldM rollStep (MkRollState 1 [] [] 0 MaxDice source) (imap pair (chars normalised));
    st ← flush st;
    Ok (MkResult (TrimSpace expression) (rs_terms st) (rs_total st), rs_source st).
End Dice.


(** ** The selection order is a sorted permutation *)

Section Selection.
Context (dice : list Die) (descending : bool).

(** [a] may stand before [b]. *)
Definition inOrder (a b : nat) : Prop := outOfOrder descending (valueAt dice a) (valueAt dice b) = false.

Lemma inOrder_spec a b :
  inOrder a b ↔ (if descending then valueAt dice b ≤ valueAt dice a else valueAt dice a ≤ valueAt dice b).
Proof.
  unfold inOrder, outOfOrder. destruct descending; cbn; rewrite ?orb_false_r, Z.ltb_ge; done.
Qed.

#[local] Instance inOrder_trans : Transitive inOrder.
Proof. intros a b c. rewrite !inOrder_spec. destruct descending; lia. Qed.

Lemma outOfOrder_flip a b :
  outOfOrder descending (valueAt dice a) (valueAt dice b) = true → inOrder b a.
Proof.
  rewrite inOrder_spec. unfold outOfOrder. destruct descending; cbn; rewrite ?orb_false_r, Z.ltb_lt; lia.
Qed.

(** Sinking the element after a sorted prefix puts it in its place. *)
Lemma sink_spec l1 x l2 :
  StronglySorted inOrder l1 →
  ∃ l, sink dice descending (length l1) (l1 ++ x :: l2) = l ++ l2 ∧
       StronglySorted inOrder l ∧ l ≡ₚ l1 ++ [x].
Proof.
  revert x l2. induction l1 as [|y l1 IH] using rev_ind; intros x l2 Hs.
  { exists [x]. split_and!; [done|repeat constructor|done]. }
  rewrite length_app, Nat.add_1_r. cbn [sink].
  assert ((l1 ++ [y]) ++ x :: l2 = l1 ++ y :: x :: l2) as -> by by rewrite <-app_assoc.
  assert ((l1 ++ y :: x :: l2) !! length l1 = Some y) as Hy by by apply list_lookup_middle.
  assert ((l1 ++ y :: x :: l2) !! S (length l1) = Some x) as Hx.
  { replace (l1 ++ y :: x :: l2) with ((l1 ++ [y]) ++ x :: l2) by by rewrite <-app_assoc.
    apply list_lookup_middle. rewrite length_app. cbn. lia. }
  rewrite Hy, Hx.
  apply StronglySorted_app in Hs as (Hcross & Hs1 & _).
  destruct (outOfOrder _ _ _) eqn:E.
  - unfold swapAt. cbn [pred]. rewrite Hy, Hx.
    assert (<[length l1:=x]> (<[S (length l1):=y]> (l1 ++ y :: x :: l2)) = l1 ++ x :: y :: l2) as ->.
    { rewrite insert_app_r_alt by lia. replace (S (length l1) - length l1)%nat with 1%nat by lia.
      rewrite insert_app_r_alt by lia. by rewrite Nat.sub_diag. }
    destruct (IH x (y :: l2) Hs1) as (l & -> & Hl & Hp). exists (l ++ [y]). split_and!.
    + by rewrite <-app_assoc.
    + apply StronglySorted_app. split_and!; [|done|repeat constructor].
      intros a b Ha ->%list_elem_of_singleton. rewrite Hp in Ha.
      apply elem_of_app in Ha as [Ha| ->%list_elem_of_singleton].
      * apply Hcross; [done|left].
      * by apply outOfOrder_flip.
    + rewrite Hp. rewrite <-!app_assoc. apply Permutation_app_head. apply Permutation_swap.
  - exists ((l1 ++ [y]) ++ [x]). split_and!; [by rewrite <-!app_assoc| |done].
    apply StronglySorted_app. split_and!; [| |repeat constructor].
    + intros a b [Ha| ->%list_elem_of_singleton]%elem_of_app ->%list_elem_of_singleton; [|done].
      transitivity y; [|done]. apply Hcross; [done|left].
    + apply StronglySorted_app. split_and!; [done|done|repeat constructor].
Qed.

(** After [k] rounds the first [k + 1] places are sorted. *)
Lemma sink_rounds l k done_ todo :
  l = done_ ++ todo → StronglySorted inOrder done_ → (length done_ + k ≤ length l)%nat →
  let l' := foldl (λ order i, sink dice descending i order) l (seq (length done_) k) in
  ∃ done', l' = done' ++ drop k todo ∧ StronglySorted inOrder done' ∧
           l' ≡ₚ l ∧ length done' = (length done_ + k)%nat.
Proof.
  revert l done_ todo. induction k as [|k IH]; intros l d t -> Hs Hk; cbn.
  { exists d. split_and!; [done|done|done|lia]. }
  rewrite length_app in Hk. destruct t as [|x t]; [cbn in Hk; lia|].
  destruct (sink_spec d x t Hs) as (m & Hm & Hms & Hmp). rewrite Hm.
  assert (length m = S (length d)) as Hlen.
  { apply Permutation_length in Hmp. rewrite length_app in Hmp. cbn in Hmp. lia. }
  destruct (IH (m ++ t) m t eq_refl Hms) as (d' & H1 & H2 & H3 & H4).
  { rewrite length_app. cbn in Hk. lia. }
  rewrite Hlen in H1, H3. exists d'. split_and!; [done|done| |lia].
  rewrite H3, Hmp, <-app_assoc. done.
Qed.

Lemma selectionOrder_spec :
  StronglySorted inOrder (selectionOrder dice descending) ∧
  selectionOrder dice descending ≡ₚ seq 0 (length dice).
Proof.
  unfold selectionOrder. destruct dice as [|d ds] eqn:Ed; [cbn; split; [constructor|done]|].
  cbn [length pred]. rewrite <-Ed.
  destruct (sink_rounds (seq 0 (S (length ds))) (length ds) [0%nat] (seq 1 (length ds)))
    as (l & H1 & H2 & H3 & H4); [done|repeat constructor|by rewrite length_seq|].
  cbn [length] in H1, H3. split; [|done].
  rewrite H1, drop_ge, app_nil_r by (rewrite length_seq; lia). done.
Qed.
End Selection.

(** Earlier in a sorted list is smaller. *)
Lemma sorted_lookup {A} (R : relation A) l a b x y :
  StronglySorted R l → l !! a = Some x → l !! b = Some y → (a < b)%nat → R x y.
Proof.
  intros Hs. revert a b. induction Hs as [|z l Hs IH Hz]; intros a b Ha Hb Hab; [done|].
  destruct b as [|b]; [lia|]. destruct a as [|a]; cbn in *.
  - injection Ha as <-. rewrite Forall_forall in Hz. apply Hz. by eapply list_elem_of_lookup_2.
  - eapply IH; [done..|lia].
Qed.

(** ** Marking *)

(** What becomes of a die whose place in the order is [position]. *)
Definition marked (keeping : bool) (amount : Z) (position : nat) (d : Die) : Die :=
  if keeping then setKept (Z.of_nat position <? amount) d
  else if Z.of_nat position <? amount then setKept false d else d.

Lemma mark_alter keeping amount dice p i :
  mark keeping amount dice (p, i) = alter (marked keeping amount p) i dice.
Proof.
  unfold mark, marked. destruct keeping; [done|]. destruct (_ <? _); [done|].
  symmetry. apply list_alter_id. done.
Qed.

Lemma foldl_mark keeping amount l dice i :
  NoDup l.*2 →
  foldl (mark keeping amount) dice l !! i =
  (match list_find (λ e, e.2 = i) l with
   | Some (_, (p, _)) => marked keeping amount p <$> dice !! i
   | None => dice !! i
   end).
Proof.
  revert dice. induction l as [|[p k] l IH]; intros dice Hd; [done|].
  apply NoDup_cons in Hd as [Hk Hd]. cbn [foldl]. rewrite IH, mark_alter by done. cbn.
  destruct (decide (k = i)) as [->|Hne].
  - destruct (list_find (λ e, e.2 = i) l) as [[n [q j]]|] eqn:E.
    + apply list_find_Some in E as (Hl & Hj & _). cbn in Hj. subst j. exfalso. apply Hk.
      apply list_elem_of_fmap. exists (q, i). split; [done|]. by eapply list_elem_of_lookup_2.
    + by rewrite list_lookup_alter_eq.
  - destruct (list_find _ l) as [[n [q j]]|]; cbn; by rewrite list_lookup_alter_ne.
Qed.

Lemma imap_pair_lookup {A} (l : list A) n p x : imap pair l !! n = Some (p, x) ↔ p = n ∧ l !! n = Some x.
Proof.
  rewrite list_lookup_imap. destruct (l !! n); cbn; naive_solver.
Qed.

Lemma imap_pair_snd {A} (l : list A) : (imap pair l).*2 = l.
Proof. rewrite fmap_imap. apply list_eq. intros i. rewrite list_lookup_imap. by destruct (l !! i). Qed.

(** The die at an index ends up as its place in the order says. *)
Lemma foldl_mark_order keeping amount order dice p i :
  NoDup order → order !! p = Some i →
  foldl (mark keeping amount) dice (imap pair order) !! i = marked keeping amount p <$> dice !! i.
Proof.
  intros Hd Hp. rewrite foldl_mark by by rewrite imap_pair_snd.
  destruct (list_find (λ e, e.2 = i) (imap pair order)) as [[n [q j]]|] eqn:E.
  - apply list_find_Some in E as (Hl & Hj & _). cbn in Hj. subst j.
    apply imap_pair_lookup in Hl as [-> Hl].
    assert (n = p) as -> by by eapply NoDup_lookup. done.
  - exfalso. apply list_find_None in E. rewrite Forall_forall in E.
    apply (E (p, i)); [|done]. eapply list_elem_of_lookup_2. apply imap_pair_lookup. done.
Qed.

Lemma foldl_mark_length keeping amount l dice :
  length (foldl (mark keeping amount) dice l) = length dice.
Proof.
  revert dice. induction l as [|[p k] l IH]; intros dice; [done|].
  cbn [foldl]. by rewrite IH, mark_alter, length_alter.
Qed.

(** Where a die stands in a permutation of the indices. *)
Lemma order_place (order : list nat) n i :
  order ≡ₚ seq 0 n → (i < n)%nat → ∃ p, order !! p = Some i ∧ (p < n)%nat.
Proof.
  intros Hp Hi. assert (i ∈ order) as [p Hx]%list_elem_of_lookup_1.
  { rewrite Hp. apply elem_of_seq. lia. }
  exists p. split; [done|]. apply lookup_lt_Some in Hx.
  apply Permutation_length in Hp. rewrite length_seq in Hp. lia.
Qed.

(** The selection modes. *)
Definition keepsHigh (mode : string) : bool := bool_decide (mode = "kh") || bool_decide (mode = "dl").
Definition keeps (mode : string) : bool := bool_decide (mode = "kh") || bool_decide (mode = "kl").
Definition descends (mode : string) : bool := bool_decide (mode = "kh") || bool_decide (mode = "dh").

Lemma applySelection_lookup dice mode amount i d :
  dice !! i = Some d →
  ∃ p, selectionOrder dice (descends mode) !! p = Some i ∧
       applySelection dice mode amount !! i = Some (marked (keeps mode) amount p d).
Proof.
  intros Hi. destruct (selectionOrder_spec dice (descends mode)) as [_ Hp].
  destruct (order_place _ _ i Hp) as (p & Ho & _); [by eapply lookup_lt_Some|].
  exists p. split; [done|]. unfold applySelection.
  rewrite (foldl_mark_order _ _ _ _ p); [by rewrite Hi| |done].
  fold (descends mode). rewrite Hp. apply NoDup_seq.
Qed.

Definition countTrue (l : list bool) : nat := length (filter (λ b, b = true) l).

#[local] Instance countTrue_perm : Proper ((≡ₚ) ==> (=)) countTrue.
Proof. intros l l' Hl. unfold countTrue. by rewrite Hl. Qed.

Lemma countTrue_app l1 l2 : countTrue (l1 ++ l2) = (countTrue l1 + countTrue l2)%nat.
Proof. unfold countTrue. by rewrite filter_app, length_app. Qed.

Lemma countTrue_one b : countTrue [b] = if b then 1%nat else 0%nat.
Proof. by destruct b. Qed.

Lemma countTrue_prefix (b : bool) k n :
  countTrue ((λ p, if (p <? k)%nat then b else negb b) <$> seq 0 n) =
  if b then Nat.min k n else (n - k)%nat.
Proof.
  induction n as [|n IH]; [destruct b; cbn; lia|].
  rewrite seq_S, fmap_app, countTrue_app, IH, Nat.add_0_l.
  cbn [fmap list_fmap].
  rewrite countTrue_one. destruct (n <? k)%nat eqn:E;
    [apply Nat.ltb_lt in E|apply Nat.ltb_ge in E]; destruct b; cbn [negb]; lia.
Qed.

Lemma countTrue_kept dice : countTrue (die_Kept <$> dice) = length (filter (λ d, die_Kept d = true) dice).
Proof.
  unfold countTrue. induction dice as [|d dice IH]; [done|]. rewrite fmap_cons, !filter_cons.
  destruct (decide (die_Kept d = true)); cbn [length]; by rewrite IH.
Qed.

Lemma fmap_seq_lookup {A} (l : list A) (f : nat → A) :
  (∀ i x, l !! i = Some x → f i = x) → f <$> seq 0 (length l) = l.
Proof.
  intros Hf. apply list_eq. intros i. rewrite list_lookup_fmap.
  destruct (l !! i) as [x|] eqn:E.
  - rewrite lookup_seq_lt by (by eapply lookup_lt_Some). cbn. f_equal. by apply Hf.
  - apply lookup_ge_None in E. by rewrite lookup_seq_ge.
Qed.

(** How many dice a selection leaves. *)
Lemma applySelection_count dice mode amount :
  Forall (λ d, die_Kept d = true) dice → 0 ≤ amount →
  length (filter (λ d, die_Kept d = true) (applySelection dice mode amount)) =
  if keeps mode then Nat.min (Z.to_nat amount) (length dice) else (length dice - Z.to_nat amount)%nat.
Proof.
  intros Hk Ha. set (out := applySelection dice mode amount).
  assert (length out = length dice) as Hlen by apply foldl_mark_length.
  destruct (selectionOrder_spec dice (descends mode)) as [_ Hp].
  set (order := selectionOrder dice (descends mode)) in *.
  set (f i := from_option die_Kept true (out !! i)).
  assert (die_Kept <$> out = f <$> seq 0 (length dice)) as Hout.
  { rewrite <-Hlen. symmetry. rewrite <-(length_fmap die_Kept). apply fmap_seq_lookup.
    intros i b Hb. rewrite list_lookup_fmap in Hb. unfold f. by destruct (out !! i); simplify_eq/=. }
  rewrite <-countTrue_kept, Hout, <-Hp.
  assert (f <$> order = (λ p, if (p <? Z.to_nat amount)%nat then keeps mode else negb (keeps mode))
                          <$> seq 0 (length order)) as ->.
  { symmetry. rewrite <-(length_fmap f). apply fmap_seq_lookup. intros p b Hb.
    rewrite list_lookup_fmap in Hb. destruct (order !! p) as [i|] eqn:Ei; [|done].
    injection Hb as <-. unfold f.
    assert (i ∈ seq 0 (length dice)) as Hi.
    { rewrite <-Hp. by eapply list_elem_of_lookup_2. }
    apply elem_of_seq in Hi as [_ Hi]. cbn in Hi.
    destruct (lookup_lt_is_Some_2 dice i Hi) as [d Hd].
    destruct (applySelection_lookup dice mode amount i d Hd) as (q & Hq & Hx).
    assert (q = p) as ->.
    { eapply (NoDup_lookup order); [rewrite Hp; apply NoDup_seq|exact Hq|done]. }
    fold out in Hx. rewrite Hx. cbn [from_option]. unfold marked.
    rewrite Forall_forall in Hk. specialize (Hk d ltac:(by eapply list_elem_of_lookup_2)).
    destruct (keeps mode), (Z.of_nat p <? amount) eqn:E1, (p <? Z.to_nat amount)%nat eqn:E2; cbn [setKept die_Kept negb];
      try congruence; exfalso; (first [apply Z.ltb_lt in E1|apply Z.ltb_ge in E1]);
      (first [apply Nat.ltb_lt in E2|apply Nat.ltb_ge in E2]); lia. }
  rewrite countTrue_prefix. apply Permutation_length in Hp. rewrite length_seq in Hp.
  by rewrite Hp.
Qed.

Lemma valueAt_lookup dice i d : dice !! i = Some d → valueAt dice i = die_Value d.
Proof. unfold valueAt. by intros ->. Qed.

Lemma marked_value k a p d : die_Value (marked k a p d) = die_Value d.
Proof. unfold marked. destruct k; [done|]. by case_match. Qed.

(** Of two dice, one kept and one not, which shows more. *)
Lemma applySelection_best dice mode amount i j di dj :
  Forall (λ d, die_Kept d = true) dice → mode ∈ ["kh"; "kl"; "dh"; "dl"] →
  applySelection dice mode amount !! i = Some di → applySelection dice mode amount !! j = Some dj →
  die_Kept di = true → die_Kept dj = false →
  if keepsHigh mode then die_Value dj ≤ die_Value di else die_Value di ≤ die_Value dj.
Proof.
  intros Hk Hm Hi Hj Hki Hkj.
  assert (∀ n x, applySelection dice mode amount !! n = Some x → ∃ d, dice !! n = Some d) as Hex.
  { intros n x Hx. apply lookup_lt_is_Some_2. rewrite <-(foldl_mark_length (keeps mode) amount
      (imap pair (selectionOrder dice (descends mode))) dice). by eapply lookup_lt_Some. }
  destruct (Hex _ _ Hi) as [d1 Hd1]. destruct (Hex _ _ Hj) as [d2 Hd2].
  destruct (applySelection_lookup _ mode amount _ _ Hd1) as (p & Hp & Hx).
  destruct (applySelection_lookup _ mode amount _ _ Hd2) as (q & Hq & Hy).
  rewrite Hx in Hi. rewrite Hy in Hj. injection Hi as <-. injection Hj as <-.
  rewrite !marked_value, <-(valueAt_lookup dice i d1 Hd1), <-(valueAt_lookup dice j d2 Hd2).
  destruct (selectionOrder_spec dice (descends mode)) as [Hs _].
  assert (∀ a b x y, selectionOrder dice (descends mode) !! a = Some x →
            selectionOrder dice (descends mode) !! b = Some y → (a < b)%nat →
            inOrder dice (descends mode) x y) as Hord by (intros; by eapply sorted_lookup).
  unfold marked in Hki, Hkj. rewrite Forall_forall in Hk.
  pose proof (Hk d1 ltac:(by eapply list_elem_of_lookup_2)) as Hk1.
  pose proof (Hk d2 ltac:(by eapply list_elem_of_lookup_2)) as Hk2.
  assert ((if keeps mode then (p < q)%nat else (q < p)%nat)) as Hpq.
  { destruct (keeps mode); cbn in *; [apply Z.ltb_lt in Hki; apply Z.ltb_ge in Hkj; lia|].
    destruct (Z.of_nat p <? amount) eqn:E1; [done|]. destruct (Z.of_nat q <? amount) eqn:E2; [|congruence].
    apply Z.ltb_ge in E1. apply Z.ltb_lt in E2. lia. }
  destruct (keeps mode) eqn:E; [pose proof (Hord _ _ _ _ Hp Hq Hpq) as Ho
                               |pose proof (Hord _ _ _ _ Hq Hp Hpq) as Ho];
    apply inOrder_spec in Ho; rewrite !elem_of_cons, elem_of_nil in Hm;
    by destruct Hm as [->|[->|[->|[->|[]]]]].
Qed.

Lemma applySelection_length dice mode amount : length (applySelection dice mode amount) = length dice.
Proof. apply foldl_mark_length. Qed.

(** A selection changes nothing but the marks. *)
Lemma applySelection_faces dice mode amount :
  (λ d, (die_Faces d, die_Value d)) <$> applySelection dice mode amount =
  (λ d, (die_Faces d, die_Value d)) <$> dice.
Proof.
  apply list_eq. intros i. rewrite !list_lookup_fmap. destruct (dice !! i) as [d|] eqn:E.
  - destruct (applySelection_lookup dice mode amount i d E) as (p & _ & ->).
    cbn. unfold marked. by repeat case_match.
  - apply lookup_ge_None in E. by rewrite lookup_ge_None_2 by by rewrite applySelection_length.
Qed.

(** ** Totals *)

Definition keptSum (dice : list Die) : Z :=
  foldr (λ d acc, (if die_Kept d then die_Value d else 0) + acc) 0 dice.

Definition dieOK (faces : Z) (d : Die) : Prop := die_Faces d = faces ∧ 1 ≤ die_Value d ≤ faces.

(** What a term of a result is: a constant, or dice of one kind that show one of
    their faces, with the sum of those kept. *)
Definition termOK (t : Term) : Prop :=
  (term_Sign t = 1 ∨ term_Sign t = -1) ∧
  match term_Constant t with
  | Some k => term_Dice t = [] ∧ term_Subtotal t = k ∧ in_int64 k
  | None => ∃ faces, 2 ≤ faces ≤ MaxFaces ∧ Forall (dieOK faces) (term_Dice t) ∧
              term_Dice t ≠ [] ∧ term_Subtotal t = keptSum (term_Dice t)
  end.

Definition diceCount (ts : list Term) : Z := foldr (λ t acc, Z.of_nat (length (term_Dice t)) + acc) 0 ts.
Definition signedSum (ts : list Term) : Z := foldr (λ t acc, term_Sign t * term_Subtotal t + acc) 0 ts.

Lemma diceCount_snoc ts t : diceCount (ts ++ [t]) = diceCount ts + Z.of_nat (length (term_Dice t)).
Proof. unfold diceCount, signedSum in *. induction ts as [|x ts IH]; cbn [foldr app]; lia. Qed.

Lemma signedSum_snoc ts t : signedSum (ts ++ [t]) = signedSum ts + term_Sign t * term_Subtotal t.
Proof. unfold diceCount, signedSum in *. induction ts as [|x ts IH]; cbn [foldr app]; lia. Qed.

(** Two hundred dice of a thousand faces stay far below the bound of [int]. *)
Lemma subtotalOf_sum faces dice :
  Forall (dieOK faces) dice → faces ≤ MaxFaces → Z.of_nat (length dice) ≤ MaxDice →
  subtotalOf dice = keptSum dice.
Proof.
  intros Hd Hf Hn. unfold subtotalOf, MaxDice, MaxFaces in *.
  cut (∀ acc, 0 ≤ acc → acc + 1000 * Z.of_nat (length dice) ≤ 200000 →
       foldl (λ acc d, if die_Kept d then wrap64 (acc + die_Value d) else acc) acc dice =
       acc + keptSum dice); [intros Hc; rewrite Hc; lia|]. clear Hn.
  induction Hd as [|d dice [Hfd Hv] Hd IH]; intros acc H0 Hle; cbn [foldl keptSum foldr]; [cbn; lia|].
  cbn [length] in Hle. destruct (die_Kept d).
  - rewrite wrap64_id by (unfold in_int64, min_int64, max_int64; lia).
    rewrite IH by lia. unfold keptSum. lia.
  - rewrite IH by lia. unfold keptSum. lia.
Qed.

Section DiceLaws.
Context {G : Type} `{Hroll : DiceSource G} `{Hfair : !FairSource G} `{Unicode}.

Lemma rollDice_OK count faces g dice g' :
  1 ≤ faces → rollDice count faces g = (dice, g') →
  length dice = count ∧ Forall (dieOK faces) dice ∧ Forall (λ d, die_Kept d = true) dice.
Proof.
  intros Hf. revert g dice. induction count as [|count IH]; intros g dice; cbn.
  { intros [= <- <-]. done. }
  destruct (rollDie faces g) as [v g1] eqn:Ev. destruct (rollDice count faces g1) as [ds g2] eqn:Ed.
  intros [= <- <-]. destruct (IH _ _ Ed) as (? & ? & ?). cbn. split_and!; [lia| |by constructor].
  constructor; [|done]. split; [done|]. cbn. pose proof (fair faces g Hf) as Hv. by rewrite Ev in Hv.
Qed.

Lemma dieOK_faces faces (l l' : list Die) :
  (λ d, (die_Faces d, die_Value d)) <$> l' = (λ d, (die_Faces d, die_Value d)) <$> l →
  Forall (dieOK faces) l → Forall (dieOK faces) l'.
Proof.
  revert l. induction l' as [|d' l' IH]; intros [|d l]; cbn; try done.
  intros [= Hf Hv Hl] [Hd Hr]%Forall_cons. constructor; [|by eapply IH].
  unfold dieOK in *. by rewrite Hf, Hv.
Qed.

Lemma evaluate_OK piece sign budget g t budget' g' :
  sign = 1 ∨ sign = -1 → budget ≤ MaxDice →
  evaluate piece sign budget g = Ok (t, budget', g') →
  termOK t ∧ term_Sign t = sign ∧ budget' = budget - Z.of_nat (length (term_Dice t)) ∧
  (0 ≤ budget → 0 ≤ budget').
Proof.
  intros Hs Hb. unfold evaluate. destruct (Atoi piece) as [k|] eqn:Ea.
  { intros [= <- <- <-]. cbn. split_and!; [split; [done|]|done|lia|done].
    split_and!; [done..|by eapply Atoi_range]. }
  destruct (matchTerm piece) as [[[m1 m2] sel]|]; [|done].
  intros (count & _ & Hm)%bind_Ok. destruct (Atoi m2) as [faces|]; [|done].
  destruct ((faces <? 2) || (MaxFaces <? faces)) eqn:Ef; [done|].
  apply orb_false_iff in Ef as [Ef1%Z.ltb_ge Ef2%Z.ltb_ge].
  destruct (count <? 1) eqn:Ec; [done|]. apply Z.ltb_ge in Ec.
  destruct (budget <? count) eqn:Ebc; [done|]. apply Z.ltb_ge in Ebc.
  destruct (rollDice _ _ _) as [dice g1] eqn:Er.
  apply rollDice_OK in Er as (Hlen & Hdice & _); [|lia].
  apply bind_Ok in Hm as (dice' & Hsel & [= <- <- <-]).
  assert (length dice' = length dice ∧ Forall (dieOK faces) dice') as [Hl Hd].
  { destruct sel as [[mode amount]|]; [|by inv_ok].
    destruct (Atoi amount) as [keep|]; [|done]. destruct (keep <? 0); [done|]. inv_ok.
    split; [apply applySelection_length|].
    eapply dieOK_faces; [apply applySelection_faces|done]. }
  cbn. split_and!; [split; [done|]|done|lia|lia].
  cbn. exists faces. split_and!; [lia|done|done| |].
  - intros ->. cbn in Hl. lia.
  - apply (subtotalOf_sum faces); [done|lia|lia].
Qed.

(** The invariant of [Roll]'s loop. *)
Definition rollInv (st : rollState (G := G)) : Prop :=
  (rs_sign st = 1 ∨ rs_sign st = -1) ∧ Forall termOK (rs_terms st) ∧
  rs_total st = wrap64 (signedSum (rs_terms st)) ∧
  rs_budget st = MaxDice - diceCount (rs_terms st) ∧ 0 ≤ rs_budget st.

Lemma diceCount_nonneg ts : 0 ≤ diceCount ts.
Proof. induction ts as [|t ts IH]; cbn; [done|]. unfold diceCount in IH. lia. Qed.

Lemma flush_inv st st' : rollInv st → flush st = Ok st' → rollInv st' ∧ rs_terms st' ≠ [].
Proof.
  intros (Hs & Ht & Htot & Hb & Hb0). unfold flush. destruct (rs_buffer st) as [|c buf]; [done|].
  intros (((t, budget), g) & He & [= <-])%bind_Ok.
  pose proof (diceCount_nonneg (rs_terms st)).
  apply evaluate_OK in He as (Hok & Hsg & -> & Hpos); [|done|lia].
  unfold rollInv. cbn. split_and!; [done| | |rewrite diceCount_snoc; lia|by apply Hpos|].
  - apply Forall_app. split; [done|by constructor].
  - rewrite signedSum_snoc, Htot, wrap64_add_l, Z.add_comm, wrap64_add_l, Hsg. f_equal. lia.
  - by intros []%app_nil.
Qed.

Lemma rollStep_inv st e st' : rollInv st → rollStep st e = Ok st' → rollInv st'.
Proof.
  intros Hi. unfold rollStep. destruct e as [index c].
  destruct (isSign c && (0 <? index)%nat).
  - intros (st1 & Hf & [= <-])%bind_Ok. apply flush_inv in Hf as [(_ & Hi1) _]; [|done].
    split; [|done]. cbn. case_bool_decide; auto.
  - destruct (_ && _); [by intros [= <-]|]. destruct (_ && _); intros [= <-].
    + destruct Hi as [_ Hi]. split; [by right|done].
    + done.
Qed.

(** ** Theorems *)

(** C39: a roll that is accepted is honest.  Every term is a constant or dice of
    one kind (2 to 1000 faces) each showing one of its faces, with the sum of
    the kept dice as its subtotal, never wrapped; the whole expression rolls at
    most 200 dice; and the total is the signed sum of the subtotals, in the
    64 bit arithmetic of [int]. *)
Theorem Roll_sound : ∀ expression g r g',
  Roll expression g = Ok (r, g') →
  result_Terms r ≠ [] ∧ Forall termOK (result_Terms r) ∧
  diceCount (result_Terms r) ≤ MaxDice ∧
  result_Total r = wrap64 (signedSum (result_Terms r)).
Proof.
  intros expression g r g'. unfold Roll.
  case_bool_decide; [done|]. destruct (MaxTermsLen <? _); [done|]. intros HR. inv_ok.
  assert (rollInv a) as Ha.
  { eapply foldM_inv; [| |exact H1].
    - unfold rollInv. cbn. split_and!; [by left|done|done|done|done].
    - intros x b b' _. apply rollStep_inv. }
  apply flush_inv in H2 as [(_ & Ht & Htot & Hb & Hb0) Hne]; [|done].
  cbn. split_and!; [done|done|rewrite Hb in Hb0; unfold diceCount, MaxDice in *; lia|done].
Qed.
End DiceLaws.

(** [kh], [kl], [dh] and [dl] do what they say.  A selection leaves every
    die's faces and value alone; [kh n] and [kl n] keep exactly [n] dice (or all
    of them), [dh n] and [dl n] drop exactly [n] (or all); and every die kept
    shows at least ([kh], [dl]) or at most ([kl], [dh]) what any die dropped
    shows. *)
Theorem applySelection_exact : ∀ dice mode amount,
  Forall (λ d, die_Kept d = true) dice → mode ∈ ["kh"; "kl"; "dh"; "dl"] → 0 ≤ amount →
  let out := applySelection dice mode amount in
  (λ d, (die_Faces d, die_Value d)) <$> out = (λ d, (die_Faces d, die_Value d)) <$> dice ∧
  length (filter (λ d, die_Kept d = true) out) =
    (if keeps mode then Nat.min (Z.to_nat amount) (length dice)
     else length dice - Z.to_nat amount)%nat ∧
  ∀ i j di dj, out !! i = Some di → out !! j = Some dj → die_Kept di = true → die_Kept dj = false →
    if keepsHigh mode then die_Value dj ≤ die_Value di else die_Value di ≤ die_Value dj.
Proof.
  intros dice mode amount Hk Hm Ha out. split_and!.
  - apply applySelection_faces.
  - by apply applySelection_count.
  - intros i j di dj. by apply applySelection_best.
Qed.

Lemma FixedSource_fair : FairSource FixedSource.
Proof.
  intros faces s Hf. unfold rollDie, FixedSource_Roll.
  destruct (_ !! _) as [v|]; cbn; [|lia].
  destruct (v <? 1) eqn:E1; cbn; [lia|]. destruct (faces <? v) eqn:E2; cbn; [lia|].
  apply Z.ltb_ge in E1, E2. lia.
Qed.

(** A total can wrap.  A constant is only bounded by [int] itself, so the
    sum of two large ones comes out negative. *)
Theorem Roll_total_wraps :
  ∃ r g, Roll (H0 := asciiOnly) "9223372036854775807+1" (MkFixedSource [] 0) = Ok (r, g) ∧
         signedSum (result_Terms r) = 2 ^ 63 ∧ result_Total r = - 2 ^ 63.
Proof. do 2 eexists. split; [vm_compute; reflexivity|]. done. Qed.
