(* ===== verification/Sha256.v ===== *)
(** * SHA-256 and hexadecimal text (crypto/sha256, encoding/hex)

    The digest the program stores instead of a token and names assets by, as
    FIPS 180-4 defines it, on 32 bit words kept as integers below 2^32. *)

From S2P Require Import Prelude GoStrings.
From Stdlib Require Import Ascii.

Local Open Scope Z_scope.

Definition w32 (z : Z) : Z := Z.land z (2 ^ 32 - 1).
Definition add32 (a b : Z) : Z := w32 (a + b).
Definition rotr (n x : Z) : Z := Z.lor (Z.shiftr x n) (w32 (Z.shiftl x (32 - n))).
Definition not32 (x : Z) : Z := Z.lxor x (2 ^ 32 - 1).

Definition Ch (x y z : Z) : Z := Z.lxor (Z.land x y) (Z.land (not32 x) z).
Definition Maj (x y z : Z) : Z := Z.lxor (Z.lxor (Z.land x y) (Z.land x z)) (Z.land y z).
Definition Sigma0 (x : Z) : Z := Z.lxor (Z.lxor (rotr 2 x) (rotr 13 x)) (rotr 22 x).
Definition Sigma1 (x : Z) : Z := Z.lxor (Z.lxor (rotr 6 x) (rotr 11 x)) (rotr 25 x).
Definition sigma0 (x : Z) : Z := Z.lxor (Z.lxor (rotr 7 x) (rotr 18 x)) (Z.shiftr x 3).
Definition sigma1 (x : Z) : Z := Z.lxor (Z.lxor (rotr 17 x) (rotr 19 x)) (Z.shiftr x 10).

(** The constants are the first 32 bits of the fractional parts of the cube and
    square roots of the first primes. *)
Definition isPrime (n : nat) : bool := forallb (λ d, negb (n mod d =? 0)%nat) (seq 2 (n - 2)).
Definition firstPrimes (n : nat) : list Z := take n (Z.of_nat <$> List.filter isPrime (seq 2 310)).

(** The integer cube root of a number below 2^120, from its highest bit down. *)
Definition cubeRoot (n : Z) : Z :=
  foldr (λ k r, let r' := r + 2 ^ Z.of_nat k in if r' * r' * r' <=? n then r' else r) 0 (seq 0 40).

Definition roundConstants : list Z :=
  Eval vm_compute in (λ p, w32 (cubeRoot (p * 2 ^ 96))) <$> firstPrimes 64.

Definition initialHash : list Z :=
  Eval vm_compute in (λ p, w32 (Z.sqrt (p * 2 ^ 64))) <$> firstPrimes 8.

Definition be_bytes (n : nat) (z : Z) : list Z :=
  (λ i, Z.land (Z.shiftr z (8 * Z.of_nat i)) 255) <$> reverse (seq 0 n).

Definition pad (l : list Z) : list Z :=
  let n := length l in
  let zeros := ((119 - n mod 64) mod 64)%nat in
  l ++ [128] ++ replicate zeros 0 ++ be_bytes 8 (8 * Z.of_nat n).

Fixpoint words (l : list Z) : list Z :=
  match l with
  | a :: b :: c :: d :: l => (((a * 256 + b) * 256 + c) * 256 + d) :: words l
  | _ => []
  end.

Definition word (l : list Z) (i : nat) : Z := default 0 (l !! i).

(** The message schedule, newest word first. *)
Fixpoint schedule (n : nat) (w : list Z) : list Z :=
  match n with
  | O => w
  | S n =>
      schedule n (add32 (add32 (sigma1 (word w 1)) (word w 6))
                    (add32 (sigma0 (word w 14)) (word w 15)) :: w)
  end.

Definition sha_round (s : list Z) (kw : Z * Z) : list Z :=
  match s with
  | [a; b; c; d; e; f; g; h] =>
      let t1 := add32 (add32 h (add32 (Sigma1 e) (Ch e f g))) (add32 kw.1 kw.2) in
      let t2 := add32 (Sigma0 a) (Maj a b c) in
      [add32 t1 t2; a; b; c; add32 d t1; e; f; g]
  | _ => s
  end.

Definition sha_block (hs : list Z) (block : list Z) : list Z :=
  let ws := reverse (schedule 48 (reverse block)) in
  zip_with add32 hs (foldl sha_round hs (zip roundConstants ws)).

Fixpoint chunks (fuel n : nat) (l : list Z) : list (list Z) :=
  match fuel with
  | O => []
  | S fuel => if isNil l then [] else take n l :: chunks fuel n (drop n l)
  end.

Definition Sum256 (l : bytes) : list Z :=
  let ws := words (pad ((λ c, Z.of_nat (code c)) <$> l)) in
  concat (be_bytes 4 <$> foldl sha_block initialHash (chunks (length ws) 16 ws)).

Definition hexDigit (n : Z) : ascii :=
  default "0"%char (chars "0123456789abcdef" !! Z.to_nat n).

Definition hexEncode (l : list Z) : string :=
  unchars (concat ((λ b, [hexDigit (b / 16); hexDigit (b `mod` 16)]) <$> l)).

(** The published digest of a three byte message. *)
Example sha256_abc :
  hexEncode (Sum256 (chars "abc")) = "ba7816bf8f01cfea414140de5dae2223b00361a396177a9cb410ff61f20015ad".
Proof. vm_compute. reflexivity. Qed.

Example sha256_two_blocks :
  hexEncode (Sum256 (chars "abcdbcdecdefdefgefghfghighijhijkijkljklmklmnlmnomnopnopq")) =
  "248d6a61d20638b8e5c026930c3e6039a33ce45964ff2167f6ecedd419db06c1".
Proof. vm_compute. reflexivity. Qed.
