(* ===== verification/RateLimit.v ===== *)
(** * The login rate limiter (internal/core/auth/ratelimit.go)

    Failed attempts per user name and per address, the lockout they lead to,
    and the sweep of stale entries.  The mutex makes every operation atomic;
    the clock is an argument. *)

From S2P Require Import Prelude.

Local Open Scope Z_scope.

Record Limits := MkLimits {
  limits_Burst : Z;
  limits_Window : Duration;
  limits_Lockout : Duration;
  limits_MaxTracked : Z
}.

Definition DefaultLimits : Limits := MkLimits 8 (5 * Minute) (15 * Minute) 10000.

Record attempt := MkAttempt {
  attempt_failures : Z;
  attempt_firstSeen : Time;
  attempt_lockedTil : Time
}.

Record Limiter := MkLimiter {
  limiter_limits : Limits;
  limiter_attempts : gmap string attempt
}.

Definition NewLimiter (limits : Limits) : Limiter :=
  MkLimiter (if limits_Burst limits <=? 0 then DefaultLimits else limits) ∅.

Definition with_attempts (l : Limiter) (m : gmap string attempt) : Limiter :=
  MkLimiter (limiter_limits l) m.

Definition keysFor (username remoteAddr : string) : list string :=
  (if bool_decide (username = "") then [] else ["user:" +:+ username]) ++
  (if bool_decide (remoteAddr = "") then [] else ["addr:" +:+ remoteAddr]).

(** [now.Sub(entry.firstSeen) > l.limits.Window]. *)
Definition windowPassed (limits : Limits) (now : Time) (entry : attempt) : bool :=
  limits_Window limits <? TimeSub now (attempt_firstSeen entry).

(** The loop of [Allow]. *)
Fixpoint allowKeys (limits : Limits) (now : Time) (keys : list string)
    (attempts : gmap string attempt) : bool * gmap string attempt :=
  match keys with
  | [] => (true, attempts)
  | key :: keys =>
      match attempts !! key with
      | None => allowKeys limits now keys attempts
      | Some entry =>
          if Before now (attempt_lockedTil entry) then (false, attempts)
          else if windowPassed limits now entry
               then allowKeys limits now keys (delete key attempts)
               else allowKeys limits now keys attempts
      end
  end.

Definition Allow (now : Time) (username remoteAddr : string) (l : Limiter) : bool * Limiter :=
  let '(ok, m) := allowKeys (limiter_limits l) now (keysFor username remoteAddr) (limiter_attempts l) in
  (ok, with_attempts l m).

Definition Tracked (l : Limiter) : nat := size (limiter_attempts l).

Definition stale (limits : Limits) (now : Time) (entry : attempt) : bool :=
  After now (attempt_lockedTil entry) && windowPassed limits now entry.

Definition sweepLocked (now : Time) (l : Limiter) : Limiter :=
  if Z.of_nat (Tracked l) <? limits_MaxTracked (limiter_limits l) then l
  else with_attempts l (filter (λ kv, stale (limiter_limits l) now kv.2 = false) (limiter_attempts l)).

(** The body of [Fail]'s loop. *)
Definition failKey (limits : Limits) (now : Time) (attempts : gmap string attempt) (key : string)
    : gmap string attempt :=
  let fresh := MkAttempt 0 now 0 in
  let entry := match attempts !! key with
               | None => fresh
               | Some entry => if windowPassed limits now entry then fresh else entry
               end in
  let failures := attempt_failures entry + 1 in
  <[key := MkAttempt failures (attempt_firstSeen entry)
             (if limits_Burst limits <=? failures then TimeAdd now (limits_Lockout limits)
              else attempt_lockedTil entry)]> attempts.

Definition Fail (now : Time) (username remoteAddr : string) (l : Limiter) : Limiter :=
  let l := sweepLocked now l in
  with_attempts l
    (foldl (failKey (limiter_limits l) now) (limiter_attempts l) (keysFor username remoteAddr)).

Definition Succeed (username remoteAddr : string) (l : Limiter) : Limiter :=
  with_attempts l (foldl (λ m key, delete key m) (limiter_attempts l) (keysFor username remoteAddr)).

(** One login attempt as the service makes it: ask, then report how it went. *)
Record loginAttempt := MkLoginAttempt {
  login_Username : string; login_Addr : string; login_Succeeds : bool; login_At : Time
}.

Definition tryLogin (a : loginAttempt) (l : Limiter) : Limiter :=
  let '(ok, l) := Allow (login_At a) (login_Username a) (login_Addr a) l in
  if ok then
    if login_Succeeds a then Succeed (login_Username a) (login_Addr a) l
    else Fail (login_At a) (login_Username a) (login_Addr a) l
  else l.

(** ** Lemmas *)

Lemma allowKeys_locked limits now keys m key entry :
  m !! key = Some entry → now < attempt_lockedTil entry →
  let '(ok, m') := allowKeys limits now keys m in
  m' !! key = Some entry ∧ (key ∈ keys → ok = false).
Proof.
  intros Hk Hl. revert m Hk. induction keys as [|k keys IH]; intros m Hk; cbn [allowKeys].
  { split; [done|by intros ?%elem_of_nil]. }
  destruct (decide (k = key)) as [->|Hne].
  - rewrite Hk. unfold Before. rewrite (proj2 (Z.ltb_lt _ _) Hl). done.
  - assert (∀ m', m' !! key = Some entry →
      let '(ok, m'') := allowKeys limits now keys m' in
      m'' !! key = Some entry ∧ (key ∈ k :: keys → ok = false)) as Hrec.
    { intros m' Hm'. specialize (IH m' Hm'). destruct (allowKeys _ _ _ m') as [ok m''].
      destruct IH as [H1 H2]. split; [done|]. intros [->|Hin]%elem_of_cons; [done|by apply H2]. }
    destruct (m !! k) as [e|]; [|by apply Hrec].
    destruct (Before now (attempt_lockedTil e)); [done|].
    destruct (windowPassed _ _ _); [|by apply Hrec].
    apply Hrec. by rewrite lookup_delete_ne.
Qed.

Lemma sweepLocked_keeps now l key entry :
  limiter_attempts l !! key = Some entry → stale (limiter_limits l) now entry = false →
  limiter_attempts (sweepLocked now l) !! key = Some entry.
Proof.
  intros Hk Hs. unfold sweepLocked. destruct (_ <? _); [done|]. cbn.
  by apply map_lookup_filter_Some.
Qed.

Lemma sweepLocked_limits now l : limiter_limits (sweepLocked now l) = limiter_limits l.
Proof. unfold sweepLocked. by destruct (_ <? _). Qed.

Lemma sweepLocked_subset now l key :
  limiter_attempts l !! key = None → limiter_attempts (sweepLocked now l) !! key = None.
Proof.
  intros Hk. unfold sweepLocked. destruct (_ <? _); [done|]. cbn.
  apply map_lookup_filter_None. by left.
Qed.

Lemma failKeys_other limits now keys m key :
  key ∉ keys → foldl (failKey limits now) m keys !! key = m !! key.
Proof.
  revert m. induction keys as [|k keys IH]; intros m Hn; [done|]. cbn.
  apply not_elem_of_cons in Hn as [Hne Hn]. rewrite IH by done. unfold failKey.
  by rewrite lookup_insert_ne.
Qed.

Lemma deleteKeys_other keys (m : gmap string attempt) key :
  key ∉ keys → foldl (λ m k, delete k m) m keys !! key = m !! key.
Proof.
  revert m. induction keys as [|k keys IH]; intros m Hn; [done|]. cbn.
  apply not_elem_of_cons in Hn as [Hne Hn]. rewrite IH by done. by rewrite lookup_delete_ne.
Qed.

Lemma keysFor_NoDup u a : NoDup (keysFor u a).
Proof.
  unfold keysFor. repeat case_bool_decide; cbn; repeat constructor;
    rewrite ?elem_of_cons, ?elem_of_nil; try tauto. intros [[=]|[]].
Qed.

(** [Fail] on a key it reports. *)
Lemma Fail_key now u a l key :
  key ∈ keysFor u a →
  limiter_attempts (Fail now u a l) !! key =
  failKey (limiter_limits l) now (limiter_attempts (sweepLocked now l)) key !! key.
Proof.
  intros Hin. unfold Fail. cbn. rewrite sweepLocked_limits.
  generalize (keysFor_NoDup u a) Hin. generalize (limiter_attempts (sweepLocked now l)).
  induction (keysFor u a) as [|k keys IH]; intros m Hd Hk; [by apply elem_of_nil in Hk|].
  apply NoDup_cons in Hd as [Hn Hd]. cbn [foldl].
  destruct (decide (k = key)) as [->|Hne]; [by apply failKeys_other|].
  apply elem_of_cons in Hk as [->|Hk]; [done|]. rewrite IH by done.
  unfold failKey. rewrite !lookup_insert_eq, !lookup_insert_ne by done. done.
Qed.

(** A lock outlives every login attempt made before it ends. *)
Lemma tryLogin_locked a l key entry :
  limiter_attempts l !! key = Some entry → login_At a < attempt_lockedTil entry →
  limiter_attempts (tryLogin a l) !! key = Some entry ∧
  limiter_limits (tryLogin a l) = limiter_limits l.
Proof.
  intros Hk Ht. unfold tryLogin, Allow.
  pose proof (allowKeys_locked (limiter_limits l) (login_At a)
    (keysFor (login_Username a) (login_Addr a)) _ _ _ Hk Ht) as HA.
  destruct (allowKeys _ _ _ _) as [ok m]. destruct HA as [Hm Hok].
  destruct ok; [|done].
  assert (key ∉ keysFor (login_Username a) (login_Addr a)) as Hn by (intros Hin; by apply Hok in Hin).
  destruct (login_Succeeds a).
  - cbn. by rewrite deleteKeys_other.
  - unfold Fail. cbn [limiter_attempts limiter_limits with_attempts].
    rewrite failKeys_other, sweepLocked_limits by done. split; [|done].
    apply sweepLocked_keeps; [done|]. unfold stale, After.
    by rewrite (proj2 (Z.ltb_ge _ _)) by lia.
Qed.

Lemma tryLogins_locked attempts l key entry :
  limiter_attempts l !! key = Some entry →
  Forall (λ a, login_At a < attempt_lockedTil entry) attempts →
  limiter_attempts (foldl (λ l a, tryLogin a l) l attempts) !! key = Some entry.
Proof.
  intros Hk Ht. revert l Hk. induction Ht as [|a attempts Ha Ht IH]; intros l Hk; [done|].
  cbn. apply IH. by apply tryLogin_locked.
Qed.

(** ** Counting failures *)

Definition failAll (l : Limiter) (fails : list (string * string * Time)) : Limiter :=
  foldl (λ l f, Fail f.2 f.1.1 f.1.2 l) l fails.

Lemma failAll_limits l fails : limiter_limits (failAll l fails) = limiter_limits l.
Proof.
  revert l. induction fails as [|f fails IH]; intros l; [done|]. cbn. rewrite IH. cbn.
  apply sweepLocked_limits.
Qed.

(** One more failure of a tracked key inside its window. *)
Lemma Fail_count now u a l key entry :
  key ∈ keysFor u a → limiter_attempts l !! key = Some entry →
  windowPassed (limiter_limits l) now entry = false →
  limiter_attempts (Fail now u a l) !! key =
  Some (MkAttempt (attempt_failures entry + 1) (attempt_firstSeen entry)
         (if limits_Burst (limiter_limits l) <=? attempt_failures entry + 1
          then TimeAdd now (limits_Lockout (limiter_limits l)) else attempt_lockedTil entry)).
Proof.
  intros Hin Hk Hw. rewrite Fail_key by done. unfold failKey.
  rewrite (sweepLocked_keeps now l key entry), Hw by (done || (unfold stale; by rewrite Hw, andb_false_r)).
  by rewrite lookup_insert_eq.
Qed.

Lemma failAll_count fails l key entry :
  Forall (λ f, key ∈ keysFor f.1.1 f.1.2) fails →
  limiter_attempts l !! key = Some entry →
  Forall (λ f, windowPassed (limiter_limits l) f.2 entry = false) fails →
  ∃ entry', limiter_attempts (failAll l fails) !! key = Some entry' ∧
    attempt_failures entry' = attempt_failures entry + Z.of_nat (length fails) ∧
    attempt_firstSeen entry' = attempt_firstSeen entry.
Proof.
  revert l entry. induction fails as [|f fails IH]; intros l entry Hin Hk Hw.
  { exists entry. cbn. split_and!; [done|lia|done]. }
  apply Forall_cons in Hin as [Hf Hin]. apply Forall_cons in Hw as [Hwf Hw].
  pose proof (Fail_count f.2 f.1.1 f.1.2 l key entry Hf Hk Hwf) as Hone.
  destruct (IH _ _ Hin Hone) as (e' & H1 & H2 & H3).
  { cbn. rewrite sweepLocked_limits. exact Hw. }
  exists e'. split_and!; [done| |done]. rewrite H2. cbn. lia.
Qed.

(** ** Theorems *)

(** C33: brute force is locked out.  From a state in which a user name or address
    is not tracked, [Burst] failures that involve it, all within [Window] of the
    first, lock it: every login that involves it is refused until [Lockout]
    after the last failure, whatever other logins (of any name, from anywhere,
    successful or not) are attempted in between. *)
Theorem burst_locks_out : ∀ l key u0 a0 (t0 : Time) (fails : list (string * string * Time)) u1 a1 (t1 : Time)
    attempts u a now,
  limiter_attempts l !! key = None →
  0 < limits_Window (limiter_limits l) →
  Forall (λ f : string * string * Time, key ∈ keysFor f.1.1 f.1.2 ∧ t0 ≤ f.2 ≤ t0 + limits_Window (limiter_limits l))
    ((u0, a0, t0) :: fails ++ [(u1, a1, t1)]) →
  Z.of_nat (length fails) + 2 = limits_Burst (limiter_limits l) →
  Forall (λ x, login_At x < t1 + limits_Lockout (limiter_limits l)) attempts →
  key ∈ keysFor u a → now < t1 + limits_Lockout (limiter_limits l) →
  (Allow now u a
    (foldl (λ l x, tryLogin x l) (failAll l ((u0, a0, t0) :: fails ++ [(u1, a1, t1)])) attempts)).1
  = false.
Proof.
  intros l key u0 a0 t0 fails u1 a1 t1 attempts u a now Hk Hw Hf Hn Hat Hin Hnow.
  apply Forall_cons in Hf as [[H0 _] Hf].
  assert (∀ t e, attempt_firstSeen e = t0 → t0 ≤ t ≤ t0 + limits_Window (limiter_limits l) →
            windowPassed (limiter_limits l) t e = false) as Hin_window.
  { intros t e He Ht. unfold windowPassed, TimeSub, min_int64, max_int64. rewrite He. apply Z.ltb_ge. lia. }
  set (l1 := Fail t0 u0 a0 l).
  assert (∃ e, limiter_attempts l1 !! key = Some e ∧ attempt_failures e = 1 ∧ attempt_firstSeen e = t0)
    as (e & He & He1 & He2).
  { unfold l1. eexists. rewrite Fail_key by done. unfold failKey.
    rewrite sweepLocked_subset, lookup_insert_eq by done. done. }
  apply Forall_app in Hf as [Hf [[Hl1 Hl2] _]%Forall_cons].
  assert (limiter_limits l1 = limiter_limits l) as Hlim by apply sweepLocked_limits.
  destruct (failAll_count fails l1 key e) as (e2 & He2k & He2n & He2f).
  { eapply Forall_impl; [exact Hf|]. by intros ? []. }
  { done. }
  { rewrite Hlim. eapply Forall_impl; [exact Hf|]. intros ? [_ ?]. by apply Hin_window. }
  set (l2 := failAll l1 fails).
  assert (limiter_limits l2 = limiter_limits l) as Hlim2 by (unfold l2; by rewrite failAll_limits).
  assert (limiter_attempts (Fail t1 u1 a1 l2) !! key =
    Some (MkAttempt (attempt_failures e2 + 1) (attempt_firstSeen e2) (t1 + limits_Lockout (limiter_limits l))))
    as Hlock.
  { rewrite (Fail_count _ _ _ _ key e2), Hlim2; [|done|done|].
    - by rewrite (proj2 (Z.leb_le _ _)) by lia.
    - rewrite Hlim2. apply Hin_window; [congruence|done]. }
  cbn [failAll foldl]. unfold failAll. rewrite foldl_app. fold (failAll l1 fails). fold l1 l2. cbn [foldl fst snd].
  eapply tryLogins_locked in Hlock; [|exact Hat].
  set (l3 := foldl _ _ attempts) in *. unfold Allow.
  pose proof (allowKeys_locked (limiter_limits l3) now (keysFor u a) _ _ _ Hlock Hnow) as HA.
  destruct (allowKeys _ _ _ _) as [ok m]. cbn. by apply HA.
Qed.
