(* ===== verification/Password.v ===== *)
(** * Password hashes (internal/core/auth/password.go)

    The PHC string an argon2id hash is stored as, and its parser.  Base64 and
    the verbs of [fmt.Sscanf] that the parser uses are written out on bytes;
    argon2 itself (golang.org/x/crypto) is the parameter [Argon2]. *)

From S2P Require Import Prelude GoStrings.
From Stdlib Require Import Ascii.

Local Open Scope Z_scope.

(** ** base64.RawStdEncoding *)

Definition b64Alphabet : bytes :=
  chars "ABCDEFGHIJKLMNOPQRSTUVWXYZabcdefghijklmnopqrstuvwxyz0123456789+/".

Definition enc6 (n : nat) : ascii := default "A"%char (b64Alphabet !! n).

Definition dec6 (c : ascii) : option nat := fst <$> list_find (λ x, x = c) b64Alphabet.

Fixpoint b64Encode (l : bytes) : bytes :=
  match l with
  | [] => []
  | [a] => [enc6 (code a / 4); enc6 ((code a mod 4) * 16)]
  | [a; b] => [enc6 (code a / 4); enc6 ((code a mod 4) * 16 + code b / 16); enc6 ((code b mod 16) * 4)]
  | a :: b :: c :: l =>
      enc6 (code a / 4) :: enc6 ((code a mod 4) * 16 + code b / 16) ::
      enc6 ((code b mod 16) * 4 + code c / 64) :: enc6 (code c mod 64) :: b64Encode l
  end%nat.

(** Groups of four; the bits a short last group leaves over are not looked at,
    one lone character is an error. *)
Fixpoint b64Groups (l : bytes) : option bytes :=
  match l with
  | [] => Some []
  | w :: x :: y :: z :: l =>
      v0 ← dec6 w; v1 ← dec6 x; v2 ← dec6 y; v3 ← dec6 z; rest ← b64Groups l;
      Some (ascii_of_nat (v0 * 4 + v1 / 16) :: ascii_of_nat ((v1 mod 16) * 16 + v2 / 4)
            :: ascii_of_nat ((v2 mod 4) * 64 + v3) :: rest)
  | [w; x; y] =>
      v0 ← dec6 w; v1 ← dec6 x; v2 ← dec6 y;
      Some [ascii_of_nat (v0 * 4 + v1 / 16); ascii_of_nat ((v1 mod 16) * 16 + v2 / 4)]
  | [w; x] => v0 ← dec6 w; v1 ← dec6 x; Some [ascii_of_nat (v0 * 4 + v1 / 16)]
  | [_] => None
  end%nat.

(** The decoder skips carriage returns and newlines. *)
Definition b64Decode (l : bytes) : option bytes :=
  b64Groups (filter (λ c, code c ≠ 13%nat ∧ code c ≠ 10%nat) l).

(** ** fmt.Sscanf *)

(** Blanks before a number; a newline among them is an error. *)
Definition skipBlanks (l : bytes) : option bytes :=
  let rest := trimLeft l in
  if existsb (λ c, (code c =? 10)%nat) (take (length l - length rest) l) then None else Some rest.

Fixpoint literal (lit l : bytes) : option bytes :=
  match lit with
  | [] => Some l
  | c :: lit => match l with
                | x :: l => if bool_decide (x = c) then literal lit l else None
                | [] => None
                end
  end.

(** [%d] into an unsigned integer of [bits] bits. *)
Definition scanUint (bits : Z) (l : bytes) : option (Z * bytes) :=
  l ← skipBlanks l;
  let '(ds, rest) := spanDigits l in
  if isNil ds then None
  else if decimal ds <? 2 ^ bits then Some (decimal ds, rest) else None.

(** [%d] into an [int]. *)
Definition scanInt (l : bytes) : option (Z * bytes) :=
  l ← skipBlanks l;
  let '(neg, l) := match l with
                   | c :: r => if (code c =? 45)%nat then (true, r)
                               else if (code c =? 43)%nat then (false, r) else (false, l)
                   | [] => (false, l)
                   end in
  let '(ds, rest) := spanDigits l in
  let z := if neg then - decimal ds else decimal ds in
  if isNil ds then None else if bool_decide (in_int64 z) then Some (z, rest) else None.

(** ** Hashes *)

Record HashParams := MkHashParams {
  hash_Memory : Z;
  hash_Iterations : Z;
  hash_Parallelism : Z;
  hash_SaltLength : Z;
  hash_KeyLength : Z
}.

(** The fields fit their types: four [uint32], one [uint8]. *)
Definition paramsOK (p : HashParams) : Prop :=
  0 ≤ hash_Memory p < 2 ^ 32 ∧ 0 ≤ hash_Iterations p < 2 ^ 32 ∧ 0 ≤ hash_Parallelism p < 2 ^ 8 ∧
  0 ≤ hash_SaltLength p < 2 ^ 32 ∧ 0 ≤ hash_KeyLength p < 2 ^ 32.

Definition DefaultHashParams (cores : Z) : HashParams :=
  MkHashParams 19456 2 (if 1 <? cores then 2 else 1) 16 32.

(** argon2.IDKey and argon2.Version. *)
Class Argon2 := {
  IDKey : bytes → bytes → Z → Z → Z → Z → bytes;
  argonVersion : Z
}.

(** What is documented of them: the key has the length asked for. *)
Class Argon2Laws `{Argon2} := {
  IDKey_length : ∀ pw salt t m p n, 0 ≤ n → Z.of_nat (length (IDKey pw salt t m p n)) = n;
  argonVersion_int : 0 ≤ argonVersion ≤ max_int64
}.

Section Password.
Context `{Argon2}.

(** [salt] is what the random source gave for [SaltLength] bytes. *)
Definition HashPassword (salt : res bytes) (password : string) (params : HashParams) : res string :=
  salt ← salt;
  let key := IDKey (chars password) salt (hash_Iterations params) (hash_Memory params)
               (hash_Parallelism params) (hash_KeyLength params) in
  Ok ("$argon2id$v=" +:+ Itoa argonVersion +:+ "$m=" +:+ Itoa (hash_Memory params) +:+
      ",t=" +:+ Itoa (hash_Iterations params) +:+ ",p=" +:+ Itoa (hash_Parallelism params) +:+
      "$" +:+ unchars (b64Encode salt) +:+ "$" +:+ unchars (b64Encode key)).

Definition scanParams (l : bytes) : option (Z * Z * Z) :=
  l ← literal (chars "m=") l; '(m, l) ← scanUint 32 l;
  l ← literal (chars ",t=") l; '(t, l) ← scanUint 32 l;
  l ← literal (chars ",p=") l; '(p, _) ← scanUint 8 l;
  Some (m, t, p).

Definition orInvalid {A} (o : option A) : res A :=
  match o with Some a => Ok a | None => Err ErrInvalidHash end.

Definition decodeHash (encoded : string) : res (HashParams * bytes * bytes) :=
  match splitBytes "$"%char (chars encoded) with
  | [p0; p1; p2; p3; p4; p5] =>
      if negb (isNil p0) then Err ErrInvalidHash
      else if negb (bool_decide (p1 = chars "argon2id")) then Err ErrWrongAlgorithm
      else
        '(version, _) ← orInvalid (l ← literal (chars "v=") p2; scanInt l);
        if negb (version =? argonVersion) then Err ErrWrongAlgorithm
        else
          '(m, t, p) ← orInvalid (scanParams p3);
          salt ← orInvalid (b64Decode p4);
          key ← orInvalid (b64Decode p5);
          Ok (MkHashParams m t p (Z.of_nat (length salt) `mod` 2 ^ 32)
                (Z.of_nat (length key) `mod` 2 ^ 32), salt, key)
  | _ => Err ErrInvalidHash
  end.

Definition VerifyPassword (encoded password : string) : res bool :=
  '(params, salt, want) ← decodeHash encoded;
  let got := IDKey (chars password) salt (hash_Iterations params) (hash_Memory params)
               (hash_Parallelism params) (hash_KeyLength params) in
  Ok (bool_decide (got = want)).

(** The parameters of the keys that verifying against a hash derives: what it
    costs. *)
Definition derivations (encoded : string) : list HashParams :=
  match decodeHash encoded with Ok (params, _, _) => [params] | Err _ => [] end.

(** [init]: the decoy is hashed when the program starts. *)
Definition decoyHash (salt : res bytes) (cores : Z) : res string :=
  HashPassword salt "tavora-decoy" (DefaultHashParams cores).

Definition burnTime (decoy password : string) : unit :=
  let _ := VerifyPassword decoy password in tt.
End Password.

(** ** Base64 round trip *)

Lemma dec6_enc6 n : (n < 64)%nat → dec6 (enc6 n) = Some n.
Proof.
  intros Hn. assert (forallb (λ k, bool_decide (dec6 (enc6 k) = Some k)) (seq 0 64) = true) as Hall
    by (vm_compute; reflexivity).
  rewrite forallb_forall in Hall. specialize (Hall n). rewrite bool_decide_eq_true in Hall.
  apply Hall, in_seq. lia.
Qed.

Lemma code_bound c : (code c < 256)%nat.
Proof. apply nat_ascii_bounded. Qed.

Lemma ascii_code c n : n = code c → ascii_of_nat n = c.
Proof. intros ->. apply ascii_nat_embedding. Qed.

(** Reassembling bytes from six bit values. *)
Lemma b64_byte1 a x : (x < 16)%nat → (code a / 4 * 4 + (code a mod 4 * 16 + x) / 16 = code a)%nat.
Proof.
  intros Hx. rewrite Nat.div_add_l, (Nat.div_small x) by lia.
  pose proof (Nat.div_mod_eq (code a) 4). lia.
Qed.

Lemma b64_byte2 a b x : (x < 4)%nat →
  ((a * 16 + code b / 16) mod 16 * 16 + (code b mod 16 * 4 + x) / 4 = code b)%nat.
Proof.
  intros Hx. pose proof (code_bound b). assert (code b / 16 < 16)%nat by (apply Nat.Div0.div_lt_upper_bound; lia).
  rewrite (Nat.add_comm (a * 16)), Nat.Div0.mod_add, (Nat.mod_small (code b / 16)) by lia.
  rewrite Nat.div_add_l, (Nat.div_small x) by lia. pose proof (Nat.div_mod_eq (code b) 16). lia.
Qed.

Lemma b64_byte3 b c :
  ((b * 4 + code c / 64) mod 4 * 64 + code c mod 64 = code c)%nat.
Proof.
  pose proof (code_bound c). assert (code c / 64 < 4)%nat by (apply Nat.Div0.div_lt_upper_bound; lia).
  rewrite (Nat.add_comm (b * 4)), Nat.Div0.mod_add, (Nat.mod_small (code c / 64)) by lia.
  pose proof (Nat.div_mod_eq (code c) 64). lia.
Qed.

Lemma sextets a b c :
  (code a / 4 < 64 ∧ code a mod 4 * 16 + code b / 16 < 64 ∧ code b mod 16 * 4 + code c / 64 < 64 ∧
   code c mod 64 < 64 ∧ code a mod 4 * 16 < 64 ∧ code b mod 16 * 4 < 64 ∧
   code b / 16 < 16 ∧ code c / 64 < 4)%nat.
Proof.
  pose proof (code_bound a). pose proof (code_bound b). pose proof (code_bound c).
  assert (code a / 4 < 64)%nat by (apply Nat.Div0.div_lt_upper_bound; lia).
  assert (code b / 16 < 16)%nat by (apply Nat.Div0.div_lt_upper_bound; lia).
  assert (code c / 64 < 4)%nat by (apply Nat.Div0.div_lt_upper_bound; lia).
  pose proof (Nat.mod_upper_bound (code a) 4). pose proof (Nat.mod_upper_bound (code b) 16).
  pose proof (Nat.mod_upper_bound (code c) 64). lia.
Qed.

Lemma b64Groups_Encode l : b64Groups (b64Encode l) = Some l.
Proof.
  induction l as [l IH] using (induction_ltof1 _ (@length ascii)). unfold ltof in IH.
  destruct l as [|a [|b [|c l]]]; [done| | |]; cbn [b64Encode b64Groups].
  - pose proof (sextets a a a). rewrite !dec6_enc6 by lia. cbn [mbind option_bind].
    f_equal. f_equal. apply ascii_code. pose proof (b64_byte1 a 0). rewrite Nat.add_0_r in *. lia.
  - pose proof (sextets a b b). rewrite !dec6_enc6 by lia. cbn [mbind option_bind].
    f_equal. f_equal; [|f_equal]; apply ascii_code.
    + apply b64_byte1. lia.
    + pose proof (b64_byte2 (code a mod 4) b 0). rewrite Nat.add_0_r in *. lia.
  - pose proof (sextets a b c). rewrite !dec6_enc6 by lia. cbn [mbind option_bind].
    rewrite IH by (cbn; lia). cbn [mbind option_bind].
    f_equal. f_equal; [|f_equal; [|f_equal]]; apply ascii_code.
    + apply b64_byte1. lia.
    + apply b64_byte2. lia.
    + apply b64_byte3.
Qed.

(** The alphabet has no line break, no separator and no digit group of its own. *)
Lemma enc6_alphabet n : enc6 n ∈ b64Alphabet.
Proof.
  unfold enc6. destruct (b64Alphabet !! n) as [c|] eqn:E; cbn; [by eapply list_elem_of_lookup_2|].
  vm_compute. left.
Qed.

Lemma b64Encode_alphabet l : Forall (λ c, c ∈ b64Alphabet) (b64Encode l).
Proof.
  induction l as [l IH] using (induction_ltof1 _ (@length ascii)). unfold ltof in IH.
  destruct l as [|a [|b [|c l]]]; cbn [b64Encode];
    repeat (constructor; [apply enc6_alphabet|]); try constructor.
  apply IH. cbn. lia.
Qed.

Lemma alphabet_plain c : c ∈ b64Alphabet → c ≠ "$"%char ∧ code c ≠ 13%nat ∧ code c ≠ 10%nat.
Proof.
  revert c. apply Forall_forall.
  assert (forallb (λ c, bool_decide (c ≠ "$"%char ∧ code c ≠ 13%nat ∧ code c ≠ 10%nat)) b64Alphabet = true)
    as Hb by reflexivity.
  apply Forall_forall. intros c Hc. rewrite forallb_forall in Hb.
  apply list_elem_of_In, Hb in Hc. by apply bool_decide_eq_true in Hc.
Qed.

Lemma b64Decode_Encode l : b64Decode (b64Encode l) = Some l.
Proof.
  unfold b64Decode. rewrite filter_id_on; [apply b64Groups_Encode|].
  pose proof (b64Encode_alphabet l) as Ha. rewrite Forall_forall in Ha.
  intros c Hc. apply Ha, alphabet_plain in Hc. tauto.
Qed.

Lemma b64Encode_no_dollar l : "$"%char ∉ b64Encode l.
Proof.
  intros Hin. pose proof (b64Encode_alphabet l) as Ha. rewrite Forall_forall in Ha.
  by apply Ha, alphabet_plain in Hin as [? _].
Qed.

(** ** Numbers round trip *)

Lemma digit_plain c : isDigit c = true → c ≠ "$"%char ∧ space1 c = false ∧ (code c < 58)%nat ∧ (48 ≤ code c)%nat.
Proof.
  unfold isDigit, inRange. intros [H1%Nat.leb_le H2%Nat.leb_le]%andb_prop. split_and!; [|  |lia|done].
  - intros ->. change (code "$"%char) with 36%nat in *. lia.
  - unfold space1, inRange. apply orb_false_iff. split; [|apply Nat.eqb_neq; lia].
    apply andb_false_iff. right. apply Nat.leb_gt. lia.
Qed.

Lemma trimLeft_digit c l : isDigit c = true → trimLeft (c :: l) = c :: l.
Proof.
  intros Hc. apply digit_plain in Hc as (_ & Hs & Hb & _). cbn. rewrite Hs.
  destruct l as [|b l]; [done|].
  unfold space2, space3.
  rewrite (proj2 (Nat.eqb_neq (code c) 194)), (proj2 (Nat.eqb_neq (code c) 225)),
    (proj2 (Nat.eqb_neq (code c) 226)), (proj2 (Nat.eqb_neq (code c) 227)) by lia.
  by destruct l.
Qed.

Lemma skipBlanks_digit c l : isDigit c = true → skipBlanks (c :: l) = Some (c :: l).
Proof. intros Hc. unfold skipBlanks. by rewrite trimLeft_digit, Nat.sub_diag. Qed.

Definition stops (rest : bytes) : Prop := match rest with [] => True | c :: _ => isDigit c = false end.

Lemma scanUint_Itoa bits z rest :
  0 ≤ z < 2 ^ bits → stops rest → scanUint bits (chars (Itoa z) ++ rest) = Some (z, rest).
Proof.
  intros Hz Hr. destruct (Itoa_digits z) as (Hn & Hd & Hv); [lia|]. unfold scanUint.
  assert (skipBlanks (chars (Itoa z) ++ rest) = Some (chars (Itoa z) ++ rest)) as ->.
  { destruct (chars (Itoa z)) as [|c l]; [done|]. apply skipBlanks_digit. by apply andb_prop in Hd as [? _]. }
  cbn [mbind option_bind]. rewrite spanDigits_app by done. rewrite Hv.
  destruct (chars (Itoa z)) as [|c l]; [done|]. cbn [isNil].
  by rewrite (proj2 (Z.ltb_lt _ _)) by lia.
Qed.

Lemma scanInt_Itoa z : 0 ≤ z ≤ max_int64 → scanInt (chars (Itoa z)) = Some (z, []).
Proof.
  intros Hz. destruct (Itoa_digits z) as (Hn & Hd & Hv); [lia|]. unfold scanInt.
  pose proof (spanDigits_app (chars (Itoa z)) [] Hd I) as Hspan. rewrite app_nil_r in Hspan.
  destruct (chars (Itoa z)) as [|c l] eqn:E; [done|].
  assert (isDigit c = true) as Hc by by apply andb_prop in Hd as [? _].
  rewrite skipBlanks_digit by done. cbn [mbind option_bind].
  apply digit_plain in Hc as (_ & _ & H1 & H2).
  rewrite (proj2 (Nat.eqb_neq (code c) 45)), (proj2 (Nat.eqb_neq (code c) 43)) by lia.
  rewrite Hspan. cbn [isNil]. rewrite Hv, bool_decide_eq_true_2; [done|].
  unfold in_int64, min_int64. lia.
Qed.

Lemma Itoa_no_dollar z : 0 ≤ z → "$"%char ∉ chars (Itoa z).
Proof.
  intros Hz Hin. destruct (Itoa_digits z Hz) as (_ & Hd & _). rewrite forallb_forall in Hd.
  apply list_elem_of_In, Hd in Hin. by apply digit_plain in Hin as [? _].
Qed.

Lemma literal_app lit l : literal lit (lit ++ l) = Some l.
Proof. induction lit as [|c lit IH]; [done|]. cbn. by rewrite bool_decide_eq_true_2. Qed.

Definition hashParts (salt : bytes) (key : bytes) (v m t p : Z) : list bytes :=
  [ []; chars "argon2id"; chars "v=" ++ chars (Itoa v);
    chars "m=" ++ chars (Itoa m) ++ chars ",t=" ++ chars (Itoa t) ++ chars ",p=" ++ chars (Itoa p);
    b64Encode salt; b64Encode key ].

Lemma no_dollar_literal (s : string) :
  forallb (λ c, negb (bool_decide (c = "$"%char))) (chars s) = true → "$"%char ∉ chars s.
Proof.
  intros Hb Hin. rewrite forallb_forall in Hb. apply list_elem_of_In, Hb in Hin.
  by rewrite bool_decide_eq_true_2 in Hin.
Qed.

Lemma hashParts_split salt key v m t p :
  0 ≤ v → 0 ≤ m → 0 ≤ t → 0 ≤ p →
  splitBytes "$"%char (joinBytes "$"%char (hashParts salt key v m t p)) = hashParts salt key v m t p.
Proof.
  intros Hv Hm Ht Hp. apply splitBytes_join; [done|].
  unfold hashParts. repeat apply Forall_cons_2; rewrite ?not_elem_of_app; [..|apply Forall_nil_2].
  - apply not_elem_of_nil.
  - by apply no_dollar_literal.
  - split; [by apply no_dollar_literal|by apply Itoa_no_dollar].
  - split_and!; first [by apply no_dollar_literal|by apply Itoa_no_dollar].
  - apply b64Encode_no_dollar.
  - apply b64Encode_no_dollar.
Qed.

Lemma scanParams_parts m t p :
  0 ≤ m < 2 ^ 32 → 0 ≤ t < 2 ^ 32 → 0 ≤ p < 2 ^ 8 →
  scanParams (chars "m=" ++ chars (Itoa m) ++ chars ",t=" ++ chars (Itoa t) ++ chars ",p=" ++ chars (Itoa p))
  = Some (m, t, p).
Proof.
  intros Hm Ht Hp. unfold scanParams.
  rewrite literal_app. cbn [mbind option_bind]. rewrite scanUint_Itoa by done. cbn [mbind option_bind].
  rewrite literal_app. cbn [mbind option_bind]. rewrite scanUint_Itoa by done. cbn [mbind option_bind].
  rewrite literal_app. cbn [mbind option_bind].
  rewrite <-(app_nil_r (chars (Itoa p))), scanUint_Itoa by done. done.
Qed.

Section PasswordLaws.
Context `{Argon2Laws}.

(** A hash decodes to what it was made of. *)
Lemma decodeHash_HashPassword salt password params encoded :
  paramsOK params → Z.of_nat (length salt) = hash_SaltLength params →
  HashPassword (Ok salt) password params = Ok encoded →
  decodeHash encoded = Ok (params, salt,
    IDKey (chars password) salt (hash_Iterations params) (hash_Memory params)
      (hash_Parallelism params) (hash_KeyLength params)).
Proof.
  intros (Hm & Ht & Hp & Hs & Hk) Hsalt HH.
  pose proof argonVersion_int as Hv. unfold HashPassword in HH. cbn [mbind res_bind] in HH.
  injection HH as <-. set (key := IDKey _ _ _ _ _ _).
  assert (Z.of_nat (length key) = hash_KeyLength params) as Hlen by (apply IDKey_length; lia).
  match goal with |- decodeHash ?e = _ => assert (chars e =
    joinBytes "$"%char (hashParts salt key argonVersion (hash_Memory params)
      (hash_Iterations params) (hash_Parallelism params))) as Hc end.
  { rewrite !chars_app, !chars_unchars. unfold hashParts. cbn [joinBytes app].
    by rewrite <-!app_assoc. }
  unfold decodeHash. rewrite Hc, hashParts_split by lia. unfold hashParts. cbn [isNil negb].
  rewrite bool_decide_eq_true_2, literal_app by done. cbn [negb mbind option_bind orInvalid].
  rewrite scanInt_Itoa by lia. cbn [orInvalid mbind res_bind]. rewrite Z.eqb_refl. cbn [negb].
  rewrite scanParams_parts, !b64Decode_Encode by lia. cbn [orInvalid mbind res_bind].
  rewrite Hsalt, Hlen, !Z.mod_small by lia. by destruct params.
Qed.

Lemma VerifyPassword_own salt password params encoded :
  paramsOK params → Z.of_nat (length salt) = hash_SaltLength params →
  HashPassword (Ok salt) password params = Ok encoded → VerifyPassword encoded password = Ok true.
Proof.
  intros Hp Hs HH. unfold VerifyPassword. rewrite (decodeHash_HashPassword _ _ _ _ Hp Hs HH).
  cbn. by rewrite bool_decide_eq_true_2.
Qed.

(** Verifying against a hash costs what making it did. *)
Lemma derivations_own salt password params encoded :
  paramsOK params → Z.of_nat (length salt) = hash_SaltLength params →
  HashPassword (Ok salt) password params = Ok encoded → derivations encoded = [params].
Proof. intros Hp Hs HH. unfold derivations. by rewrite (decodeHash_HashPassword _ _ _ _ Hp Hs HH). Qed.

Lemma DefaultHashParams_OK cores : paramsOK (DefaultHashParams cores).
Proof. unfold paramsOK, DefaultHashParams. cbn. destruct (1 <? cores); lia. Qed.

(** ** Theorem *)

(** Hashing and verifying agree.  A hash made with any parameters that fit
    their types decodes to those very parameters, salt and key, so verifying a
    password against it accepts exactly the passwords with the same argon2id
    key; the password it was made from is one. *)
Theorem VerifyPassword_HashPassword : ∀ salt password params encoded,
  paramsOK params → Z.of_nat (length salt) = hash_SaltLength params →
  HashPassword (Ok salt) password params = Ok encoded →
  let key pw := IDKey (chars pw) salt (hash_Iterations params) (hash_Memory params)
                  (hash_Parallelism params) (hash_KeyLength params) in
  decodeHash encoded = Ok (params, salt, key password) ∧
  (∀ other, VerifyPassword encoded other = Ok (bool_decide (key other = key password))) ∧
  VerifyPassword encoded password = Ok true.
Proof.
  intros salt password params encoded Hp Hs HH key.
  pose proof (decodeHash_HashPassword _ _ _ _ Hp Hs HH) as Hd. split_and!; [done| |].
  - intros other. unfold VerifyPassword. by rewrite Hd.
  - by eapply VerifyPassword_own.
Qed.
End PasswordLaws.
