(* ===== verification/Auth.v ===== *)
(** * Accounts and sessions (internal/core/auth/service.go)

    Creating users, logging in behind the rate limiter, authenticating a
    session token, logging out and changing a password, over any store.  Random
    tokens, ids and salts are arguments (a token or a salt may fail to be
    drawn), and so are the readings of the clock. *)

From S2P Require Import Prelude GoStrings Json Storage Sha256 RateLimit Password.

Local Open Scope Z_scope.

Definition DefaultSessionTTL : Duration := 30 * 24 * Hour.
Definition tokenBytes : Z := 32.
Definition MinPasswordLength : Z := 10.

(** [type Service struct] without its store and limiter, which are state. *)
Record Service := MkService {
  svc_params : HashParams;
  svc_sessionTTL : Duration
}.

Record Options := MkOptions {
  opt_HashParams : HashParams;
  opt_SessionTTL : Duration;
  opt_Limiter : option Limiter
}.

Definition NewService (cores : Z) (options : Options) : Service * Limiter :=
  (MkService
     (if hash_Memory (opt_HashParams options) =? 0 then DefaultHashParams cores else opt_HashParams options)
     (if opt_SessionTTL options <=? 0 then DefaultSessionTTL else opt_SessionTTL options),
   default (NewLimiter DefaultLimits) (opt_Limiter options)).

Record LoginResult := MkLoginResult {
  login_User : User;
  login_Token : string;
  login_ExpiresAt : Time
}.

Definition HashToken (token : string) : string := hexEncode (Sum256 (chars token)).

Definition truncate (value : string) (limit : nat) : string :=
  if (len value <=? limit)%nat then value else unchars (take limit (chars value)).

Definition GenerateID (randomID prefix : string) : ID := prefix +:+ "-" +:+ randomID.

Definition NormaliseUsername `{Unicode} (s : string) : string := ToLower (TrimSpace s).

Section Service.
Context `{Unicode} `{Argon2} {S : Type} `{Tx S}.
Variable svc : Service.

Definition newUser (randomID username hash : string) (admin : bool) (now : Time) : User :=
  MkUser ("user-" +:+ randomID) username "" hash "" admin now None.

Definition insertUser (now : Time) (user : User) : M S User := λ s,
  match GetUserByUsername s (user_Username user) with
  | Ok _ => (Err ErrUsernameTaken, s)
  | Err e =>
      if negb (errors_Is e ErrNotFound) then (Err e, s)
      else match PutUser now user s with
           | (Err e, s) => (Err (if errors_Is e ErrAlreadyExists then ErrUsernameTaken else e), s)
           | r => r
           end
  end.

Definition weak (password : string) : bool := Z.of_nat (len password) <? MinPasswordLength.

Definition CreateUser (salt : res bytes) (randomID : string) (now : Time)
    (username password : string) (admin : bool) : M S User :=
  let username := NormaliseUsername username in
  if bool_decide (username = "") then fail ErrInvalidCredentials
  else if weak password then fail ErrWeakPassword
  else
    hash ← ofRes (HashPassword salt password (svc_params svc));
    runTx (insertUser now (newUser randomID username hash admin now)).

Definition BuildUser (salt : res bytes) (randomID : string) (now : Time)
    (username password : string) (admin : bool) : res User :=
  let username := NormaliseUsername username in
  if bool_decide (username = "") then Err ErrInvalidCredentials
  else
    hash ← (if bool_decide (password = "") then Ok ""
            else if weak password then Err ErrWeakPassword
            else HashPassword salt password (svc_params svc));
    Ok (newUser randomID username hash admin now).

Definition newSession (token : string) (userID : ID) (userAgent : string) (now : Time) : UserSession :=
  MkUserSession (HashToken token) userID now (TimeAdd now (svc_sessionTTL svc)) now (truncate userAgent 256).

Definition IssueSession (token : res string) (now : Time) (userID : ID) (userAgent : string)
    : M S (string * Time) :=
  token ← ofRes token;
  let session := newSession token userID userAgent now in
  _ ← PutUserSession now session;
  mret (token, session_ExpiresAt session).

(** The account a login names, if it can be logged into at all. *)
Definition loginAccount (username : string) (s : S) : option User :=
  match GetUserByUsername s username with
  | Err _ => None
  | Ok user => if Disabled user || bool_decide (user_PasswordHash user = "") then None else Some user
  end.

Definition Login (token : res string) (tAllow tFail now : Time)
    (username password remoteAddr userAgent : string) (st : S * Limiter)
    : res LoginResult * (S * Limiter) :=
  let '(s, l) := st in
  let username := NormaliseUsername username in
  let '(allowed, l) := Allow tAllow username remoteAddr l in
  if negb allowed then (Err ErrRateLimited, (s, l))
  else
    match loginAccount username s with
    | None => (Err ErrInvalidCredentials, (s, Fail tFail username remoteAddr l))
    | Some user =>
        match VerifyPassword (user_PasswordHash user) password with
        | Ok true =>
            let l := Succeed username remoteAddr l in
            match token with
            | Err e => (Err e, (s, l))
            | Ok token =>
                let session := newSession token (user_ID user) userAgent now in
                match runTx (PutUserSession now session) s with
                | (Err e, s) => (Err e, (s, l))
                | (Ok _, s) => (Ok (MkLoginResult user token (session_ExpiresAt session)), (s, l))
                end
            end
        | _ => (Err ErrInvalidCredentials, (s, Fail tFail username remoteAddr l))
        end
    end.

(** The keys a login that passes the limiter derives: [burnTime] verifies against
    the decoy where there is no account to verify against. *)
Definition loginDerivations (decoy username : string) (s : S) : list HashParams :=
  match loginAccount (NormaliseUsername username) s with
  | None => derivations decoy
  | Some user => derivations (user_PasswordHash user)
  end.

Definition Logout (token : string) : M S unit :=
  if bool_decide (token = "") then mret tt else runTx (DeleteUserSession (HashToken token)).

Definition Authenticate (token : string) (now : Time) : M S User := λ s,
  if bool_decide (token = "") then (Err ErrInvalidCredentials, s)
  else
    match session ← GetUserSession s (HashToken token);
          user ← GetUser s (session_UserID session); Ok (session, user) with
    | Err e => (Err (if errors_Is e ErrNotFound then ErrInvalidCredentials else e), s)
    | Ok (session, user) =>
        if After now (session_ExpiresAt session) then (Err ErrSessionExpired, (Logout token s).2)
        else if Disabled user then (Err ErrInvalidCredentials, s)
        else (Ok user, s)
    end.

Definition LogoutEverywhere (userID : ID) : M S unit := runTx (DeleteUserSessionsOf userID).

Definition withPasswordHash (hash : string) (u : User) : User :=
  MkUser (user_ID u) (user_Username u) (user_Email u) hash (user_Locale u) (user_IsAdmin u)
    (user_CreatedAt u) (user_DisabledAt u).

Definition SetPassword (salt : res bytes) (now : Time) (userID : ID) (password : string) : M S unit :=
  if weak password then fail ErrWeakPassword
  else
    hash ← ofRes (HashPassword salt password (svc_params svc));
    runTx (
      user ← lift (λ s, GetUser s userID);
      _ ← PutUser now (withPasswordHash hash user);
      DeleteUserSessionsOf userID).

Definition NeedsSetup (s : S) : res bool := count ← CountUsers s; Ok (count =? 0).
End Service.

Section AuthLaws.
Context `{Unicode} `{Argon2Laws} {S : Type} `{TxLaws S}.
Implicit Types (svc : Service) (s : S) (l : Limiter).

(** Whether a store accepts a user name (normalised) with a password. *)
Definition accepts (username password : string) s : bool :=
  match loginAccount username s with
  | Some user => bool_decide (VerifyPassword (user_PasswordHash user) password = Ok true)
  | None => false
  end.

Lemma loginAccount_Some username s user :
  loginAccount username s = Some user ↔
  GetUserByUsername s username = Ok user ∧ Disabled user = false ∧ user_PasswordHash user ≠ "".
Proof.
  unfold loginAccount. destruct (GetUserByUsername s username) as [u|]; [|naive_solver].
  destruct (Disabled u) eqn:Ed; cbn; [naive_solver congruence|].
  case_bool_decide; naive_solver.
Qed.

Lemma accepts_true username password s :
  accepts username password s = true ↔
  ∃ user, loginAccount username s = Some user ∧ VerifyPassword (user_PasswordHash user) password = Ok true.
Proof.
  unfold accepts. destruct (loginAccount username s) as [u|]; [|naive_solver].
  rewrite bool_decide_eq_true. naive_solver.
Qed.

(** A login whose credentials are not accepted. *)
Lemma Login_refused svc token tA tF now username password addr agent s l :
  accepts (NormaliseUsername username) password s = false →
  Login svc token tA tF now username password addr agent (s, l) =
  (let '(allowed, l) := Allow tA (NormaliseUsername username) addr l in
   if allowed then (Err ErrInvalidCredentials, (s, Fail tF (NormaliseUsername username) addr l))
   else (Err ErrRateLimited, (s, l))).
Proof.
  unfold Login, accepts. intros Ha. destruct (Allow _ _ _ _) as [[] l1]; cbn; [|done].
  destruct (loginAccount _ s) as [u|]; [|done].
  apply bool_decide_eq_false in Ha. by destruct (VerifyPassword _ _) as [[]|].
Qed.

Lemma Login_limiter svc token t now username password addr agent s l :
  (Login svc token t t now username password addr agent (s, l)).2.2 =
  tryLogin (MkLoginAttempt (NormaliseUsername username) addr
              (accepts (NormaliseUsername username) password s) t) l.
Proof.
  destruct (accepts (NormaliseUsername username) password s) eqn:Ea.
  - apply accepts_true in Ea as (u & Hu & Hv). unfold Login, tryLogin. cbn.
    destruct (Allow _ _ _ _) as [[] l1]; cbn; [|done]. rewrite Hu, Hv.
    destruct token as [tok|]; [|done]. destruct (runTx _ _) as [[] ?]; done.
  - rewrite Login_refused by done. unfold tryLogin. cbn. by destruct (Allow _ _ _ _) as [[] l1].
Qed.

(** Every login costs the same: one key with the program's parameters, whether
    the account exists or not, if the hashes of accounts were made with them. *)
Lemma logins_cost_the_same salt cores decoy username s :
  Z.of_nat (length salt) = 16 → decoyHash (Ok salt) cores = Ok decoy →
  (∀ u, loginAccount (NormaliseUsername username) s = Some u →
     ∃ salt' password, Z.of_nat (length salt') = 16 ∧
       HashPassword (Ok salt') password (DefaultHashParams cores) = Ok (user_PasswordHash u)) →
  loginDerivations decoy username s = [DefaultHashParams cores].
Proof.
  intros Hs Hd Hu. unfold loginDerivations. destruct (loginAccount _ s) as [u|] eqn:Eu.
  - destruct (Hu u eq_refl) as (salt' & password & Hl & HH). by eapply derivations_own; [apply DefaultHashParams_OK|..].
  - by eapply derivations_own; [apply DefaultHashParams_OK|..].
Qed.

Lemma Authenticate_valid token now s session user :
  token ≠ "" → GetUserSession s (HashToken token) = Ok session →
  GetUser s (session_UserID session) = Ok user → Disabled user = false →
  now ≤ session_ExpiresAt session → Authenticate token now s = (Ok user, s).
Proof.
  intros Ht Hs Hu Hd Hn. unfold Authenticate. rewrite bool_decide_eq_false_2, Hs by done. cbn.
  rewrite Hu. cbn. unfold After. rewrite (proj2 (Z.ltb_ge _ _)) by done. by rewrite Hd.
Qed.

Lemma Authenticate_unknown token now s :
  GetUserSession s (HashToken token) = Err ErrNotFound →
  Authenticate token now s = (Err ErrInvalidCredentials, s).
Proof. intros Hs. unfold Authenticate. case_bool_decide; [done|]. by rewrite Hs. Qed.

(** A login succeeds only with the right password of an enabled account, and
    what it hands out is good for exactly as long as it says: the token (a fresh
    one) authenticates as that user at every instant up to the expiry, and at
    every later one it is refused. *)
Lemma Login_Ok : ∀ svc token tA tF now username password addr agent s l r s' l',
  wf s → token ≠ "" → GetUserSession s (HashToken token) = Err ErrNotFound →
  Login svc (Ok token) tA tF now username password addr agent (s, l) = (Ok r, (s', l')) →
  login_Token r = token ∧ login_ExpiresAt r = now + svc_sessionTTL svc ∧
  GetUserByUsername s (NormaliseUsername username) = Ok (login_User r) ∧
  Disabled (login_User r) = false ∧
  VerifyPassword (user_PasswordHash (login_User r)) password = Ok true ∧
  (∀ t, t ≤ login_ExpiresAt r → Authenticate token t s' = (Ok (login_User r), s')) ∧
  (∀ t, login_ExpiresAt r < t → (Authenticate token t s').1 = Err ErrSessionExpired).
Proof.
  intros svc token tA tF now username password addr agent s l r s' l' Hwf Ht Hfresh HL.
  unfold Login in HL. destruct (Allow _ _ _ _) as [[] l1]; cbn in HL; [|done].
  destruct (loginAccount _ s) as [u|] eqn:Eu; [|done].
  destruct (VerifyPassword _ _) as [[]|] eqn:Ev; [|done..].
  destruct (runTx _ s) as [[y|e] s1] eqn:Ep; [|done]. injection HL as <- <- <-. cbn.
  apply (proj1 (runTx_Ok _ _ _ _)) in Ep. apply loginAccount_Some in Eu as (Hu & Hd & _).
  destruct (PutUserSession_wf _ _ _ _ _ Hwf Ep) as (Hwf' & Hus & _ & Hrow).
  destruct (Hrow Hfresh) as (row & Hrow1 & Hid & Hexp). cbn in Hrow1, Hid, Hexp.
  destruct (GetUserByUsername_key _ _ _ Hwf Hu) as [_ Hg].
  assert (GetUser s1 (session_UserID row) = Ok u) as Hg' by by rewrite Hid, Hus.
  split_and!; try done.
  - intros t Hle. by eapply Authenticate_valid; [..|rewrite Hexp].
  - intros t Hlt. unfold Authenticate. rewrite bool_decide_eq_false_2, Hrow1 by done. cbn.
    rewrite Hg'. cbn. unfold After. by rewrite Hexp, (proj2 (Z.ltb_lt _ _)).
Qed.

(** ** Theorems *)

(** C32: a failed login says nothing about the account.  Whether the name is
    unknown, the account disabled or without a password, the store failing or
    the password wrong, the answer and the state of the limiter are the same:
    two stores that both refuse the credentials cannot be told apart. *)
Theorem Login_no_oracle : ∀ svc token1 token2 tA tF n1 n2 username password addr agent s1 s2 l,
  accepts (NormaliseUsername username) password s1 = false →
  accepts (NormaliseUsername username) password s2 = false →
  let o1 := Login svc token1 tA tF n1 username password addr agent (s1, l) in
  let o2 := Login svc token2 tA tF n2 username password addr agent (s2, l) in
  o1.1 = o2.1 ∧ o1.2.2 = o2.2.2 ∧ o1.2.1 = s1 ∧ o2.2.1 = s2 ∧
  (o1.1 = Err ErrInvalidCredentials ∨ o1.1 = Err ErrRateLimited).
Proof.
  intros svc token1 token2 tA tF n1 n2 username password addr agent s1 s2 l H1' H2' o1 o2.
  subst o1 o2. rewrite !Login_refused by done.
  destruct (Allow _ _ _ _) as [[] l1]; cbn; split_and!; try done; auto.
Qed.

(** Logins are rate limited as one step each.  Over any store, what a login
    does to the limiter is one attempt of the limiter's own model (ask, then
    report acceptance or failure), so the lockout of the limiter holds of
    logins; and a login the limiter refuses never reads the password. *)
Theorem Login_refines_tryLogin : ∀ svc token t now username password addr agent s l,
  let name := NormaliseUsername username in
  let o := Login svc token t t now username password addr agent (s, l) in
  o.2.2 = tryLogin (MkLoginAttempt name addr (accepts name password s) t) l ∧
  ((Allow t name addr l).1 = false → o.1 = Err ErrRateLimited ∧ o.2.1 = s).
Proof.
  intros svc token t now username password addr agent s l name o. split; [apply Login_limiter|].
  intros Ha. subst o. unfold Login. fold name. destruct (Allow t name addr l) as [ok l1].
  cbn in Ha. by subst ok.
Qed.

(** C31: changing a password logs the user out everywhere and the new password
    works: after a successful change every token that had a session of the user
    is refused, tokens of other users are as good as before, and the stored hash
    accepts the new password. *)
Theorem SetPassword_revokes : ∀ svc salt now userID password s s',
  wf s → paramsOK (svc_params svc) → Z.of_nat (length salt) = hash_SaltLength (svc_params svc) →
  SetPassword svc (Ok salt) now userID password s = (Ok tt, s') →
  (∀ token session t, GetUserSession s (HashToken token) = Ok session →
     session_UserID session = userID → Authenticate token t s' = (Err ErrInvalidCredentials, s')) ∧
  (∀ token session, GetUserSession s (HashToken token) = Ok session →
     session_UserID session ≠ userID → GetUserSession s' (HashToken token) = Ok session) ∧
  (∃ user, GetUser s' userID = Ok user ∧ VerifyPassword (user_PasswordHash user) password = Ok true).
Proof.
  intros svc salt now userID password s s' Hwf Hpar Hsalt Hset. unfold SetPassword in Hset.
  destruct (weak password); [done|]. apply M_bind_Ok in Hset as (hash & s1 & Hh & Hset).
  apply ofRes_Ok in Hh as [Hh ->]. apply (proj1 (runTx_Ok _ _ _ _)) in Hset.
  apply M_bind_Ok in Hset as (user & s1 & Hu & Hset). apply lift_Ok in Hu as [Hu ->].
  apply M_bind_Ok in Hset as (u' & s1 & Hp & Hdel).
  pose proof (GetUser_key _ _ _ Hwf Hu) as Hid.
  destruct (PutUser_wf _ _ _ _ _ Hwf Hp) as (Hwf1 & (y & Hy & _ & Hyh & _) & _ & Hses).
  destruct (DeleteUserSessionsOf_wf _ _ _ _ Hwf1 Hdel) as (_ & Hus & Hrows).
  split_and!.
  - intros token session t Hs Hsu. apply Authenticate_unknown.
    rewrite (Hrows _ session) by by rewrite Hses. by rewrite decide_True.
  - intros token session Hs Hsu. rewrite (Hrows _ session) by by rewrite Hses.
    by rewrite decide_False.
  - exists y. cbn in Hy, Hyh. rewrite Hus, <-Hid. split; [done|]. rewrite Hyh.
    by eapply VerifyPassword_own.
Qed.
End AuthLaws.
