(* ===== verification/Random.v ===== *)
(** * Random values (core/dice/dice.go, core/auth/service.go)

    What the program makes of the operating system's random bytes: the rolls of its
    dice, the tokens of sessions and invites, and the ids of what it creates.  The
    bytes are arguments; that [crypto/rand.Int] keeps to its range is part of
    [entropy].  A failing [rand.Read] of the dice or of an id panics and is left
    out. *)

From S2P Require Import Prelude GoStrings Dice Password Auth.
From Stdlib Require Import Ascii.

Local Open Scope Z_scope.

(** ** Numbers in a base *)

(** [binary.BigEndian]. *)
Definition bigEndian (l : bytes) : Z := foldl (λ n c, n * 256 + Z.of_nat (code c)) 0 l.

Lemma bigEndian_snoc l c : bigEndian (l ++ [c]) = bigEndian l * 256 + Z.of_nat (code c).
Proof. unfold bigEndian. by rewrite foldl_app. Qed.

Lemma code_range c : 0 ≤ Z.of_nat (code c) < 256.
Proof. pose proof (code_bound c). lia. Qed.

Lemma bigEndian_range l : 0 ≤ bigEndian l < 256 ^ Z.of_nat (length l).
Proof.
  induction l as [|c l IH] using rev_ind; [by split|].
  rewrite bigEndian_snoc, length_app, Nat2Z.inj_add, Z.pow_add_r by lia. pose proof (code_range c). cbn. lia.
Qed.

Lemma bigEndian_inj l k : length l = length k → bigEndian l = bigEndian k → l = k.
Proof.
  revert k. induction l as [|c l IH] using rev_ind; intros k Hlen.
  { by destruct k. }
  destruct k as [|d k _] using rev_ind; [rewrite length_app in Hlen; cbn in Hlen; lia|].
  rewrite !length_app in Hlen. cbn in Hlen. rewrite !bigEndian_snoc. intros Heq.
  pose proof (code_range c). pose proof (code_range d).
  assert (bigEndian l = bigEndian k ∧ code c = code d) as [Hl Hc] by lia.
  rewrite (IH k) by lia. do 2 f_equal. rewrite <-(ascii_nat_embedding c), <-(ascii_nat_embedding d).
  unfold code in Hc. by rewrite Hc.
Qed.

(** The last [k] digits to the base 32, the highest first. *)
Fixpoint digits32 (k : nat) (n : Z) : list Z :=
  match k with O => [] | S k => digits32 k (n / 32) ++ [n mod 32] end.

Lemma length_digits32 k n : length (digits32 k n) = k.
Proof. revert n. induction k as [|k IH]; intros n; [done|]. cbn. rewrite length_app, IH. cbn. lia. Qed.

Lemma digits32_range k n : Forall (λ d, 0 ≤ d < 32) (digits32 k n).
Proof.
  revert n. induction k as [|k IH]; intros n; [constructor|]. cbn. apply Forall_app. split; [done|].
  apply Forall_singleton. by apply Z.mod_pos_bound.
Qed.

Lemma digits32_inj k n m : 0 ≤ n < 32 ^ Z.of_nat k → 0 ≤ m < 32 ^ Z.of_nat k → digits32 k n = digits32 k m → n = m.
Proof.
  revert n m. induction k as [|k IH]; intros n m Hn Hm Heq; [cbn in *; lia|]. cbn in Heq.
  apply app_inj_2 in Heq as [Hd Hl]; [|done]. injection Hl as Hl.
  rewrite Nat2Z.inj_succ, Z.pow_succ_r in Hn, Hm by lia.
  assert (n / 32 = m / 32) as Hq.
  { apply IH; [| |done]; (split; [apply Z.div_pos; lia|apply Z.div_lt_upper_bound; lia]). }
  rewrite (Z.div_mod n 32), (Z.div_mod m 32) by done. congruence.
Qed.

(** ** Dice *)

(** What [crypto/rand] will answer: each call of [Int], which may fail, and the
    eight bytes read when it does. *)
Record entropy := MkEntropy {
  ent_Int : nat → Z → res Z;
  ent_Read : nat → bytes;
  ent_calls : nat;
  ent_range : ∀ k limit v, ent_Int k limit = Ok v → 0 ≤ v < limit
}.

(** [cryptoSource.Roll].  Below one face [rand.Int] panics; [Dice.Roll] asks for no
    such die. *)
#[export] Instance cryptoSource : DiceSource entropy := λ faces e,
  (match ent_Int e (ent_calls e) faces with
   | Ok value => value + 1
   | Err _ => bigEndian (ent_Read e (ent_calls e)) mod faces + 1
   end, MkEntropy (ent_Int e) (ent_Read e) (S (ent_calls e)) (ent_range e)).

(** The source of the running server is one the dice can rely on. *)
#[export] Instance cryptoSource_fair : FairSource entropy.
Proof.
  intros faces e Hf. unfold rollDie, cryptoSource. cbn. destruct (ent_Int e (ent_calls e) faces) as [v|] eqn:Ev.
  - apply (ent_range e) in Ev. lia.
  - pose proof (Z.mod_pos_bound (bigEndian (ent_Read e (ent_calls e))) faces). lia.
Qed.

(** ** Tokens *)

(** The URL alphabet of base64 has two other signs. *)
Definition urlByte (c : ascii) : ascii :=
  if bool_decide (c = "+"%char) then "-"%char else if bool_decide (c = "/"%char) then "_"%char else c.

(** [newToken] and [GenerateToken], on what [rand.Read] gives. *)
Definition newToken (raw : res bytes) : res string := raw ← raw; Ok (unchars (urlByte <$> b64Encode raw)).

Definition urlSafe (c : ascii) : bool :=
  isDigit c || isLowerLetter c || isUpperLetter c || bool_decide (c = "-"%char) || bool_decide (c = "_"%char).

Lemma urlByte_inj c d : c ∈ b64Alphabet → d ∈ b64Alphabet → urlByte c = urlByte d → c = d.
Proof.
  assert (forallb (λ c, forallb (λ d, negb (bool_decide (urlByte c = urlByte d)) || bool_decide (c = d)) b64Alphabet)
    b64Alphabet = true) as Hall by (vm_compute; reflexivity).
  rewrite forallb_forall in Hall. intros Hc%list_elem_of_In Hd%list_elem_of_In Heq. specialize (Hall c Hc).
  rewrite forallb_forall in Hall. specialize (Hall d Hd). rewrite (bool_decide_eq_true_2 _ Heq) in Hall.
  by apply bool_decide_eq_true in Hall.
Qed.

Lemma urlByte_safe c : c ∈ b64Alphabet → urlSafe (urlByte c) = true.
Proof.
  assert (forallb (λ c, urlSafe (urlByte c)) b64Alphabet = true) as Hall by (vm_compute; reflexivity).
  rewrite forallb_forall in Hall. intros Hc%list_elem_of_In. by apply Hall.
Qed.

Lemma length_b64Encode l :
  (3 * length (b64Encode l) ≤ 4 * length l + 2 ∧ 4 * length l + 2 < 3 * length (b64Encode l) + 3)%nat.
Proof.
  induction l as [l IH] using (induction_ltof1 _ (@length ascii)). unfold ltof in IH.
  destruct l as [|a [|b [|c l]]]; [cbn; lia..|]. specialize (IH l). cbn [b64Encode length] in *. lia.
Qed.

Lemma fmap_inj_on {A B} (f : A → B) (P : A → Prop) (l k : list A) :
  (∀ x y, P x → P y → f x = f y → x = y) → Forall P l → Forall P k → f <$> l = f <$> k → l = k.
Proof.
  intros Hf Hl. revert k. induction Hl as [|x l Hx Hl IH]; intros [|y k] Hk; try done.
  apply Forall_cons in Hk as [Hy Hk]. cbn. intros [= Hxy Hlk]. f_equal; [by apply Hf|by apply IH].
Qed.

(** A token says all of its random bytes, in signs that a cookie and a URL carry as
    they are. *)
Theorem newToken_faithful raw token :
  newToken (Ok raw) = Ok token →
  (∀ raw', newToken (Ok raw') = Ok token → raw' = raw) ∧
  Forall (λ c, urlSafe c = true) (chars token) ∧
  (Z.of_nat (length raw) = tokenBytes → len token = 43%nat).
Proof.
  cbn. intros [= <-]. rewrite len_chars, !chars_unchars. split_and!.
  - intros raw' [= Heq]. apply (f_equal chars) in Heq. rewrite !chars_unchars in Heq.
    apply (fmap_inj_on _ (λ c, c ∈ b64Alphabet)) in Heq; [|by apply urlByte_inj|apply b64Encode_alphabet..].
    assert (Some raw' = Some raw) as [= ->]; [|done]. by rewrite <-!b64Groups_Encode, Heq.
  - apply Forall_fmap. eapply Forall_impl; [apply b64Encode_alphabet|]. intros c. apply urlByte_safe.
  - intros Hlen. rewrite length_fmap. pose proof (length_b64Encode raw). unfold tokenBytes in Hlen. lia.
Qed.

(** ** Ids *)

Definition b32Alphabet : bytes := chars "ABCDEFGHIJKLMNOPQRSTUVWXYZ234567".
Definition enc5 (n : Z) : ascii := default "A"%char (b32Alphabet !! Z.to_nat n).

(** base32 without padding: five bytes are eight digits, a short last block is cut. *)
Definition block32 (l : bytes) : bytes := enc5 <$> digits32 8 (bigEndian l).
Definition nul : ascii := ascii_of_nat 0.

Fixpoint b32Encode (l : bytes) : bytes :=
  match l with
  | [] => []
  | [a] => take 2 (block32 [a; nul; nul; nul; nul])
  | [a; b] => take 4 (block32 [a; b; nul; nul; nul])
  | [a; b; c] => take 5 (block32 [a; b; c; nul; nul])
  | [a; b; c; d] => take 7 (block32 [a; b; c; d; nul])
  | a :: b :: c :: d :: e :: l => block32 [a; b; c; d; e] ++ b32Encode l
  end.

(** [randomID] on the ten bytes of [rand.Read]. *)
Definition randomID `{Unicode} (raw : bytes) : string := ToLower (unchars (b32Encode raw)).

(** An id in the tables: the alphabet of [randomID]. *)
Definition idByte (c : ascii) : bool := isLowerLetter c || inRange 50 55 c.

Lemma enc5_lower n : 0 ≤ n < 32 → isASCII [enc5 n] = true ∧ idByte (lowerByte (enc5 n)) = true.
Proof.
  assert (forallb (λ k, isASCII [enc5 (Z.of_nat k)] && idByte (lowerByte (enc5 (Z.of_nat k)))) (seq 0 32) = true) as Hall
    by (vm_compute; reflexivity).
  rewrite forallb_forall in Hall. intros Hn. specialize (Hall (Z.to_nat n)). rewrite Z2Nat.id in Hall by lia.
  apply andb_prop, Hall, in_seq. lia.
Qed.

Lemma enc5_lower_inj n m : 0 ≤ n < 32 → 0 ≤ m < 32 → lowerByte (enc5 n) = lowerByte (enc5 m) → n = m.
Proof.
  assert (forallb (λ k, forallb (λ j, negb (bool_decide (lowerByte (enc5 (Z.of_nat k)) = lowerByte (enc5 (Z.of_nat j))))
    || (k =? j)%nat) (seq 0 32)) (seq 0 32) = true) as Hall by (vm_compute; reflexivity).
  rewrite forallb_forall in Hall. intros Hn Hm Heq. specialize (Hall (Z.to_nat n) ltac:(apply in_seq; lia)).
  rewrite forallb_forall in Hall. specialize (Hall (Z.to_nat m) ltac:(apply in_seq; lia)).
  rewrite !Z2Nat.id, (bool_decide_eq_true_2 _ Heq) in Hall by lia. cbn in Hall. apply Nat.eqb_eq in Hall. lia.
Qed.

Lemma block32_inj l k : length l = 5%nat → length k = 5%nat → lowerByte <$> block32 l = lowerByte <$> block32 k → l = k.
Proof.
  intros Hl Hk. unfold block32. rewrite <-!list_fmap_compose. intros Heq.
  apply (fmap_inj_on _ (λ n, 0 ≤ n < 32)) in Heq; [|intros x y; apply enc5_lower_inj|apply digits32_range..].
  pose proof (bigEndian_range l) as Rl. pose proof (bigEndian_range k) as Rk. rewrite Hl in Rl. rewrite Hk in Rk.
  apply digits32_inj in Heq; [|exact Rl|exact Rk]. apply bigEndian_inj; congruence.
Qed.

Lemma block32_ascii l : isASCII (block32 l) = true.
Proof.
  unfold isASCII, block32. apply forallb_forall. intros c Hc%list_elem_of_In%list_elem_of_fmap.
  destruct Hc as (n & -> & Hn). pose proof (digits32_range 8 (bigEndian l)) as Hr. rewrite Forall_forall in Hr.
  destruct (enc5_lower n (Hr n Hn)) as [Ha _]. cbn in Ha. by rewrite andb_true_r in Ha.
Qed.

Lemma length_block32 l : length (block32 l) = 8%nat.
Proof. unfold block32. by rewrite length_fmap, length_digits32. Qed.

Lemma randomID_blocks `{Unicode} l k :
  length l = 5%nat → length k = 5%nat → randomID (l ++ k) = unchars (lowerByte <$> (block32 l ++ block32 k)).
Proof.
  intros Hl Hk. destruct l as [|a [|b [|c [|d [|e [|]]]]]]; try done. destruct k as [|a' [|b' [|c' [|d' [|e' [|]]]]]]; try done.
  unfold randomID. cbn [app b32Encode]. rewrite app_nil_r. unfold ToLower. rewrite chars_unchars.
  assert (isASCII (block32 [a; b; c; d; e] ++ block32 [a'; b'; c'; d'; e']) = true) as ->; [|done].
  unfold isASCII. rewrite forallb_app. by apply andb_true_intro; split; apply block32_ascii.
Qed.

(** Ten random bytes are sixteen lower case signs, and other bytes other signs: two
    ids are equal only if all of their eighty bits are. *)
Theorem randomID_faithful `{Unicode} raw raw' :
  length raw = 10%nat → length raw' = 10%nat →
  len (randomID raw) = 16%nat ∧ Forall (λ c, idByte c = true) (chars (randomID raw)) ∧
  (randomID raw = randomID raw' ↔ raw = raw').
Proof.
  intros Hl Hk. rewrite <-(take_drop 5 raw), <-(take_drop 5 raw').
  assert (length (take 5 raw) = 5%nat ∧ length (drop 5 raw) = 5%nat) as [L1 L2] by (rewrite length_take, length_drop; lia).
  assert (length (take 5 raw') = 5%nat ∧ length (drop 5 raw') = 5%nat) as [L3 L4] by (rewrite length_take, length_drop; lia).
  rewrite !randomID_blocks by done. rewrite len_chars, !chars_unchars. split_and!.
  - by rewrite length_fmap, length_app, !length_block32.
  - apply Forall_fmap, Forall_app. split; unfold block32; apply Forall_fmap;
      (eapply Forall_impl; [apply digits32_range|]); intros n Hn; by apply enc5_lower.
  - split; [|by intros [-> ->]%app_inj_1; [|congruence]]. intros Heq%(f_equal chars). rewrite !chars_unchars, !fmap_app in Heq.
    apply app_inj_1 in Heq as [Ha Hb]; [|by rewrite !length_fmap, !length_block32].
    apply block32_inj in Ha; [|done..]. apply block32_inj in Hb; [|done..]. by rewrite Ha, Hb.
Qed.
