(* ===== verification/Ticket.v ===== *)
(** * WebSocket tickets (internal/transport/ws/ticket.go)

    Short-lived, single-use tokens that carry an authenticated identity from
    the HTTP API to the socket.  The mutex makes every operation atomic; the
    random token and the clock are arguments. *)

From S2P Require Import Prelude.

Local Open Scope Z_scope.

Definition DefaultTicketTTL : Duration := 30 * Second.

Record Ticket := MkTicket {
  ticket_UserID : ID;
  ticket_WorldID : ID;
  ticket_Role : string;
  ticket_ExpiresAt : Time
}.

Record TicketStore := MkTicketStore {
  tickets : gmap string Ticket;
  tickets_ttl : Duration
}.

Definition NewTicketStore (ttl : Duration) : TicketStore :=
  MkTicketStore ∅ (if ttl <=? 0 then DefaultTicketTTL else ttl).

Definition sweepTickets (now : Time) (s : TicketStore) : TicketStore :=
  MkTicketStore (filter (λ kv, After now (ticket_ExpiresAt kv.2) = false) (tickets s)) (tickets_ttl s).

(** [Issue]: [token] is what the random source gave, [now] and [later] the two
    readings of the clock. *)
Definition Issue (token : res string) (now later : Time) (userID worldID : ID) (role : string)
    (s : TicketStore) : res (string * Time) * TicketStore :=
  match token with
  | Err e => (Err e, s)
  | Ok token =>
      let expires := TimeAdd now (tickets_ttl s) in
      let s := MkTicketStore (<[token := MkTicket userID worldID role expires]> (tickets s)) (tickets_ttl s) in
      (Ok (token, expires), sweepTickets later s)
  end.

Definition Redeem (token : string) (now : Time) (s : TicketStore) : res Ticket * TicketStore :=
  match tickets s !! token with
  | None => (Err ErrTicketInvalid, s)
  | Some ticket =>
      let s := MkTicketStore (delete token (tickets s)) (tickets_ttl s) in
      if After now (ticket_ExpiresAt ticket) then (Err ErrTicketInvalid, s) else (Ok ticket, s)
  end.

Definition TicketLen (s : TicketStore) : nat := size (tickets s).

(** ** Runs: operations in the order the mutex serialises them *)

Inductive ticketOp :=
  | OpIssue (token : string) (now later : Time) (userID worldID : ID) (role : string)
  | OpRedeem (token : string) (now : Time).

(** The state after an operation, and the ticket a redemption returned. *)
Definition ticketStep (o : ticketOp) (s : TicketStore) : option (string * Time * Ticket) * TicketStore :=
  match o with
  | OpIssue token now later u w r => (None, (Issue (Ok token) now later u w r s).2)
  | OpRedeem token now =>
      match Redeem token now s with
      | (Ok t, s) => (Some (token, now, t), s)
      | (Err _, s) => (None, s)
      end
  end.

Fixpoint runTickets (ops : list ticketOp) (s : TicketStore) : list (string * Time * Ticket) * TicketStore :=
  match ops with
  | [] => ([], s)
  | o :: ops =>
      let '(out, s) := ticketStep o s in
      let '(outs, s) := runTickets ops s in
      (option_list out ++ outs, s)
  end.

Definition issuedToken (o : ticketOp) : option string :=
  match o with OpIssue token _ _ _ _ _ => Some token | OpRedeem _ _ => None end.

Definition issuesOf (token : string) (ops : list ticketOp) : nat :=
  length (filter (λ o, issuedToken o = Some token) ops).

Definition redeemedOf (token : string) (outs : list (string * Time * Ticket)) : nat :=
  length (filter (λ o, o.1.1 = token) outs).

(** The ticket an operation issues under a token of a store with this ttl. *)
Definition issues (ttl : Duration) (token : string) (t : Ticket) (o : ticketOp) : Prop :=
  match o with
  | OpIssue tok now _ u w r => tok = token ∧ t = MkTicket u w r (now + ttl)
  | OpRedeem _ _ => False
  end.

(** ** Lemmas *)

Definition live (token : string) (s : TicketStore) : nat :=
  if decide (is_Some (tickets s !! token)) then 1 else 0.

Lemma sweep_lookup now s token t :
  tickets (sweepTickets now s) !! token = Some t → tickets s !! token = Some t.
Proof. cbn. intros Ht. by apply map_lookup_filter_Some in Ht as [? _]. Qed.

Lemma live_spec token s : (live token s ≤ 1)%nat ∧ (tickets s !! token = None → live token s = 0%nat).
Proof. unfold live. destruct (decide _) as [Hx|]; split; try lia. intros E. rewrite E in Hx. by destruct Hx. Qed.

Lemma live_le token s s' :
  (∀ t, tickets s' !! token = Some t → is_Some (tickets s !! token)) → (live token s' ≤ live token s)%nat.
Proof.
  intros Hs. unfold live. destruct (decide (is_Some (tickets s' !! token))) as [[t Ht]|]; [|lia].
  destruct (decide _) as [|Hn]; [lia|]. destruct Hn. by eapply Hs.
Qed.

Lemma redeemedOf_none token : redeemedOf token (option_list None) = 0%nat.
Proof. done. Qed.

Lemma redeemedOf_some token tok now t :
  redeemedOf token (option_list (Some (tok, now, t))) = if decide (tok = token) then 1%nat else 0%nat.
Proof.
  unfold redeemedOf. change (option_list _) with [(tok, now, t)]. rewrite filter_cons. cbn [fst].
  by destruct (decide (tok = token)).
Qed.

Lemma issuesOf_one token o :
  issuesOf token [o] = if decide (issuedToken o = Some token) then 1%nat else 0%nat.
Proof. unfold issuesOf. rewrite filter_cons. by destruct (decide _). Qed.

(** A step can only make a token live by issuing it, and a redemption uses the
    token up. *)
Lemma ticketStep_live token o s out s' :
  ticketStep o s = (out, s') →
  (redeemedOf token (option_list out) + live token s' ≤ issuesOf token [o] + live token s)%nat.
Proof.
  rewrite issuesOf_one. destruct o as [tok now later u w r|tok now]; cbn [ticketStep issuedToken].
  - intros [= <- <-]. rewrite redeemedOf_none.
    destruct (decide (Some tok = Some token)) as [[= ->]|Hne].
    + pose proof (live_spec token (Issue (Ok token) now later u w r s).2).
      cbn [Issue snd] in *. lia.
    + apply live_le. intros t Ht%sweep_lookup. cbn in Ht.
      rewrite lookup_insert_ne in Ht by (intros ->; by apply Hne). by eexists.
  - rewrite decide_False by done. unfold Redeem. destruct (tickets s !! tok) as [t|] eqn:E.
    2:{ intros [= <- <-]. rewrite redeemedOf_none. lia. }
    assert (∀ s2, tickets s2 = delete tok (tickets s) →
      ((if decide (tok = token) then 1 else 0) + live token s2 ≤ live token s)%nat) as Hdel.
    { intros s2 Hs2. destruct (decide (tok = token)) as [->|Hne].
      - rewrite (proj2 (live_spec token s2)) by (rewrite Hs2; apply lookup_delete_eq).
        unfold live. rewrite decide_True by (rewrite E; by eexists). lia.
      - apply live_le. intros t' Ht'. rewrite Hs2, lookup_delete_ne in Ht' by done. by eexists. }
    destruct (After now (ticket_ExpiresAt t)); intros [= <- <-];
      rewrite ?redeemedOf_none, ?redeemedOf_some.
    + etrans; [|exact (Hdel (MkTicketStore (delete tok (tickets s)) (tickets_ttl s)) eq_refl)].
      apply Nat.add_le_mono_r. destruct (decide (tok = token)); lia.
    + exact (Hdel (MkTicketStore (delete tok (tickets s)) (tickets_ttl s)) eq_refl).
Qed.

Lemma runTickets_live token ops s outs s' :
  runTickets ops s = (outs, s') →
  (redeemedOf token outs + live token s' ≤ issuesOf token ops + live token s)%nat.
Proof.
  revert s outs. induction ops as [|o ops IH]; intros s outs; cbn [runTickets].
  { intros [= <- <-]. unfold redeemedOf, issuesOf. rewrite !filter_nil. cbn. lia. }
  destruct (ticketStep o s) as [out s1] eqn:E. destruct (runTickets ops s1) as [outs1 s2] eqn:E2.
  intros [= <- <-]. apply (ticketStep_live token) in E. apply IH in E2.
  unfold redeemedOf, issuesOf in *. change (o :: ops) with ([o] ++ ops).
  rewrite !filter_app, !length_app. lia.
Qed.

Lemma ticketStep_ttl o s : tickets_ttl (ticketStep o s).2 = tickets_ttl s.
Proof.
  destruct o as [|tok now]; cbn; [done|]. unfold Redeem.
  destruct (tickets s !! tok) as [t|]; [|done]. by destruct (After now (ticket_ExpiresAt t)).
Qed.

(** Every stored or returned ticket was issued, and none is returned late. *)
Lemma runTickets_issued past ops s outs s' :
  (∀ token t, tickets s !! token = Some t → ∃ o, o ∈ past ∧ issues (tickets_ttl s) token t o) →
  runTickets ops s = (outs, s') →
  ∀ token now t, (token, now, t) ∈ outs →
    now ≤ ticket_ExpiresAt t ∧ ∃ o, o ∈ past ++ ops ∧ issues (tickets_ttl s) token t o.
Proof.
  revert past s outs. induction ops as [|o ops IH]; intros past s outs Hp; cbn [runTickets].
  { intros [= <- <-] ? ? ? ?%elem_of_nil. done. }
  destruct (ticketStep o s) as [out s1] eqn:E. destruct (runTickets ops s1) as [outs1 s2] eqn:E2.
  intros [= <- <-] token now t.
  assert (tickets_ttl s1 = tickets_ttl s) as Httl by (by rewrite <-(ticketStep_ttl o s), E).
  assert (∀ tok x, tickets s1 !! tok = Some x → ∃ o', o' ∈ past ++ [o] ∧ issues (tickets_ttl s1) tok x o')
    as Hp1.
  { rewrite Httl. intros tok x Hx. setoid_rewrite elem_of_app.
    assert (tickets s !! tok = Some x ∨ issues (tickets_ttl s) tok x o) as [Hold|Hnew].
    { destruct o as [tok' now' later u w r|tok' now']; cbn in E.
      - injection E as _ <-. apply sweep_lookup in Hx. cbn in Hx.
        destruct (decide (tok' = tok)) as [->|Hne];
          [rewrite lookup_insert_eq in Hx; injection Hx as <-; by right|].
        rewrite lookup_insert_ne in Hx by done. by left.
      - left. unfold Redeem in E. destruct (tickets s !! tok') as [t'|]; [|by simplify_eq].
        destruct (After _ _); simplify_eq; cbn in Hx; by apply lookup_delete_Some in Hx as [_ Hx]. }
    - destruct (Hp _ _ Hold) as (o' & ? & ?). exists o'. auto.
    - exists o. split; [|done]. right. by apply list_elem_of_singleton. }
  intros [Hin|Hin]%elem_of_app.
  - destruct o as [tok' now' later u w r|tok' now']; cbn in E; [by simplify_eq/=; apply elem_of_nil in Hin|].
    unfold Redeem in E. destruct (tickets s !! tok') as [t'|] eqn:Et;
      [|by simplify_eq/=; apply elem_of_nil in Hin].
    destruct (After _ _) eqn:Ea; simplify_eq/=; [by apply elem_of_nil in Hin|].
    apply list_elem_of_singleton in Hin. simplify_eq. split; [by apply Z.ltb_ge|].
    destruct (Hp _ _ Et) as (o' & ? & ?). exists o'. rewrite elem_of_app. auto.
  - destruct (IH _ _ _ Hp1 E2 _ _ _ Hin) as (? & o' & Ho' & Hi). split; [done|].
    exists o'. rewrite <-app_assoc in Ho'. by rewrite Httl in Hi.
Qed.

(** ** Theorem *)

(** Tickets are single use and never forged or extended.  In any sequence of
    operations on a fresh store, a token is redeemed at most as often as it was
    issued (so an unguessable token at most once), and what a redemption returns
    is a ticket that was issued under that very token, with the identity it was
    issued for, no later than its time to live. *)
Theorem tickets_single_use : ∀ ttl ops token,
  let '(outs, _) := runTickets ops (NewTicketStore ttl) in
  (redeemedOf token outs ≤ issuesOf token ops)%nat ∧
  ∀ now t, (token, now, t) ∈ outs →
    now ≤ ticket_ExpiresAt t ∧
    ∃ o, o ∈ ops ∧ issues (tickets_ttl (NewTicketStore ttl)) token t o.
Proof.
  intros ttl ops token. destruct (runTickets ops (NewTicketStore ttl)) as [outs s'] eqn:E. split.
  - pose proof (runTickets_live token _ _ _ _ E) as Hl.
    rewrite (proj2 (live_spec token (NewTicketStore ttl))) in Hl by apply lookup_empty. lia.
  - intros now t. refine (runTickets_issued [] ops (NewTicketStore ttl) outs s' _ E token now t).
    intros tok x Hx. cbn in Hx. by rewrite lookup_empty in Hx.
Qed.
