(* ===== verification/Frame.v ===== *)
(** * Frames (internal/transport/ws/frame.go)

    The messages of the socket protocol as the program holds them. *)

From S2P Require Import Prelude GoStrings Json.

Local Open Scope Z_scope.

(** [type Lane uint8]: the three constants, and any other byte, which a peer may
    send. *)
Inductive Lane := LaneControl | LaneDocument | LaneEphemeral | LaneOther (n : Z).

#[export] Instance Lane_eq_dec : EqDecision Lane.
Proof. solve_decision. Defined.

(** [type FrameType string]. *)
Definition TypeHello : string := "hello".
Definition TypeWelcome : string := "welcome".
Definition TypeIntent : string := "intent".
Definition TypeAck : string := "ack".
Definition TypeEvent : string := "event".
Definition TypeEphemeral : string := "ephemeral".
Definition TypeError : string := "error".
Definition TypePing : string := "ping".
Definition TypePong : string := "pong".
Definition TypeResync : string := "resync".

Record Hello := MkHello {
  hello_Ticket : string;
  hello_WorldID : string;
  hello_ProtocolVersion : Z;
  hello_LastSeq : Z;
  hello_Locale : string;
  hello_Capabilities : list string
}.

Record Welcome := MkWelcome {
  welcome_SessionID : string;
  welcome_UserID : string;
  welcome_Role : string;
  welcome_Seq : Z;
  welcome_DeltaFrom : Z;
  welcome_SnapshotRef : string
}.

Record Intent := MkIntent {
  intent_RequestID : Z;
  intent_Kind : string;
  intent_WorldID : string;
  intent_Payload : raw
}.

Record Ack := MkAck { ack_RequestID : Z; ack_Seq : Z; ack_Result : raw }.

Record EventBody := MkEventBody {
  ev_Seq : Z;
  ev_Kind : string;
  ev_WorldID : string;
  ev_SceneID : string;
  ev_Payload : raw
}.

Record Ephemeral := MkEphemeral {
  eph_Kind : string;
  eph_Key : string;
  eph_WorldID : string;
  eph_SceneID : string;
  eph_Payload : raw
}.

Record ErrorBody := MkErrorBody {
  error_RequestID : Z;
  error_Code : string;
  error_MessageKey : string;
  error_Params : list (string * string)
}.

Record Resync := MkResync { resync_Reason : string; resync_FromSeq : Z }.

(** [type Frame struct]: the bodies are pointers, at most one of them set by the
    program.  [Ping] has one field, the time it was sent. *)
Record Frame := MkFrame {
  frame_Lane : Lane;
  frame_Type : string;
  frame_Hello : option Hello;
  frame_Welcome : option Welcome;
  frame_Intent : option Intent;
  frame_Ack : option Ack;
  frame_Event : option EventBody;
  frame_Ephemeral : option Ephemeral;
  frame_Error : option ErrorBody;
  frame_Ping : option Z;
  frame_Resync : option Resync
}.

(** The composite literals of the program: one body, the others nil. *)
Definition bare (lane : Lane) (type : string) : Frame :=
  MkFrame lane type None None None None None None None None None.
Definition welcomeFrame (w : Welcome) : Frame :=
  MkFrame LaneControl TypeWelcome None (Some w) None None None None None None None.
Definition ackFrame (a : Ack) : Frame :=
  MkFrame LaneDocument TypeAck None None None (Some a) None None None None None.
Definition eventFrame (e : EventBody) : Frame :=
  MkFrame LaneDocument TypeEvent None None None None (Some e) None None None None.
Definition ephemeralFrame (e : Ephemeral) : Frame :=
  MkFrame LaneEphemeral TypeEphemeral None None None None None (Some e) None None None.
Definition pongFrame (sentAt : Z) : Frame :=
  MkFrame LaneControl TypePong None None None None None None None (Some sentAt) None.
Definition resyncFrame (reason : string) (fromSeq : Z) : Frame :=
  MkFrame LaneControl TypeResync None None None None None None None None (Some (MkResync reason fromSeq)).

Definition CodeBadRequest : string := "bad_request".
Definition CodeUnauthorized : string := "unauthorized".
Definition CodeForbidden : string := "forbidden".
Definition CodeNotFound : string := "not_found".
Definition CodeUnsupported : string := "unsupported_protocol".
Definition CodeInternal : string := "internal".
Definition ProtocolVersion : Z := 1.
Definition MinProtocolVersion : Z := 1.

Definition errorFrame (requestID : Z) (code messageKey : string) : Frame :=
  MkFrame LaneControl TypeError None None None None None None
    (Some (MkErrorBody requestID code messageKey [])) None None.
