(* ===== verification/ProtoCodec.v ===== *)
(** * The binary codec (internal/transport/ws/protocodec.go)

    The generated message types are not in the repository.  What the codec uses
    of them is the class [Protobuf]: a composite literal of [tavorav1.Frame]
    with the name of its oneof case and the fields it sets, the getters, and
    [proto.Marshal] and [proto.Unmarshal].  [ProtobufLaws] is the documented
    behaviour of generated code: a getter returns the field that was set, and
    what [Unmarshal] reads of a marshalled message is equal to it field by
    field. *)

From S2P Require Import Prelude GoStrings Json Frame.
From Stdlib Require String.

Local Open Scope Z_scope.

(** ** Messages *)

(** The value of a field, by its type in Go. *)
Inductive value :=
  | VString (s : string)
  | VInt (z : Z)
  | VBytes (r : raw)
  | VStrings (l : list string)
  | VMap (m : list (string * string)).

Class Protobuf := {
  message : Type;
  body : Type;
  newFrame : Z → string → list (string * value) → message;
  GetLane : message → Z;
  GetBody : message → option (string * body);
  GetField : body → string → option value;
  Marshal : message → res bytes;
  Unmarshal : bytes → res message
}.

(** Two messages no getter tells apart. *)
Definition same `{Protobuf} (m m' : message) : Prop :=
  GetLane m' = GetLane m ∧
  match GetBody m, GetBody m' with
  | Some (c, b), Some (c', b') => c' = c ∧ ∀ f, GetField b' f = GetField b f
  | None, None => True
  | _, _ => False
  end.

Definition fieldOf (fs : list (string * value)) (f : string) : option value :=
  snd <$> head (filter (λ kv, kv.1 = f) fs).

Class ProtobufLaws `{Protobuf} := {
  newFrame_lane : ∀ lane c fs, 0 ≤ lane < 2 ^ 32 → GetLane (newFrame lane c fs) = lane;
  newFrame_body : ∀ lane c fs, ∃ b, GetBody (newFrame lane c fs) = Some (c, b) ∧
    ∀ f, GetField b f = fieldOf fs f;
  Unmarshal_Marshal : ∀ m data, Marshal m = Ok data → ∃ m', Unmarshal data = Ok m' ∧ same m m'
}.

(** ** The codec *)

Definition laneByte (l : Lane) : Z :=
  match l with LaneControl => 0 | LaneDocument => 1 | LaneEphemeral => 2 | LaneOther n => n end.

(** [Lane(n)] of a [uint32]: its low byte. *)
Definition laneOf (n : Z) : Lane :=
  let b := n `mod` 256 in
  if b =? 0 then LaneControl else if b =? 1 then LaneDocument
  else if b =? 2 then LaneEphemeral else LaneOther b.

Definition missingBody (frameType : string) : err := ErrOther "encode frame: no body".

Section Codec.
Context `{Protobuf}.

Definition requiringBody {A} (t : string) (o : option A) (k : A → res message) : res message :=
  match o with None => Err (missingBody t) | Some a => k a end.

Definition toProto (frame : Frame) : res message :=
  let t := frame_Type frame in
  let make case fields := Ok (newFrame (laneByte (frame_Lane frame)) case fields) in
  let sentAt := default 0 (frame_Ping frame) in
  if bool_decide (t = TypeHello) then
    requiringBody t (frame_Hello frame) (λ h, make "Hello"
      [("Ticket", VString (hello_Ticket h)); ("WorldId", VString (hello_WorldID h));
       ("ProtocolVersion", VInt (hello_ProtocolVersion h)); ("LastSeq", VInt (hello_LastSeq h));
       ("Locale", VString (hello_Locale h)); ("Capabilities", VStrings (hello_Capabilities h))])
  else if bool_decide (t = TypeWelcome) then
    requiringBody t (frame_Welcome frame) (λ w, make "Welcome"
      [("SessionId", VString (welcome_SessionID w)); ("UserId", VString (welcome_UserID w));
       ("Role", VString (welcome_Role w)); ("Seq", VInt (welcome_Seq w));
       ("SnapshotRef", VString (welcome_SnapshotRef w)); ("DeltaFrom", VInt (welcome_DeltaFrom w))])
  else if bool_decide (t = TypeIntent) then
    requiringBody t (frame_Intent frame) (λ i, make "Intent"
      [("RequestId", VInt (intent_RequestID i)); ("Kind", VString (intent_Kind i));
       ("WorldId", VString (intent_WorldID i)); ("Payload", VBytes (intent_Payload i))])
  else if bool_decide (t = TypeAck) then
    requiringBody t (frame_Ack frame) (λ a, make "Ack"
      [("RequestId", VInt (ack_RequestID a)); ("Seq", VInt (ack_Seq a)); ("Result", VBytes (ack_Result a))])
  else if bool_decide (t = TypeEvent) then
    requiringBody t (frame_Event frame) (λ e, make "Event"
      [("Seq", VInt (ev_Seq e)); ("Kind", VString (ev_Kind e)); ("WorldId", VString (ev_WorldID e));
       ("SceneId", VString (ev_SceneID e)); ("Payload", VBytes (ev_Payload e))])
  else if bool_decide (t = TypeEphemeral) then
    requiringBody t (frame_Ephemeral frame) (λ e, make "Ephemeral"
      [("Kind", VString (eph_Kind e)); ("Key", VString (eph_Key e)); ("WorldId", VString (eph_WorldID e));
       ("SceneId", VString (eph_SceneID e)); ("Payload", VBytes (eph_Payload e))])
  else if bool_decide (t = TypeError) then
    requiringBody t (frame_Error frame) (λ e, make "Error"
      [("RequestId", VInt (error_RequestID e)); ("Code", VString (error_Code e));
       ("MessageKey", VString (error_MessageKey e)); ("Params", VMap (error_Params e))])
  else if bool_decide (t = TypePing) then make "Ping" [("SentAtUnixMs", VInt sentAt)]
  else if bool_decide (t = TypePong) then make "Pong" [("SentAtUnixMs", VInt sentAt)]
  else if bool_decide (t = TypeResync) then
    requiringBody t (frame_Resync frame) (λ r, make "Resync"
      [("Reason", VString (resync_Reason r)); ("FromSeq", VInt (resync_FromSeq r))])
  else Err (ErrOther "encode frame: unknown type").

(** The getters of each type of field; one that is not set is zero. *)
Definition getString (b : body) (f : string) : string :=
  match GetField b f with Some (VString s) => s | _ => "" end.
Definition getInt (b : body) (f : string) : Z :=
  match GetField b f with Some (VInt z) => z | _ => 0 end.
Definition getBytes (b : body) (f : string) : raw :=
  match GetField b f with Some (VBytes r) => r | _ => RawEmpty end.
Definition getStrings (b : body) (f : string) : list string :=
  match GetField b f with Some (VStrings l) => l | _ => [] end.
Definition getMap (b : body) (f : string) : list (string * string) :=
  match GetField b f with Some (VMap m) => m | _ => [] end.

(** A frame with the one body of its type. *)
Definition helloMessage (l : Lane) (h : Hello) : Frame :=
  MkFrame l TypeHello (Some h) None None None None None None None None.
Definition fromProto (m : message) : res Frame :=
  let lane := laneOf (GetLane m) in
  match GetBody m with
  | None => Err (ErrOther "decode frame: unknown or missing body")
  | Some (case, b) =>
      if bool_decide (case = "Hello") then
        Ok (helloMessage lane (MkHello (getString b "Ticket") (getString b "WorldId")
             (getInt b "ProtocolVersion") (getInt b "LastSeq") (getString b "Locale")
             (getStrings b "Capabilities")))
      else if bool_decide (case = "Welcome") then
        Ok (MkFrame lane TypeWelcome None (Some (MkWelcome (getString b "SessionId") (getString b "UserId")
             (getString b "Role") (getInt b "Seq") (getInt b "DeltaFrom") (getString b "SnapshotRef")))
             None None None None None None None)
      else if bool_decide (case = "Intent") then
        Ok (MkFrame lane TypeIntent None None (Some (MkIntent (getInt b "RequestId") (getString b "Kind")
             (getString b "WorldId") (getBytes b "Payload"))) None None None None None None)
      else if bool_decide (case = "Ack") then
        Ok (MkFrame lane TypeAck None None None (Some (MkAck (getInt b "RequestId") (getInt b "Seq")
             (getBytes b "Result"))) None None None None None)
      else if bool_decide (case = "Event") then
        Ok (MkFrame lane TypeEvent None None None None (Some (MkEventBody (getInt b "Seq")
             (getString b "Kind") (getString b "WorldId") (getString b "SceneId") (getBytes b "Payload")))
             None None None None)
      else if bool_decide (case = "Ephemeral") then
        Ok (MkFrame lane TypeEphemeral None None None None None (Some (MkEphemeral (getString b "Kind")
             (getString b "Key") (getString b "WorldId") (getString b "SceneId") (getBytes b "Payload")))
             None None None)
      else if bool_decide (case = "Error") then
        Ok (MkFrame lane TypeError None None None None None None (Some (MkErrorBody (getInt b "RequestId")
             (getString b "Code") (getString b "MessageKey") (getMap b "Params"))) None None)
      else if bool_decide (case = "Ping") then
        Ok (MkFrame lane TypePing None None None None None None None (Some (getInt b "SentAtUnixMs")) None)
      else if bool_decide (case = "Pong") then
        Ok (MkFrame lane TypePong None None None None None None None (Some (getInt b "SentAtUnixMs")) None)
      else if bool_decide (case = "Resync") then
        Ok (MkFrame lane TypeResync None None None None None None None None
             (Some (MkResync (getString b "Reason") (getInt b "FromSeq"))))
      else Err (ErrOther "decode frame: unknown or missing body")
  end.

Definition ProtoEncode (frame : Frame) : res bytes := m ← toProto frame; Marshal m.

Definition ProtoDecode (data : bytes) : res Frame := m ← Unmarshal data; fromProto m.
End Codec.

(** ** Round trip *)

(** What a frame says: its lane, its type and the body of its type.  A ping
    without a body is one sent at time zero. *)
Definition content (f : Frame) : Frame :=
  let t := frame_Type f in
  let only {A} (ty : string) (o : option A) := if bool_decide (t = ty) then o else None in
  MkFrame (frame_Lane f) t (only TypeHello (frame_Hello f)) (only TypeWelcome (frame_Welcome f))
    (only TypeIntent (frame_Intent f)) (only TypeAck (frame_Ack f)) (only TypeEvent (frame_Event f))
    (only TypeEphemeral (frame_Ephemeral f)) (only TypeError (frame_Error f))
    (if bool_decide (t = TypePing) || bool_decide (t = TypePong)
     then Some (default 0 (frame_Ping f)) else None)
    (only TypeResync (frame_Resync f)).

(** A lane is a byte, and one of the three has its constant. *)
Definition laneOK (l : Lane) : Prop := match l with LaneOther n => 3 ≤ n < 256 | _ => True end.

Lemma laneOf_laneByte l : laneOK l → laneOf (laneByte l) = l ∧ 0 ≤ laneByte l < 2 ^ 32.
Proof.
  destruct l as [| | |n]; cbn; [by split..|]. intros Hn. split; [|lia].
  unfold laneOf. rewrite Z.mod_small by lia.
  repeat (case_match; [match goal with E : (_ =? _) = true |- _ => apply Z.eqb_eq in E; lia end|]). done.
Qed.

Section RoundTrip.
Context `{ProtobufLaws}.

(** A message that reads like a literal decodes to what the literal holds. *)
Lemma fromProto_same m m' : same m m' → fromProto m' = fromProto m.
Proof.
  intros [Hl Hb]. unfold fromProto. rewrite Hl.
  destruct (GetBody m) as [[c b]|], (GetBody m') as [[c' b']|]; try done. destruct Hb as [-> Hf].
  unfold getString, getInt, getBytes, getStrings, getMap. by rewrite !Hf.
Qed.

Lemma newFrame_case lane c fs : laneOK lane →
  laneOf (GetLane (newFrame (laneByte lane) c fs)) = lane ∧
  ∃ b, GetBody (newFrame (laneByte lane) c fs) = Some (c, b) ∧ ∀ f, GetField b f = fieldOf fs f.
Proof.
  intros [Hl Hr]%laneOf_laneByte. rewrite newFrame_lane by done. split; [done|]. apply newFrame_body.
Qed.

(** Reading back a literal: the case is the one written, and every getter finds
    its field. *)
Ltac read_back Hl :=
  match goal with |- fromProto (newFrame (laneByte ?l) ?c ?fs) = _ =>
    let b := fresh "b" in let Hlane := fresh in let Hb := fresh in let Hf := fresh in
    destruct (newFrame_case l c fs Hl) as [Hlane (b & Hb & Hf)];
    unfold fromProto; rewrite Hlane, Hb; cbn;
    unfold getString, getInt, getBytes, getStrings, getMap; rewrite !Hf; reflexivity
  end.

Lemma fromProto_toProto f m : laneOK (frame_Lane f) → toProto f = Ok m → fromProto m = Ok (content f).
Proof.
  destruct f as [l t h w i a e ep er p r]. cbn [frame_Lane]. intros Hl.
  unfold toProto, requiringBody. cbn [frame_Type frame_Lane].
  repeat (case_bool_decide; [subst t; cbn|]); [..|done].
  1: destruct h as [[]|]; [|done]. 2: destruct w as [[]|]; [|done]. 3: destruct i as [[]|]; [|done].
  4: destruct a as [[]|]; [|done]. 5: destruct e as [[]|]; [|done]. 6: destruct ep as [[]|]; [|done].
  7: destruct er as [[]|]; [|done]. 10: destruct r as [[]|]; [|done].
  all: intros [= <-]; cbn; read_back Hl.
Qed.

(** A frame is encodable when its type is known and its body is there; pings
    need none. *)
Definition encodable (f : Frame) : bool :=
  let t := frame_Type f in
  let has {A} (ty : string) (o : option A) := bool_decide (t = ty) && bool_decide (is_Some o) in
  has TypeHello (frame_Hello f) || has TypeWelcome (frame_Welcome f) || has TypeIntent (frame_Intent f) ||
  has TypeAck (frame_Ack f) || has TypeEvent (frame_Event f) || has TypeEphemeral (frame_Ephemeral f) ||
  has TypeError (frame_Error f) || bool_decide (t = TypePing) || bool_decide (t = TypePong) ||
  has TypeResync (frame_Resync f).

Lemma toProto_encodable f : is_Ok (toProto f) ↔ encodable f = true.
Proof.
  destruct f as [l t h w i a e ep er p r]. unfold toProto, requiringBody, encodable. cbn [frame_Type].
  repeat (case_bool_decide; [subst t; cbn|]).
  1: destruct h. 3: destruct w. 5: destruct i. 7: destruct a. 9: destruct e. 11: destruct ep.
  13: destruct er. 17: destruct r.
  all: cbn; split; try done; intros Hok; try (by destruct Hok); by eexists.
Qed.

Lemma ProtoDecode_ProtoEncode f data :
  laneOK (frame_Lane f) → ProtoEncode f = Ok data → ProtoDecode data = Ok (content f).
Proof.
  intros Hl. unfold ProtoEncode, ProtoDecode. destruct (toProto f) as [m|] eqn:Em; [|done]. cbn. intros Hm.
  destruct (Unmarshal_Marshal _ _ Hm) as (m' & -> & Hs). cbn.
  rewrite (fromProto_same _ _ Hs). by apply fromProto_toProto.
Qed.

(** C24: the binary codec is faithful.  A frame becomes a message exactly when
    its type is known and its body present; and whatever bytes a frame is
    encoded to decode to the same lane, type and body. *)
Theorem proto_round_trip f :
  (is_Ok (toProto f) ↔ encodable f = true) ∧
  ∀ data, laneOK (frame_Lane f) → ProtoEncode f = Ok data → ProtoDecode data = Ok (content f).
Proof.
  split; [apply toProto_encodable|]. intros data. apply ProtoDecode_ProtoEncode.
Qed.
End RoundTrip.
