(* ===== verification/JsonCodec.v ===== *)
(** * The readable codec (internal/transport/ws/frame.go, JSONCodec)

    A frame as a JSON object, by the tags of its structs: what [json.Marshal]
    writes, what [json.Unmarshal] makes of any text (members in any order and
    case, repeated members merged, null), and that the two are inverse on the
    frames whose numbers have their width and whose payloads are JSON. *)

From S2P Require Import Prelude GoStrings Json Frame ProtoCodec.
From Stdlib Require Import Ascii.
From Stdlib Require String.

Local Open Scope Z_scope.

(** ** Fields *)

Definition fIntOpt (k : string) (z : Z) : list (string * json) := if z =? 0 then [] else fInt k z.
Definition fStrings (k : string) (l : list string) : list (string * json) :=
  match l with [] => [] | _ => [(k, JArr (JStr <$> l))] end.
(** A [map[string]string]. *)
Definition fParams (k : string) (ps : list (string * string)) : list (string * json) :=
  match ps with [] => [] | _ => [(k, JObj ((λ p, (p.1, JStr p.2)) <$> ps))] end.
(** A pointer to a struct. *)
Definition fPtr {A} (k : string) (encode : A → res (list (string * json))) (o : option A) : res (list (string * json)) :=
  match o with
  | None => Ok []
  | Some a => fs ← encode a; Ok [(k, JObj fs)]
  end.

(** Unsigned integers of a width. *)
Definition convUint (width : Z) : conv Z := λ j,
  match j with
  | JNull => Some None
  | JNum n => z ← n.(ni); if (0 <=? z) && (z <? 2 ^ width) then Some (Some z) else None
  | _ => None
  end.

(** A [json.RawMessage] takes any value as it is. *)
Definition convRawMessage : conv raw := λ j, Some (Some (Raw j)).

(** Assignment to a key of a string map, kept in key order. *)
Fixpoint putParam (k v : string) (m : list (string * string)) : list (string * string) :=
  match m with
  | [] => [(k, v)]
  | (k', v') :: m' =>
      match String.compare k k' with
      | Lt => (k, v) :: m
      | Eq => (k, v) :: m'
      | Gt => (k', v') :: putParam k v m'
      end
  end.

Definition intoParams (acc : list (string * string) * bool) (j : json) : list (string * string) * bool :=
  match j with
  | JNull => ([], acc.2)
  | JObj fs =>
      foldl (λ acc kv, match kv.2 with
                       | JStr v => (putParam kv.1 v acc.1, acc.2)
                       | JNull => (putParam kv.1 "" acc.1, acc.2)
                       | _ => (acc.1, false)
                       end) acc fs
  | _ => (acc.1, false)
  end.

(** A pointer to a struct: null clears it, an object is decoded into the struct
    that is there, or into a new one. *)
Definition intoPtr {A} (zero : A) (decode : A → list (string * json) → A * bool)
    (acc : option A * bool) (j : json) : option A * bool :=
  match j with
  | JNull => (None, acc.2)
  | JObj fs => let '(a, ok) := decode (default zero acc.1) fs in (Some a, acc.2 && ok)
  | _ => (acc.1, false)
  end.

Definition decodePtr {A} (zero : A) (decode : A → list (string * json) → A * bool) (name : string)
    (fs : list (string * json)) : option A * bool :=
  foldl (intoPtr zero decode) (None, true) (fieldValues name fs).

(** ** Bodies *)

Definition encodeHello (h : Hello) : res (list (string * json)) :=
  Ok (fStr "ticket" (hello_Ticket h) ++ fStr "worldId" (hello_WorldID h) ++
      fInt "protocolVersion" (hello_ProtocolVersion h) ++ fInt "lastSeq" (hello_LastSeq h) ++
      fStrOpt "locale" (hello_Locale h) ++ fStrings "capabilities" (hello_Capabilities h)).
Definition intoHello (h : Hello) (fs : list (string * json)) : Hello * bool :=
  let '(ticket, b1) := decodeField convString (hello_Ticket h) "ticket" fs in
  let '(world, b2) := decodeField convString (hello_WorldID h) "worldId" fs in
  let '(version, b3) := decodeField (convUint 32) (hello_ProtocolVersion h) "protocolVersion" fs in
  let '(seq, b4) := decodeField convInt (hello_LastSeq h) "lastSeq" fs in
  let '(locale, b5) := decodeField convString (hello_Locale h) "locale" fs in
  let '(capabilities, b6) := decodeField convStrings (hello_Capabilities h) "capabilities" fs in
  (MkHello ticket world version seq locale capabilities, b1 && b2 && b3 && b4 && b5 && b6).

Definition encodeWelcome (w : Welcome) : res (list (string * json)) :=
  Ok (fStr "sessionId" (welcome_SessionID w) ++ fStr "userId" (welcome_UserID w) ++ fStr "role" (welcome_Role w) ++
      fInt "seq" (welcome_Seq w) ++ fInt "deltaFrom" (welcome_DeltaFrom w) ++
      fStrOpt "snapshotRef" (welcome_SnapshotRef w)).
Definition intoWelcome (w : Welcome) (fs : list (string * json)) : Welcome * bool :=
  let '(session, b1) := decodeField convString (welcome_SessionID w) "sessionId" fs in
  let '(user, b2) := decodeField convString (welcome_UserID w) "userId" fs in
  let '(role, b3) := decodeField convString (welcome_Role w) "role" fs in
  let '(seq, b4) := decodeField convInt (welcome_Seq w) "seq" fs in
  let '(from, b5) := decodeField convInt (welcome_DeltaFrom w) "deltaFrom" fs in
  let '(ref, b6) := decodeField convString (welcome_SnapshotRef w) "snapshotRef" fs in
  (MkWelcome session user role seq from ref, b1 && b2 && b3 && b4 && b5 && b6).

Definition encodeIntent (i : Intent) : res (list (string * json)) :=
  payload ← fRawOpt "payload" (intent_Payload i);
  Ok (fInt "requestId" (intent_RequestID i) ++ fStr "kind" (intent_Kind i) ++ fStr "worldId" (intent_WorldID i) ++ payload).
Definition intoIntent (i : Intent) (fs : list (string * json)) : Intent * bool :=
  let '(request, b1) := decodeField (convUint 32) (intent_RequestID i) "requestId" fs in
  let '(kind, b2) := decodeField convString (intent_Kind i) "kind" fs in
  let '(world, b3) := decodeField convString (intent_WorldID i) "worldId" fs in
  let '(payload, b4) := decodeField convRawMessage (intent_Payload i) "payload" fs in
  (MkIntent request kind world payload, b1 && b2 && b3 && b4).

Definition encodeAck (a : Ack) : res (list (string * json)) :=
  result ← fRawOpt "result" (ack_Result a);
  Ok (fInt "requestId" (ack_RequestID a) ++ fInt "seq" (ack_Seq a) ++ result).
Definition intoAck (a : Ack) (fs : list (string * json)) : Ack * bool :=
  let '(request, b1) := decodeField (convUint 32) (ack_RequestID a) "requestId" fs in
  let '(seq, b2) := decodeField convInt (ack_Seq a) "seq" fs in
  let '(result, b3) := decodeField convRawMessage (ack_Result a) "result" fs in
  (MkAck request seq result, b1 && b2 && b3).

Definition encodeEvent (e : EventBody) : res (list (string * json)) :=
  payload ← fRawOpt "payload" (ev_Payload e);
  Ok (fInt "seq" (ev_Seq e) ++ fStr "kind" (ev_Kind e) ++ fStr "worldId" (ev_WorldID e) ++
      fStrOpt "sceneId" (ev_SceneID e) ++ payload).
Definition intoEvent (e : EventBody) (fs : list (string * json)) : EventBody * bool :=
  let '(seq, b1) := decodeField convInt (ev_Seq e) "seq" fs in
  let '(kind, b2) := decodeField convString (ev_Kind e) "kind" fs in
  let '(world, b3) := decodeField convString (ev_WorldID e) "worldId" fs in
  let '(scene, b4) := decodeField convString (ev_SceneID e) "sceneId" fs in
  let '(payload, b5) := decodeField convRawMessage (ev_Payload e) "payload" fs in
  (MkEventBody seq kind world scene payload, b1 && b2 && b3 && b4 && b5).

Definition encodeEphemeral (e : Ephemeral) : res (list (string * json)) :=
  payload ← fRawOpt "payload" (eph_Payload e);
  Ok (fStr "kind" (eph_Kind e) ++ fStr "key" (eph_Key e) ++ fStr "worldId" (eph_WorldID e) ++
      fStrOpt "sceneId" (eph_SceneID e) ++ payload).
Definition intoEphemeral (e : Ephemeral) (fs : list (string * json)) : Ephemeral * bool :=
  let '(kind, b1) := decodeField convString (eph_Kind e) "kind" fs in
  let '(key, b2) := decodeField convString (eph_Key e) "key" fs in
  let '(world, b3) := decodeField convString (eph_WorldID e) "worldId" fs in
  let '(scene, b4) := decodeField convString (eph_SceneID e) "sceneId" fs in
  let '(payload, b5) := decodeField convRawMessage (eph_Payload e) "payload" fs in
  (MkEphemeral kind key world scene payload, b1 && b2 && b3 && b4 && b5).

Definition encodeError (e : ErrorBody) : res (list (string * json)) :=
  Ok (fIntOpt "requestId" (error_RequestID e) ++ fStr "code" (error_Code e) ++ fStr "messageKey" (error_MessageKey e) ++
      fParams "params" (error_Params e)).
Definition intoError (e : ErrorBody) (fs : list (string * json)) : ErrorBody * bool :=
  let '(request, b1) := decodeField (convUint 32) (error_RequestID e) "requestId" fs in
  let '(code, b2) := decodeField convString (error_Code e) "code" fs in
  let '(key, b3) := decodeField convString (error_MessageKey e) "messageKey" fs in
  let '(params, b4) := foldl intoParams (error_Params e, true) (fieldValues "params" fs) in
  (MkErrorBody request code key params, b1 && b2 && b3 && b4).

Definition encodePing (sentAt : Z) : res (list (string * json)) := Ok (fInt "sentAtUnixMs" sentAt).
Definition intoPing (sentAt : Z) (fs : list (string * json)) : Z * bool :=
  decodeField convInt sentAt "sentAtUnixMs" fs.

Definition encodeResync (r : Resync) : res (list (string * json)) :=
  Ok (fStr "reason" (resync_Reason r) ++ fInt "fromSeq" (resync_FromSeq r)).
Definition intoResync (r : Resync) (fs : list (string * json)) : Resync * bool :=
  let '(reason, b1) := decodeField convString (resync_Reason r) "reason" fs in
  let '(from, b2) := decodeField convInt (resync_FromSeq r) "fromSeq" fs in
  (MkResync reason from, b1 && b2).

(** ** Frames *)

Definition encodeFrame (f : Frame) : res (list (string * json)) :=
  hello ← fPtr "hello" encodeHello (frame_Hello f);
  welcome ← fPtr "welcome" encodeWelcome (frame_Welcome f);
  intent ← fPtr "intent" encodeIntent (frame_Intent f);
  ack ← fPtr "ack" encodeAck (frame_Ack f);
  event ← fPtr "event" encodeEvent (frame_Event f);
  ephemeral ← fPtr "ephemeral" encodeEphemeral (frame_Ephemeral f);
  error ← fPtr "error" encodeError (frame_Error f);
  ping ← fPtr "ping" encodePing (frame_Ping f);
  resync ← fPtr "resync" encodeResync (frame_Resync f);
  Ok (fInt "lane" (laneByte (frame_Lane f)) ++ fStr "type" (frame_Type f) ++ hello ++ welcome ++ intent ++ ack ++
      event ++ ephemeral ++ error ++ ping ++ resync).

(** [JSONCodec.Encode]. *)
Definition JSONEncode (f : Frame) : res raw := fs ← encodeFrame f; Ok (Raw (JObj fs)).

Definition decodeFrame (fs : list (string * json)) : Frame * bool :=
  let '(lane, b0) := decodeField (convUint 8) 0 "lane" fs in
  let '(type, b1) := decodeField convString "" "type" fs in
  let '(hello, b2) := decodePtr (MkHello "" "" 0 0 "" []) intoHello "hello" fs in
  let '(welcome, b3) := decodePtr (MkWelcome "" "" "" 0 0 "") intoWelcome "welcome" fs in
  let '(intent, b4) := decodePtr (MkIntent 0 "" "" RawEmpty) intoIntent "intent" fs in
  let '(ack, b5) := decodePtr (MkAck 0 0 RawEmpty) intoAck "ack" fs in
  let '(event, b6) := decodePtr (MkEventBody 0 "" "" "" RawEmpty) intoEvent "event" fs in
  let '(ephemeral, b7) := decodePtr (MkEphemeral "" "" "" "" RawEmpty) intoEphemeral "ephemeral" fs in
  let '(error, b8) := decodePtr (MkErrorBody 0 "" "" []) intoError "error" fs in
  let '(ping, b9) := decodePtr 0 intoPing "ping" fs in
  let '(resync, b10) := decodePtr (MkResync "" 0) intoResync "resync" fs in
  (MkFrame (laneOf lane) type hello welcome intent ack event ephemeral error ping resync,
   b0 && b1 && b2 && b3 && b4 && b5 && b6 && b7 && b8 && b9 && b10).

(** [JSONCodec.Decode]. *)
Definition JSONDecode (data : raw) : res Frame :=
  match structFields data with
  | None => Err errDecode
  | Some fs =>
      let '(f, ok) := decodeFrame fs in
      if negb ok then Err errDecode
      else if bool_decide (frame_Type f = "") then Err (ErrOther "decode frame: missing type")
      else Ok f
  end.

Example decodes_any_case :
  JSONDecode (Raw (JObj [("Ping", JObj [("sentatunixms", JNum (numOfInt 7))]); ("TYPE", JStr "ping")])) =
  Ok (MkFrame LaneControl "ping" None None None None None None None (Some 7) None).
Proof. reflexivity. Qed.

(** ** Round trip *)

(** Texts that are JSON, or empty. *)
Definition isJSON (r : raw) : Prop := r ≠ RawBad.
Definition uint (width z : Z) : Prop := 0 ≤ z < 2 ^ width.

(** A string map, as the list of its entries in the order of its keys. *)
Definition members (ps : list (string * string)) : list (string * json) := (λ p, (p.1, JStr p.2)) <$> ps.
Definition isMap (ps : list (string * string)) : Prop := StronglySorted keyLt (members ps).

Lemma putParam_members k v m : members (putParam k v m) = objInsert k (JStr v) (members m).
Proof.
  induction m as [|[k' v'] m IH]; [done|]. cbn. destruct (String.compare k k'); [done|done|].
  unfold members in *. cbn. by rewrite IH.
Qed.

Lemma putParam_isMap k v m : isMap m → isMap (putParam k v m).
Proof. unfold isMap. rewrite putParam_members. apply objInsert_sorted. Qed.

Lemma putParams_members ps acc :
  members (foldl (λ m p, putParam p.1 p.2 m) acc ps) = foldl (λ m kv, objInsert kv.1 kv.2 m) (members acc) (members ps).
Proof. revert acc. induction ps as [|[k v] ps IH]; intros acc; [done|]. cbn [foldl]. rewrite IH, putParam_members. done. Qed.

(** Putting the entries of a map one by one gives the map. *)
Lemma putParams_id ps : isMap ps → foldl (λ m p, putParam p.1 p.2 m) [] ps = ps.
Proof.
  intros Hm. assert (Inj (=) (=) members) as Hinj.
  { unfold members. apply list_fmap_eq_inj. by intros [] [] [= -> ->]. }
  apply Hinj. rewrite putParams_members. by apply objOf_id.
Qed.

Lemma convUint_num width z : uint width z → convUint width (JNum (numOfInt z)) = Some (Some z).
Proof.
  intros [H0 H1]. unfold convUint. cbn [numOfInt ni mbind option_bind].
  by rewrite (proj2 (Z.leb_le 0 z) H0), (proj2 (Z.ltb_lt _ _) H1).
Qed.

Lemma convStrings_list l : convStrings (JArr (JStr <$> l)) = Some (Some l).
Proof.
  unfold convStrings, UnmarshalStrings. rewrite (traverse_pure _ (λ j, match j with JStr s => s | _ => "" end)).
  - rewrite <-list_fmap_compose. f_equal. f_equal. by apply fmap_id_on.
  - intros j (s & -> & _)%list_elem_of_fmap. done.
Qed.

Lemma convStrings_cons c l : convStrings (JArr (JStr c :: (JStr <$> l))) = Some (Some (c :: l)).
Proof. exact (convStrings_list (c :: l)). Qed.

(** The members of an object whose names are known, with the conversions. *)
Ltac read_struct :=
  unfold decodeField; rewrite !fieldValues_pick;
  cbn [app fStr fInt fIntOpt fStrings fParams fmap list_fmap fst snd];
  repeat match goal with
    | |- context [matching ?n ?ks] =>
        let b := eval vm_compute in (matching n ks) in
        replace (matching n ks) with b by (vm_compute; reflexivity)
    end; cbn [pick foldl fst snd convString convRawMessage];
  rewrite ?convUint_num, ?convInt_num, ?convStrings_cons by done.

(** The fields of a body that is given. *)
Ltac fields :=
  cbn [hello_Ticket hello_WorldID hello_ProtocolVersion hello_LastSeq hello_Locale hello_Capabilities
       welcome_SessionID welcome_UserID welcome_Role welcome_Seq welcome_DeltaFrom welcome_SnapshotRef
       intent_RequestID intent_Kind intent_WorldID intent_Payload ack_RequestID ack_Seq ack_Result
       ev_Seq ev_Kind ev_WorldID ev_SceneID ev_Payload eph_Kind eph_Key eph_WorldID eph_SceneID eph_Payload
       error_RequestID error_Code error_MessageKey error_Params resync_Reason resync_FromSeq
       fRawOpt fRaw rawJson mbind res_bind] in *.

(** A body survives its encoding. *)
Definition survives {A} (OK : A → Prop) (encode : A → res (list (string * json))) (zero : A)
    (into : A → list (string * json) → A * bool) : Prop :=
  ∀ a, OK a → ∃ fs, encode a = Ok fs ∧ into zero fs = (a, true).

Definition helloOK (h : Hello) : Prop := uint 32 (hello_ProtocolVersion h) ∧ in_int64 (hello_LastSeq h).

Lemma hello_survives : survives helloOK encodeHello (MkHello "" "" 0 0 "" []) intoHello.
Proof.
  intros [ticket world version seq locale caps] [Hv Hs]. eexists. split; [reflexivity|]. unfold intoHello, fStrOpt.
  fields. case_bool_decide; destruct caps as [|c caps]; read_struct; subst; done.
Qed.

Definition welcomeOK (w : Welcome) : Prop := in_int64 (welcome_Seq w) ∧ in_int64 (welcome_DeltaFrom w).

Lemma welcome_survives : survives welcomeOK encodeWelcome (MkWelcome "" "" "" 0 0 "") intoWelcome.
Proof.
  intros [session user role seq from ref] [Hs Hf]. eexists. split; [reflexivity|]. unfold intoWelcome, fStrOpt.
  fields. case_bool_decide; read_struct; subst; done.
Qed.

Definition intentOK (i : Intent) : Prop := uint 32 (intent_RequestID i) ∧ isJSON (intent_Payload i).

Lemma intent_survives : survives intentOK encodeIntent (MkIntent 0 "" "" RawEmpty) intoIntent.
Proof.
  intros [request kind world payload] [Hr Hp]. unfold encodeIntent. fields.
  destruct payload as [| |j]; [|done|]; (eexists; split; [reflexivity|]); unfold intoIntent; read_struct; done.
Qed.

Definition ackOK (a : Ack) : Prop := uint 32 (ack_RequestID a) ∧ in_int64 (ack_Seq a) ∧ isJSON (ack_Result a).

Lemma ack_survives : survives ackOK encodeAck (MkAck 0 0 RawEmpty) intoAck.
Proof.
  intros [request seq result] (Hr & Hs & Hp). unfold encodeAck. fields.
  destruct result as [| |j]; [|done|]; (eexists; split; [reflexivity|]); unfold intoAck; read_struct; done.
Qed.

Definition eventOK (e : EventBody) : Prop := in_int64 (ev_Seq e) ∧ isJSON (ev_Payload e).

Lemma event_survives : survives eventOK encodeEvent (MkEventBody 0 "" "" "" RawEmpty) intoEvent.
Proof.
  intros [seq kind world scene payload] [Hs Hp]. unfold encodeEvent, fStrOpt. fields.
  destruct payload as [| |j]; [|done|]; (eexists; split; [reflexivity|]); unfold intoEvent;
    case_bool_decide; read_struct; subst; done.
Qed.

Definition ephemeralOK (e : Ephemeral) : Prop := isJSON (eph_Payload e).

Lemma ephemeral_survives : survives ephemeralOK encodeEphemeral (MkEphemeral "" "" "" "" RawEmpty) intoEphemeral.
Proof.
  intros [kind key world scene payload] Hp. unfold encodeEphemeral, fStrOpt. fields.
  destruct payload as [| |j]; [|done|]; (eexists; split; [reflexivity|]); unfold intoEphemeral;
    case_bool_decide; read_struct; subst; done.
Qed.

Definition errorOK (e : ErrorBody) : Prop := uint 32 (error_RequestID e) ∧ isMap (error_Params e).

Lemma intoParams_pairs ps acc ok :
  intoParams (acc, ok) (JObj ((λ p, (p.1, JStr p.2)) <$> ps)) = (foldl (λ m p, putParam p.1 p.2 m) acc ps, ok).
Proof. revert acc. induction ps as [|[k v] ps IH]; intros acc; [done|]. apply IH. Qed.

Lemma intoParams_cons p ps acc ok :
  intoParams (acc, ok) (JObj ((p.1, JStr p.2) :: ((λ p, (p.1, JStr p.2)) <$> ps))) =
  (foldl (λ m p, putParam p.1 p.2 m) acc (p :: ps), ok).
Proof. exact (intoParams_pairs (p :: ps) acc ok). Qed.

Lemma error_survives : survives errorOK encodeError (MkErrorBody 0 "" "" []) intoError.
Proof.
  intros [request code key params] [Hr Hp]. eexists. split; [reflexivity|]. unfold intoError, fIntOpt, fParams.
  fields. destruct (Z.eqb_spec request 0), params as [|p ps]; read_struct; subst; try done.
  all: fields; rewrite intoParams_cons, putParams_id by done; done.
Qed.

Lemma ping_survives : survives in_int64 encodePing 0 intoPing.
Proof. intros z Hz. eexists. split; [reflexivity|]. unfold intoPing. read_struct. done. Qed.

Lemma resync_survives :
  survives (λ r, in_int64 (resync_FromSeq r)) encodeResync (MkResync "" 0) intoResync.
Proof. intros [reason from] Hf. eexists. split; [reflexivity|]. unfold intoResync. fields. read_struct. done. Qed.

(** *** Members of a frame *)

(** A part of an object that is about one field. *)
Definition owns (k : string) (part : list (string * json)) : Prop :=
  ∀ name, foldName name ≠ foldName k → fieldValues name part = [].

Lemma fieldValues_app name fs gs : fieldValues name (fs ++ gs) = fieldValues name fs ++ fieldValues name gs.
Proof. unfold fieldValues. by rewrite filter_app, fmap_app. Qed.

Lemma fieldValues_own k v : fieldValues k [(k, v)] = [v].
Proof. unfold fieldValues. by rewrite filter_cons, decide_True. Qed.

Lemma owns_single k v : owns k [(k, v)].
Proof. intros name Hn. unfold fieldValues. rewrite filter_cons, decide_False; [done|]. by intros Heq; apply Hn. Qed.

(** What a field reads of an object is its own part. *)
Lemma fieldValues_parts k part parts :
  Forall (λ p, owns p.1 p.2) parts → NoDup (foldName ∘ fst <$> parts) → (k, part) ∈ parts →
  fieldValues k (concat parts.*2) = fieldValues k part.
Proof.
  induction parts as [|[k0 part0] parts IH]; [by intros _ _ ?%elem_of_nil|].
  intros [Hown Hall]%Forall_cons [Hni Hnd]%NoDup_cons Hin. cbn [fmap list_fmap fst snd concat].
  rewrite fieldValues_app.
  assert (∀ l, (∀ p, p ∈ l → owns p.1 p.2 ∧ foldName p.1 ≠ foldName k) → fieldValues k (concat l.*2) = []) as Hnone.
  { induction l as [|[k1 p1] l IHl]; [done|]. intros Hl. cbn [fmap list_fmap fst snd concat].
    destruct (Hl (k1, p1)) as [Ho Hne]; [left|].
    rewrite fieldValues_app. rewrite (Ho k (λ Heq, Hne (eq_sym Heq)) : fieldValues k p1 = []). apply IHl. intros p Hp. apply Hl. by right. }
  apply elem_of_cons in Hin as [[= -> ->]|Hin].
  - rewrite (Hnone parts), app_nil_r; [done|]. intros p Hp. rewrite Forall_forall in Hall. split; [by apply Hall|].
    intros Heq. apply Hni, list_elem_of_fmap. exists p. split; [exact (eq_sym Heq)|done].
  - assert (fieldValues k part0 = []) as ->; [|by apply IH]. apply Hown. intros Heq.
    apply Hni, list_elem_of_fmap. exists (k, part). split; [exact (eq_sym Heq)|done].
Qed.

Lemma ptr_survives {A} (OK : A → Prop) encode zero into k (o : option A) :
  survives OK encode zero into → (∀ a, o = Some a → OK a) →
  ∃ part, fPtr k encode o = Ok part ∧ owns k part ∧
    foldl (intoPtr zero into) (None, true) (fieldValues k part) = (o, true).
Proof.
  intros Hs Ho. destruct o as [a|]; [|by exists []].
  destruct (Hs a (Ho a eq_refl)) as (fs & He & Hd). exists [(k, JObj fs)]. cbn [fPtr]. rewrite He. split_and!; [done|apply owns_single|].
  rewrite fieldValues_own. cbn. by rewrite Hd.
Qed.

(** Frames whose numbers have their width, whose payloads are JSON, and that
    have a type. *)
Record frameOK (f : Frame) : Prop := {
  ok_lane : laneOK (frame_Lane f);
  ok_type : frame_Type f ≠ "";
  ok_hello : ∀ h, frame_Hello f = Some h → helloOK h;
  ok_welcome : ∀ w, frame_Welcome f = Some w → welcomeOK w;
  ok_intent : ∀ i, frame_Intent f = Some i → intentOK i;
  ok_ack : ∀ a, frame_Ack f = Some a → ackOK a;
  ok_event : ∀ e, frame_Event f = Some e → eventOK e;
  ok_ephemeral : ∀ e, frame_Ephemeral f = Some e → ephemeralOK e;
  ok_error : ∀ e, frame_Error f = Some e → errorOK e;
  ok_ping : ∀ z, frame_Ping f = Some z → in_int64 z;
  ok_resync : ∀ r, frame_Resync f = Some r → in_int64 (resync_FromSeq r)
}.

Lemma frame_survives f : frameOK f → ∃ data, JSONEncode f = Ok data ∧ JSONDecode data = Ok f.
Proof.
  intros []. destruct f as [lane type hello welcome intent ack event ephemeral error ping resync]. cbn in *.
  destruct (ptr_survives _ _ _ _ "hello" hello hello_survives ok_hello0) as (p1 & E1 & O1 & D1).
  destruct (ptr_survives _ _ _ _ "welcome" welcome welcome_survives ok_welcome0) as (p2 & E2 & O2 & D2).
  destruct (ptr_survives _ _ _ _ "intent" intent intent_survives ok_intent0) as (p3 & E3 & O3 & D3).
  destruct (ptr_survives _ _ _ _ "ack" ack ack_survives ok_ack0) as (p4 & E4 & O4 & D4).
  destruct (ptr_survives _ _ _ _ "event" event event_survives ok_event0) as (p5 & E5 & O5 & D5).
  destruct (ptr_survives _ _ _ _ "ephemeral" ephemeral ephemeral_survives ok_ephemeral0) as (p6 & E6 & O6 & D6).
  destruct (ptr_survives _ _ _ _ "error" error error_survives ok_error0) as (p7 & E7 & O7 & D7).
  destruct (ptr_survives _ _ _ _ "ping" ping ping_survives ok_ping0) as (p8 & E8 & O8 & D8).
  destruct (ptr_survives _ _ _ _ "resync" resync resync_survives ok_resync0) as (p9 & E9 & O9 & D9).
  set (parts := [("lane", fInt "lane" (laneByte lane)); ("type", fStr "type" type); ("hello", p1); ("welcome", p2);
    ("intent", p3); ("ack", p4); ("event", p5); ("ephemeral", p6); ("error", p7); ("ping", p8); ("resync", p9)]).
  assert (∀ k part, (k, part) ∈ parts → fieldValues k (concat parts.*2) = fieldValues k part) as Hpart.
  { intros k part. apply fieldValues_parts; [|by apply (bool_decide_unpack _); vm_compute].
    repeat constructor; try done; apply owns_single. }
  exists (Raw (JObj (concat parts.*2))). split.
  { unfold JSONEncode, encodeFrame. cbn [frame_Lane frame_Type frame_Hello frame_Welcome frame_Intent frame_Ack frame_Event
      frame_Ephemeral frame_Error frame_Ping frame_Resync]. rewrite E1, E2, E3, E4, E5, E6, E7, E8, E9.
    cbn [mbind res_bind parts fmap list_fmap snd concat]. by rewrite app_nil_r. }
  unfold JSONDecode. cbn [structFields]. unfold decodeFrame, decodePtr, decodeField.
  rewrite (Hpart "lane" (fInt "lane" (laneByte lane))), (Hpart "type" (fStr "type" type)),
    (Hpart "hello" p1), (Hpart "welcome" p2), (Hpart "intent" p3), (Hpart "ack" p4), (Hpart "event" p5),
    (Hpart "ephemeral" p6), (Hpart "error" p7), (Hpart "ping" p8), (Hpart "resync" p9) by (unfold parts; set_solver).
  rewrite D1, D2, D3, D4, D5, D6, D7, D8, D9. unfold fInt, fStr. rewrite !fieldValues_own. cbn [foldl convString fst snd].
  destruct (laneOf_laneByte lane ok_lane0) as [Hl Hb].
  rewrite convUint_num; [|].
  - cbn. rewrite Hl. by rewrite bool_decide_eq_false_2.
  - unfold uint. destruct lane; cbn in *; lia.
Qed.

(** *** What is decoded *)

Lemma uint_0 width : 0 ≤ width → uint width 0.
Proof. intros Hw. split; [done|]. by apply Z.pow_pos_nonneg. Qed.

Lemma convUint_range width j z : convUint width j = Some (Some z) → uint width z.
Proof.
  unfold convUint. destruct j as [| |n| | |]; try done. destruct (ni n) as [k|]; cbn; [|done].
  destruct ((0 <=? k) && _) eqn:E; [|done]. intros [= <-]. apply andb_prop in E as [?%Z.leb_le ?%Z.ltb_lt]. done.
Qed.

Lemma convInt_range j z : convInt j = Some (Some z) → in_int64 z.
Proof.
  unfold convInt. destruct j as [| |n| | |]; try done. destruct (ni n) as [k|]; cbn; [|done].
  case_bool_decide; [|done]. by intros [= <-].
Qed.

Lemma convRawMessage_json j r : convRawMessage j = Some (Some r) → isJSON r.
Proof. by intros [= <-]. Qed.

Lemma decoded_uint width z name fs : uint width z → uint width (decodeField (convUint width) z name fs).1.
Proof. intros Hz. apply (decodeField_inv (uint width)); [done|]. apply convUint_range. Qed.
Lemma decoded_int z name fs : in_int64 z → in_int64 (decodeField convInt z name fs).1.
Proof. intros Hz. apply (decodeField_inv in_int64); [done|]. apply convInt_range. Qed.
Lemma decoded_raw r name fs : isJSON r → isJSON (decodeField convRawMessage r name fs).1.
Proof. intros Hr. apply (decodeField_inv isJSON); [done|]. apply convRawMessage_json. Qed.

Lemma decoded_params acc js : isMap acc.1 → isMap (foldl intoParams acc js).1.
Proof.
  revert acc. induction js as [|j js IH]; intros [ps ok] Hp; [done|]. apply IH. clear IH. cbn in Hp.
  destruct j as [| | | | |fs]; try done; [constructor|]. cbn. revert ps ok Hp.
  induction fs as [|[k v] fs IH]; intros ps ok Hp; [done|]. cbn [foldl fst snd].
  destruct v; try (by apply IH); by apply IH, putParam_isMap.
Qed.

(** A body that is decoded into a good one is good. *)
Definition decodesTo {A} (OK : A → Prop) (zero : A) (into : A → list (string * json) → A * bool) : Prop :=
  OK zero ∧ ∀ a fs, OK a → OK (into a fs).1.

Lemma decodePtr_OK {A} (OK : A → Prop) zero into name fs a :
  decodesTo OK zero into → (decodePtr zero into name fs).1 = Some a → OK a.
Proof.
  intros [Hz Hinto]. unfold decodePtr.
  assert (∀ js (acc : option A * bool), (∀ x, acc.1 = Some x → OK x) →
    ∀ x, (foldl (intoPtr zero into) acc js).1 = Some x → OK x) as Hfold.
  { induction js as [|j js IH]; intros acc Hacc; [done|]. cbn [foldl]. apply IH. intros x. unfold intoPtr.
    destruct j as [| | | | |gs]; try apply Hacc; [done|].
    pose proof (Hinto (default zero acc.1) gs) as Hi. destruct (into _ gs) as [y ok]. cbn. intros [= <-].
    apply Hi. destruct acc.1 as [z|] eqn:E; [by apply Hacc|done]. }
  by apply (Hfold _ (None, true)).
Qed.

(** Read a body field by field. *)
Ltac decoded_fields :=
  repeat match goal with
    | |- context [decodeField ?c ?d ?n ?fs] =>
        let E := fresh "E" in let x := fresh "x" in let b := fresh "b" in
        destruct (decodeField c d n fs) as [x b] eqn:E; apply (f_equal fst) in E; cbn [fst] in E
    end; subst.

Lemma hello_decodes : decodesTo helloOK (MkHello "" "" 0 0 "" []) intoHello.
Proof.
  split; [split; [by apply uint_0|done]|]. intros h fs [Hv Hs]. unfold intoHello. decoded_fields.
  split; [by apply decoded_uint|by apply decoded_int].
Qed.
Lemma welcome_decodes : decodesTo welcomeOK (MkWelcome "" "" "" 0 0 "") intoWelcome.
Proof.
  split; [done|]. intros w fs [Hs Hf]. unfold intoWelcome. decoded_fields. split; by apply decoded_int.
Qed.
Lemma intent_decodes : decodesTo intentOK (MkIntent 0 "" "" RawEmpty) intoIntent.
Proof.
  split; [split; [by apply uint_0|done]|]. intros i fs [Hr Hp]. unfold intoIntent. decoded_fields.
  split; [by apply decoded_uint|by apply decoded_raw].
Qed.
Lemma ack_decodes : decodesTo ackOK (MkAck 0 0 RawEmpty) intoAck.
Proof.
  split; [split_and!; [by apply uint_0|done|done]|]. intros a fs (Hr & Hs & Hp). unfold intoAck. decoded_fields.
  split_and!; [by apply decoded_uint|by apply decoded_int|by apply decoded_raw].
Qed.
Lemma event_decodes : decodesTo eventOK (MkEventBody 0 "" "" "" RawEmpty) intoEvent.
Proof.
  split; [done|]. intros e fs [Hs Hp]. unfold intoEvent. decoded_fields.
  split; [by apply decoded_int|by apply decoded_raw].
Qed.
Lemma ephemeral_decodes : decodesTo ephemeralOK (MkEphemeral "" "" "" "" RawEmpty) intoEphemeral.
Proof. split; [done|]. intros e fs Hp. unfold intoEphemeral. decoded_fields. by apply decoded_raw. Qed.
Lemma error_decodes : decodesTo errorOK (MkErrorBody 0 "" "" []) intoError.
Proof.
  split; [split; [by apply uint_0|constructor]|]. intros e fs [Hr Hp]. unfold intoError. decoded_fields.
  pose proof (decoded_params (error_Params e, true) (fieldValues "params" fs) Hp) as Hm.
  destruct (foldl intoParams _ _) as [ps ok]. split; [by apply decoded_uint|exact Hm].
Qed.
Lemma ping_decodes : decodesTo in_int64 0 intoPing.
Proof. split; [done|]. intros z fs Hz. by apply decoded_int. Qed.
Lemma resync_decodes : decodesTo (λ r, in_int64 (resync_FromSeq r)) (MkResync "" 0) intoResync.
Proof. split; [done|]. intros r fs Hr. unfold intoResync. decoded_fields. by apply decoded_int. Qed.

Lemma laneOf_OK z : uint 8 z → laneOK (laneOf z).
Proof.
  intros [H0 H8]. change (2 ^ 8) with 256 in H8. unfold laneOf. rewrite Z.mod_small by lia.
  destruct (Z.eqb_spec z 0), (Z.eqb_spec z 1), (Z.eqb_spec z 2); cbn; try done; lia.
Qed.

(** Whatever the text, a frame that decodes is a good one. *)
Lemma JSONDecode_OK data f : JSONDecode data = Ok f → frameOK f.
Proof.
  unfold JSONDecode. destruct (structFields data) as [fs|]; [|done]. unfold decodeFrame.
  pose proof (decoded_uint 8 0 "lane" fs (uint_0 8 ltac:(done))) as Hlane.
  destruct (decodeField (convUint 8) 0 "lane" fs) as [lane b0]. destruct (decodeField convString "" "type" fs) as [type b1].
  pose proof (λ a, decodePtr_OK _ _ _ "hello" fs a hello_decodes) as H1.
  pose proof (λ a, decodePtr_OK _ _ _ "welcome" fs a welcome_decodes) as H2.
  pose proof (λ a, decodePtr_OK _ _ _ "intent" fs a intent_decodes) as H3.
  pose proof (λ a, decodePtr_OK _ _ _ "ack" fs a ack_decodes) as H4.
  pose proof (λ a, decodePtr_OK _ _ _ "event" fs a event_decodes) as H5.
  pose proof (λ a, decodePtr_OK _ _ _ "ephemeral" fs a ephemeral_decodes) as H6.
  pose proof (λ a, decodePtr_OK _ _ _ "error" fs a error_decodes) as H7.
  pose proof (λ a, decodePtr_OK _ _ _ "ping" fs a ping_decodes) as H8.
  pose proof (λ a, decodePtr_OK _ _ _ "resync" fs a resync_decodes) as H9.
  repeat match goal with |- context [decodePtr ?z ?i ?n fs] => destruct (decodePtr z i n fs) as [? ?] end.
  destruct (negb _); [done|]. case_bool_decide as Htype; [done|]. intros [= <-].
  split; cbn in *; auto. by apply laneOf_OK.
Qed.

(** C34: the readable codec is faithful.  A frame of any type, whatever bodies it
    carries, whose numbers have the width of their fields and whose payloads are
    JSON, encodes, and its text decodes to the same frame; and whatever text is
    decoded (members in any order and case, repeated, null or unknown) gives such a
    frame, with a type, or is refused, so what was decoded can be sent on as it
    is. *)
Theorem json_round_trip :
  (∀ f, frameOK f → ∃ data, JSONEncode f = Ok data ∧ JSONDecode data = Ok f) ∧
  (∀ data f, JSONDecode data = Ok f → frame_Type f ≠ "" ∧ ∃ data', JSONEncode f = Ok data' ∧ JSONDecode data' = Ok f).
Proof.
  split; [exact frame_survives|]. intros data f HOK%JSONDecode_OK. split; [apply HOK|by apply frame_survives].
Qed.
