(* ===== verification/Outbox.v ===== *)
(** * The outbox of a session (internal/transport/ws/outbox.go)

    Three lanes of frames waiting to be written: control, document (bounded,
    overflow is an error) and ephemeral (one slot per key, the oldest key makes
    room).  The mutex makes every operation atomic; the channel [signal], which
    holds one token, is a flag.

    The ephemeral lane is a map of frames and a list of keys.  The
    specification is [Lane], an association list in arrival order: the second
    part shows that the two implement it, the third that no wake-up of the
    writer is lost. *)

From S2P Require Import Prelude GoStrings Json Frame.

Local Open Scope Z_scope.

Definition defaultDocumentCap : Z := 256.
Definition defaultEphemeralCap : Z := 64.

Record outbox := MkOutbox {
  control : list Frame;
  document : list Frame;
  ephemeral : gmap string Frame;
  order : list string;
  documentCap : Z;
  ephemeralCap : Z;
  signal : bool;
  closed : bool;
  overflow : bool;
  droppedEphemeral : Z
}.

Definition newOutbox (documentCap ephemeralCap : Z) : outbox :=
  MkOutbox [] [] ∅ []
    (if documentCap <=? 0 then defaultDocumentCap else documentCap)
    (if ephemeralCap <=? 0 then defaultEphemeralCap else ephemeralCap)
    false false false 0.

(** [wake]: a send that does nothing when the channel is full. *)
Definition wake (o : outbox) : outbox :=
  MkOutbox (control o) (document o) (ephemeral o) (order o) (documentCap o) (ephemeralCap o)
    true (closed o) (overflow o) (droppedEphemeral o).

Definition PushControl (frame : Frame) : M outbox unit := λ o,
  if closed o then (Err ErrOutboxClosed, o)
  else (Ok tt, wake (MkOutbox (control o ++ [frame]) (document o) (ephemeral o) (order o)
                       (documentCap o) (ephemeralCap o) (signal o) (closed o) (overflow o)
                       (droppedEphemeral o))).

Definition PushDocument (frame : Frame) : M outbox unit := λ o,
  if closed o then (Err ErrOutboxClosed, o)
  else if documentCap o <=? Z.of_nat (length (document o)) then
    (Err ErrSlowConsumer,
     MkOutbox (control o) (document o) (ephemeral o) (order o) (documentCap o) (ephemeralCap o)
       (signal o) (closed o) true (droppedEphemeral o))
  else (Ok tt, wake (MkOutbox (control o) (document o ++ [frame]) (ephemeral o) (order o)
                       (documentCap o) (ephemeralCap o) (signal o) (closed o) (overflow o)
                       (droppedEphemeral o))).

(** [o.order[0]] panics on an empty order, which a cap above zero rules out;
    the model then keeps the lane as it is. *)
Definition evictOldest (o : outbox) : outbox :=
  if ephemeralCap o <=? Z.of_nat (length (order o)) then
    match order o with
    | oldest :: rest =>
        MkOutbox (control o) (document o) (delete oldest (ephemeral o)) rest (documentCap o)
          (ephemeralCap o) (signal o) (closed o) (overflow o) (droppedEphemeral o + 1)
    | [] => o
    end
  else o.

Definition PushEphemeral (key : string) (frame : Frame) : M outbox unit := λ o,
  if closed o then (Err ErrOutboxClosed, o)
  else match ephemeral o !! key with
       | Some _ =>
           (Ok tt, wake (MkOutbox (control o) (document o) (<[key := frame]> (ephemeral o)) (order o)
                           (documentCap o) (ephemeralCap o) (signal o) (closed o) (overflow o)
                           (droppedEphemeral o)))
       | None =>
           let o := evictOldest o in
           (Ok tt, wake (MkOutbox (control o) (document o) (<[key := frame]> (ephemeral o))
                           (order o ++ [key]) (documentCap o) (ephemeralCap o) (signal o) (closed o)
                           (overflow o) (droppedEphemeral o)))
       end.

Definition PrependDocument (frames : list Frame) : M outbox unit := λ o,
  if isNil frames then (Ok tt, o)
  else if closed o then (Err ErrOutboxClosed, o)
  else (Ok tt, wake (MkOutbox (control o) (frames ++ document o) (ephemeral o) (order o)
                       (documentCap o) (ephemeralCap o) (signal o) (closed o) (overflow o)
                       (droppedEphemeral o))).

(** A key of the order that the map lacks would yield the zero frame. *)
Definition zeroFrame : Frame := bare LaneControl "".

Definition Pop (o : outbox) : option Frame * outbox :=
  let with_lanes c d e r :=
    MkOutbox c d e r (documentCap o) (ephemeralCap o) (signal o) (closed o) (overflow o)
      (droppedEphemeral o) in
  match control o with
  | frame :: rest => (Some frame, with_lanes rest (document o) (ephemeral o) (order o))
  | [] =>
      match document o with
      | frame :: rest => (Some frame, with_lanes [] rest (ephemeral o) (order o))
      | [] =>
          match order o with
          | key :: rest =>
              (Some (default zeroFrame (ephemeral o !! key)),
               with_lanes [] [] (delete key (ephemeral o)) rest)
          | [] => (None, o)
          end
      end
  end.

Definition Close (o : outbox) : outbox :=
  if closed o then o
  else wake (MkOutbox (control o) (document o) (ephemeral o) (order o) (documentCap o)
               (ephemeralCap o) (signal o) true (overflow o) (droppedEphemeral o)).

Definition Depth (o : outbox) : nat * nat * nat :=
  (length (control o), length (document o), length (order o)).

(** ** Runs *)

Inductive outOp :=
  | OpControl (frame : Frame) | OpDocument (frame : Frame) | OpEphemeral (key : string) (frame : Frame)
  | OpPrepend (frames : list Frame) | OpPop | OpClose.

Inductive outRes := Pushed (r : res unit) | Popped (frame : option Frame).

Definition outStep (op : outOp) (o : outbox) : outRes * outbox :=
  match op with
  | OpControl f => let '(r, o) := PushControl f o in (Pushed r, o)
  | OpDocument f => let '(r, o) := PushDocument f o in (Pushed r, o)
  | OpEphemeral k f => let '(r, o) := PushEphemeral k f o in (Pushed r, o)
  | OpPrepend fs => let '(r, o) := PrependDocument fs o in (Pushed r, o)
  | OpPop => let '(f, o) := Pop o in (Popped f, o)
  | OpClose => (Pushed (Ok tt), Close o)
  end.

Fixpoint outRun (ops : list outOp) (o : outbox) : list outRes * outbox :=
  match ops with
  | [] => ([], o)
  | op :: ops => let '(r, o) := outStep op o in let '(rs, o) := outRun ops o in (r :: rs, o)
  end.

(** ** Specification *)

Record Lanes := MkLanes {
  a_control : list Frame;
  a_document : list Frame;
  a_ephemeral : list (string * Frame);
  a_documentCap : Z;
  a_ephemeralCap : Z;
  a_closed : bool
}.

(** The latest frame of a key takes the place of the one waiting. *)
Definition replaceKey (key : string) (frame : Frame) (l : list (string * Frame)) : list (string * Frame) :=
  (λ kv, if bool_decide (kv.1 = key) then (key, frame) else kv) <$> l.

(** A new key queues up at the end; a full lane loses its oldest. *)
Definition enqueueKey (cap : Z) (key : string) (frame : Frame) (l : list (string * Frame))
    : list (string * Frame) :=
  (if cap <=? Z.of_nat (length l) then tail l else l) ++ [(key, frame)].

Definition aStep (op : outOp) (a : Lanes) : outRes * Lanes :=
  let lanes c d e := MkLanes c d e (a_documentCap a) (a_ephemeralCap a) (a_closed a) in
  let refuse := (Pushed (Err ErrOutboxClosed), a) in
  match op with
  | OpControl f =>
      if a_closed a then refuse
      else (Pushed (Ok tt), lanes (a_control a ++ [f]) (a_document a) (a_ephemeral a))
  | OpDocument f =>
      if a_closed a then refuse
      else if a_documentCap a <=? Z.of_nat (length (a_document a)) then (Pushed (Err ErrSlowConsumer), a)
      else (Pushed (Ok tt), lanes (a_control a) (a_document a ++ [f]) (a_ephemeral a))
  | OpEphemeral k f =>
      if a_closed a then refuse
      else (Pushed (Ok tt), lanes (a_control a) (a_document a)
              (if bool_decide (k ∈ (a_ephemeral a).*1) then replaceKey k f (a_ephemeral a)
               else enqueueKey (a_ephemeralCap a) k f (a_ephemeral a)))
  | OpPrepend [] => (Pushed (Ok tt), a)
  | OpPrepend fs =>
      if a_closed a then refuse
      else (Pushed (Ok tt), lanes (a_control a) (fs ++ a_document a) (a_ephemeral a))
  | OpPop =>
      match a_control a, a_document a, a_ephemeral a with
      | f :: rest, d, e => (Popped (Some f), lanes rest d e)
      | [], f :: rest, e => (Popped (Some f), lanes [] rest e)
      | [], [], (_, f) :: rest => (Popped (Some f), lanes [] [] rest)
      | [], [], [] => (Popped None, a)
      end
  | OpClose => (Pushed (Ok tt), MkLanes (a_control a) (a_document a) (a_ephemeral a)
                                  (a_documentCap a) (a_ephemeralCap a) true)
  end.

Fixpoint aRun (ops : list outOp) (a : Lanes) : list outRes * Lanes :=
  match ops with
  | [] => ([], a)
  | op :: ops => let '(r, a) := aStep op a in let '(rs, a) := aRun ops a in (r :: rs, a)
  end.

(** ** Abstraction and invariant *)

Definition frameAt (m : gmap string Frame) (k : string) : Frame := default zeroFrame (m !! k).

Definition absOutbox (o : outbox) : Lanes :=
  MkLanes (control o) (document o) ((λ k, (k, frameAt (ephemeral o) k)) <$> order o)
    (documentCap o) (ephemeralCap o) (closed o).

Record outboxOK (o : outbox) : Prop := {
  ok_nodup : NoDup (order o);
  ok_keys : ∀ k, k ∈ order o ↔ is_Some (ephemeral o !! k);
  ok_cap : 0 < ephemeralCap o;
  ok_bound : Z.of_nat (length (order o)) ≤ ephemeralCap o
}.

Lemma newOutbox_OK d e : outboxOK (newOutbox d e).
Proof.
  unfold newOutbox. constructor; cbn.
  - constructor.
  - intros k. rewrite lookup_empty. split; [by intros ?%elem_of_nil|by intros []].
  - destruct (e <=? 0) eqn:E; [done|]. apply Z.leb_gt in E. lia.
  - destruct (e <=? 0) eqn:E; [done|]. apply Z.leb_gt in E. lia.
Qed.

Lemma frameAt_delete m k (l : list string) :
  k ∉ l → (λ i, (i, frameAt (delete k m) i)) <$> l = (λ i, (i, frameAt m i)) <$> l.
Proof.
  intros Hk. apply list_fmap_ext. intros i x Hx. f_equal. unfold frameAt.
  rewrite lookup_delete_ne; [done|]. intros ->. by apply list_elem_of_lookup_2 in Hx.
Qed.

Lemma frameAt_insert_fresh m k f (l : list string) :
  k ∉ l → (λ i, (i, frameAt (<[k := f]> m) i)) <$> l = (λ i, (i, frameAt m i)) <$> l.
Proof.
  intros Hk. apply list_fmap_ext. intros i x Hx. f_equal. unfold frameAt.
  rewrite lookup_insert_ne; [done|]. intros ->. by apply list_elem_of_lookup_2 in Hx.
Qed.

Lemma frameAt_insert m k f (l : list string) :
  (λ i, (i, frameAt (<[k := f]> m) i)) <$> l = replaceKey k f ((λ i, (i, frameAt m i)) <$> l).
Proof.
  unfold replaceKey. rewrite <-list_fmap_compose. apply list_fmap_ext. intros i x _.
  unfold frameAt. cbn. case_bool_decide as Hk.
  - subst. by rewrite lookup_insert_eq.
  - by rewrite lookup_insert_ne.
Qed.

Lemma fst_tagged (m : gmap string Frame) (l : list string) : ((λ k, (k, frameAt m k)) <$> l).*1 = l.
Proof. rewrite <-list_fmap_compose. apply list_fmap_id. Qed.

Lemma evictOldest_OK o :
  outboxOK o → 
  let o' := evictOldest o in
  outboxOK o' ∧ Z.of_nat (length (order o')) < ephemeralCap o' ∧
  (∀ k, k ∈ order o' → k ∈ order o) ∧
  (λ k, (k, frameAt (ephemeral o') k)) <$> order o' =
    (let l := (λ k, (k, frameAt (ephemeral o) k)) <$> order o in
     if ephemeralCap o <=? Z.of_nat (length l) then tail l else l) ∧
  control o' = control o ∧ document o' = document o ∧ documentCap o' = documentCap o ∧
  ephemeralCap o' = ephemeralCap o ∧ closed o' = closed o.
Proof.
  intros [Hn Hk Hc Hb]. unfold evictOldest. cbn zeta. rewrite length_fmap.
  destruct (ephemeralCap o <=? Z.of_nat (length (order o))) eqn:E.
  - destruct (order o) as [|x rest] eqn:Eo; [cbn in E; apply Z.leb_le in E; lia|].
    apply NoDup_cons in Hn as [Hx Hn]. split_and!; try done.
    + constructor; cbn; [done| |done|cbn in Hb; lia].
      intros k. destruct (decide (k = x)) as [->|Hne].
      * rewrite lookup_delete_eq. split; [done|by intros []].
      * rewrite lookup_delete_ne by done. rewrite <-Hk, elem_of_cons. tauto.
    + cbn in *. lia.
    + intros k Hin. by right.
    + by apply frameAt_delete.
  - apply Z.leb_gt in E. split_and!; try done.
Qed.

(** One operation of the code is the operation of the specification. *)
Lemma outStep_refines op o :
  outboxOK o →
  let '(r, o') := outStep op o in outboxOK o' ∧ aStep op (absOutbox o) = (r, absOutbox o').
Proof.
  intros OK. pose proof OK as [Hn Hk Hc Hb]. destruct op as [f|f|k f|fs| |]; cbn [outStep].
  - unfold PushControl, aStep. cbn. by destruct (closed o) eqn:E.
  - unfold PushDocument, aStep. cbn. destruct (closed o) eqn:E; [done|].
    destruct (documentCap o <=? _); [|done]. split; [by constructor|]. unfold absOutbox. cbn. by rewrite E.
  - unfold PushEphemeral, aStep. cbn [absOutbox a_closed a_ephemeral]. destruct (closed o) eqn:E; [done|].
    rewrite fst_tagged. destruct (ephemeral o !! k) as [old|] eqn:Ek.
    + assert (k ∈ order o) as Hin by (apply Hk; by eexists).
      rewrite bool_decide_eq_true_2 by done. split.
      * constructor; cbn; [done| |done|done]. intros i.
        destruct (decide (i = k)) as [->|Hne]; [rewrite lookup_insert_eq|by rewrite lookup_insert_ne].
        split; [by eexists|done].
      * unfold absOutbox. cbn. by rewrite frameAt_insert.
    + assert (k ∉ order o) as Hin by (rewrite Hk, Ek; by intros []).
      rewrite bool_decide_eq_false_2 by done.
      destruct (evictOldest_OK o OK) as ([Hn' Hk' Hc' Hb'] & Hlt & Hsub & Hl & -> & -> & -> & Hcap & Hcl).
      set (o' := evictOldest o) in *. assert (k ∉ order o') as Hin' by (intros ?%Hsub; done). split.
      * constructor; cbn.
        -- apply NoDup_app. split_and!; [done| |apply NoDup_singleton].
           intros i Hi ->%list_elem_of_singleton. done.
        -- intros i. rewrite elem_of_app, list_elem_of_singleton.
           destruct (decide (i = k)) as [->|Hne];
             [rewrite lookup_insert_eq; split; [by eexists|by right]|].
           rewrite lookup_insert_ne, Hk' by done. naive_solver.
        -- done.
        -- rewrite length_app. cbn. lia.
      * unfold absOutbox. cbn. rewrite Hcap, Hcl, E. unfold enqueueKey.
        rewrite fmap_app, frameAt_insert_fresh by done. rewrite Hl. cbn zeta.
        assert (frameAt (<[k := f]> (ephemeral o')) k = f) as Hf
          by (unfold frameAt; by rewrite lookup_insert_eq).
        cbn [fmap list_fmap]. by rewrite Hf.
  - unfold PrependDocument, aStep. destruct fs as [|f fs]; [done|]. cbn. by destruct (closed o) eqn:E.
  - unfold Pop, aStep. cbn. destruct (control o) as [|f c]; [|done].
    destruct (document o) as [|f d]; [|done].
    destruct (order o) as [|k rest] eqn:Eo.
    { split; [done|]. unfold absOutbox. by rewrite Eo. }
    apply NoDup_cons in Hn as [Hx Hn]. split.
    + constructor; cbn; [done| |done|cbn in Hb; lia].
      intros i. destruct (decide (i = k)) as [->|Hne].
      * rewrite lookup_delete_eq. split; [done|by intros []].
      * rewrite lookup_delete_ne by done. rewrite <-Hk, elem_of_cons. tauto.
    + unfold absOutbox. cbn. by rewrite frameAt_delete.
  - unfold Close, aStep. destruct (closed o) eqn:E; [|done]. split; [done|].
    unfold absOutbox. cbn. by rewrite E.
Qed.

Lemma outRun_refines ops o :
  outboxOK o →
  let '(rs, o') := outRun ops o in outboxOK o' ∧ aRun ops (absOutbox o) = (rs, absOutbox o').
Proof.
  revert o. induction ops as [|op ops IH]; intros o OK; [done|]. cbn [outRun aRun].
  pose proof (outStep_refines op o OK) as Hs. destruct (outStep op o) as [r o1].
  destruct Hs as [OK1 ->]. specialize (IH o1 OK1). destruct (outRun ops o1) as [rs o2].
  by destruct IH as [OK2 ->].
Qed.

(** ** The document lane *)

Definition isPrepend (op : outOp) : bool := match op with OpPrepend _ => true | _ => false end.

(** The document frames a run accepts, and those it hands out. *)
Definition docAccepted (op : outOp) (o : outbox) : list Frame :=
  match op, (outStep op o).1 with
  | OpDocument f, Pushed (Ok _) => [f]
  | _, _ => []
  end.
Definition docPopped (op : outOp) (o : outbox) : list Frame :=
  match op, control o, document o with
  | OpPop, [], f :: _ => [f]
  | _, _, _ => []
  end.

Fixpoint docRun (ops : list outOp) (o : outbox) : list Frame * list Frame * outbox :=
  match ops with
  | [] => ([], [], o)
  | op :: ops =>
      let '(accepted, popped, o') := docRun ops (outStep op o).2 in
      (docAccepted op o ++ accepted, docPopped op o ++ popped, o')
  end.

Lemma docStep_fifo op o :
  isPrepend op = false →
  docPopped op o ++ document (outStep op o).2 = document o ++ docAccepted op o.
Proof.
  intros Hp. unfold docPopped, docAccepted.
  destruct op as [f|f|k f|fs| |]; cbn [outStep]; try done.
  - unfold PushControl. destruct (closed o); cbn; by rewrite app_nil_r.
  - unfold PushDocument. destruct (closed o); cbn; [by rewrite app_nil_r|].
    destruct (documentCap o <=? _); cbn; by rewrite ?app_nil_r.
  - unfold PushEphemeral, evictOldest. destruct (closed o); cbn; [by rewrite app_nil_r|].
    destruct (ephemeral o !! k); cbn; [by rewrite app_nil_r|].
    destruct (_ <=? _); [|cbn; by rewrite app_nil_r].
    destruct (order o); cbn; by rewrite app_nil_r.
  - unfold Pop. rewrite app_nil_r. destruct (control o) as [|c cs]; [|done].
    destruct (document o) as [|d ds] eqn:E; cbn; [|done]. by destruct (order o); cbn.
  - unfold Close. rewrite app_nil_r. by destruct (closed o).
Qed.

(** ** The writer's wake-up *)

Inductive writerPc := Popping | Checking | Waiting | Done.

Record writer := MkWriter { w_box : outbox; w_pc : writerPc }.

Definition drained (o : outbox) : bool := isNil (control o) && isNil (document o) && isNil (order o).

Definition clearSignal (o : outbox) : outbox :=
  MkOutbox (control o) (document o) (ephemeral o) (order o) (documentCap o) (ephemeralCap o)
    false (closed o) (overflow o) (droppedEphemeral o).

(** [writeLoop] against any other goroutine: the writer pops until the outbox is
    empty, then looks whether it is closed, then waits for the signal. *)
Inductive writerStep : writer → writer → Prop :=
  | step_other op o pc : op ≠ OpPop → writerStep (MkWriter o pc) (MkWriter (outStep op o).2 pc)
  | step_pop o f o' : Pop o = (Some f, o') → writerStep (MkWriter o Popping) (MkWriter o' Popping)
  | step_empty o o' : Pop o = (None, o') → writerStep (MkWriter o Popping) (MkWriter o' Checking)
  | step_closed o : closed o = true → writerStep (MkWriter o Checking) (MkWriter o Done)
  | step_open o : closed o = false → writerStep (MkWriter o Checking) (MkWriter o Waiting)
  | step_woken o : signal o = true → writerStep (MkWriter o Waiting) (MkWriter (clearSignal o) Popping)
  | step_stop o pc : writerStep (MkWriter o pc) (MkWriter o Done).

Definition wakeInv (w : writer) : Prop :=
  match w_pc w with
  | Checking => drained (w_box w) = false → signal (w_box w) = true
  | Waiting => (drained (w_box w) = false ∨ closed (w_box w) = true) → signal (w_box w) = true
  | _ => True
  end.

Lemma outStep_signal op o :
  op ≠ OpPop →
  signal (outStep op o).2 = true ∨
  (signal (outStep op o).2 = signal o ∧ drained (outStep op o).2 = drained o ∧
   closed (outStep op o).2 = closed o).
Proof.
  intros Hop. destruct op as [f|f|k f|fs| |]; cbn [outStep]; try done.
  - unfold PushControl. destruct (closed o) eqn:E; cbn; auto.
  - unfold PushDocument. destruct (closed o) eqn:E; cbn; [auto|]. destruct (_ <=? _); cbn; auto.
  - unfold PushEphemeral. destruct (closed o) eqn:E; cbn; [auto|]. destruct (_ !! _); cbn; auto.
  - unfold PrependDocument. destruct (isNil fs); [cbn; auto|]. destruct (closed o) eqn:E; cbn; auto.
  - unfold Close. destruct (closed o) eqn:E; cbn; auto.
Qed.

Lemma Pop_None o o' : Pop o = (None, o') → o' = o ∧ drained o = true.
Proof.
  unfold Pop, drained. destruct (control o); [|done]. destruct (document o); [|done].
  destruct (order o); [|done]. by intros [= <-].
Qed.

Lemma writerStep_inv w w' : writerStep w w' → wakeInv w → wakeInv w'.
Proof.
  intros Hs Hi. destruct Hs as [op o pc Hop|o f o' Hp|o o' Hp|o Hc|o Hc|o Hc|o pc]; unfold wakeInv in *;
    cbn in *; try done.
  - destruct (outStep_signal op o Hop) as [Hsig|(-> & -> & ->)]; [by destruct pc|done].
  - apply Pop_None in Hp as [-> Hd]. rewrite Hd. done.
  - intros [Hd|Hc']; [by apply Hi|congruence].
Qed.

Lemma writerSteps_inv w w' : rtc writerStep w w' → wakeInv w → wakeInv w'.
Proof. induction 1; eauto using writerStep_inv. Qed.

(** ** Theorems *)

(** C23: the outbox is its specification.  For every sequence of operations on a
    new outbox the answers (frames, errors) are those of three plain queues, the
    ephemeral one holding the latest frame of each key in the order the keys
    arrived; the map and the key list always agree, no key is listed twice, and
    the ephemeral lane never exceeds its cap. *)
Theorem outbox_refines_lanes : ∀ d e ops,
  let '(rs, o) := outRun ops (newOutbox d e) in
  aRun ops (absOutbox (newOutbox d e)) = (rs, absOutbox o) ∧ outboxOK o.
Proof.
  intros d e ops. pose proof (outRun_refines ops _ (newOutbox_OK d e)) as H.
  destruct (outRun ops (newOutbox d e)) as [rs o]. tauto.
Qed.

(** The document lane loses and reorders nothing.  Over any sequence of
    operations without [PrependDocument], the document frames handed out
    followed by those still waiting are those that were waiting followed by
    those accepted, in order, whatever happens on the other lanes and after a
    close. *)
Theorem document_lane_fifo : ∀ ops o,
  Forall (λ op, isPrepend op = false) ops →
  let '(accepted, popped, o') := docRun ops o in
  popped ++ document o' = document o ++ accepted.
Proof.
  intros ops o Hp. revert o. induction Hp as [|op ops Hop Hp IH]; intros o; cbn [docRun].
  { by rewrite app_nil_r. }
  specialize (IH (outStep op o).2). destruct (docRun ops (outStep op o).2) as [[acc pop] o'].
  rewrite <-app_assoc, IH, app_assoc, docStep_fifo by done. by rewrite <-app_assoc.
Qed.

(** No wake-up is lost.  However the pushes, the close and the writer's own
    steps interleave, a writer that waits for a signal that is not there has
    nothing to do: every lane is empty and the outbox is open. *)
Theorem no_lost_wakeup : ∀ d e w,
  rtc writerStep (MkWriter (newOutbox d e) Popping) w →
  w_pc w = Waiting → signal (w_box w) = false →
  drained (w_box w) = true ∧ closed (w_box w) = false.
Proof.
  intros d e w Hr Hpc Hsig.
  assert (wakeInv w) as Hi by exact (writerSteps_inv _ _ Hr I).
  unfold wakeInv in Hi. rewrite Hpc in Hi.
  destruct (drained (w_box w)) eqn:Ed; [|rewrite Hi in Hsig; auto; done].
  destruct (closed (w_box w)) eqn:Ec; [|done]. rewrite Hi in Hsig; auto; done.
Qed.
