(* ===== verification/Hub.v ===== *)
(** * Fan-out (internal/transport/ws/hub.go, and the session state it touches)

    Sessions are shared objects: the hub, the session's own goroutines and the
    handlers all hold them.  They live in a heap indexed by session id; a hub is
    the set of ids it fans out to. *)

From S2P Require Import Prelude GoStrings Json Frame Outbox.

Local Open Scope Z_scope.

Definition WorldChannel (id : ID) : string := "world:" +:+ id.
Definition SceneChannel (id : ID) : string := "scene:" +:+ id.
Definition ActorChannel (id : ID) : string := "actor:" +:+ id.
Definition UserChannel (id : ID) : string := "user:" +:+ id.

Record Publication := MkPublication {
  pub_Channel : string;
  pub_Lane : Lane;
  pub_Key : string;
  pub_Frame : Frame;
  pub_PerUser : option (gmap ID Frame);
  pub_Audience : list ID;
  pub_Exclude : string
}.

Definition allows (p : Publication) (userID : ID) : bool :=
  if isNil (pub_Audience p) then true else existsb (λ a, bool_decide (a = userID)) (pub_Audience p).

(** The state of a session that its methods read or write. *)
Record Session := MkSession {
  sess_id : string;
  sess_userID : ID;
  sess_worldID : ID;
  sess_role : string;
  sess_displayName : string;
  sess_subscriptions : gset string;
  sess_outbox : outbox;
  sess_lastSeq : Z
}.

Definition with_outbox (o : outbox) (s : Session) : Session :=
  MkSession (sess_id s) (sess_userID s) (sess_worldID s) (sess_role s) (sess_displayName s)
    (sess_subscriptions s) o (sess_lastSeq s).

Definition Subscribe (channels : list string) (s : Session) : Session :=
  MkSession (sess_id s) (sess_userID s) (sess_worldID s) (sess_role s) (sess_displayName s)
    (sess_subscriptions s ∪ list_to_set channels) (sess_outbox s) (sess_lastSeq s).

Definition Unsubscribe (channels : list string) (s : Session) : Session :=
  MkSession (sess_id s) (sess_userID s) (sess_worldID s) (sess_role s) (sess_displayName s)
    (sess_subscriptions s ∖ list_to_set channels) (sess_outbox s) (sess_lastSeq s).

Definition Subscribed (channel : string) (s : Session) : bool :=
  bool_decide (channel ∈ sess_subscriptions s).

(** An operation of the session's outbox. *)
Definition onOutbox {A} (m : M outbox A) : M Session A := λ s,
  let '(r, o) := m (sess_outbox s) in (r, with_outbox o s).

Definition deliver (p : Publication) (frame : Frame) : M Session unit :=
  match pub_Lane p with
  | LaneEphemeral => onOutbox (PushEphemeral (pub_Key p) frame)
  | LaneControl => onOutbox (PushControl frame)
  | LaneDocument | LaneOther _ => onOutbox (PushDocument frame)
  end.

Definition CloseWithResync (reason : string) (fromSeq : Z) (s : Session) : Session :=
  let s := (onOutbox (PushControl (resyncFrame reason fromSeq)) s).2 in
  with_outbox (Close (sess_outbox s)) s.

(** [sessions], the local of [run], and the heap of sessions. *)
Record hubState := MkHubState {
  hub_sessions : gset string;
  hub_heap : gmap string Session
}.

(** The frame a publication carries for a session, if any: the filters of
    [fanOut]'s loop. *)
Definition frameFor (p : Publication) (id : string) (s : Session) : option Frame :=
  if bool_decide (id = pub_Exclude p) then None
  else if negb (Subscribed (pub_Channel p) s) then None
  else if negb (allows p (sess_userID s)) then None
  else match pub_PerUser p with
       | None => Some (pub_Frame p)
       | Some perUser => perUser !! sess_userID s
       end.

(** The body of [fanOut]'s loop. *)
Definition fanOutStep (p : Publication) (h : hubState) (id : string) : hubState :=
  match hub_heap h !! id with
  | None => h
  | Some session =>
      match frameFor p id session with
      | None => h
      | Some frame =>
          match deliver p frame session with
          | (Ok _, session) => MkHubState (hub_sessions h) (<[id := session]> (hub_heap h))
          | (Err _, session) =>
              MkHubState (hub_sessions h ∖ {[id]})
                (<[id := CloseWithResync "slow consumer" (sess_lastSeq session) session]> (hub_heap h))
          end
      end
  end.

Definition fanOut (p : Publication) (h : hubState) : hubState :=
  foldl (fanOutStep p) h (elements (hub_sessions h)).

(** What the channels of a hub carry, and [run]'s handling of it. *)
Inductive hubMsg := MsgJoin (id : string) | MsgLeave (id : string) | MsgPublish (p : Publication) | MsgQuit.

Definition closeAll (h : hubState) : hubState :=
  MkHubState ∅ (foldl (λ heap id, alter (CloseWithResync "world closed" 0) id heap)
                  (hub_heap h) (elements (hub_sessions h))).

Definition hubStep (m : hubMsg) (h : hubState) : hubState :=
  match m with
  | MsgJoin id => MkHubState (hub_sessions h ∪ {[id]}) (hub_heap h)
  | MsgLeave id => MkHubState (hub_sessions h ∖ {[id]}) (hub_heap h)
  | MsgPublish p => fanOut p h
  | MsgQuit => closeAll h
  end.

(** Sessions sit in the heap under their id, and a hub knows only such. *)
Definition hubOK (h : hubState) : Prop :=
  map_Forall (λ id s, sess_id s = id) (hub_heap h) ∧
  ∀ id, id ∈ hub_sessions h → is_Some (hub_heap h !! id).

(** ** Lemmas *)

Lemma with_outbox_fields o s :
  sess_id (with_outbox o s) = sess_id s ∧ sess_userID (with_outbox o s) = sess_userID s ∧
  sess_lastSeq (with_outbox o s) = sess_lastSeq s.
Proof. done. Qed.

Lemma deliver_outbox p f s r s' : deliver p f s = (r, s') → ∃ o, s' = with_outbox o s.
Proof.
  unfold deliver, onOutbox.
  destruct (pub_Lane p);
    match goal with |- context [let '(_, _) := ?m in _] => destruct m as [r0 o] end;
    intros [= <- <-]; by exists o.
Qed.

Lemma CloseWithResync_outbox reason q s : ∃ o, CloseWithResync reason q s = with_outbox o s.
Proof. unfold CloseWithResync, onOutbox. destruct (PushControl _ _) as [r o]. by eexists. Qed.

Lemma allows_iff p u : allows p u = true ↔ pub_Audience p = [] ∨ u ∈ pub_Audience p.
Proof.
  unfold allows. destruct (pub_Audience p) as [|a l] eqn:E; cbn [isNil]; [tauto|].
  rewrite existsb_exists. split.
  - intros (x & Hx & ->%bool_decide_eq_true). right. by apply list_elem_of_In.
  - intros [|Hu]; [done|]. exists u. split; [by apply list_elem_of_In|by apply bool_decide_eq_true].
Qed.

(** Whom a publication reaches. *)
Lemma frameFor_iff p id s :
  is_Some (frameFor p id s) ↔
    id ≠ pub_Exclude p ∧ pub_Channel p ∈ sess_subscriptions s ∧
    (pub_Audience p = [] ∨ sess_userID s ∈ pub_Audience p) ∧
    (∀ perUser, pub_PerUser p = Some perUser → is_Some (perUser !! sess_userID s)).
Proof.
  rewrite <-allows_iff. unfold frameFor, Subscribed.
  case_bool_decide as H1; [by split; [intros []|intros []]|].
  case_bool_decide as H2; cbn [negb]; [|by split; [intros []|intros (_ & ? & _)]].
  destruct (allows p _); cbn [negb]; [|by split; [intros []|intros (_ & _ & ? & _)]].
  destruct (pub_PerUser p) as [m|]; split.
  - intros Hs. split_and!; try done. by intros ? [= <-].
  - intros (_ & _ & _ & Hm). by apply Hm.
  - done.
  - intros _. by eexists.
Qed.

(** What one session becomes, and whether it stays. *)
Definition fanned (p : Publication) (id : string) (s : Session) : Session * bool :=
  match frameFor p id s with
  | None => (s, true)
  | Some frame =>
      match deliver p frame s with
      | (Ok _, s) => (s, true)
      | (Err _, s) => (CloseWithResync "slow consumer" (sess_lastSeq s) s, false)
      end
  end.

Lemma fanOutStep_spec p h id :
  (∀ i, i ≠ id → hub_heap (fanOutStep p h id) !! i = hub_heap h !! i) ∧
  (∀ i, i ≠ id → (i ∈ hub_sessions (fanOutStep p h id) ↔ i ∈ hub_sessions h)) ∧
  ∀ s, hub_heap h !! id = Some s →
    hub_heap (fanOutStep p h id) !! id = Some (fanned p id s).1 ∧
    (id ∈ hub_sessions (fanOutStep p h id) ↔ id ∈ hub_sessions h ∧ (fanned p id s).2 = true).
Proof.
  destruct (hub_heap h !! id) as [s|] eqn:E; [|unfold fanOutStep; rewrite E; by split_and!].
  assert (fanOutStep p h id =
    MkHubState (if (fanned p id s).2 then hub_sessions h else hub_sessions h ∖ {[id]})
      (<[id := (fanned p id s).1]> (hub_heap h))) as ->.
  { unfold fanOutStep, fanned. rewrite E. destruct (frameFor p id s) as [f|]; cbn.
    - by destruct (deliver p f s) as [[] s'].
    - rewrite insert_id by done. by destruct h. }
  cbn. split_and!.
  - intros i Hi. by rewrite lookup_insert_ne.
  - intros i Hi. destruct (fanned p id s).2; [done|]. set_solver.
  - intros s0 [= <-]. rewrite lookup_insert_eq. split; [done|].
    destruct (fanned p id s).2; [|set_solver]. split; [done|by intros []].
Qed.

Lemma fanOut_loop p ids h :
  NoDup ids →
  let h' := foldl (fanOutStep p) h ids in
  (∀ i, i ∉ ids → hub_heap h' !! i = hub_heap h !! i ∧ (i ∈ hub_sessions h' ↔ i ∈ hub_sessions h)) ∧
  (∀ i s, i ∈ ids → hub_heap h !! i = Some s →
     hub_heap h' !! i = Some (fanned p i s).1 ∧
     (i ∈ hub_sessions h' ↔ i ∈ hub_sessions h ∧ (fanned p i s).2 = true)).
Proof.
  intros Hd. revert h. induction Hd as [|id ids Hn Hd IH]; intros h; cbn [foldl].
  { split; [done|]. intros i s Hi. by apply elem_of_nil in Hi. }
  destruct (fanOutStep_spec p h id) as (H1 & H2 & H3). destruct (IH (fanOutStep p h id)) as [H4 H5]. split.
  - intros i [Hi Hin]%not_elem_of_cons. destruct (H4 i Hin) as [-> ->].
    split; [by apply H1|by apply H2].
  - intros i s [->|Hin]%elem_of_cons Hs.
    + destruct (H4 id Hn) as [-> ->]. by apply H3.
    + assert (i ≠ id) as Hne by (intros ->; done).
      destruct (H5 i s Hin) as [H6 H7]; [by rewrite H1|]. split; [done|]. by rewrite H7, H2.
Qed.

(** ** Theorems *)

(** C19: fan-out reaches exactly whom it should, with exactly what they may see.
    Each member session of the hub that is not the sender's, is subscribed to the
    channel and is in the audience receives one frame on the publication's lane:
    its own user's projection when the publication is per user (nothing if the
    user has none), the common frame otherwise.  A session whose document lane
    overflows is told to resync, closed and dropped from the hub; every other
    session, inside and outside the hub, is untouched. *)
Theorem fanOut_exact : ∀ p h id s,
  hub_heap h !! id = Some s →
  let h' := fanOut p h in
  (is_Some (frameFor p id s) ↔
     id ≠ pub_Exclude p ∧ pub_Channel p ∈ sess_subscriptions s ∧
     (pub_Audience p = [] ∨ sess_userID s ∈ pub_Audience p) ∧
     (∀ perUser, pub_PerUser p = Some perUser → is_Some (perUser !! sess_userID s))) ∧
  if decide (id ∈ hub_sessions h) then
    match frameFor p id s with
    | None => hub_heap h' !! id = Some s ∧ id ∈ hub_sessions h'
    | Some frame =>
        (pub_PerUser p = None → frame = pub_Frame p) ∧
        (∀ perUser, pub_PerUser p = Some perUser → perUser !! sess_userID s = Some frame) ∧
        match deliver p frame s with
        | (Ok _, s') => hub_heap h' !! id = Some s' ∧ id ∈ hub_sessions h'
        | (Err _, s') =>
            hub_heap h' !! id = Some (CloseWithResync "slow consumer" (sess_lastSeq s) s') ∧
            id ∉ hub_sessions h'
        end
    end
  else hub_heap h' !! id = Some s ∧ id ∉ hub_sessions h'.
Proof.
  intros p h id s Hs h'. split; [apply frameFor_iff|]. destruct (fanOut_loop p (elements (hub_sessions h)) h) as [Hout Hin].
  { apply NoDup_elements. }
  fold (fanOut p h) in Hout, Hin. fold h' in Hout, Hin.
  destruct (decide (id ∈ hub_sessions h)) as [Hm|Hm].
  2:{ destruct (Hout id) as [-> ->]; [by rewrite elem_of_elements|]. done. }
  destruct (Hin id s) as [Hh Hk]; [by rewrite elem_of_elements|done|]. unfold fanned in Hh, Hk.
  destruct (frameFor p id s) as [frame|] eqn:Ef; [|cbn in *; tauto].
  assert ((pub_PerUser p = None → frame = pub_Frame p) ∧
          ∀ perUser, pub_PerUser p = Some perUser → perUser !! sess_userID s = Some frame) as [Hc Hp].
  { unfold frameFor in Ef.
    destruct (bool_decide _); [done|]. destruct (negb _); [done|]. destruct (negb _); [done|].
    destruct (pub_PerUser p) as [m|]; split; try done; [intros ? [= <-]|intros _; by injection Ef]; done. }
  destruct (deliver p frame s) as [[u|e] s'] eqn:Ed; cbn in *; split_and!; try done; try tauto.
  - apply deliver_outbox in Ed as [o ->]. exact Hh.
  - rewrite Hk. by intros [_ ?].
Qed.
