(* ===== verification/Session.v ===== *)
(** * A session of the gateway (internal/transport/ws/session.go)

    The handshake, the welcome with its catch-up, the frames a client may send
    and the writer's duplicate filter.  What the codec makes of a message, and
    whether a write succeeds, are arguments; the hub and the outbox are those
    of Hub.v and Outbox.v. *)

From S2P Require Import Prelude GoStrings Json Perm Storage Redact Access Vision Sight Frame Outbox Ticket Hub.

Local Open Scope Z_scope.

Definition catchUpLimit : Z := 500.

Record IntentResult := MkIntentResult { ir_Seq : Z; ir_Result : raw }.

Definition NewSession (id : string) (documentCap ephemeralCap : Z) : Session :=
  MkSession id "" "" "" "" ∅ (newOutbox documentCap ephemeralCap) 0.

(** ** What a recipient is shown of a document *)

Record DocumentView := MkDocumentView {
  dv_ID : string; dv_Seq : Z; dv_Kind : string; dv_Subtype : string; dv_Name : string; dv_Img : string;
  dv_Data : raw; dv_Flags : raw; dv_Ownership : raw; dv_UpdatedSeq : Z
}.

Definition viewOf (view : View) (seq : Z) : DocumentView :=
  let doc := view_Document view in
  MkDocumentView (doc_ID doc) seq (doc_Kind doc) (doc_Subtype doc) (doc_Name doc) (doc_Img doc)
    (doc_Data doc) (doc_Flags doc) (doc_Ownership doc) (doc_UpdatedSeq doc).

Definition MarshalView (v : DocumentView) : res raw :=
  data ← fRaw "data" (dv_Data v);
  flags ← fRawOpt "flags" (dv_Flags v);
  ownership ← fRawOpt "ownership" (dv_Ownership v);
  Ok (Raw (JObj (fStr "id" (dv_ID v) ++ fInt "seq" (dv_Seq v) ++ fStr "kind" (dv_Kind v) ++
    fStrOpt "subtype" (dv_Subtype v) ++ fStr "name" (dv_Name v) ++ fStrOpt "img" (dv_Img v) ++
    data ++ flags ++ ownership ++ fInt "updatedSeq" (dv_UpdatedSeq v)))).

Definition SubjectOf (s : Session) : Subject := MkSubject (sess_userID s) (sess_role s).

Definition DisplayName (s : Session) : string :=
  if bool_decide (sess_displayName s = "") then sess_userID s else sess_displayName s.

Definition audienceAllows (audience : raw) (userID : ID) : bool :=
  match audience with
  | RawEmpty => true
  | _ =>
      match UnmarshalStrings audience with
      | Err _ => true
      | Ok allowed => if isNil allowed then true else existsb (λ c, bool_decide (c = userID)) allowed
      end
  end.

Definition codeForHandshake (e : err) : string :=
  if errors_Is e ErrTicketInvalid then CodeUnauthorized
  else if errors_Is e ErrNotAMember then CodeForbidden
  else CodeBadRequest.

Section Session.
Context {S : Type} `{Query S}.
Variable policy : FieldPolicy.

(** ** Handshake *)

Definition resolveRole (q : S) (s : Session) : res Role :=
  match RoleOf q (sess_worldID s) (sess_userID s) with
  | Ok role => Ok role
  | Err _ => Err ErrNotAMember
  end.

Definition resolveDisplayName (q : S) (s : Session) : string :=
  match GetUser q (sess_userID s) with Ok user => user_Username user | Err _ => "" end.

Definition identify (userID worldID : ID) (s : Session) : Session :=
  MkSession (sess_id s) userID worldID (sess_role s) (sess_displayName s) (sess_subscriptions s)
    (sess_outbox s) (sess_lastSeq s).

Definition named (role displayName : string) (s : Session) : Session :=
  MkSession (sess_id s) (sess_userID s) (sess_worldID s) role displayName (sess_subscriptions s)
    (sess_outbox s) (sess_lastSeq s).

(** [authenticate]: [received] is the first message after the codec. *)
Definition authenticate (q : S) (received : res Frame) (now : Time) (st : Session * TicketStore)
    : res Hello * (Session * TicketStore) :=
  let '(s, tickets) := st in
  match received with
  | Err e => (Err e, st)
  | Ok frame =>
      match frame_Hello frame with
      | Some hello =>
          if negb (bool_decide (frame_Type frame = TypeHello)) then
            (Err (ErrOther "ws: first frame must be hello"), st)
          else if (hello_ProtocolVersion hello <? MinProtocolVersion)
                  || (ProtocolVersion <? hello_ProtocolVersion hello) then
            (Err (ErrOther "ws: unsupported protocol version"), st)
          else
            match Redeem (hello_Ticket hello) now tickets with
            | (Err e, tickets) => (Err e, (s, tickets))
            | (Ok ticket, tickets) =>
                if negb (bool_decide (hello_WorldID hello = ""))
                   && negb (bool_decide (hello_WorldID hello = ticket_WorldID ticket)) then
                  (Err (ErrOther "ws: ticket does not grant this world"), (s, tickets))
                else
                  let s := identify (ticket_UserID ticket) (ticket_WorldID ticket) s in
                  match resolveRole q s with
                  | Err e => (Err e, (s, tickets))
                  | Ok role =>
                      let s := named role (resolveDisplayName q s) s in
                      (Ok hello,
                       (Subscribe [WorldChannel (sess_worldID s); UserChannel (sess_userID s)] s, tickets))
                  end
            end
      | None => (Err (ErrOther "ws: first frame must be hello"), st)
      end
  end.

(** ** Catch-up *)

(** [replayPayload]: [None] is an event that is left out. *)
Definition replayPayload (q : S) (s : Session) (event : Event) : res (option raw) :=
  if negb (bool_decide (event_TargetKind event = "document")) || bool_decide (event_TargetID event = "")
  then Ok (Some (event_Payload event))
  else
    match GetDocument q (sess_worldID s) (event_TargetID event) with
    | Err e => if errors_Is e ErrNotFound then Ok None else Err e
    | Ok doc =>
        let subject := SubjectOf s in
        grant ← GrantOf q subject doc;
        visible ← RedactDocument doc subject grant policy;
        match visible with
        | None => Ok None
        | Some v =>
            inSight ← CanSee q subject (sess_worldID s) doc;
            if negb inSight then Ok None
            else payload ← MarshalView (viewOf (MkView subject grant v) (event_Seq event)); Ok (Some payload)
        end
    end.

Definition eventOf (event : Event) (payload : raw) : Frame :=
  eventFrame (MkEventBody (event_Seq event) (event_Kind event) (event_WorldID event)
                (event_SceneID event) payload).

(** The body of [replayFrames]'s loop. *)
Definition replayStep (q : S) (s : Session) (frames : list Frame) (event : Event) : res (list Frame) :=
  if negb (audienceAllows (event_Audience event) (sess_userID s)) then Ok frames
  else
    payload ← replayPayload q s event;
    match payload with
    | None => Ok frames
    | Some payload => Ok (frames ++ [eventOf event payload])
    end.

Definition replayFrames (q : S) (s : Session) (fromSeq : Z) : res (list Frame) :=
  events ← EventsSince q (sess_worldID s) fromSeq catchUpLimit;
  foldM (replayStep q s) [] events.

Definition storeLastSeq (seq : Z) (s : Session) : Session :=
  MkSession (sess_id s) (sess_userID s) (sess_worldID s) (sess_role s) (sess_displayName s)
    (sess_subscriptions s) (sess_outbox s) seq.

(** [welcome]: [write] is what the connection does with the welcome frame. *)
Definition welcome (q : S) (write : Frame → res unit) (hello : Hello) : M Session unit := λ s,
  match GetWorld q (sess_worldID s) with
  | Err e => (Err e, s)
  | Ok world =>
      let deltaFrom := if (hello_LastSeq hello <? 0) || (world_EventSeq world <? hello_LastSeq hello)
                       then 0 else hello_LastSeq hello in
      let s := storeLastSeq deltaFrom s in
      match write (welcomeFrame (MkWelcome (sess_id s) (sess_userID s) (sess_role s)
                     (world_EventSeq world) deltaFrom "")) with
      | Err e => (Err e, s)
      | Ok _ =>
          match replayFrames q s deltaFrom with
          | Err e => (Err e, s)
          | Ok replay => onOutbox (PrependDocument replay) s
          end
      end
  end.
End Session.

(** ** Reading *)

Definition pushControl (f : Frame) (s : Session) : Session := (onOutbox (PushControl f) s).2.
Definition pushDocument (f : Frame) (s : Session) : Session := (onOutbox (PushDocument f) s).2.

Definition handlePing (frame : Frame) (s : Session) : Session :=
  pushControl (pongFrame (default 0 (frame_Ping frame))) s.

(** [handleEphemeral]: the session and what it publishes. *)
Definition handleEphemeral (frame : Frame) (s : Session) : Session * list Publication :=
  match frame_Ephemeral frame with
  | None => (pushControl (errorFrame 0 CodeBadRequest "core.ws.ephemeralNeedsKey") s, [])
  | Some e =>
      if bool_decide (eph_Key e = "") then
        (pushControl (errorFrame 0 CodeBadRequest "core.ws.ephemeralNeedsKey") s, [])
      else
        let channel := if bool_decide (eph_SceneID e = "") then WorldChannel (sess_worldID s)
                       else SceneChannel (eph_SceneID e) in
        (s, [MkPublication channel LaneEphemeral (eph_Key e) (ephemeralFrame e) None [] (sess_id s)])
  end.

(** What a handler leaves behind: its answer, the store, and the publications it
    handed to the hub, in order. *)
Record outcome (S : Type) := MkOutcome {
  out_result : res IntentResult;
  out_store : S;
  out_published : list Publication
}.
Arguments MkOutcome {S}. Arguments out_result {S}. Arguments out_store {S}. Arguments out_published {S}.

Definition IntentFunc (S : Type) : Type := Session → Intent → S → outcome S.

(** [type Router struct]. *)
Abbreviation Router S := (gmap string (IntentFunc S)).
Definition NewRouter {S} : Router S := ∅.
Definition Handle {S} (kind : string) (fn : IntentFunc S) (r : Router S) : Router S := <[kind := fn]> r.

(** The frame [handleIntent] answers with. *)
Definition answerFrame (requestID lastSeq : Z) (r : res IntentResult) : Frame :=
  match r with
  | Err (ErrIntent code messageKey) => errorFrame requestID code messageKey
  | Err _ => errorFrame requestID CodeInternal "core.ws.internalError"
  | Ok outcome =>
      ackFrame (MkAck requestID (if ir_Seq outcome =? 0 then lastSeq else ir_Seq outcome) (ir_Result outcome))
  end.

Definition handleIntent {S} (router : Router S) (frame : Frame) (s : Session) (store : S)
    : Session * S * list Publication :=
  match frame_Intent frame with
  | None => (pushControl (errorFrame 0 CodeBadRequest "core.ws.missingIntent") s, store, [])
  | Some intent =>
      match router !! intent_Kind intent with
      | None =>
          (pushDocument (errorFrame (intent_RequestID intent) CodeUnsupported "core.ws.unknownIntent") s,
           store, [])
      | Some handler =>
          let o := handler s intent store in
          (pushDocument (answerFrame (intent_RequestID intent) (sess_lastSeq s) (out_result o)) s,
           out_store o, out_published o)
      end
  end.

(** The body of [readLoop] on one message; [None] is one the codec refuses. *)
Definition readStep {S} (router : Router S) (received : option Frame) (s : Session) (store : S)
    : Session * S * list Publication :=
  match received with
  | None => (pushControl (errorFrame 0 CodeBadRequest "core.ws.malformedFrame") s, store, [])
  | Some frame =>
      if bool_decide (frame_Type frame = TypePing) then (handlePing frame s, store, [])
      else if bool_decide (frame_Type frame = TypeIntent) then handleIntent router frame s store
      else if bool_decide (frame_Type frame = TypeEphemeral) then
        let '(s, ps) := handleEphemeral frame s in (s, store, ps)
      else (pushControl (errorFrame 0 CodeBadRequest "core.ws.unexpectedFrame") s, store, [])
  end.

(** ** Writing *)

(** The part of [writeLoop] that decides about a popped frame: whether it goes
    out, and the sequence remembered. *)
Definition writeFilter (frame : Frame) (lastSeq : Z) : option Frame * Z :=
  match frame_Event frame with
  | Some e =>
      if bool_decide (frame_Type frame = TypeEvent) then
        if ev_Seq e <=? lastSeq then (None, lastSeq) else (Some frame, ev_Seq e)
      else (Some frame, lastSeq)
  | None => (Some frame, lastSeq)
  end.

Fixpoint writeAll (frames : list Frame) (lastSeq : Z) : list Frame * Z :=
  match frames with
  | [] => ([], lastSeq)
  | f :: frames =>
      let '(o, lastSeq) := writeFilter f lastSeq in
      let '(out, lastSeq) := writeAll frames lastSeq in
      (option_list o ++ out, lastSeq)
  end.

(** ** Lemmas *)

(** A view of JSON can be encoded. *)
Lemma MarshalView_readable v seq : readable (view_Document v) → ∃ payload, MarshalView (viewOf v seq) = Ok payload.
Proof.
  intros (Hd & Hf & Ho). unfold MarshalView, viewOf. cbn.
  destruct (doc_Data _), (doc_Flags _), (doc_Ownership _); try done; by eexists.
Qed.

(** The sequence numbers of the events among some frames. *)
Definition eventSeq (f : Frame) : option Z :=
  if bool_decide (frame_Type f = TypeEvent) then ev_Seq <$> frame_Event f else None.
Definition eventSeqs (fs : list Frame) : list Z := omap eventSeq fs.

Lemma eventSeq_eventOf e p : eventSeq (eventOf e p) = Some (event_Seq e).
Proof. done. Qed.

Lemma writeFilter_spec f q :
  match eventSeq f with
  | Some k => writeFilter f q = if k <=? q then (None, q) else (Some f, k)
  | None => writeFilter f q = (Some f, q)
  end.
Proof. unfold eventSeq, writeFilter. destruct (frame_Event f); case_bool_decide; done. Qed.

Lemma eventSeqs_cons f fs : eventSeqs (f :: fs) = option_list (eventSeq f) ++ eventSeqs fs.
Proof. unfold eventSeqs. cbn. by destruct (eventSeq f). Qed.

Lemma writeAll_increasing fs q :
  let '(out, q') := writeAll fs q in
  StronglySorted Z.lt (eventSeqs out) ∧ Forall (λ k, q < k ≤ q') (eventSeqs out) ∧ q ≤ q' ∧
  out `sublist_of` fs ∧ (filter (λ f, eventSeq f = None) out = filter (λ f, eventSeq f = None) fs).
Proof.
  revert q. induction fs as [|f fs IH]; intros q; cbn [writeAll].
  { split_and!; [constructor|constructor|lia|constructor|done]. }
  pose proof (writeFilter_spec f q) as Hf. destruct (eventSeq f) as [k|] eqn:Ek.
  - destruct (k <=? q) eqn:Eq.
    + rewrite Hf. specialize (IH q). destruct (writeAll fs q) as [out q'].
      destruct IH as (H1 & H2 & H3 & H4 & H5). change (option_list None ++ out) with out.
      split_and!; [done|done|done|by constructor|]. rewrite H5, filter_cons, decide_False; [done|congruence].
    + apply Z.leb_gt in Eq. rewrite Hf. specialize (IH k). destruct (writeAll fs k) as [out q'].
      destruct IH as (H1 & H2 & H3 & H4 & H5). change (option_list (Some f) ++ out) with (f :: out).
      rewrite eventSeqs_cons, Ek. change (option_list (Some k) ++ ?l) with (k :: l). cbn [app].
      split_and!; [| |lia|by constructor|].
      * constructor; [done|]. eapply Forall_impl; [exact H2|]. cbn. lia.
      * constructor; [lia|]. eapply Forall_impl; [exact H2|]. cbn. lia.
      * rewrite !filter_cons, H5. by rewrite !decide_False by congruence.
  - rewrite Hf. specialize (IH q). destruct (writeAll fs q) as [out q'].
    destruct IH as (H1 & H2 & H3 & H4 & H5). change (option_list (Some f) ++ out) with (f :: out).
    rewrite eventSeqs_cons, Ek. change (option_list None ++ eventSeqs out) with (eventSeqs out).
    split_and!; [done|done|done|by constructor|].
    rewrite !filter_cons, H5. by rewrite !decide_True by congruence.
Qed.

(** In order, nothing above the starting point is dropped. *)
Lemma writeAll_sorted fs q :
  StronglySorted Z.lt (eventSeqs fs) → Forall (λ k, q < k) (eventSeqs fs) → (writeAll fs q).1 = fs.
Proof.
  revert q. induction fs as [|f fs IH]; intros q Hs Hq; [done|]. cbn [writeAll].
  pose proof (writeFilter_spec f q) as Hf. rewrite eventSeqs_cons in Hs, Hq.
  destruct (eventSeq f) as [k|] eqn:Ek.
  - change (option_list (Some k) ++ eventSeqs fs) with (k :: eventSeqs fs) in *.
    inversion Hs as [|? ? Hs' Hk]; subst. apply Forall_cons in Hq as [Hkq Hq].
    rewrite (proj2 (Z.leb_gt _ _)) in Hf by lia. rewrite Hf.
    specialize (IH k Hs' Hk). destruct (writeAll fs k) as [out q']. cbn in *. by subst.
  - rewrite Hf. specialize (IH q Hs Hq). destruct (writeAll fs q) as [out q']. cbn in *. by subst.
Qed.

Lemma writeAll_app fs gs q :
  writeAll (fs ++ gs) q =
  (let '(a, q1) := writeAll fs q in let '(b, q2) := writeAll gs q1 in (a ++ b, q2)).
Proof.
  revert q. induction fs as [|f fs IH]; intros q; cbn [app writeAll].
  { by destruct (writeAll gs q). }
  destruct (writeFilter f q) as [o q1]. rewrite IH. destruct (writeAll fs q1) as [a q2].
  destruct (writeAll gs q2) as [b q3]. by rewrite app_assoc.
Qed.

Lemma writeAll_last fs q :
  (∀ k, k ∈ eventSeqs fs → k ≤ (writeAll fs q).2) ∧ 
  ((writeAll fs q).2 = q ∨ (writeAll fs q).2 ∈ eventSeqs fs).
Proof.
  revert q. induction fs as [|f fs IH]; intros q; cbn [writeAll].
  { split; [intros k Hk; by apply elem_of_nil in Hk|by left]. }
  pose proof (writeFilter_spec f q) as Hf. pose proof (writeAll_increasing fs) as Hinc.
  setoid_rewrite eventSeqs_cons. setoid_rewrite elem_of_app.
  destruct (eventSeq f) as [k|] eqn:Ek.
  - change (option_list (Some k)) with [k]. setoid_rewrite list_elem_of_singleton.
    destruct (k <=? q) eqn:E; rewrite Hf.
    + apply Z.leb_le in E. destruct (IH q) as [H1 H2]. specialize (Hinc q).
      destruct (writeAll fs q) as [out q']; cbn in *. destruct Hinc as (_ & _ & Hle & _).
      split; [intros ? [->|?]; [lia|by apply H1]|tauto].
    + apply Z.leb_gt in E. destruct (IH k) as [H1 H2]. specialize (Hinc k).
      destruct (writeAll fs k) as [out q']; cbn in *. destruct Hinc as (_ & _ & Hle & _).
      split; [intros ? [->|?]; [lia|by apply H1]|]. destruct H2; tauto.
  - rewrite Hf. change (option_list (@None Z)) with (@nil Z). destruct (IH q) as [H1 H2].
    destruct (writeAll fs q) as [out q']; cbn in *.
    split; [intros ? [?%elem_of_nil|?]; [done|by apply H1]|tauto].
Qed.

(** Whether a frame is no event up to [q]. *)
Definition fresh (q : Z) (f : Frame) : bool :=
  match eventSeq f with Some k => q <? k | None => true end.

Lemma writeAll_fresh fs q :
  StronglySorted Z.lt (eventSeqs fs) → (writeAll fs q).1 = filter (λ f, fresh q f = true) fs.
Proof.
  induction fs as [|f fs IH]; intros Hs; [done|]. cbn [writeAll].
  pose proof (writeFilter_spec f q) as Hf. rewrite eventSeqs_cons in Hs. rewrite filter_cons.
  pose proof (eq_refl : fresh q f = match eventSeq f with Some k => q <? k | None => true end) as Hfr.
  destruct (eventSeq f) as [k|] eqn:Ek.
  - change (option_list (Some k) ++ eventSeqs fs) with (k :: eventSeqs fs) in Hs.
    inversion Hs as [|? ? Hs' Hk]; subst. destruct (k <=? q) eqn:E.
    + apply Z.leb_le in E. rewrite Hf, decide_False by (rewrite Hfr, (proj2 (Z.ltb_ge _ _)); [done|lia]).
      rewrite <-IH by done. by destruct (writeAll fs q).
    + apply Z.leb_gt in E. rewrite Hf, decide_True by (rewrite Hfr; by apply Z.ltb_lt).
      pose proof (writeAll_sorted fs k Hs' Hk) as Hall. destruct (writeAll fs k) as [out q'].
      cbn in *. subst. f_equal. symmetry. apply filter_id_on. intros g Hg. unfold fresh.
      destruct (eventSeq g) as [j|] eqn:Ej; [|done]. apply Z.ltb_lt.
      rewrite Forall_forall in Hk. specialize (Hk j). etrans; [exact E|]. apply Hk.
      apply list_elem_of_omap. by exists g.
  - rewrite Hf, decide_True by done. rewrite <-IH by done. by destruct (writeAll fs q).
Qed.

Section SessionLaws.
Context {S : Type} `{QueryLaws S}.
Implicit Types (q : S) (s : Session).

Lemma replayStep_frames policy q s events frames frames' :
  foldM (replayStep policy q s) frames events = Ok frames' →
  ∃ new, frames' = frames ++ new ∧
    Forall (λ f, ∃ e p, e ∈ events ∧ audienceAllows (event_Audience e) (sess_userID s) = true ∧
                        replayPayload policy q s e = Ok (Some p) ∧ f = eventOf e p) new ∧
    eventSeqs new `sublist_of` (event_Seq <$> events).
Proof.
  revert frames. induction events as [|e events IH]; intros frames; cbn [foldM].
  { intros [= <-]. exists []. rewrite app_nil_r. split_and!; [done|constructor|constructor]. }
  intros (f1 & Hstep & Hr)%bind_Ok. destruct (IH _ Hr) as (new & -> & Hall & Hsub).
  assert (Forall (λ f, ∃ e0 p, e0 ∈ e :: events ∧ audienceAllows (event_Audience e0) (sess_userID s) = true ∧
    replayPayload policy q s e0 = Ok (Some p) ∧ f = eventOf e0 p) new) as Hall'.
  { eapply Forall_impl; [exact Hall|]. intros f (e0 & p & Hin & Hrest). exists e0, p.
    split; [by right|done]. }
  unfold replayStep in Hstep. destruct (audienceAllows _ _) eqn:Ea; cbn in Hstep.
  2:{ injection Hstep as <-. exists new. split_and!; [done|done|]. cbn. by constructor. }
  apply bind_Ok in Hstep as ([p|] & Hp & [= <-]).
  - exists (eventOf e p :: new). rewrite <-app_assoc. split_and!; [done| |].
    + constructor; [|done]. exists e, p. split_and!; [left|done|done|done].
    + rewrite eventSeqs_cons, eventSeq_eventOf. cbn. by constructor.
  - exists new. split_and!; [done|done|]. cbn. by constructor.
Qed.

(** What a replayed payload of a document event shows. *)
Lemma replayPayload_shown policy q s e p :
  replayPayload policy q s e = Ok (Some p) →
  event_TargetKind e = "document" → event_TargetID e ≠ "" →
  ∃ doc grant v, GetDocument q (sess_worldID s) (event_TargetID e) = Ok doc ∧
    GrantOf q (SubjectOf s) doc = Ok grant ∧
    RedactDocument doc (SubjectOf s) grant policy = Ok (Some v) ∧
    CanSee q (SubjectOf s) (sess_worldID s) doc = Ok true ∧
    MarshalView (viewOf (MkView (SubjectOf s) grant v) (event_Seq e)) = Ok p.
Proof.
  intros Hp Hk Ht. unfold replayPayload in Hp.
  rewrite bool_decide_eq_true_2, bool_decide_eq_false_2 in Hp by done. cbn in Hp.
  destruct (GetDocument _ _ _) as [doc|e'] eqn:Ed; [|by destruct (errors_Is _ _)].
  apply bind_Ok in Hp as (grant & Hg & Hp). apply bind_Ok in Hp as ([v|] & Hv & Hp); [|done].
  apply bind_Ok in Hp as ([] & Hs & Hp); [|done]. cbn in Hp.
  apply bind_Ok in Hp as (p' & Hm & [= <-]). by exists doc, grant, v.
Qed.

(** ** Theorems *)

(** C22: the identity of a session is the ticket's and its role is the stored
    one.  A handshake succeeds only with a frame of this protocol version whose
    ticket is redeemed (and thereby used up), for the ticket's own world; the
    session then carries the ticket's user and world, the valid role of the
    membership row whatever role the ticket names, and is subscribed to the
    world's and the user's channel in addition to what it was before. *)
Theorem authenticate_sound : ∀ q received now s tickets hello s' tickets',
  authenticate q received now (s, tickets) = (Ok hello, (s', tickets')) →
  ∃ ticket m, Redeem (hello_Ticket hello) now tickets = (Ok ticket, tickets') ∧
    hello_ProtocolVersion hello = ProtocolVersion ∧
    (hello_WorldID hello = "" ∨ hello_WorldID hello = ticket_WorldID ticket) ∧
    sess_userID s' = ticket_UserID ticket ∧ sess_worldID s' = ticket_WorldID ticket ∧
    GetMember q (ticket_WorldID ticket) (ticket_UserID ticket) = Ok m ∧
    sess_role s' = member_Role m ∧ Valid (sess_role s') = true ∧
    sess_subscriptions s' = sess_subscriptions s ∪
      {[WorldChannel (ticket_WorldID ticket); UserChannel (ticket_UserID ticket)]}.
Proof.
  intros q received now s tickets hello s' tickets' Ha. unfold authenticate in Ha.
  destruct received as [frame|]; [|done]. destruct (frame_Hello frame) as [h|]; [|done].
  destruct (negb _); [done|]. destruct (_ || _) eqn:Ev; [done|].
  apply orb_false_iff in Ev as [Ev1%Z.ltb_ge Ev2%Z.ltb_ge].
  destruct (Redeem _ _ _) as [[ticket|] t1] eqn:Er; [|done]. destruct (negb _ && negb _) eqn:Ew; [done|].
  unfold resolveRole in Ha. destruct (RoleOf _ _ _) as [role|] eqn:Ero; [|done].
  injection Ha as <- <- <-. apply RoleOf_Ok in Ero as (m & Hm & Hrole & Hv).
  exists ticket, m. cbn in *. split_and!; try done.
  - unfold ProtocolVersion, MinProtocolVersion in *. lia.
  - apply andb_false_iff in Ew as [Ew|Ew]; apply negb_false_iff, bool_decide_eq_true in Ew; auto.
  - f_equal. set_solver.
Qed.

(** Catch-up shows no more than live.  The frames of a replay are, in strictly
    increasing order above the client's sequence, events of the log the client is
    in the audience of; where an event concerns a document, what is sent is not
    the logged payload but the current document as that very subject may see it:
    redacted under their grant, and in their line of sight. *)
Theorem replay_confined : ∀ policy q s fromSeq frames,
  wf q → replayFrames policy q s fromSeq = Ok frames →
  StronglySorted Z.lt (eventSeqs frames) ∧ Forall (λ k, fromSeq < k) (eventSeqs frames) ∧
  Forall (λ f, ∃ events e p, EventsSince q (sess_worldID s) fromSeq catchUpLimit = Ok events ∧
    e ∈ events ∧ f = eventOf e p ∧ audienceAllows (event_Audience e) (sess_userID s) = true ∧
    (event_TargetKind e = "document" → event_TargetID e ≠ "" →
     ∃ doc grant v, GetDocument q (sess_worldID s) (event_TargetID e) = Ok doc ∧
       GrantOf q (SubjectOf s) doc = Ok grant ∧
       RedactDocument doc (SubjectOf s) grant policy = Ok (Some v) ∧
       CanSee q (SubjectOf s) (sess_worldID s) doc = Ok true ∧
       MarshalView (viewOf (MkView (SubjectOf s) grant v) (event_Seq e)) = Ok p)) frames.
Proof.
  intros policy q s fromSeq frames Hwf Hr. unfold replayFrames in Hr.
  apply bind_Ok in Hr as (events & He & Hr).
  apply replayStep_frames in Hr as (new & -> & Hall & Hsub). cbn [app].
  destruct (EventsSince_of _ _ _ _ _ Hwf He) as [Hev Hsorted].
  split_and!.
  - by eapply sublist_sorted.
  - apply Forall_forall. intros k Hk. eapply sublist_elem in Hk; [|exact Hsub].
    apply list_elem_of_fmap in Hk as (e & -> & Hin).
    rewrite Forall_forall in Hev. by destruct (Hev _ Hin).
  - eapply Forall_impl; [exact Hall|]. intros f (e & p & Hin & Ha & Hp & ->).
    exists events, e, p. split_and!; try done. intros Hk Ht. by apply replayPayload_shown in Hp.
Qed.
End SessionLaws.

(** The writer sends every event once and in order.  Whatever is popped, the
    events written have strictly increasing numbers above the starting point and
    frames that are no events all go out; and when a replay (in order, above the
    starting point) is followed by live frames in order, what goes out is the
    replay, whole, followed by exactly the live frames that are not events the
    replay already covered. *)
Theorem writer_exactly_once : ∀ replay live start,
  (StronglySorted Z.lt (eventSeqs (writeAll (replay ++ live) start).1) ∧
   Forall (λ k, start < k) (eventSeqs (writeAll (replay ++ live) start).1) ∧
   filter (λ f, eventSeq f = None) (writeAll (replay ++ live) start).1 =
     filter (λ f, eventSeq f = None) (replay ++ live)) ∧
  (StronglySorted Z.lt (eventSeqs replay) → Forall (λ k, start < k) (eventSeqs replay) →
   StronglySorted Z.lt (eventSeqs live) →
   ∃ last, (writeAll (replay ++ live) start).1 = replay ++ filter (λ f, fresh last f = true) live ∧
     (last = start ∨ last ∈ eventSeqs replay) ∧ ∀ k, k ∈ eventSeqs replay → k ≤ last).
Proof.
  intros replay live start. split.
  - pose proof (writeAll_increasing (replay ++ live) start) as Hi.
    destruct (writeAll (replay ++ live) start) as [out q]. destruct Hi as (H1 & H2 & _ & _ & H3).
    split_and!; [done| |done]. eapply Forall_impl; [exact H2|]. cbn. lia.
  - intros Hr Hs Hl. rewrite writeAll_app.
    pose proof (writeAll_sorted replay start Hr Hs) as Hrep.
    pose proof (writeAll_last replay start) as [Hle Hlast].
    destruct (writeAll replay start) as [a last]. cbn in *. subst a.
    pose proof (writeAll_fresh live last Hl) as Hf. destruct (writeAll live last) as [b q]. cbn in *. subst b.
    by exists last.
Qed.

(** Out of order publications lose events.  Two handlers that commit events 1
    and 2 and publish them in the other order (nothing orders the commit of a
    transaction and the send to the hub) leave the client with event 2 only,
    although it has never been sent event 1. *)
Theorem writer_drops_late_event : ∀ e1 e2 p1 p2,
  event_Seq e1 = 1 → event_Seq e2 = 2 →
  (writeAll [eventOf e2 p2; eventOf e1 p1] 0).1 = [eventOf e2 p2] ∧
  (writeAll [eventOf e1 p1; eventOf e2 p2] 0).1 = [eventOf e1 p1; eventOf e2 p2].
Proof.
  intros e1 e2 p1 p2 H1 H2. unfold writeAll, writeFilter, eventOf. cbn.
  rewrite H1, H2. cbn. done.
Qed.

Lemma channel_apart (w sc u : string) :
  SceneChannel sc ≠ WorldChannel w ∧ SceneChannel sc ≠ UserChannel u.
Proof. by split; intros [=]. Qed.

(** Cursors on a scene reach nobody.  A session is subscribed to its world's
    and its user's channel only (the handshake is the one caller of [Subscribe]),
    while an ephemeral frame with a scene id is published to the scene's channel:
    fan-out over any hub of such sessions leaves every one of them as it was. *)
Theorem scene_ephemeral_undelivered : ∀ frame e s h id x,
  frame_Ephemeral frame = Some e → eph_Key e ≠ "" → eph_SceneID e ≠ "" →
  (∀ i y, hub_heap h !! i = Some y →
     sess_subscriptions y ⊆ {[WorldChannel (sess_worldID y); UserChannel (sess_userID y)]}) →
  hub_heap h !! id = Some x →
  ∃ p, handleEphemeral frame s = (s, [p]) ∧ hub_heap (fanOut p h) !! id = Some x.
Proof.
  intros frame e s h id x He Hk Hs Hsub Hx. unfold handleEphemeral.
  rewrite He, !bool_decide_eq_false_2 by done. eexists. split; [done|].
  set (p := MkPublication _ _ _ _ _ _ _).
  assert (∀ i y, hub_heap h !! i = Some y → frameFor p i y = None) as Hnone.
  { intros i y Hy. unfold frameFor. case_bool_decide; [done|]. unfold Subscribed. cbn.
    rewrite bool_decide_eq_false_2; [done|]. intros Hin%(Hsub _ _ Hy).
    destruct (channel_apart (sess_worldID y) (eph_SceneID e) (sess_userID y)). set_solver. }
  assert (∀ ids, foldl (fanOutStep p) h ids = h) as Hid.
  { intros ids. induction ids as [|i ids IH]; [done|]. cbn. unfold fanOutStep at 2.
    destruct (hub_heap h !! i) as [y|] eqn:Ey; [|done]. by rewrite (Hnone i y Ey). }
  unfold fanOut. by rewrite Hid.
Qed.
