(* ===== verification/Intents.v ===== *)
(** * Intents on documents (internal/transport/ws/intents.go)

    Patching a document, moving a token and activating a scene: decode the
    payload, run one transaction (authorize, append the event, change the
    document, project it for every member), then publish and answer. *)

From S2P Require Import Prelude GoStrings Json Perm Storage Redact Access Vision Sight Frame Outbox Ticket Hub Session.

Local Open Scope Z_scope.

(** ** Payloads *)

Record DocumentPatchPayload := MkDocumentPatchPayload {
  dp_ID : string;
  dp_Name : option string;
  dp_Sort : option Z;
  dp_Img : option string;
  dp_Set : list (string * json);
  dp_Unset : list string
}.

Definition decodeDocumentPatch (r : raw) : option DocumentPatchPayload :=
  fs ← structFields r;
  let '(id, o1) := decodeField convString "" "id" fs in
  let '(name, o2) := decodeField (convPtr convString) None "name" fs in
  let '(sort, o3) := decodeField (convPtr convInt) None "sort" fs in
  let '(img, o4) := decodeField (convPtr convString) None "img" fs in
  let '(set, o5) := decodeObjectField "set" fs in
  let '(unset, o6) := decodeField convStrings [] "unset" fs in
  if o1 && o2 && o3 && o4 && o5 && o6 then Some (MkDocumentPatchPayload id name sort img set unset)
  else None.

Definition encodeDocumentPatch (p : DocumentPatchPayload) : raw :=
  Raw (JObj (fStr "id" (dp_ID p) ++ from_option (fStr "name") [] (dp_Name p) ++
    from_option (fInt "sort") [] (dp_Sort p) ++ from_option (fStr "img") [] (dp_Img p) ++
    (if isNil (dp_Set p) then [] else [("set", JObj (dp_Set p))]) ++
    (if isNil (dp_Unset p) then [] else [("unset", JArr (JStr <$> dp_Unset p))]))).

Record TokenMovePayload := MkTokenMovePayload { tm_TokenID : string; tm_X : float64; tm_Y : float64 }.

Definition decodeTokenMove (r : raw) : option TokenMovePayload :=
  fs ← structFields r;
  let '(id, o1) := decodeField convString "" "tokenId" fs in
  let '(x, o2) := decodeField convFloat fzero "x" fs in
  let '(y, o3) := decodeField convFloat fzero "y" fs in
  if o1 && o2 && o3 then Some (MkTokenMovePayload id x y) else None.

Definition encodeTokenMove (p : TokenMovePayload) : raw :=
  Raw (JObj (fStr "tokenId" (tm_TokenID p) ++ fFloat "x" (tm_X p) ++ fFloat "y" (tm_Y p))).

(** A payload with one string member. *)
Definition decodeOneString (name : string) (r : raw) : option string :=
  fs ← structFields r;
  let '(v, ok) := decodeField convString "" name fs in
  if ok then Some v else None.

Record SceneActivated := MkSceneActivated { sa_SceneID : string; sa_Name : string; sa_Seq : Z }.

Definition encodeSceneActivated (a : SceneActivated) : raw :=
  Raw (JObj (fStr "sceneId" (sa_SceneID a) ++ fStr "name" (sa_Name a) ++ fInt "seq" (sa_Seq a))).

Definition malformedPayload : err := ErrIntent CodeBadRequest "core.intent.malformedPayload".

(** The event a handler appends; the store fills in sequence and time. *)
Definition newEvent (s : Session) (kind targetKind : string) (target scene : ID) (payload : raw) : Event :=
  MkEvent (sess_worldID s) 0 0 (sess_userID s) kind targetKind target scene payload RawEmpty RawEmpty.

(** A publication of one frame to everybody in the world. *)
Definition toWorld (s : Session) (seq : Z) (kind scene : string) (payload : raw) : Publication :=
  MkPublication (WorldChannel (sess_worldID s)) LaneDocument ""
    (eventFrame (MkEventBody seq kind (sess_worldID s) scene payload)) None [] "".

Definition perUserPublication (s : Session) (perUser : gmap ID Frame) : Publication :=
  MkPublication (WorldChannel (sess_worldID s)) LaneDocument "" zeroFrame (Some perUser) [] "".

Definition withSeq (seq : Z) (p : Patch) : Patch :=
  MkPatch (patch_Name p) (patch_Sort p) (patch_Img p) (patch_FolderID p) (patch_Set p) (patch_Unset p)
    (patch_Ownership p) seq.

Definition refuse {S} (s : S) (e : err) : outcome S := MkOutcome (Err e) s [].

Section Intents.
Context {S : Type} `{Tx S}.
Variable policy : FieldPolicy.

(** ** Patching *)

(** The transaction of [applyPatch]. *)
Definition applyPatchTx (now : Time) (s : Session) (documentID : ID) (patch : Patch)
    (eventKind : string) (eventPayload : raw) : M S (Z * gmap ID View) :=
  current ← lift (λ q, GetDocument q (sess_worldID s) documentID);
  _ ← lift (λ q, Authorize q (sess_worldID s) (sess_userID s) current true);
  seq ← AppendEvent now (newEvent s eventKind "document" documentID "" eventPayload);
  patched ← PatchDocument now (sess_worldID s) documentID (withSeq seq patch);
  views ← lift (λ q, ProjectForMembers policy q patched);
  views ← lift (λ q, Filter q (sess_worldID s) patched views);
  mret (seq, views).

Definition patchError (e : err) : err :=
  if errors_Is e ErrForbidden then ErrIntent CodeForbidden "core.intent.forbidden"
  else if errors_Is e ErrNotFound then ErrIntent CodeNotFound "core.intent.documentNotFound"
  else if errors_Is e ErrInvalidPath then ErrIntent CodeBadRequest "core.intent.invalidPath"
  else e.

(** The frame of one recipient. *)
Definition viewFrame (s : Session) (eventKind : string) (seq : Z) (entry : ID * View) : res (ID * Frame) :=
  encoded ← MarshalView (viewOf entry.2 seq);
  Ok (entry.1, eventFrame (MkEventBody seq eventKind (sess_worldID s) "" encoded)).

Definition applyPatch (now : Time) (s : Session) (documentID : ID) (patch : Patch)
    (eventKind : string) (eventPayload : raw) (store : S) : outcome S :=
  match runTx (applyPatchTx now s documentID patch eventKind eventPayload) store with
  | (Err e, store) => refuse store (patchError e)
  | (Ok (seq, views), store) =>
      match traverse (viewFrame s eventKind seq) (map_to_list views) with
      | Err e => refuse store e
      | Ok perUser =>
          let published := [perUserPublication s (list_to_map perUser)] in
          match views !! sess_userID s with
          | None => MkOutcome (Err (ErrIntent CodeForbidden "core.intent.forbidden")) store published
          | Some own =>
              MkOutcome (result ← MarshalView (viewOf own seq); Ok (MkIntentResult seq result))
                store published
          end
      end
  end.

Definition handleDocumentPatch (now : Time) : IntentFunc S := λ s intent store,
  match decodeDocumentPatch (intent_Payload intent) with
  | None => refuse store malformedPayload
  | Some p =>
      if bool_decide (dp_ID p = "") then
        refuse store (ErrIntent CodeBadRequest "core.intent.missingDocumentId")
      else applyPatch now s (dp_ID p)
             (MkPatch (dp_Name p) (dp_Sort p) (dp_Img p) None (dp_Set p) (dp_Unset p) None 0)
             "document.patch" (encodeDocumentPatch p) store
  end.

Definition handleTokenMove (now : Time) : IntentFunc S := λ s intent store,
  match decodeTokenMove (intent_Payload intent) with
  | None => refuse store malformedPayload
  | Some p =>
      if bool_decide (tm_TokenID p = "") then
        refuse store (ErrIntent CodeBadRequest "core.intent.missingDocumentId")
      else applyPatch now s (tm_TokenID p)
             (MkPatch None None None None
                (objOf [("x", JNum (numOfFloat (tm_X p))); ("y", JNum (numOfFloat (tm_Y p)))]) [] None 0)
             "scene.token.move" (encodeTokenMove p) store
  end.

(** ** Activating a scene *)

Definition activate (scene : ID) (w : World) : World :=
  MkWorld (world_ID w) (world_Slug w) (world_Title w) (world_SystemID w) (world_SystemVersion w)
    (world_DefaultLocale w) scene (world_Settings w) (world_EventSeq w) (world_CreatedAt w)
    (world_ArchivedAt w).

Definition activateTx (now : Time) (s : Session) (sceneID : ID) : M S SceneActivated :=
  scene ← lift (λ q, GetDocument q (sess_worldID s) sceneID);
  _ ← ofRes (guard_res (bool_decide (doc_Kind scene = "scene")) ErrNotFound);
  world ← lift (λ q, GetWorld q (sess_worldID s));
  _ ← PutWorld now (activate (doc_ID scene) world);
  seq ← AppendEvent now (newEvent s "scene.activate" "document" (doc_ID scene) (doc_ID scene)
                           (Raw (JObj (fStr "sceneId" sceneID))));
  mret (MkSceneActivated (doc_ID scene) (doc_Name scene) seq).

Definition handleSceneActivate (now : Time) : IntentFunc S := λ s intent store,
  match decodeOneString "sceneId" (intent_Payload intent) with
  | None => refuse store malformedPayload
  | Some sceneID =>
      if bool_decide (sceneID = "") then
        refuse store (ErrIntent CodeBadRequest "core.intent.missingSceneId")
      else if negb (IsStaff (sess_role s)) then
        refuse store (ErrIntent CodeForbidden "core.intent.gameMasterOnly")
      else
        match runTx (activateTx now s sceneID) store with
        | (Err e, store) =>
            refuse store (if errors_Is e ErrNotFound then ErrIntent CodeNotFound "core.intent.sceneNotFound" else e)
        | (Ok activated, store) =>
            let encoded := encodeSceneActivated activated in
            MkOutcome (Ok (MkIntentResult (sa_Seq activated) encoded)) store
              [toWorld s (sa_Seq activated) "scene.activate" (sa_SceneID activated) encoded]
        end
  end.

Definition RegisterCoreIntents (now : Time) (r : Router S) : Router S :=
  Handle "scene.activate" (handleSceneActivate now)
    (Handle "scene.token.move" (handleTokenMove now)
       (Handle "document.patch" (handleDocumentPatch now) r)).
End Intents.

(** ** Lemmas *)

Section IntentLaws.
Context {S : Type} `{TxLaws S}.
Variable policy : FieldPolicy.
Implicit Types (s : Session) (store : S).

Lemma applyPatchTx_Ok now s id patch kind payload store seq views store' :
  wf store → applyPatchTx policy now s id patch kind payload store = (Ok (seq, views), store') →
  wf store' ∧
  ∃ doc g patched all,
    GetDocument store (sess_worldID s) id = Ok doc ∧
    Authorize store (sess_worldID s) (sess_userID s) doc true = Ok g ∧
    (∃ w, GetWorld store (sess_worldID s) = Ok w ∧ seq = world_EventSeq w + 1) ∧
    GetDocument store' (sess_worldID s) id = Ok patched ∧
    ProjectForMembers policy store' patched = Ok all ∧
    Filter store' (sess_worldID s) patched all = Ok views.
Proof.
  intros Hwf Ht. unfold applyPatchTx in Ht.
  apply M_bind_Ok in Ht as (doc & s1 & Hd & Ht). apply lift_Ok in Hd as [Hd ->].
  apply M_bind_Ok in Ht as (g & s1 & Hg & Ht). apply lift_Ok in Hg as [Hg ->].
  apply M_bind_Ok in Ht as (seq' & s1 & Ha & Ht).
  destruct (AppendEvent_wf _ _ _ _ _ Hwf Ha) as (Hwf1 & Hw & _).
  apply M_bind_Ok in Ht as (patched & s2 & Hp & Ht).
  destruct (PatchDocument_wf _ _ _ _ _ _ _ Hwf1 Hp) as [Hwf2 Hget].
  apply M_bind_Ok in Ht as (all & s3 & Hall & Ht). apply lift_Ok in Hall as [Hall ->].
  apply M_bind_Ok in Ht as (views' & s3 & Hf & Ht). apply lift_Ok in Hf as [Hf ->].
  apply ret_Ok in Ht as [[= -> ->] ->]. split; [done|]. by exists doc, g, patched, all.
Qed.

Lemma list_to_map_frames s kind seq (views : gmap ID View) perUser u f :
  traverse (viewFrame s kind seq) (map_to_list views) = Ok perUser →
  (list_to_map perUser : gmap ID Frame) !! u = Some f ↔
  ∃ v encoded, views !! u = Some v ∧ MarshalView (viewOf v seq) = Ok encoded ∧
    f = eventFrame (MkEventBody seq kind (sess_worldID s) "" encoded).
Proof.
  intros Ht%traverse_Ok.
  assert (perUser.*1 = (map_to_list views).*1) as Hkeys.
  { clear -Ht. induction Ht as [|[k v] [k' f] l l' Hx Hl IH]; [done|]. cbn. f_equal; [|done].
    unfold viewFrame in Hx. cbn in Hx. by apply bind_Ok in Hx as (? & _ & [= <- _]). }
  rewrite <-elem_of_list_to_map by (rewrite Hkeys; apply NoDup_fst_map_to_list). split.
  - intros [i Hi]%list_elem_of_lookup_1. destruct (Forall2_lookup_r _ _ _ _ _ Ht Hi) as ([k v] & Hk & Hx).
    unfold viewFrame in Hx. cbn in Hx. apply bind_Ok in Hx as (enc & Hm & [= -> <-]).
    exists v, enc. split_and!; [|done|done]. apply elem_of_map_to_list. by eapply list_elem_of_lookup_2.
  - intros (v & enc & Hv & Hm & ->). apply elem_of_map_to_list, list_elem_of_lookup_1 in Hv as [i Hi].
    destruct (Forall2_lookup_l _ _ _ _ _ Ht Hi) as ([k' f'] & Hk & Hx).
    unfold viewFrame in Hx. cbn in Hx. rewrite Hm in Hx. injection Hx as <- <-.
    by eapply list_elem_of_lookup_2.
Qed.

(** ** Theorem *)

End IntentLaws.
