(* ===== verification/Chat.v ===== *)
(** * Chat (internal/transport/ws/chat.go)

    Messages and rolls: each is an event with an audience and a document.  The
    message id, the formatted time and the dice source are arguments. *)

From S2P Require Import Prelude GoStrings Json Perm Storage Redact Access Vision Sight Dice Auth.
From S2P Require Import Frame Outbox Ticket Hub Session Intents.

Local Open Scope Z_scope.

Definition KindMessage : string := "message".
Definition maxMessageLen : nat := 2000.
Definition AudiencePublic : string := "public".
Definition AudienceGM : string := "gm".

Record ChatMessage := MkChatMessage {
  msg_ID : string;
  msg_Seq : Z;
  msg_AuthorID : string;
  msg_Author : string;
  msg_At : string;
  msg_Text : string;
  msg_Key : string;
  msg_Params : list (string * json);
  msg_Roll : option Result;
  msg_Audience : string;
  msg_Reason : string
}.

Definition encodeDie (d : Die) : json :=
  JObj (fInt "faces" (die_Faces d) ++ fInt "value" (die_Value d) ++ fBool "kept" (die_Kept d)).

Definition encodeTerm (t : Term) : json :=
  JObj (fInt "sign" (term_Sign t) ++ fStr "expression" (term_Expression t) ++
    (if isNil (term_Dice t) then [] else [("dice", JArr (encodeDie <$> term_Dice t))]) ++
    from_option (fInt "constant") [] (term_Constant t) ++ fInt "subtotal" (term_Subtotal t)).

Definition encodeResult (r : Result) : json :=
  JObj (fStr "expression" (result_Expression r) ++ [("terms", JArr (encodeTerm <$> result_Terms r))] ++
    fInt "total" (result_Total r)).

(** [json.Marshal(message)]. *)
Definition encodeMessage (m : ChatMessage) : raw :=
  Raw (JObj (fStr "id" (msg_ID m) ++ fInt "seq" (msg_Seq m) ++ fStr "authorId" (msg_AuthorID m) ++
    fStr "author" (msg_Author m) ++ fStr "at" (msg_At m) ++ fStrOpt "text" (msg_Text m) ++
    fStrOpt "key" (msg_Key m) ++
    (if isNil (msg_Params m) then [] else [("params", JObj (msg_Params m))]) ++
    from_option (λ r, [("roll", encodeResult r)]) [] (msg_Roll m) ++
    fStr "audience" (msg_Audience m) ++ fStrOpt "reason" (msg_Reason m))).

Definition withMsgSeq (seq : Z) (m : ChatMessage) : ChatMessage :=
  MkChatMessage (msg_ID m) seq (msg_AuthorID m) (msg_Author m) (msg_At m) (msg_Text m) (msg_Key m)
    (msg_Params m) (msg_Roll m) (msg_Audience m) (msg_Reason m).

Definition audienceOf (requested : string) (s : Session) : string :=
  if bool_decide (requested = AudienceGM) && IsStaff (sess_role s) then AudienceGM else AudiencePublic.

(** Who a message for the game masters is for. *)
Definition gmAudience (s : Session) (members : list Member) : list ID :=
  member_UserID <$> filter (λ m : Member, member_Role m = "gm" ∨ member_Role m = "assistant" ∨
                              member_UserID m = sess_userID s) members.

Definition observerOwnership : raw := Raw (JObj [("default", JStr "observer")]).

Section Chat.
Context {S : Type} `{Tx S}.

Definition messageDocument (s : Session) (m : ChatMessage) (body : raw) : Document :=
  MkDocument (sess_worldID s) (msg_ID m) KindMessage "" "" "" (msg_Author m) 0 "" body RawEmpty
    observerOwnership "" "" 0 0 0 None.

(** The event of a message: its payload was encoded before the number was
    known. *)
Definition messageEvent (s : Session) (m : ChatMessage) (body audience : raw) : Event :=
  MkEvent (sess_worldID s) 0 0 (sess_userID s) "chat.message" KindMessage (msg_ID m) "" body audience RawEmpty.

Definition messageTx (now : Time) (s : Session) (m : ChatMessage) (body : raw) : M S (Z * list ID) :=
  audience ← (if bool_decide (msg_Audience m = AudienceGM)
              then members ← lift (λ q, ListMembers q (sess_worldID s)); mret (gmAudience s members)
              else mret []);
  seq ← AppendEvent now (messageEvent s m body (MarshalStrings audience));
  _ ← PutDocument now (messageDocument s m body);
  mret (seq, audience).

Definition publishMessage (now : Time) (randomID at_ : string) (s : Session) (message : ChatMessage)
    (store : S) : outcome S :=
  let message := MkChatMessage (GenerateID randomID "message") (msg_Seq message) (sess_userID s)
    (DisplayName s) at_ (msg_Text message) (msg_Key message) (msg_Params message) (msg_Roll message)
    (msg_Audience message) (msg_Reason message) in
  let body := encodeMessage message in
  match runTx (messageTx now s message body) store with
  | (Err e, store) => refuse store e
  | (Ok (seq, audience), store) =>
      let final := encodeMessage (withMsgSeq seq message) in
      MkOutcome (Ok (MkIntentResult seq final)) store
        [MkPublication (WorldChannel (sess_worldID s)) LaneDocument ""
           (eventFrame (MkEventBody seq "chat.message" (sess_worldID s) "" final)) None audience ""]
  end.

Definition handleChatPost (now : Time) (randomID at_ : string) : IntentFunc S := λ s intent store,
  match fs ← structFields (intent_Payload intent);
        let '(text, o1) := decodeField convString "" "text" fs in
        let '(audience, o2) := decodeField convString "" "audience" fs in
        if o1 && o2 then Some (text, audience) else None with
  | None => refuse store malformedPayload
  | Some (text, audience) =>
      let text := TrimSpace text in
      if bool_decide (text = "") then refuse store (ErrIntent CodeBadRequest "core.chat.emptyMessage")
      else
        let text := if (maxMessageLen <? len text)%nat then unchars (take maxMessageLen (chars text)) else text in
        publishMessage now randomID at_ s
          (MkChatMessage "" 0 "" "" "" text "" [] None (audienceOf audience s) "") store
  end.

Definition handleChatRoll {G} `{DiceSource G} `{Unicode} (now : Time) (randomID at_ : string) (source : G)
    : IntentFunc S := λ s intent store,
  match fs ← structFields (intent_Payload intent);
        let '(expression, o1) := decodeField convString "" "expression" fs in
        let '(reason, o2) := decodeField convString "" "reason" fs in
        let '(audience, o3) := decodeField convString "" "audience" fs in
        if o1 && o2 && o3 then Some (expression, reason, audience) else None with
  | None => refuse store malformedPayload
  | Some (expression, reason, audience) =>
      match Roll expression source with
      | Err e =>
          refuse store (ErrIntent CodeBadRequest
            (if errors_Is e ErrTooManyDice then "core.dice.tooManyDice" else "core.dice.malformedExpression"))
      | Ok (result, _) =>
          publishMessage now randomID at_ s
            (MkChatMessage "" 0 "" "" "" "" "core.chat.rolled"
               (objOf [("total", JNum (numOfInt (result_Total result)));
                       ("expression", JStr (result_Expression result))])
               (Some result) (audienceOf audience s) (TrimSpace reason)) store
      end
  end.

(** The arguments are what the clock and the random sources give the one
    message the router is asked about. *)
Definition RegisterChatIntents {G} `{DiceSource G} `{Unicode} (now : Time) (randomID at_ : string) (source : G)
    (r : Router S) : Router S :=
  Handle "chat.roll" (handleChatRoll now randomID at_ source)
    (Handle "chat.post" (handleChatPost now randomID at_) r).
End Chat.

(** ** Lemmas *)

Lemma audienceAllows_Marshal audience u :
  audienceAllows (MarshalStrings audience) u =
  (if isNil audience then true else existsb (λ a, bool_decide (a = u)) audience).
Proof.
  destruct audience as [|a l]; [done|]. unfold audienceAllows, MarshalStrings. cbn [UnmarshalStrings].
  assert (traverse (λ j, match j with JStr s => Ok s | JNull => Ok "" | _ => Err errDecode end)
            (JStr <$> (a :: l)) = Ok (a :: l)) as ->; [|done].
  apply traverse_Ok, Forall2_fmap_l, Forall_Forall2_diag, Forall_forall. done.
Qed.

Lemma gmAudience_elem s ms u :
  u ∈ gmAudience s ms ↔ ∃ m, m ∈ ms ∧ member_UserID m = u ∧
    (member_Role m = "gm" ∨ member_Role m = "assistant" ∨ u = sess_userID s).
Proof.
  unfold gmAudience. rewrite list_elem_of_fmap. split.
  - intros (m & -> & [Hf Hin]%list_elem_of_filter). exists m. tauto.
  - intros (m & Hin & <- & Hr). exists m. rewrite list_elem_of_filter. tauto.
Qed.

Section ChatLaws.
Context {S : Type} `{TxLaws S}.

(** ** Theorem *)

(** A message to the game masters stays among them, live and on catch-up.
    When a member posts one, the publication is for exactly the members who are
    game master or assistant, and the author; and the audience stored with the
    event admits on catch-up exactly whom the publication admits live. *)
Theorem gm_message_confined : ∀ now randomID at_ s message (store : S) r,
  wf store → is_Ok (GetMember store (sess_worldID s) (sess_userID s)) →
  let o := publishMessage now randomID at_ s message store in
  out_result o = Ok r → msg_Audience message = AudienceGM →
  ∃ p ms, out_published o = [p] ∧ ListMembers store (sess_worldID s) = Ok ms ∧
    (∀ u, allows p u = true ↔ ∃ m, m ∈ ms ∧ member_UserID m = u ∧
       (member_Role m = "gm" ∨ member_Role m = "assistant" ∨ u = sess_userID s)) ∧
    (∀ u, audienceAllows (MarshalStrings (pub_Audience p)) u = allows p u).
Proof.
  intros now randomID at_ s message store r Hwf [me Hme] o Hr Hgm. subst o.
  unfold publishMessage in *. set (msg := MkChatMessage _ _ _ _ _ _ _ _ _ _ _) in *.
  destruct (runTx _ store) as [[[seq audience]|e] store'] eqn:Et; [|done].
  apply (proj1 (runTx_Ok _ _ _ _)) in Et. unfold messageTx in Et. cbn [msg_Audience] in Et.
  unfold msg in Et at 1. cbn [msg_Audience] in Et. rewrite bool_decide_eq_true_2 in Et by done.
  apply M_bind_Ok in Et as (aud & s1 & Ha & Et).
  apply M_bind_Ok in Ha as (ms & s2 & Hms & Ha). apply lift_Ok in Hms as [Hms ->].
  apply ret_Ok in Ha as [-> ->].
  apply M_bind_Ok in Et as (seq' & s2 & _ & Et). apply M_bind_Ok in Et as (d & s3 & _ & Et).
  apply ret_Ok in Et as [[= -> ->] ->]. cbn. eexists _, ms. split_and!; [done|done| |].
  - intros u. unfold allows. cbn. rewrite <-gmAudience_elem.
    assert (sess_userID s ∈ gmAudience s ms) as Hin.
    { apply gmAudience_elem. exists me. destruct (GetMember_key _ _ _ _ Hwf Hme) as [_ Hu].
      split_and!; [|done|by right; right].
      apply (proj2 (ListMembers_of _ _ _ Hwf Hms)). by rewrite Hu. }
    destruct (gmAudience s ms) as [|a l]; [by apply elem_of_nil in Hin|]. cbn [isNil].
    rewrite existsb_exists. setoid_rewrite bool_decide_eq_true. split.
    + intros (x & Hx & ->). by apply list_elem_of_In.
    + intros Hu. exists u. split; [by apply list_elem_of_In|done].
  - intros u. by rewrite audienceAllows_Marshal.
Qed.
End ChatLaws.

