(* ===== verification/Combat.v ===== *)
(** * Combat (internal/transport/ws/combat.go)

    The initiative order of a scene, kept in one document per world: started
    from the scene's tokens, advanced turn by turn, ended. *)

From S2P Require Import Prelude GoStrings Json Perm Storage Redact Access Vision Sight Dice.
From S2P Require Import Frame Outbox Ticket Hub Session Intents.
From Stdlib Require String.

Local Open Scope Z_scope.

Definition KindCombat : string := "combat".
Definition CombatDocumentID : ID := "combat".
Definition DefaultInitiative : string := "1d20".
Definition maxCombatants : Z := 60.

Record Combatant := MkCombatant {
  cb_ID : string; cb_Name : string; cb_Initiative : Z; cb_Disposition : string
}.

Record Combat := MkCombat {
  c_Active : bool;
  c_Round : Z;
  c_Turn : Z;
  c_Formula : string;
  c_SceneID : string;
  c_Combatants : list Combatant
}.

(** ** Encoding *)

Definition encodeCombatant (c : Combatant) : json :=
  JObj (fStr "id" (cb_ID c) ++ fStr "name" (cb_Name c) ++ fInt "initiative" (cb_Initiative c) ++
        fStr "disposition" (cb_Disposition c)).

(** A nil slice is null. *)
Definition encodeCombat (c : Combat) : raw :=
  Raw (JObj (fBool "active" (c_Active c) ++ fInt "round" (c_Round c) ++ fInt "turn" (c_Turn c) ++
    fStr "formula" (c_Formula c) ++ fStr "sceneId" (c_SceneID c) ++
    [("combatants", if isNil (c_Combatants c) then JNull else JArr (encodeCombatant <$> c_Combatants c))])).

Definition decodeCombatant (j : json) : res Combatant :=
  match structFields (Raw j) with
  | None => Err errDecode
  | Some fs =>
      let '(id, o1) := decodeField convString "" "id" fs in
      let '(name, o2) := decodeField convString "" "name" fs in
      let '(initiative, o3) := decodeField convInt 0 "initiative" fs in
      let '(disposition, o4) := decodeField convString "" "disposition" fs in
      if o1 && o2 && o3 && o4 then Ok (MkCombatant id name initiative disposition) else Err errDecode
  end.

Definition convCombatants : conv (list Combatant) := λ j,
  match j with
  | JNull => Some (Some [])
  | JArr l => match traverse decodeCombatant l with Ok cs => Some (Some cs) | Err _ => None end
  | _ => None
  end.

Definition decodeCombat (r : raw) : res Combat :=
  match structFields r with
  | None => Err errDecode
  | Some fs =>
      let '(active, o1) := decodeField convBool false "active" fs in
      let '(round, o2) := decodeField convInt 0 "round" fs in
      let '(turn, o3) := decodeField convInt 0 "turn" fs in
      let '(formula, o4) := decodeField convString "" "formula" fs in
      let '(sceneID, o5) := decodeField convString "" "sceneId" fs in
      let '(combatants, o6) := decodeField convCombatants [] "combatants" fs in
      if o1 && o2 && o3 && o4 && o5 && o6 then Ok (MkCombat active round turn formula sceneID combatants)
      else Err errDecode
  end.

(** ** Order *)

(** The [less] of [sortCombatants]. *)
Definition before (left right : Combatant) : bool :=
  if cb_Initiative left =? cb_Initiative right then String.ltb (cb_Name left) (cb_Name right)
  else cb_Initiative right <? cb_Initiative left.

(** [sort.SliceStable]: a stable sort, here by insertion from the right. *)
Fixpoint insertCombatant (c : Combatant) (l : list Combatant) : list Combatant :=
  match l with
  | [] => [c]
  | x :: l => if before x c then x :: insertCombatant c l else c :: x :: l
  end.

Definition sortCombatants (l : list Combatant) : list Combatant := foldr insertCombatant [] l.

(** ** Turns *)

(** The step of [handleCombatNext]. *)
Definition advance (c : Combat) : Combat :=
  let turn := wrap64 (c_Turn c + 1) in
  if Z.of_nat (length (c_Combatants c)) <=? turn
  then MkCombat (c_Active c) (wrap64 (c_Round c + 1)) 0 (c_Formula c) (c_SceneID c) (c_Combatants c)
  else MkCombat (c_Active c) (c_Round c) turn (c_Formula c) (c_SceneID c) (c_Combatants c).

Definition combatOwnership : raw := Raw (JObj [("default", JStr "observer")]).
Definition combatEventKind (active : bool) : string := if active then "combat.update" else "combat.end".

Definition gameMasterOnly : err := ErrIntent CodeForbidden "core.intent.gameMasterOnly".

Section Combat.
Context {S : Type} `{Tx S}.

Definition readCombat (s : Session) : M S Combat :=
  document ← lift (λ q, GetDocument q (sess_worldID s) CombatDocumentID);
  ofRes (decodeCombat (doc_Data document)).

Definition combatDocument (s : Session) (seq : Z) (encoded : raw) : Document :=
  MkDocument (sess_worldID s) CombatDocumentID KindCombat "" "" "" "Combat" 0 "" encoded RawEmpty
    combatOwnership "" "" 0 0 seq None.

Definition commitCombat (now : Time) (s : Session) (combat : Combat) : M S Z :=
  seq ← AppendEvent now (newEvent s (combatEventKind (c_Active combat)) "document" CombatDocumentID
                           (c_SceneID combat) (encodeCombat combat));
  _ ← PutDocument now (combatDocument s seq (encodeCombat combat));
  mret seq.

Definition combatError (e : err) : err :=
  if errors_Is e ErrNoCombatants then ErrIntent CodeBadRequest "core.combat.noCombatants"
  else if errors_Is e ErrNoCombat || errors_Is e ErrNotFound
       then ErrIntent CodeNotFound "core.combat.notRunning"
  else e.

Definition finishCombat (s : Session) (r : res (Combat * Z) * S) : outcome S :=
  match r with
  | (Err e, store) => refuse store (combatError e)
  | (Ok (combat, seq), store) =>
      let encoded := encodeCombat combat in
      MkOutcome (Ok (MkIntentResult seq encoded)) store
        [toWorld s seq (combatEventKind (c_Active combat)) (c_SceneID combat) encoded]
  end.

(** [_ = json.Unmarshal(token.Data, &data)]: what was decoded before an error. *)
Definition dispositionOf (token : Document) : string :=
  match structFields (doc_Data token) with
  | Some fs => (decodeField convString "" "disposition" fs).1
  | None => ""
  end.

(** The loop over the tokens, each with a roll of its own. *)
Fixpoint rollCombatants {G} `{DiceSource G} `{Unicode} (formula : string) (tokens : list Document) (g : G)
    : res (list Combatant) :=
  match tokens with
  | [] => Ok []
  | token :: tokens =>
      '(result, g) ← Roll formula g;
      rest ← rollCombatants formula tokens g;
      Ok (MkCombatant (doc_ID token) (doc_Name token) (result_Total result) (dispositionOf token) :: rest)
  end.

Definition startTx {G} `{DiceSource G} `{Unicode} (now : Time) (s : Session) (sceneID formula : string) (g : G)
    : M S (Combat * Z) :=
  tokens ← lift (λ q, ListDocuments q (sess_worldID s) (ofKindIn "token" sceneID maxCombatants));
  _ ← ofRes (guard_res (negb (isNil tokens)) ErrNoCombatants);
  combatants ← ofRes (rollCombatants formula tokens g);
  let combat := MkCombat true 1 0 formula sceneID (sortCombatants combatants) in
  seq ← commitCombat now s combat;
  mret (combat, seq).

Definition handleCombatStart {G} `{DiceSource G} `{Unicode} (now : Time) (probe g : G) : IntentFunc S :=
  λ s intent store,
  if negb (IsStaff (sess_role s)) then refuse store gameMasterOnly
  else
    match fs ← structFields (intent_Payload intent);
          let '(sceneID, o1) := decodeField convString "" "sceneId" fs in
          let '(formula, o2) := decodeField convString "" "formula" fs in
          if o1 && o2 then Some (sceneID, formula) else None with
    | None => refuse store malformedPayload
    | Some (sceneID, formula) =>
        if bool_decide (sceneID = "") then
          refuse store (ErrIntent CodeBadRequest "core.intent.missingSceneId")
        else
          let formula := if bool_decide (TrimSpace formula = "") then DefaultInitiative else TrimSpace formula in
          match Roll formula probe with
          | Err _ => refuse store (ErrIntent CodeBadRequest "core.dice.malformedExpression")
          | Ok _ => finishCombat s (runTx (startTx now s sceneID formula g) store)
          end
    end.

Definition nextTx (now : Time) (s : Session) : M S (Combat * Z) :=
  loaded ← readCombat s;
  _ ← ofRes (guard_res (c_Active loaded && negb (isNil (c_Combatants loaded))) ErrNoCombat);
  let combat := advance loaded in
  seq ← commitCombat now s combat;
  mret (combat, seq).

Definition handleCombatNext (now : Time) : IntentFunc S := λ s _ store,
  if negb (IsStaff (sess_role s)) then refuse store gameMasterOnly
  else finishCombat s (runTx (nextTx now s) store).

Definition ended (c : Combat) : Combat :=
  MkCombat false (c_Round c) (c_Turn c) (c_Formula c) (c_SceneID c) [].

Definition endTx (now : Time) (s : Session) : M S (Combat * Z) :=
  loaded ← readCombat s;
  let combat := ended loaded in
  seq ← commitCombat now s combat;
  mret (combat, seq).

Definition handleCombatEnd (now : Time) : IntentFunc S := λ s _ store,
  if negb (IsStaff (sess_role s)) then refuse store gameMasterOnly
  else finishCombat s (runTx (endTx now s) store).

Definition RegisterCombatIntents {G} `{DiceSource G} `{Unicode} (now : Time) (probe g : G)
    (r : Router S) : Router S :=
  Handle "combat.end" (handleCombatEnd now)
    (Handle "combat.next" (handleCombatNext now) (Handle "combat.start" (handleCombatStart now probe g) r)).
End Combat.

(** ** Encoding round trip *)

Definition combatantOK (c : Combatant) : Prop := in_int64 (cb_Initiative c).

Definition combatOK (c : Combat) : Prop :=
  in_int64 (c_Round c) ∧ in_int64 (c_Turn c) ∧ Forall combatantOK (c_Combatants c).

Lemma convInt_numOfInt z : in_int64 z → convInt (JNum (numOfInt z)) = Some (Some z).
Proof. intros Hz. cbn. by rewrite bool_decide_eq_true_2. Qed.

Lemma decodeCombatant_encode c : combatantOK c → decodeCombatant (encodeCombatant c) = Ok c.
Proof.
  intros Hc. destruct c as [id name ini disp]. unfold decodeCombatant, encodeCombatant.
  cbn [structFields]. unfold decodeField.
  change (fieldValues "id" _) with [JStr id]. change (fieldValues "name" _) with [JStr name].
  change (fieldValues "initiative" _) with [JNum (numOfInt ini)].
  change (fieldValues "disposition" _) with [JStr disp].
  cbn [foldl]. rewrite convInt_numOfInt by exact Hc. done.
Qed.

Lemma decodeCombat_encode c : combatOK c → decodeCombat (encodeCombat c) = Ok c.
Proof.
  intros (Hr & Ht & Hc). destruct c as [act r t fo sc cs]. cbn in Hr, Ht, Hc.
  unfold decodeCombat, encodeCombat. cbn [structFields c_Active c_Round c_Turn c_Formula c_SceneID c_Combatants].
  unfold decodeField.
  change (fieldValues "active" _) with [JBool act]. change (fieldValues "round" _) with [JNum (numOfInt r)].
  change (fieldValues "turn" _) with [JNum (numOfInt t)]. change (fieldValues "formula" _) with [JStr fo].
  change (fieldValues "sceneId" _) with [JStr sc].
  change (fieldValues "combatants" _) with [if isNil cs then JNull else JArr (encodeCombatant <$> cs)].
  cbn [foldl]. rewrite !convInt_numOfInt by done.
  assert (convCombatants (if isNil cs then JNull else JArr (encodeCombatant <$> cs)) = Some (Some cs)) as ->;
    [|done].
  destruct cs as [|x cs]; [done|]. cbn [isNil convCombatants].
  assert (traverse decodeCombatant (encodeCombatant <$> (x :: cs)) = Ok (x :: cs)) as ->; [|done].
  apply traverse_Ok, Forall2_fmap_l, Forall_Forall2_diag. eapply Forall_impl; [exact Hc|].
  intros y Hy. by apply decodeCombatant_encode.
Qed.

(** What decodes is within the widths. *)
Lemma decodeField_int name fs dflt :
  in_int64 dflt → in_int64 (decodeField convInt dflt name fs).1.
Proof.
  unfold decodeField. intros Hd. generalize true as b. revert dflt Hd.
  induction (fieldValues name fs) as [|j l IH]; intros d Hd b; [done|]. cbn [foldl].
  destruct (convInt j) as [[z|]|] eqn:E; cbn; try by apply IH.
  apply IH. destruct j as [| |n| | |]; cbn in E; try done.
  destruct (ni n) as [z'|]; [|done]. cbn in E. case_bool_decide; naive_solver.
Qed.

Lemma decodeCombatant_OK j c : decodeCombatant j = Ok c → combatantOK c.
Proof.
  unfold decodeCombatant. destruct (structFields _) as [fs|]; [|done].
  destruct (decodeField convString "" "id" fs) as [id o1]. destruct (decodeField convString "" "name" fs) as [nm o2].
  pose proof (decodeField_int "initiative" fs 0 ltac:(done)) as Hi.
  destruct (decodeField convInt 0 "initiative" fs) as [ini o3].
  destruct (decodeField convString "" "disposition" fs) as [d o4].
  destruct (_ && _); [|done]. by intros [= <-].
Qed.

Lemma decodeCombatants_OK name fs cs :
  Forall combatantOK cs → Forall combatantOK (decodeField convCombatants cs name fs).1.
Proof.
  unfold decodeField. generalize true as b. revert cs.
  induction (fieldValues name fs) as [|j l IH]; intros cs b Hcs; [done|]. cbn [foldl].
  destruct (convCombatants j) as [[cs'|]|] eqn:E; cbn; try by apply IH.
  apply IH. destruct j as [| | | |js|]; cbn in E; try done.
  - by injection E as <-.
  - destruct (traverse decodeCombatant js) as [cs0|] eqn:Et; [|done]. injection E as <-.
    apply traverse_Ok in Et. clear -Et. induction Et; constructor; eauto using decodeCombatant_OK.
Qed.

Lemma decodeCombat_OK r c : decodeCombat r = Ok c → combatOK c.
Proof.
  unfold decodeCombat. destruct (structFields r) as [fs|]; [|done].
  destruct (decodeField convBool false "active" fs) as [a o1].
  pose proof (decodeField_int "round" fs 0 ltac:(done)) as Hr.
  pose proof (decodeField_int "turn" fs 0 ltac:(done)) as Ht.
  pose proof (decodeCombatants_OK "combatants" fs [] ltac:(constructor)) as Hc.
  destruct (decodeField convInt 0 "round" fs) as [ro o2]. destruct (decodeField convInt 0 "turn" fs) as [tu o3].
  destruct (decodeField convString "" "formula" fs) as [fo o4].
  destruct (decodeField convString "" "sceneId" fs) as [sc o5].
  destruct (decodeField convCombatants [] "combatants" fs) as [cs o6].
  destruct (_ && _); [|done]. intros [= <-]. by split_and!.
Qed.

Lemma advance_OK c : combatOK c → combatOK (advance c).
Proof.
  intros (Hr & Ht & Hc). unfold advance. destruct (_ <=? _); split_and!; try done; apply wrap64_range.
Qed.

(** ** Turns *)

Lemma advance_turns c t n :
  n = Z.of_nat (length (c_Combatants c)) → 0 ≤ t → c_Turn c = t `mod` n → 0 < n ≤ max_int64 →
  c_Turn (advance c) = (t + 1) `mod` n ∧
  c_Round (advance c) = (if t `mod` n + 1 =? n then wrap64 (c_Round c + 1) else c_Round c) ∧
  c_Combatants (advance c) = c_Combatants c.
Proof.
  intros Hn Ht Hc Hpos. unfold advance. rewrite Hc.
  pose proof (Z.mod_pos_bound t n ltac:(lia)) as Hb.
  rewrite wrap64_id by (unfold in_int64, min_int64, max_int64 in *; lia). rewrite <-Hn.
  assert ((t + 1) `mod` n = if t `mod` n + 1 =? n then 0 else t `mod` n + 1) as Hmod.
  { rewrite <-Zplus_mod_idemp_l. destruct (t `mod` n + 1 =? n) eqn:E.
    - apply Z.eqb_eq in E. rewrite E. apply Z_mod_same_full.
    - apply Z.eqb_neq in E. apply Z.mod_small. lia. }
  rewrite Hmod. destruct (t `mod` n + 1 =? n) eqn:E.
  - apply Z.eqb_eq in E. rewrite (proj2 (Z.leb_le _ _)) by lia. done.
  - apply Z.eqb_neq in E. rewrite (proj2 (Z.leb_gt _ _)) by lia. done.
Qed.

Lemma div_succ t n : 0 ≤ t → 0 < n → (t + 1) / n = t / n + (if t `mod` n + 1 =? n then 1 else 0).
Proof.
  intros Ht Hn. pose proof (Z.mod_pos_bound t n Hn). pose proof (Z.div_mod t n ltac:(lia)) as Hdm.
  destruct (t `mod` n + 1 =? n) eqn:E; [apply Z.eqb_eq in E|apply Z.eqb_neq in E];
    symmetry; apply Z.div_unique with (r := if t `mod` n + 1 =? n then 0 else t `mod` n + 1);
    rewrite ?(proj2 (Z.eqb_eq _ _)) by lia; rewrite ?(proj2 (Z.eqb_neq _ _)) by lia; lia.
Qed.

(** ** Sorting *)

Definition inTurnOrder (a b : Combatant) : Prop := before b a = false.

Lemma before_asym a b : before a b = true → before b a = false.
Proof.
  unfold before. rewrite (Z.eqb_sym (cb_Initiative b)).
  destruct (cb_Initiative a =? cb_Initiative b) eqn:E.
  - unfold String.ltb. rewrite (String.compare_antisym (cb_Name b) (cb_Name a)).
    by destruct (String.compare (cb_Name a) (cb_Name b)).
  - intros H%Z.ltb_lt. apply Z.ltb_ge. lia.
Qed.

Lemma ltb_trans (a b c : string) : String.ltb b a = false → String.ltb c b = false → String.ltb c a = false.
Proof.
  unfold String.ltb. destruct (String.compare c a) eqn:E; try done. intros H1 H2. exfalso.
  destruct (String.compare b a) eqn:E1; [|done|].
  - apply String.compare_eq_iff in E1 as ->. by rewrite E in H2.
  - apply compare_gt_lt in E1. by rewrite (compare_trans_lt _ _ _ E E1) in H2.
Qed.

Lemma inTurnOrder_trans : Transitive inTurnOrder.
Proof.
  intros a b c. unfold inTurnOrder, before.
  destruct (cb_Initiative b =? cb_Initiative a) eqn:E1, (cb_Initiative c =? cb_Initiative b) eqn:E2,
    (cb_Initiative c =? cb_Initiative a) eqn:E3;
    rewrite ?Z.eqb_eq, ?Z.eqb_neq, ?Z.ltb_ge in *; try lia; intros H1 H2.
  by eapply ltb_trans.
Qed.

Lemma insertCombatant_spec c l :
  insertCombatant c l ≡ₚ c :: l ∧
  (StronglySorted inTurnOrder l → StronglySorted inTurnOrder (insertCombatant c l)).
Proof.
  induction l as [|x l [IHp IHs]]; cbn; [by split; [|repeat constructor]|].
  destruct (before x c) eqn:E.
  - split; [rewrite IHp; apply Permutation_swap|]. inversion 1 as [|? ? Hs Hx]; subst.
    constructor; [by apply IHs|]. rewrite IHp. constructor; [by apply before_asym|done].
  - split; [done|]. intros Hs. constructor; [done|]. inversion Hs as [|? ? Hs' Hx]; subst.
    constructor; [done|]. eapply Forall_impl; [exact Hx|]. intros y Hy. by eapply inTurnOrder_trans.
Qed.

Lemma sortCombatants_spec l :
  sortCombatants l ≡ₚ l ∧ StronglySorted inTurnOrder (sortCombatants l).
Proof.
  unfold sortCombatants. induction l as [|c l [IHp IHs]]; cbn; [by split; [|constructor]|].
  destruct (insertCombatant_spec c (foldr insertCombatant [] l)) as [Hp Hs].
  split; [by rewrite Hp, IHp|by apply Hs].
Qed.

Section CombatLaws.
Context {S : Type} `{TxLaws S}.
Implicit Types (s : Session) (store : S).

Lemma commitCombat_Ok now s combat store seq store' :
  wf store → combatOK combat → commitCombat now s combat store = (Ok seq, store') →
  wf store' ∧ (∃ w, GetWorld store (sess_worldID s) = Ok w ∧ seq = world_EventSeq w + 1) ∧
  ∃ doc, GetDocument store' (sess_worldID s) CombatDocumentID = Ok doc ∧
    decodeCombat (doc_Data doc) = Ok combat.
Proof.
  intros Hwf Hc Ht. unfold commitCombat in Ht.
  apply M_bind_Ok in Ht as (q & s1 & Ha & Ht). destruct (AppendEvent_wf _ _ _ _ _ Hwf Ha) as (Hwf1 & Hw & _).
  apply M_bind_Ok in Ht as (d & s2 & Hp & Ht). apply ret_Ok in Ht as [-> ->].
  destruct (PutDocument_wf _ _ _ _ _ Hwf1 Hp) as (Hwf2 & (row & Hrow & _ & _ & _ & Hdata) & _).
  split_and!; [done|done|]. exists row. split; [done|]. cbn in Hdata.
  rewrite (Hdata _ eq_refl). by apply decodeCombat_encode.
Qed.

(** The combat a store holds for a session's world. *)
Definition storedCombat (store : S) s : res Combat :=
  document ← GetDocument store (sess_worldID s) CombatDocumentID; decodeCombat (doc_Data document).

Lemma readCombat_Ok s store c store' :
  readCombat s store = (Ok c, store') ↔ storedCombat store s = Ok c ∧ store' = store.
Proof.
  unfold readCombat, storedCombat. rewrite M_bind_Ok, bind_Ok. split.
  - intros (d & s1 & Hd & Hc). apply lift_Ok in Hd as [Hd ->]. apply ofRes_Ok in Hc as [Hc ->]. eauto.
  - intros [(d & Hd & Hc) ->]. exists d, store. split; [by apply lift_Ok|by apply ofRes_Ok].
Qed.

(** ** Theorems *)

(** Advancing a fight is the turn order's next step, committed and announced.
    Only staff may; when the intent succeeds the store held a running fight with
    combatants, it now holds the same fight one step on, and that very state is
    both the answer and what is published to the world; when it fails nothing has
    changed and nothing is published. *)
Theorem combat_next_advances : ∀ now s intent store,
  wf store →
  let o := handleCombatNext now s intent store in
  match out_result o with
  | Ok r =>
      IsStaff (sess_role s) = true ∧
      ∃ c, storedCombat store s = Ok c ∧ c_Active c = true ∧ c_Combatants c ≠ [] ∧
        storedCombat (out_store o) s = Ok (advance c) ∧ ir_Result r = encodeCombat (advance c) ∧
        out_published o = [toWorld s (ir_Seq r) "combat.update" (c_SceneID c) (encodeCombat (advance c))]
  | Err _ => out_store o = store ∧ out_published o = []
  end.
Proof.
  intros now s intent store Hwf o. subst o. unfold handleCombatNext.
  destruct (IsStaff (sess_role s)); cbn [negb]; [|done]. unfold finishCombat.
  destruct (runTx _ store) as [[[c seq]|e] store'] eqn:Et; cbn.
  2:{ apply runTx_Err in Et as ->. done. }
  apply (proj1 (runTx_Ok _ _ _ _)) in Et. unfold nextTx in Et.
  apply M_bind_Ok in Et as (loaded & s1 & Hr & Et). apply readCombat_Ok in Hr as [Hr ->].
  apply M_bind_Ok in Et as (u & s1 & Hg & Et). apply ofRes_Ok in Hg as [Hg ->]. apply guard_res_Ok in Hg.
  apply andb_prop in Hg as [Hact Hne%negb_true_iff].
  apply M_bind_Ok in Et as (q & s1 & Hc & Et). apply ret_Ok in Et as [[= -> ->] ->].
  assert (combatOK loaded) as HOK.
  { unfold storedCombat in Hr. apply bind_Ok in Hr as (d & _ & Hd). by eapply decodeCombat_OK. }
  apply commitCombat_Ok in Hc as (_ & _ & doc & Hdoc & Hdec); [|done|by apply advance_OK].
  split; [done|]. exists loaded. split_and!; try done.
  - by destruct (c_Combatants loaded).
  - unfold storedCombat. rewrite Hdoc. exact Hdec.
  - assert (c_Active (advance loaded) = true ∧ c_SceneID (advance loaded) = c_SceneID loaded) as [-> ->]; [|done].
    unfold advance. by destruct (_ <=? _).
Qed.
End CombatLaws.

(** Every combatant gets one turn per round.  From a turn within the order,
    after [k] steps the turn is [k] places further round the order, the round has
    gone up by the number of times the order was passed, and nobody has been
    added, lost or moved; so a whole round returns to the same combatant. *)
Theorem turns_go_round : ∀ c k,
  let n := Z.of_nat (length (c_Combatants c)) in
  0 ≤ c_Turn c < n → n ≤ max_int64 → 0 ≤ c_Round c →
  c_Round c + (c_Turn c + Z.of_nat k) / n ≤ max_int64 →
  let c' := Nat.iter k advance c in
  c_Turn c' = (c_Turn c + Z.of_nat k) `mod` n ∧
  c_Round c' = c_Round c + (c_Turn c + Z.of_nat k) / n ∧
  c_Combatants c' = c_Combatants c.
Proof.
  intros c k n Ht Hn Hr0. induction k as [|k IH]; intros Hr.
  { cbn. rewrite Z.add_0_r in *. rewrite Z.mod_small, Z.div_small in * by lia. split_and!; [done|lia|done]. }
  replace (c_Turn c + Z.of_nat (S k)) with (c_Turn c + Z.of_nat k + 1) in * by lia.
  rewrite div_succ in * by lia. destruct IH as (IHt & IHr & IHc).
  { destruct (_ =? _); lia. }
  cbn zeta in *. cbn [Nat.iter nat_rect]. set (d := Nat.iter k advance c) in *.
  destruct (advance_turns d (c_Turn c + Z.of_nat k) n) as (H1 & H2 & H3);
    [by rewrite IHc|lia|done|lia|]. split_and!; [exact H1| |exact (eq_trans H3 IHc)].
  etrans; [exact H2|]. rewrite IHr. destruct (_ =? _); [|lia]. rewrite wrap64_id; [lia|].
  assert (0 ≤ (c_Turn c + Z.of_nat k) / n) by (apply Z.div_pos; lia).
  unfold in_int64, min_int64, max_int64 in *. lia.
Qed.

(** The order of a new fight is fair.  The combatants are the tokens of the
    scene, each exactly once, sorted by falling initiative and then by name. *)
Theorem combat_start_sorted : ∀ {S G} `{Tx S} `{DiceSource G} `{Unicode} now (s : Session)
    sceneID formula (g : G) (store : S) c seq store',
  startTx now s sceneID formula g store = (Ok (c, seq), store') →
  ∃ tokens, ListDocuments store (sess_worldID s) (ofKindIn "token" sceneID maxCombatants) = Ok tokens ∧
    tokens ≠ [] ∧
    (λ x, (cb_ID x, cb_Name x)) <$> c_Combatants c ≡ₚ (λ t, (doc_ID t, doc_Name t)) <$> tokens ∧
    StronglySorted (λ a b, cb_Initiative b < cb_Initiative a ∨
      (cb_Initiative a = cb_Initiative b ∧ String.ltb (cb_Name b) (cb_Name a) = false)) (c_Combatants c) ∧
    c_Active c = true ∧ c_Round c = 1 ∧ c_Turn c = 0.
Proof.
  intros S G HT HD HU now s sceneID formula g store c seq store' Ht. unfold startTx in Ht.
  apply M_bind_Ok in Ht as (tokens & s1 & Hl & Ht). apply lift_Ok in Hl as [Hl ->].
  apply M_bind_Ok in Ht as (u & s1 & Hg & Ht). apply ofRes_Ok in Hg as [Hg ->]. apply guard_res_Ok in Hg.
  apply M_bind_Ok in Ht as (cs & s1 & Hcs & Ht). apply ofRes_Ok in Hcs as [Hcs ->].
  apply M_bind_Ok in Ht as (q & s1 & _ & Ht). apply ret_Ok in Ht as [[= -> ->] ->].
  destruct (sortCombatants_spec cs) as [Hp Hs]. exists tokens. cbn. split_and!; try done.
  - by destruct tokens.
  - rewrite Hp. clear -Hcs. revert g cs Hcs. induction tokens as [|t tokens IH]; intros g cs Hcs; cbn in Hcs.
    { by injection Hcs as <-. }
    apply bind_Ok in Hcs as ([r g'] & _ & Hcs). apply bind_Ok in Hcs as (rest & Hrest & [= <-]).
    cbn. f_equiv. by eapply IH.
  - clear -Hs. induction Hs as [|a l Hs IH Ha]; constructor; [done|].
    eapply Forall_impl; [exact Ha|]. intros b. unfold inTurnOrder, before.
    destruct (cb_Initiative b =? cb_Initiative a) eqn:E.
    + apply Z.eqb_eq in E. intros Hb. right. split; [done|exact Hb].
    + apply Z.eqb_neq in E. intros Hb%Z.ltb_ge. left. lia.
Qed.
