(* ===== verification/Doors.v ===== *)
(** * Doors (internal/transport/ws/doors.go)

    Toggling a door, and the per-user frames that tell every member which
    tokens of the scene they see afterwards. *)

From S2P Require Import Prelude GoStrings Json Perm Storage Redact Access Vision Sight.
From S2P Require Import Frame Outbox Ticket Hub Session Intents Combat.

Local Open Scope Z_scope.

Record DoorState := MkDoorState {
  door_WallID : string; door_SceneID : string; door_Open : bool; door_Seq : Z
}.

Definition encodeDoorState (d : DoorState) : raw :=
  Raw (JObj (fStr "wallId" (door_WallID d) ++ fStr "sceneId" (door_SceneID d) ++
    fBool "doorOpen" (door_Open d) ++ fInt "seq" (door_Seq d))).

Record tokenBrief := MkTokenBrief {
  brief_ID : string; brief_Name : string; brief_Img : string; brief_Data : raw
}.

Definition encodeBrief (b : tokenBrief) : res json :=
  data ← fRaw "data" (brief_Data b);
  Ok (JObj (fStr "id" (brief_ID b) ++ fStr "name" (brief_Name b) ++ fStrOpt "img" (brief_Img b) ++ data)).

Definition encodeVisibility (sceneID : string) (tokens : list tokenBrief) : res raw :=
  ts ← traverse encodeBrief tokens;
  Ok (Raw (JObj (fStr "sceneId" sceneID ++ [("tokens", JArr ts)]))).

(** [x, _ := m[k].(bool)]. *)
Definition boolAt (k : string) (m : list (string * json)) : bool :=
  match objGet k m with Some (JBool b) => b | _ => false end.

(** The changed data of a door, or the error of the handler. *)
Definition toggleDoor (data : raw) : res (raw * bool) :=
  m ← UnmarshalObject data;
  if negb (boolAt "door" m) then Err ErrNotADoor
  else
    let open := boolAt "doorOpen" m in
    Ok (MarshalObject (objInsert "doorOpen" (JBool (negb open)) m), negb open).

(** The text [{"sceneId":"..."}] put together from its parts.  An id with a
    quote, a backslash or a control character would not be quoted; ids are
    lower case letters, digits and hyphens, for any other the model has no
    value. *)
Definition sceneText (id : string) : raw :=
  if forallb (λ c, (32 <=? code c)%nat && negb ((code c =? 34)%nat || (code c =? 92)%nat)) (chars id)
  then Raw (JObj (fStr "sceneId" id)) else RawBad.

Definition withDoor (data : raw) (seq : Z) (d : Document) : Document :=
  MkDocument (doc_WorldID d) (doc_ID d) (doc_Kind d) (doc_Subtype d) (doc_ParentID d) (doc_FolderID d)
    (doc_Name d) (doc_Sort d) (doc_Img d) data (doc_Flags d) (doc_Ownership d) (doc_SourcePack d)
    (doc_SchemaVersion d) (doc_CreatedAt d) (doc_UpdatedAt d) seq (doc_DeletedAt d).

Section Doors.
Context {S : Type} `{Tx S}.
Variable policy : FieldPolicy.

(** The inner loop of [visibilityFrames]: what a subject is told of a token. *)
Definition briefStep (q : S) (subject : Subject) (briefs : list tokenBrief) (token : Document)
    : res (list tokenBrief) :=
  grant ← GrantOf q subject token;
  redacted ← RedactDocument token subject grant policy;
  match redacted with
  | None => Ok briefs
  | Some r => Ok (briefs ++ [MkTokenBrief (doc_ID r) (doc_Name r) (doc_Img r) (doc_Data r)])
  end.

(** The body of its outer loop. *)
Definition memberStep (q : S) (s : Session) (sceneID : ID) (seq : Z) (tokens : list Document)
    (frames : gmap ID Frame) (member : Member) : res (gmap ID Frame) :=
  if negb (Valid (member_Role member)) then Ok frames
  else
    let subject := MkSubject (member_UserID member) (member_Role member) in
    visible ← VisibleTokens q subject (sess_worldID s) sceneID tokens;
    briefs ← foldM (briefStep q subject) [] visible;
    encoded ← encodeVisibility sceneID briefs;
    Ok (<[member_UserID member :=
      eventFrame (MkEventBody seq "scene.visibility" (sess_worldID s) sceneID encoded)]> frames).

Definition visibilityFrames (q : S) (s : Session) (sceneID : ID) (seq : Z) : res (gmap ID Frame) :=
  members ← ListMembers q (sess_worldID s);
  tokens ← ListDocuments q (sess_worldID s) (ofKindIn "token" sceneID 0);
  foldM (memberStep q s sceneID seq tokens) ∅ members.

Definition toggleTx (now : Time) (s : Session) (wallID : ID) : M S (DoorState * gmap ID Frame) :=
  wall ← lift (λ q, GetDocument q (sess_worldID s) wallID);
  '(encoded, open) ← ofRes (toggleDoor (doc_Data wall));
  seq ← AppendEvent now (newEvent s "scene.door.toggle" "document" (doc_ID wall) (doc_ParentID wall) encoded);
  _ ← PutDocument now (withDoor encoded seq wall);
  visibilitySeq ← AppendEvent now (newEvent s "scene.visibility" "document" (doc_ParentID wall)
                                     (doc_ParentID wall) (sceneText (doc_ParentID wall)));
  perUser ← lift (λ q, visibilityFrames q s (doc_ParentID wall) visibilitySeq);
  mret (MkDoorState (doc_ID wall) (doc_ParentID wall) open seq, perUser).

Definition doorError (e : err) : err :=
  if errors_Is e ErrNotADoor then ErrIntent CodeBadRequest "core.scene.notADoor"
  else if errors_Is e ErrNotFound then ErrIntent CodeNotFound "core.scene.unknownWall"
  else e.

Definition handleDoorToggle (now : Time) : IntentFunc S := λ s intent store,
  if negb (IsStaff (sess_role s)) then refuse store gameMasterOnly
  else
    match decodeOneString "wallId" (intent_Payload intent) with
    | None => refuse store malformedPayload
    | Some wallID =>
        if bool_decide (wallID = "") then
          refuse store (ErrIntent CodeBadRequest "core.intent.missingDocumentId")
        else
          match runTx (toggleTx now s wallID) store with
          | (Err e, store) => refuse store (doorError e)
          | (Ok (state, perUser), store) =>
              let encoded := encodeDoorState state in
              MkOutcome (Ok (MkIntentResult (door_Seq state) encoded)) store
                [toWorld s (door_Seq state) "scene.door.toggle" (door_SceneID state) encoded;
                 perUserPublication s perUser]
          end
    end.

Definition RegisterDoorIntents (now : Time) (r : Router S) : Router S :=
  Handle "scene.door.toggle" (handleDoorToggle now) r.
End Doors.

(** ** Lemmas *)

Lemma toggleDoor_Ok data out open :
  toggleDoor data = Ok (out, open) →
  ∃ m, UnmarshalObject data = Ok m ∧ decodedObj m ∧ boolAt "door" m = true ∧
    open = negb (boolAt "doorOpen" m) ∧
    UnmarshalObject out = Ok (objInsert "doorOpen" (JBool open) m).
Proof.
  unfold toggleDoor. intros (m & Hm & Ht)%bind_Ok. destruct (boolAt "door" m) eqn:Ed; [|done].
  injection Ht as <- <-. pose proof (UnmarshalObject_decoded _ _ Hm) as Hdec. exists m. split_and!; try done.
  apply UnmarshalObject_Marshal. by apply decodedObj_insert.
Qed.

Section DoorLaws.
Context {S : Type} `{TxLaws S}.
Variable policy : FieldPolicy.
Implicit Types (q : S) (s : Session).

Lemma briefStep_spec q subject tokens briefs briefs' :
  foldM (briefStep policy q subject) briefs tokens = Ok briefs' →
  ∀ b, b ∈ briefs' ↔ b ∈ briefs ∨
    ∃ token grant r, token ∈ tokens ∧ GrantOf q subject token = Ok grant ∧
      RedactDocument token subject grant policy = Ok (Some r) ∧
      b = MkTokenBrief (doc_ID r) (doc_Name r) (doc_Img r) (doc_Data r).
Proof.
  revert briefs. induction tokens as [|t tokens IH]; intros briefs; cbn [foldM].
  { intros [= <-] b. split; [by left|]. intros [?|(t & _ & _ & Hin & _)]; [done|]. by apply elem_of_nil in Hin. }
  intros (b1 & Hstep & Hr)%bind_Ok b. rewrite (IH _ Hr b). unfold briefStep in Hstep.
  apply bind_Ok in Hstep as (grant & Hg & Hstep). apply bind_Ok in Hstep as (red & Hred & Hstep).
  setoid_rewrite elem_of_cons. split.
  - intros [Hb|(t' & g' & r' & Hin & Hrest)]; [|right; exists t', g', r'; tauto].
    destruct red as [r|]; injection Hstep as <-; [|by left].
    apply elem_of_app in Hb as [Hb| ->%list_elem_of_singleton]; [by left|]. right. exists t, grant, r. tauto.
  - intros [Hb|(t' & g' & r' & [->|Hin] & Hg' & Hr' & ->)].
    + left. destruct red; injection Hstep as <-; [apply elem_of_app; by left|done].
    + left. rewrite Hg in Hg'. injection Hg' as <-. rewrite Hred in Hr'. injection Hr' as ->.
      injection Hstep as <-. apply elem_of_app. right. by apply list_elem_of_singleton.
    + right. exists t', g', r'. tauto.
Qed.

Lemma memberStep_frames q s sceneID seq tokens members frames frames' u f :
  foldM (memberStep policy q s sceneID seq tokens) frames members = Ok frames' →
  frames' !! u = Some f →
  frames !! u = Some f ∨
  ∃ m visible briefs encoded, m ∈ members ∧ member_UserID m = u ∧ Valid (member_Role m) = true ∧
    VisibleTokens q (MkSubject u (member_Role m)) (sess_worldID s) sceneID tokens = Ok visible ∧
    foldM (briefStep policy q (MkSubject u (member_Role m))) [] visible = Ok briefs ∧
    encodeVisibility sceneID briefs = Ok encoded ∧
    f = eventFrame (MkEventBody seq "scene.visibility" (sess_worldID s) sceneID encoded).
Proof.
  revert frames. induction members as [|m members IH]; intros frames; cbn [foldM].
  { intros [= <-]. by left. }
  intros (f1 & Hstep & Hr)%bind_Ok Hu. destruct (IH _ Hr Hu) as [Hf|Hlater].
  2:{ right. destruct Hlater as (m' & v & b & e & Hin & Hrest). exists m', v, b, e. split; [by right|done]. }
  unfold memberStep in Hstep. destruct (Valid (member_Role m)) eqn:Ev; cbn in Hstep; [|injection Hstep as <-; by left].
  apply bind_Ok in Hstep as (visible & Hv & Hstep). apply bind_Ok in Hstep as (briefs & Hb & Hstep).
  apply bind_Ok in Hstep as (encoded & He & [= <-]).
  destruct (decide (member_UserID m = u)) as [<-|Hne]; [|rewrite lookup_insert_ne in Hf by done; by left].
  rewrite lookup_insert_eq in Hf. injection Hf as <-. right.
  exists m, visible, briefs, encoded. split_and!; try done. left.
Qed.

(** Every member with a valid role has a frame. *)
Lemma memberStep_reaches q s sceneID seq tokens members frames frames' u :
  foldM (memberStep policy q s sceneID seq tokens) frames members = Ok frames' →
  is_Some (frames !! u) ∨ (∃ m, m ∈ members ∧ member_UserID m = u ∧ Valid (member_Role m) = true) →
  is_Some (frames' !! u).
Proof.
  revert frames. induction members as [|m members IH]; intros frames; cbn [foldM].
  { intros [= <-] [?|(m & Hm & _)]; [done|]. by apply elem_of_nil in Hm. }
  intros (f1 & Hstep & Hr)%bind_Ok Hu. apply (IH _ Hr). unfold memberStep in Hstep.
  destruct (Valid (member_Role m)) eqn:Ev; cbn in Hstep.
  - apply bind_Ok in Hstep as (visible & _ & Hstep). apply bind_Ok in Hstep as (briefs & _ & Hstep).
    apply bind_Ok in Hstep as (encoded & _ & [= <-]).
    destruct Hu as [Hu|(m' & [->|Hin]%elem_of_cons & <- & Hv)]; [left|left|right; by exists m'].
    + by apply lookup_insert_is_Some'; right.
    + by rewrite lookup_insert_eq.
  - injection Hstep as <-. destruct Hu as [Hu|(m' & [->|Hin]%elem_of_cons & <- & Hv)]; [by left|congruence|].
    right. by exists m'.
Qed.

(** ** Theorems *)

(** C27: toggling a door flips that door and nothing else.  Only staff may; on
    success the stored wall was a door, its data now differs in the [doorOpen]
    member alone, which is negated; the answer carries the next event number and
    the new state: the wall, its scene, the negated flag and that number.  The
    same state is published as [scene.door.toggle] under that number to everyone
    in the scene's world, followed by one publication that gives each user their
    own [scene.visibility] frame, computed on the committed store and numbered
    next.  On failure nothing has changed and nothing is published. *)
Theorem door_toggle_sound : ∀ now s intent (store : S),
  wf store →
  let o := handleDoorToggle policy now s intent store in
  match out_result o with
  | Err _ => out_store o = store ∧ out_published o = []
  | Ok r =>
      IsStaff (sess_role s) = true ∧
      ∃ id wall wall' m m' perUser w,
        decodeOneString "wallId" (intent_Payload intent) = Some id ∧
        GetDocument store (sess_worldID s) id = Ok wall ∧
        UnmarshalObject (doc_Data wall) = Ok m ∧ boolAt "door" m = true ∧
        GetDocument (out_store o) (sess_worldID s) id = Ok wall' ∧
        UnmarshalObject (doc_Data wall') = Ok m' ∧
        (∀ k, k ≠ "doorOpen" → objGet k m' = objGet k m) ∧
        boolAt "doorOpen" m' = negb (boolAt "doorOpen" m) ∧
        GetWorld store (sess_worldID s) = Ok w ∧ ir_Seq r = world_EventSeq w + 1 ∧
        ir_Result r = Raw (JObj [("wallId", JStr id); ("sceneId", JStr (doc_ParentID wall));
                                  ("doorOpen", JBool (negb (boolAt "doorOpen" m)));
                                  ("seq", JNum (numOfInt (world_EventSeq w + 1)))]) ∧
        out_published o =
          [MkPublication (WorldChannel (sess_worldID s)) LaneDocument ""
             (eventFrame (MkEventBody (world_EventSeq w + 1) "scene.door.toggle"
                            (sess_worldID s) (doc_ParentID wall) (ir_Result r))) None [] "";
           MkPublication (WorldChannel (sess_worldID s)) LaneDocument "" zeroFrame (Some perUser) [] ""] ∧
        visibilityFrames policy (out_store o) s (doc_ParentID wall) (world_EventSeq w + 2) = Ok perUser
  end.
Proof.
  intros now s intent store Hwf o. subst o. unfold handleDoorToggle.
  destruct (IsStaff (sess_role s)); cbn [negb]; [|done].
  destruct (decodeOneString _ _) as [id|] eqn:Eid; [|done]. case_bool_decide; [done|].
  destruct (runTx _ store) as [[[state perUser]|e] store'] eqn:Et.
  2:{ apply runTx_Err in Et as ->. done. }
  apply (proj1 (runTx_Ok _ _ _ _)) in Et. unfold toggleTx in Et.
  apply M_bind_Ok in Et as (wall & s1 & Hw & Et). apply lift_Ok in Hw as [Hw ->].
  destruct (GetDocument_key _ _ _ _ Hwf Hw) as [Hkw Hki].
  apply M_bind_Ok in Et as ([encoded open] & s1 & Htog & Et). apply ofRes_Ok in Htog as [Htog ->].
  apply M_bind_Ok in Et as (seq & s1 & Ha & Et).
  destruct (AppendEvent_wf _ _ _ _ _ Hwf Ha) as (Hwf1 & (w & Hw0 & ->) & (w1 & Hw1 & Hseq1) & _).
  apply M_bind_Ok in Et as (d & s2 & Hp & Et).
  destruct (PutDocument_wf _ _ _ _ _ Hwf1 Hp) as (Hwf2 & (row & Hrow & _ & _ & _ & Hdata) & _ & _ & Hworlds).
  apply M_bind_Ok in Et as (vseq & s3 & Ha2 & Et).
  destruct (AppendEvent_wf _ _ _ _ _ Hwf2 Ha2) as (Hwf3 & (w2 & Hw2 & ->) & _ & Hdocs & _).
  cbn [newEvent event_WorldID] in Hw0, Hw1, Hw2. rewrite Hworlds, Hw1 in Hw2. injection Hw2 as <-.
  apply M_bind_Ok in Et as (pu & s4 & Hvis & Et). apply lift_Ok in Hvis as [Hvis ->].
  apply ret_Ok in Et as [[= -> ->] ->].
  apply toggleDoor_Ok in Htog as (m & Hm & _ & Hdoor & -> & Hm').
  cbn in Hrow, Hdata. rewrite Hkw, Hki in Hrow.
  cbn. split; [done|]. exists id, wall, row, m, (objInsert "doorOpen" (JBool (negb (boolAt "doorOpen" m))) m).
  exists pu, w.
  assert (∃ j, encoded = Raw j) as [j ->].
  { destruct encoded; [done|done|by eexists]. }
  split_and!; try done.
  - by rewrite Hdocs.
  - rewrite (Hdata _ eq_refl). exact Hm'.
  - intros k Hk. by rewrite objGet_insert, bool_decide_eq_false_2.
  - unfold boolAt at 1. by rewrite objGet_insert, bool_decide_eq_true_2.
  - unfold encodeDoorState. cbn. by rewrite Hki.
  - rewrite Hseq1 in Hvis. by replace (world_EventSeq w + 2) with (world_EventSeq w + 1 + 1) by lia.
Qed.

(** What a member is told after a door moves is what they may see.  Every
    per-user frame belongs to a member with a valid role, and lists exactly the
    tokens that are visible to that member from their own viewpoints and that
    redaction lets them read, each in its redacted form. *)
Theorem visibility_confined : ∀ q s sceneID seq frames u f,
  visibilityFrames policy q s sceneID seq = Ok frames → frames !! u = Some f →
  ∃ ms m tokens visible briefs encoded,
    ListMembers q (sess_worldID s) = Ok ms ∧ m ∈ ms ∧ member_UserID m = u ∧ Valid (member_Role m) = true ∧
    ListDocuments q (sess_worldID s) (ofKindIn "token" sceneID 0) = Ok tokens ∧
    VisibleTokens q (MkSubject u (member_Role m)) (sess_worldID s) sceneID tokens = Ok visible ∧
    encodeVisibility sceneID briefs = Ok encoded ∧
    f = eventFrame (MkEventBody seq "scene.visibility" (sess_worldID s) sceneID encoded) ∧
    ∀ b, b ∈ briefs ↔ ∃ token grant r, token ∈ visible ∧
      GrantOf q (MkSubject u (member_Role m)) token = Ok grant ∧
      RedactDocument token (MkSubject u (member_Role m)) grant policy = Ok (Some r) ∧
      b = MkTokenBrief (doc_ID r) (doc_Name r) (doc_Img r) (doc_Data r).
Proof.
  intros q s sceneID seq frames u f Hv Hu. unfold visibilityFrames in Hv.
  apply bind_Ok in Hv as (ms & Hms & Hv). apply bind_Ok in Hv as (tokens & Htok & Hv).
  destruct (memberStep_frames _ _ _ _ _ _ _ _ _ _ Hv Hu) as [Hemp|Hmem]; [by rewrite lookup_empty in Hemp|].
  destruct Hmem as (m & visible & briefs & encoded & Hin & Hid & Hval & Hvis & Hb & He & ->).
  exists ms, m, tokens, visible, briefs, encoded. split_and!; try done.
  intros b. rewrite (briefStep_spec _ _ _ _ _ Hb b), elem_of_nil. tauto.
Qed.
End DoorLaws.
