(* ===== verification/Http.v ===== *)
(** * Requests, responses and accounts (internal/transport/httpapi/{router,auth}.go)

    What the handlers read of a request and write to a response, the middleware
    that resolves the session cookie, and the endpoints for accounts.  A handler
    is a function from the request and the state it works on to a response and
    the new state.  The body of a request is the first JSON value the decoder
    reads within its size limit. *)

From S2P Require Import Prelude GoStrings GoTime Json Storage RateLimit Password Auth Ticket.
From Stdlib Require Import Ascii.

Local Open Scope Z_scope.

(** ** Requests and responses *)

Record Request := MkRequest {
  req_User : option User;
  req_Cookie : option string;
  req_Body : raw;
  req_RemoteAddr : string;
  req_UserAgent : string;
  req_TLS : bool
}.

(** The session cookie as the program sets it, with its Secure attribute. *)
Inductive Cookie :=
  | IssuedCookie (token : string) (expires : Time) (secure : bool)
  | ClearedCookie (secure : bool).

Record Response := MkResponse {
  resp_Status : Z;
  resp_Body : raw;
  resp_Cookies : list Cookie
}.

Definition writeJSON (status : Z) (body : raw) : Response := MkResponse status body [].
Definition noContent : Response := MkResponse 204 RawEmpty [].

Definition apiError (status : Z) (code messageKey : string) : Response :=
  writeJSON status (Raw (JObj (fStr "code" code ++ fStr "messageKey" messageKey))).

Definition internalError : Response := apiError 500 "internal" "core.api.internalError".
Definition malformedBody : Response := apiError 400 "bad_request" "core.api.malformedBody".

Definition withCookie (c : Cookie) (r : Response) : Response :=
  MkResponse (resp_Status r) (resp_Body r) (c :: resp_Cookies r).

(** [if !decodeBody(w, r, &body) { return }]. *)
Definition withBody {A S} (decode : raw → option A) (r : Request) (k : A → S → Response * S) (s : S)
    : Response * S :=
  match decode (req_Body r) with Some body => k body s | None => (malformedBody, s) end.

(** [user, ok := requireUser(w, r); if !ok { return }], in a handler whose answer
    [answer] makes of a response. *)
Definition requireUserAs {S R} (answer : Response → R) (r : Request) (k : User → S → R * S) (s : S) : R * S :=
  match req_User r with
  | Some user => k user s
  | None => (answer (apiError 401 "unauthorized" "core.auth.signInRequired"), s)
  end.

Definition requireUser {S} (r : Request) (k : User → S → Response * S) : S → Response * S :=
  requireUserAs (λ resp, resp) r k.

(** ** Text *)

(** The position of the first byte [c]. *)
Fixpoint indexByte (c : ascii) (l : bytes) : option nat :=
  match l with
  | [] => None
  | a :: l => if bool_decide (a = c) then Some O else S <$> indexByte c l
  end.

Definition lastIndexByte (c : ascii) (l : bytes) : option nat :=
  i ← indexByte c (reverse l); Some (length l - 1 - i)%nat.

(** [net.SplitHostPort], the host of it. *)
Definition splitHost (addr : bytes) : option bytes :=
  i ← lastIndexByte ":"%char addr;
  '(host, j, k) ←
    (if bool_decide (head addr = Some "["%char) then
       e ← indexByte "]"%char addr;
       if bool_decide (e + 1 = i)%nat then Some (take (e - 1) (drop 1 addr), 1%nat, (e + 1)%nat) else None
     else
       if isNone (indexByte ":"%char (take i addr)) then Some (take i addr, O, O) else None);
  if isNone (indexByte "["%char (drop j addr)) && isNone (indexByte "]"%char (drop k addr))
  then Some host else None.

Definition clientAddr (r : Request) : string :=
  match splitHost (chars (req_RemoteAddr r)) with
  | Some host => unchars host
  | None => req_RemoteAddr r
  end.

(** ** Accounts *)

Record AuthDeps := MkAuthDeps { deps_Service : Service; deps_SecureCookies : bool }.

Definition issueCookie (d : AuthDeps) (r : Request) (token : string) (expires : Time) : Cookie :=
  IssuedCookie token expires (deps_SecureCookies d || req_TLS r).
Definition clearCookie (d : AuthDeps) (r : Request) : Cookie :=
  ClearedCookie (deps_SecureCookies d || req_TLS r).

Definition identityOf (user : User) : raw :=
  Raw (JObj (fStr "id" (user_ID user) ++ fStr "username" (user_Username user) ++
    fBool "isAdmin" (user_IsAdmin user) ++ fStrOpt "locale" (user_Locale user))).

(** [type credentials struct] and [type acceptInviteRequest struct]. *)
Definition decodeCredentials (r : raw) : option (string * string) :=
  fs ← structFields r;
  let '(username, o1) := decodeField convString "" "username" fs in
  let '(password, o2) := decodeField convString "" "password" fs in
  if o1 && o2 then Some (username, password) else None.

Definition signedInAs (user : User) (r : Request) : Request :=
  MkRequest (Some user) (req_Cookie r) (req_Body r) (req_RemoteAddr r) (req_UserAgent r) (req_TLS r).

Section Accounts.
Context `{Unicode} `{Argon2} {S : Type} `{Tx S}.
Variable d : AuthDeps.
Let svc := deps_Service d.

(** The request [withUser] passes on. *)
Definition withUser (now : Time) (r : Request) (s : S) : Request * S :=
  match req_Cookie r with
  | None => (r, s)
  | Some value =>
      if bool_decide (value = "") then (r, s)
      else match Authenticate value now s with
           | (Ok user, s) => (signedInAs user r, s)
           | (Err _, s) => (r, s)
           end
  end.

Definition loginHandler (token : res string) (tAllow tFail now : Time) (r : Request)
    : S * Limiter → Response * (S * Limiter) :=
  withBody decodeCredentials r (λ body st,
    match Login svc token tAllow tFail now body.1 body.2 (clientAddr r) (req_UserAgent r) st with
    | (Err e, st) =>
        (if errors_Is e ErrRateLimited then apiError 429 "rate_limited" "core.auth.tooManyAttempts"
         else apiError 401 "unauthorized" "core.auth.invalidCredentials", st)
    | (Ok result, st) =>
        (withCookie (issueCookie d r (login_Token result) (login_ExpiresAt result))
           (writeJSON 200 (identityOf (login_User result))), st)
    end).

Definition logoutHandler (r : Request) (s : S) : Response * S :=
  let s := match req_Cookie r with Some value => (Logout value s).2 | None => s end in
  (withCookie (clearCookie d r) noContent, s).

Definition meHandler (r : Request) : S → Response * S :=
  requireUser r (λ user s, (writeJSON 200 (identityOf user), s)).

Definition setupStateHandler (r : Request) (s : S) : Response * S :=
  match NeedsSetup s with
  | Err _ => (internalError, s)
  | Ok needed => (writeJSON 200 (Raw (JObj (fBool "needsSetup" needed))), s)
  end.

(** What a failed account creation answers. *)
Definition accountError (e : err) : Response :=
  if errors_Is e ErrWeakPassword then apiError 400 "weak_password" "core.auth.passwordTooShort"
  else if errors_Is e ErrUsernameTaken then apiError 409 "username_taken" "core.auth.usernameTaken"
  else if errors_Is e ErrInvalidCredentials then apiError 400 "bad_request" "core.auth.usernameRequired"
  else internalError.

(** The transaction of [setupHandler]. *)
Definition setupTx (salt : res bytes) (randomID : string) (token : res string) (now : Time)
    (agent username password : string) : M S (User * string * Time) :=
  built ← ofRes (BuildUser svc salt randomID now username password true);
  _ ← ofRes (guard_res (negb (bool_decide (user_PasswordHash built = ""))) ErrWeakPassword);
  user ← insertUser now built;
  '(token, expires) ← IssueSession svc token now (user_ID built) agent;
  mret (user, token, expires).

Definition setupHandler (salt : res bytes) (randomID : string) (token : res string) (now : Time)
    (r : Request) (s : S) : Response * S :=
  match NeedsSetup s with
  | Err _ => (internalError, s)
  | Ok false => (apiError 409 "already_configured" "core.setup.alreadyDone", s)
  | Ok true =>
      withBody decodeCredentials r (λ body s,
        match runTx (setupTx salt randomID token now (req_UserAgent r) body.1 body.2) s with
        | (Err e, s) => (accountError e, s)
        | (Ok (user, token, expires), s) =>
            (withCookie (issueCookie d r token expires) (writeJSON 201 (identityOf user)), s)
        end) s
  end.

Definition decodeTicketRequest (r : raw) : option string :=
  fs ← structFields r;
  let '(world, ok) := decodeField convString "" "worldId" fs in
  if ok then Some world else None.

Definition ticketHandler (token : res string) (now later : Time) (r : Request)
    : S * TicketStore → Response * (S * TicketStore) :=
  requireUser r (λ user, withBody decodeTicketRequest r (λ world st,
    if bool_decide (world = "") then (apiError 400 "bad_request" "core.api.missingWorldId", st)
    else
      match GetMember st.1 world (user_ID user) with
      | Err _ => (apiError 403 "forbidden" "core.auth.notAMemberOfThisWorld", st)
      | Ok member =>
          match Issue token now later (user_ID user) world (member_Role member) st.2 with
          | (Err _, ts) => (internalError, (st.1, ts))
          | (Ok (token, expires), ts) =>
              (writeJSON 200 (Raw (JObj (fStr "ticket" token ++ fStr "expiresAt" (formatRFC3339 expires) ++
                 fStr "worldId" world ++ fStr "role" (member_Role member)))), (st.1, ts))
          end
      end)).
End Accounts.

(** ** Examples *)

Example addr_v4 : clientAddr (MkRequest None None RawEmpty "10.0.0.7:5123" "" false) = "10.0.0.7".
Proof. reflexivity. Qed.

Example addr_v6 : clientAddr (MkRequest None None RawEmpty "[::1]:5123" "" false) = "::1".
Proof. reflexivity. Qed.

(** ** Lemmas *)

Section HttpLaws.
Context `{Unicode} `{Argon2Laws} {S : Type} `{TxLaws S}.
Implicit Types (d : AuthDeps) (s : S) (l : Limiter) (r : Request).

(** A cookie that authenticates signs the request in. *)
Lemma withUser_valid t r s token user :
  req_Cookie r = Some token → token ≠ "" → Authenticate token t s = (Ok user, s) →
  withUser t r s = (signedInAs user r, s).
Proof. intros Hc Ht Ha. unfold withUser. by rewrite Hc, bool_decide_eq_false_2, Ha by done. Qed.

Lemma withUser_refused t r s token e :
  req_Cookie r = Some token → (Authenticate token t s).1 = Err e → (withUser t r s).1 = r.
Proof.
  intros Hc Ha. unfold withUser. rewrite Hc. case_bool_decide; [done|].
  destruct (Authenticate token t s) as [[] ?]; cbn in *; [done|done].
Qed.

Lemma insertUser_Ok now user s u s' :
  insertUser now user s = (Ok u, s') →
  GetUserByUsername s (user_Username user) = Err ErrNotFound ∧ PutUser now user s = (Ok u, s').
Proof.
  unfold insertUser. destruct (GetUserByUsername _ _) as [|e]; [done|].
  destruct (errors_Is e ErrNotFound) eqn:Ee; cbn; [|done]. apply bool_decide_eq_true in Ee as ->.
  by destruct (PutUser now user s) as [[] ?].
Qed.

Lemma IssueSession_Ok svc token now user agent s out s' :
  IssueSession svc (Ok token) now user agent s = (Ok out, s') →
  out = (token, now + svc_sessionTTL svc) ∧
  ∃ x, PutUserSession now (newSession svc token user agent now) s = (Ok x, s').
Proof.
  unfold IssueSession. intros (tok & s1 & Ht & Hr)%M_bind_Ok. apply ofRes_Ok in Ht as [[= <-] ->].
  apply M_bind_Ok in Hr as (x & s1 & Hx & Hr). apply ret_Ok in Hr as [-> ->].
  split; [done|]. by exists x.
Qed.

Lemma BuildUser_password svc salt randomID now username password admin u :
  paramsOK (svc_params svc) → Z.of_nat (length salt) = hash_SaltLength (svc_params svc) →
  BuildUser svc (Ok salt) randomID now username password admin = Ok u → user_PasswordHash u ≠ "" →
  MinPasswordLength ≤ Z.of_nat (len password) ∧
  VerifyPassword (user_PasswordHash u) password = Ok true ∧
  user_ID u = "user-" +:+ randomID ∧ user_Username u = NormaliseUsername username ∧
  user_IsAdmin u = admin ∧ Disabled u = false.
Proof.
  intros Hp Hs Hb Hne. unfold BuildUser in Hb. case_bool_decide; [done|].
  apply bind_Ok in Hb as (hash & Hh & [= <-]). cbn in *.
  case_bool_decide; [by injection Hh as <-|]. destruct (weak password) eqn:Ew; [done|].
  split_and!; try done.
  - unfold weak in Ew. lia.
  - by apply (VerifyPassword_own salt password (svc_params svc)).
Qed.

(** The transaction of a first set-up. *)
Lemma setupTx_Ok d salt randomID token now agent username password s user tok expires s' :
  wf s → paramsOK (svc_params (deps_Service d)) →
  Z.of_nat (length salt) = hash_SaltLength (svc_params (deps_Service d)) →
  GetUserSession s (HashToken token) = Err ErrNotFound →
  setupTx d (Ok salt) randomID (Ok token) now agent username password s = (Ok (user, tok, expires), s') →
  tok = token ∧ expires = now + svc_sessionTTL (deps_Service d) ∧
  MinPasswordLength ≤ Z.of_nat (len password) ∧
  ∃ row session, GetUser s' ("user-" +:+ randomID) = Ok row ∧ user_IsAdmin row = true ∧
    user_Username row = NormaliseUsername username ∧
    VerifyPassword (user_PasswordHash row) password = Ok true ∧ Disabled row = false ∧
    GetUserSession s' (HashToken token) = Ok session ∧
    session_UserID session = "user-" +:+ randomID ∧ session_ExpiresAt session = expires.
Proof.
  intros Hwf Hp Hs Hfresh Ht. unfold setupTx in Ht.
  apply M_bind_Ok in Ht as (built & s1 & Hb & Ht). apply ofRes_Ok in Hb as [Hb ->].
  apply M_bind_Ok in Ht as ([] & s1 & Hg & Ht). apply ofRes_Ok in Hg as [Hg ->].
  apply guard_res_Ok in Hg. apply negb_true_iff, bool_decide_eq_false in Hg.
  destruct (BuildUser_password _ _ _ _ _ _ _ _ Hp Hs Hb Hg) as (Hlen & Hv & Hid & Hname & Hadm & Hen).
  apply M_bind_Ok in Ht as (u & s1 & Hi & Ht). apply insertUser_Ok in Hi as [_ Hput].
  apply M_bind_Ok in Ht as ([tok' exp'] & s2 & His & Ht). apply ret_Ok in Ht as [[= -> -> ->] ->].
  apply IssueSession_Ok in His as [[= -> ->] [x Hx]].
  destruct (PutUser_wf _ _ _ _ _ Hwf Hput) as (Hwf1 & (row & Hrow & Hn & Hh & Ha & Hdis) & _ & Hses).
  destruct (PutUserSession_wf _ _ _ _ _ Hwf1 Hx) as (_ & Husers & _ & Hnew).
  destruct Hnew as (session & Hsess & Hsu & Hexp); [by cbn; rewrite Hses|]. cbn in *.
  split_and!; [done..|]. exists row, session. rewrite Husers, <-Hid, Hh, Hn, Ha. 
  split_and!; try done. unfold Disabled in *. by rewrite Hdis.
Qed.
End HttpLaws.

(** ** Theorems *)

Section HttpTheorems.
Context `{Unicode} `{Argon2Laws} {S : Type} `{TxLaws S}.
Implicit Types (d : AuthDeps) (s : S) (l : Limiter) (r : Request).

(** The session cookie is the login.  A cookie is set exactly with status 200,
    for an enabled account whose password was given; every request that carries it is then
    served as that user up to the stated expiry and as nobody's afterwards.  Any
    other answer sets no cookie. *)
Theorem login_cookie_signs_in : ∀ d token tA tF now r s l resp s' l',
  wf s → token ≠ "" → GetUserSession s (HashToken token) = Err ErrNotFound →
  loginHandler d (Ok token) tA tF now r (s, l) = (resp, (s', l')) →
  (resp_Cookies resp = [] ∧ resp_Status resp ∈ [400; 401; 429]) ∨
  ∃ user name password expires,
    resp = MkResponse 200 (identityOf user) [IssuedCookie token expires (deps_SecureCookies d || req_TLS r)] ∧
    decodeCredentials (req_Body r) = Some (name, password) ∧
    user_Username user = NormaliseUsername name ∧ Disabled user = false ∧
    VerifyPassword (user_PasswordHash user) password = Ok true ∧
    expires = now + svc_sessionTTL (deps_Service d) ∧
    ∀ t r', req_Cookie r' = Some token →
      (t ≤ expires → withUser t r' s' = (signedInAs user r', s')) ∧
      (expires < t → (withUser t r' s').1 = r').
Proof.
  intros d token tA tF now r s l resp s' l' Hwf Ht Hfresh Hl. unfold loginHandler, withBody in Hl.
  destruct (decodeCredentials _) as [[name password]|] eqn:Ed.
  2:{ injection Hl as <- _ _. left. split; [done|set_solver]. }
  cbn [fst snd] in Hl. destruct (Login _ _ _ _ _ _ _ _ _ _) as [[res|e] [s1 l1]] eqn:EL.
  - injection Hl as <- <- <-. right.
    destruct (Login_Ok _ _ _ _ _ _ _ _ _ _ _ _ _ _ Hwf Ht Hfresh EL)
      as (Htok & Hexp & Hu & Hdis & Hv & Hvalid & Hlate).
    exists (login_User res), name, password, (login_ExpiresAt res).
    split_and!; try done.
    + by rewrite Htok.
    + by apply (GetUserByUsername_key s).
    + intros t r' Hc. split; intros Hle.
      * apply (withUser_valid t r' s1 token); auto.
      * by eapply withUser_refused; [|apply Hlate].
  - injection Hl as <- _ _. left. destruct (errors_Is e ErrRateLimited); (split; [done|set_solver]).
Qed.

(** The first set-up makes one administrator and then is closed.  Either
    nothing is changed and no cookie set, or the store had no user and now has
    the administrator, under the normalised name, with a password that is long
    enough and verifies, and the cookie signs requests in as that user until it
    expires. *)
Theorem setup_sound : ∀ d salt randomID token now r s resp s',
  wf s → paramsOK (svc_params (deps_Service d)) →
  Z.of_nat (length salt) = hash_SaltLength (svc_params (deps_Service d)) →
  token ≠ "" → GetUserSession s (HashToken token) = Err ErrNotFound →
  setupHandler d (Ok salt) randomID (Ok token) now r s = (resp, s') →
  (s' = s ∧ resp_Cookies resp = []) ∨
  (CountUsers s = Ok 0 ∧ resp_Status resp = 201 ∧ ∃ username password row expires,
     decodeCredentials (req_Body r) = Some (username, password) ∧
     MinPasswordLength ≤ Z.of_nat (len password) ∧
     GetUser s' ("user-" +:+ randomID) = Ok row ∧ user_IsAdmin row = true ∧
     user_Username row = NormaliseUsername username ∧
     VerifyPassword (user_PasswordHash row) password = Ok true ∧
     resp_Cookies resp = [IssuedCookie token expires (deps_SecureCookies d || req_TLS r)] ∧
     (∀ t r', req_Cookie r' = Some token → t ≤ expires →
        withUser t r' s' = (signedInAs row r', s'))).
Proof.
  intros d salt randomID token now r s resp s' Hwf Hp Hs Ht Hfresh Hset.
  unfold setupHandler, withBody, NeedsSetup in Hset.
  destruct (CountUsers s) as [n|e] eqn:En; cbn in Hset; [|injection Hset as <- <-; by left].
  destruct (n =? 0) eqn:E0; [|injection Hset as <- <-; by left].
  apply Z.eqb_eq in E0 as ->.
  destruct (decodeCredentials _) as [[username password]|] eqn:Ed; [|injection Hset as <- <-; by left].
  cbn [fst snd] in Hset. destruct (runTx _ s) as [[[[user tok] expires]|e] s1] eqn:Et.
  2:{ injection Hset as <- <-. apply runTx_Err in Et as ->. left. split; [done|]. unfold accountError.
      by repeat case_match. }
  injection Hset as <- <-. apply (proj1 (runTx_Ok _ _ _ _)) in Et. right. split_and!; [done..|].
  destruct (setupTx_Ok _ _ _ _ _ _ _ _ _ _ _ _ _ Hwf Hp Hs Hfresh Et)
    as (-> & Hexp & Hlen & row & session & Hrow & Ha & Hn & Hv & Hd & Hses & Hsu & Hse).
  exists username, password, row, expires. split_and!; try done.
  intros t r' Hc Hle. apply (withUser_valid t r' s1 token); [done..|].
  apply (Authenticate_valid token t s1 session); [done..|by rewrite Hsu|done|by rewrite Hse].
Qed.

(** A ticket stands for a membership.  A ticket is issued only to a signed-in
    member of the world it is for; until it expires its token redeems to exactly
    that user, that world and the stored role, once.  Any other answer issues
    nothing. *)
Theorem ticket_for_members : ∀ token now later r s ts resp s' ts',
  later ≤ now + tickets_ttl ts →
  ticketHandler (Ok token) now later r (s, ts) = (resp, (s', ts')) →
  s' = s ∧
  ((ts' = ts ∧ resp_Status resp ∈ [400; 401; 403]) ∨
   (resp_Status resp = 200 ∧ ∃ user world m,
      req_User r = Some user ∧ decodeTicketRequest (req_Body r) = Some world ∧ world ≠ "" ∧
      GetMember s world (user_ID user) = Ok m ∧
      ∀ t, t ≤ now + tickets_ttl ts →
        (Redeem token t ts').1 = Ok (MkTicket (user_ID user) world (member_Role m) (now + tickets_ttl ts)) ∧
        ∀ t', (Redeem token t' (Redeem token t ts').2).1 = Err ErrTicketInvalid)).
Proof.
  intros token now later r s ts resp s' ts' Hlater Hh. unfold ticketHandler, requireUser, requireUserAs, withBody in Hh.
  destruct (req_User r) as [user|]; [|injection Hh as <- <- <-; split; [done|left; split; [done|set_solver]]].
  destruct (decodeTicketRequest _) as [world|]; [|injection Hh as <- <- <-; split; [done|left; split; [done|set_solver]]].
  case_bool_decide as Hw; [injection Hh as <- <- <-; split; [done|left; split; [done|set_solver]]|]. cbn in Hh.
  destruct (GetMember s world (user_ID user)) as [m|] eqn:Em;
    [|injection Hh as <- <- <-; split; [done|left; split; [done|set_solver]]].
  injection Hh as <- <- <-. split; [done|]. right. split; [done|]. exists user, world, m.
  split_and!; [done..|]. intros t Hle.
  set (ticket := MkTicket (user_ID user) world (member_Role m) (TimeAdd now (tickets_ttl ts))).
  set (ts1 := sweepTickets later _).
  assert (tickets ts1 !! token = Some ticket) as Hl.
  { subst ts1. cbn. apply map_lookup_filter_Some. cbn. rewrite lookup_insert_eq. split; [done|].
    cbn. unfold After, TimeAdd. lia. }
  assert (Redeem token t ts1 = (Ok ticket, MkTicketStore (delete token (tickets ts1)) (tickets_ttl ts1))) as ->.
  { unfold Redeem. rewrite Hl. cbn. unfold After, TimeAdd. by rewrite (proj2 (Z.ltb_ge _ _)). }
  split; [done|]. intros t'. unfold Redeem. cbn. by rewrite lookup_delete_eq.
Qed.
End HttpTheorems.
