(* ===== verification/Worlds.v ===== *)
(** * Worlds, members and invites (internal/transport/httpapi/worlds.go)

    Who may change a world over the HTTP API, the slugs of worlds, and the life
    of an invite from its creation to the member it admits.  Random tokens, ids
    and salts, the clock and the path values of a request are arguments. *)

From S2P Require Import Prelude GoStrings GoTime Json Perm Storage Password Auth Ticket Http.
From Stdlib Require Import Ascii.

Local Open Scope Z_scope.

Definition DefaultInviteTTL : Duration := 7 * 24 * Hour.
Definition maxInviteTTL : Duration := 90 * 24 * Hour.

(** ** Slugs *)

Definition slugByte (c : ascii) : bool := isLowerLetter c || isDigit c.

(** The loop of [slugify]: the text so far and [previousDash].  The source ranges
    over runes; no byte of a rune beyond ASCII is kept and a run of dropped
    characters gives one dash, so ranging over bytes builds the same text. *)
Definition slugStep (st : bytes * bool) (c : ascii) : bytes * bool :=
  let '(out, previousDash) := st in
  if slugByte c then (out ++ [c], false)
  else if negb previousDash && negb (isNil out) then (out ++ ["-"%char], true)
  else st.

Fixpoint dropDashes (l : bytes) : bytes :=
  match l with
  | c :: l' => if bool_decide (c = "-"%char) then dropDashes l' else l
  | [] => []
  end.

(** [strings.Trim(s, "-")]. *)
Definition trimDashes (l : bytes) : bytes := reverse (dropDashes (reverse (dropDashes l))).

Definition slugSource `{Unicode} (slug fallback : string) : bytes :=
  chars (ToLower (TrimSpace (if bool_decide (TrimSpace slug = "") then fallback else slug))).

Definition slugify `{Unicode} (slug fallback : string) : string :=
  unchars (trimDashes (foldl slugStep ([], false) (slugSource slug fallback)).1).

Definition candidateSlug (base : string) (suffix : Z) : string := base +:+ "-" +:+ Itoa suffix.

(** The loop of [nextFreeSlug], which has no bound of its own; [None] is a loop
    still running after [fuel] rounds. *)
Fixpoint freeSlugFrom (fuel : nat) (base : string) (taken : gset string) (suffix : Z) : option string :=
  match fuel with
  | O => None
  | S fuel =>
      let candidate := candidateSlug base suffix in
      if bool_decide (candidate ∈ taken) then freeSlugFrom fuel base taken (suffix + 1) else Some candidate
  end.

Definition nextFreeSlug (base : string) (taken : gset string) : option string :=
  freeSlugFrom (S (size taken)) base taken 2.

(** ** Requests and views *)

Record createWorldRequest := MkCreateWorldRequest { cw_Title : string; cw_Slug : string; cw_SystemID : string }.

Definition decodeCreateWorld (r : raw) : option createWorldRequest :=
  fs ← structFields r;
  let '(title, o1) := decodeField convString "" "title" fs in
  let '(slug, o2) := decodeField convString "" "slug" fs in
  let '(system, o3) := decodeField convString "" "systemId" fs in
  if o1 && o2 && o3 then Some (MkCreateWorldRequest title slug system) else None.

Definition decodeRole (r : raw) : option string :=
  fs ← structFields r;
  let '(role, ok) := decodeField convString "" "role" fs in
  if ok then Some role else None.

Record createInviteRequest := MkCreateInviteRequest { ci_Role : string; ci_MaxUses : Z; ci_TTLSeconds : Z }.

Definition decodeCreateInvite (r : raw) : option createInviteRequest :=
  fs ← structFields r;
  let '(role, o1) := decodeField convString "" "role" fs in
  let '(maxUses, o2) := decodeField convInt 0 "maxUses" fs in
  let '(ttl, o3) := decodeField convInt 0 "ttlSeconds" fs in
  if o1 && o2 && o3 then Some (MkCreateInviteRequest role maxUses ttl) else None.

Definition worldView (world : World) (role : string) : json :=
  JObj (fStr "id" (world_ID world) ++ fStr "slug" (world_Slug world) ++ fStr "title" (world_Title world) ++
    fStr "systemId" (world_SystemID world) ++ fStrOpt "role" role).

Definition memberView (member : Member) (username : string) : json :=
  JObj (fStr "userId" (member_UserID member) ++ fStr "username" username ++ fStr "role" (member_Role member)).

Definition inviteView (i : Invite) (token : string) : json :=
  JObj (fStr "id" (invite_ID i) ++ fStr "role" (invite_Role i) ++
    fStr "expiresAt" (formatRFC3339 (invite_ExpiresAt i)) ++ fInt "maxUses" (invite_MaxUses i) ++
    fInt "uses" (invite_Uses i) ++ fBool "revoked" (negb (isNone (invite_RevokedAt i))) ++
    fStrOpt "token" token).

(** The time to live of an invite; [time.Duration(n) * time.Second] wraps. *)
Definition inviteTTL (ttlSeconds : Z) : Duration :=
  let ttl := if 0 <? ttlSeconds then wrap64 (ttlSeconds * Second) else DefaultInviteTTL in
  if maxInviteTTL <? ttl then maxInviteTTL else ttl.

(** ** Handlers *)

Section Worlds.
Context `{Unicode} `{Argon2} {S : Type} `{Tx S}.
Variable d : AuthDeps.

(** [user, ok := d.requireRole(w, r, worldID, gmOnly); if !ok { return }] in a
    handler on a larger state, whose store is [store]. *)
Definition requireRoleAs {T R} (store : T → S) (answer : Response → R) (r : Request) (worldID : ID)
    (gmOnly : bool) (k : User → T → R * T) : T → R * T :=
  requireUserAs answer r (λ user st,
    match GetMember (store st) worldID (user_ID user) with
    | Err _ => (answer (apiError 403 "forbidden" "core.auth.notAMemberOfThisWorld"), st)
    | Ok member =>
        if gmOnly && negb (bool_decide (member_Role member = RoleGM))
        then (answer (apiError 403 "forbidden" "core.auth.gameMasterOnly"), st)
        else k user st
    end).

Definition requireRole (r : Request) (worldID : ID) (gmOnly : bool) (k : User → S → Response * S)
    : S → Response * S :=
  requireRoleAs (λ s, s) (λ resp, resp) r worldID gmOnly k.

Definition listWorldsHandler (r : Request) : S → Response * S :=
  requireUser r (λ user s,
    match worlds ← ListWorldsForUser s (user_ID user);
          traverse (λ w, m ← GetMember s (world_ID w) (user_ID user); Ok (worldView w (member_Role m))) worlds with
    | Err _ => (internalError, s)
    | Ok views => (writeJSON 200 (Raw (JArr views)), s)
    end).

Definition takenSlugs (s : S) : res (gset string) :=
  worlds ← ListWorlds s; Ok (list_to_set (world_Slug <$> worlds)).

Definition newWorld (randomID : string) (now : Time) (body : createWorldRequest) (slug : string) : World :=
  MkWorld (GenerateID randomID "world") slug (cw_Title body) (cw_SystemID body) "0.0.0" "" "" RawEmpty 0 now None.

(** The transaction of [createWorldHandler].  The loop of [nextFreeSlug] always
    ends, so its other case is no answer of the program. *)
Definition createWorldTx (randomID : string) (now : Time) (user : User) (body : createWorldRequest)
    (chosen : bool) : M S World :=
  taken ← lift takenSlugs;
  slug ← ofRes (if bool_decide (cw_Slug body ∈ taken)
                then if chosen then Err ErrAlreadyExists
                     else from_option Ok (Err (ErrOther "loop")) (nextFreeSlug (cw_Slug body) taken)
                else Ok (cw_Slug body));
  world ← PutWorld now (newWorld randomID now body slug);
  _ ← PutMember now (MkMember (world_ID world) (user_ID user) RoleGM 0);
  mret world.

Definition createWorldHandler (randomID : string) (now : Time) (r : Request) : S → Response * S :=
  requireUser r (λ user, withBody decodeCreateWorld r (λ body s,
    let title := TrimSpace (cw_Title body) in
    let chosen := negb (bool_decide (TrimSpace (cw_Slug body) = "")) in
    let slug := slugify (cw_Slug body) title in
    if bool_decide (title = "") || bool_decide (slug = "") || bool_decide (cw_SystemID body = "") then
      (apiError 400 "bad_request" "core.world.titleAndSystemRequired", s)
    else
      match runTx (createWorldTx randomID now user (MkCreateWorldRequest title slug (cw_SystemID body)) chosen) s with
      | (Err e, s) =>
          (if errors_Is e ErrAlreadyExists then apiError 409 "slug_taken" "core.world.slugTaken"
           else internalError, s)
      | (Ok world, s) => (writeJSON 201 (Raw (worldView world RoleGM)), s)
      end)).

Definition listMembersHandler (r : Request) (worldID : ID) : S → Response * S :=
  requireRole r worldID false (λ _ s,
    match ListMembers s worldID with
    | Err _ => (internalError, s)
    | Ok members =>
        (writeJSON 200 (Raw (JArr ((λ m, memberView m
           (match GetUser s (member_UserID m) with Ok u => user_Username u | Err _ => member_UserID m end))
           <$> members))), s)
    end).

(** A change of a member runs in two stages: the role of the actor is read, and the
    request judged, outside any transaction; the write is one.  The stages are
    definitions of their own because another request may come between them; the
    handler is their sequence. *)
Definition admitRole (r : Request) (worldID target : ID) : S → (Response + string) * S :=
  requireRoleAs (λ s, s) inl r worldID true (λ actor s,
    match decodeRole (req_Body r) with
    | None => (inl malformedBody, s)
    | Some role =>
        if negb (Valid role) then (inl (apiError 400 "bad_request" "core.world.unknownRole"), s)
        else if bool_decide (target = user_ID actor) && negb (bool_decide (role = RoleGM)) then
          (inl (apiError 409 "would_lock_out" "core.world.cannotDemoteYourself"), s)
        else (inr role, s)
    end).

Definition storeRole (now : Time) (worldID target : ID) (role : string) (s : S) : Response * S :=
  match runTx (_ ← lift (λ s, GetUser s target); PutMember now (MkMember worldID target role 0)) s with
  | (Err e, s) =>
      (if errors_Is e ErrNotFound then apiError 404 "not_found" "core.world.unknownUser"
       else internalError, s)
  | (Ok _, s) => (noContent, s)
  end.

Definition setMemberRoleHandler (now : Time) (r : Request) (worldID target : ID) : S → Response * S := λ s,
  match admitRole r worldID target s with
  | (inl resp, s) => (resp, s)
  | (inr role, s) => storeRole now worldID target role s
  end.

Definition admitRemoval (r : Request) (worldID target : ID) : S → (Response + unit) * S :=
  requireRoleAs (λ s, s) inl r worldID true (λ actor s,
    if bool_decide (target = user_ID actor) then
      (inl (apiError 409 "would_lock_out" "core.world.cannotRemoveYourself"), s)
    else (inr tt, s)).

Definition storeRemoval (worldID target : ID) (s : S) : Response * S :=
  match runTx (DeleteMember worldID target) s with
  | (Err e, s) =>
      (if errors_Is e ErrNotFound then apiError 404 "not_found" "core.world.notAMember"
       else internalError, s)
  | (Ok _, s) => (noContent, s)
  end.

Definition removeMemberHandler (r : Request) (worldID target : ID) : S → Response * S := λ s,
  match admitRemoval r worldID target s with
  | (inl resp, s) => (resp, s)
  | (inr _, s) => storeRemoval worldID target s
  end.

(** [created] and [base] are the two readings of the clock. *)
Definition newInvite (randomID token : string) (created base : Time) (worldID : ID) (actor : User)
    (body : createInviteRequest) : Invite :=
  MkInvite (GenerateID randomID "invite") (HashToken token) worldID (ci_Role body) (user_ID actor)
    created (TimeAdd base (inviteTTL (ci_TTLSeconds body))) (Z.max 0 (ci_MaxUses body)) 0 None.

Definition createInviteHandler (token : res string) (randomID : string) (created base now : Time)
    (r : Request) (worldID : ID) : S → Response * S :=
  requireRole r worldID true (λ actor, withBody decodeCreateInvite r (λ body s,
    let role := if bool_decide (ci_Role body = "") then RolePlayer else ci_Role body in
    if negb (Valid role) then (apiError 400 "bad_request" "core.world.unknownRole", s)
    else
      match token with
      | Err _ => (internalError, s)
      | Ok token =>
          let invite := newInvite randomID token created base worldID actor
                          (MkCreateInviteRequest role (ci_MaxUses body) (ci_TTLSeconds body)) in
          match runTx (PutInvite now invite) s with
          | (Err _, s) => (internalError, s)
          | (Ok invite, s) => (writeJSON 201 (Raw (inviteView invite token)), s)
          end
      end)).

Definition listInvitesHandler (r : Request) (worldID : ID) : S → Response * S :=
  requireRole r worldID true (λ _ s,
    match ListInvites s worldID with
    | Err _ => (internalError, s)
    | Ok invites => (writeJSON 200 (Raw (JArr ((λ i, inviteView i "") <$> invites))), s)
    end).

Definition revokeInviteHandler (now : Time) (r : Request) (worldID inviteID : ID) : S → Response * S :=
  requireRole r worldID true (λ _ s,
    match runTx (RevokeInvite now worldID inviteID) s with
    | (Err e, s) =>
        (if errors_Is e ErrNotFound then apiError 404 "not_found" "core.world.unknownInvite"
         else internalError, s)
    | (Ok _, s) => (noContent, s)
    end).

Definition previewInviteHandler (now : Time) (token : string) (s : S) : Response * S :=
  match invite ← GetInviteByTokenHash s (HashToken token);
        world ← GetWorld s (invite_WorldID invite); Ok (invite, world) with
  | Err _ => (apiError 404 "not_found" "core.invite.unknown", s)
  | Ok (invite, world) =>
      (writeJSON 200 (Raw (JObj (fStr "worldTitle" (world_Title world) ++ fStr "role" (invite_Role invite) ++
         fBool "valid" (Usable invite now)))), s)
  end.

(** Who joins: the user of the request, or a new account with a session. *)
Definition joiningUser (salt : res bytes) (randomID : string) (session : res string) (now : Time)
    (r : Request) (username password : string) : M S (User * option (string * Time)) :=
  match req_User r with
  | Some user => mret (user, None)
  | None =>
      built ← ofRes (BuildUser (deps_Service d) salt randomID now username password false);
      user ← insertUser now built;
      issued ← IssueSession (deps_Service d) session now (user_ID built) (req_UserAgent r);
      mret (user, Some issued)
  end.

(** The transaction of [acceptInviteHandler]. *)
Definition acceptTx (salt : res bytes) (randomID : string) (session : res string) (now : Time)
    (r : Request) (hash username password : string) : M S (User * option (string * Time)) :=
  invite ← lift (λ s, GetInviteByTokenHash s hash);
  _ ← ofRes (guard_res (Usable invite now) ErrInviteSpent);
  '(user, issued) ← joiningUser salt randomID session now r username password;
  _ ← PutMember now (MkMember (invite_WorldID invite) (user_ID user) (invite_Role invite) 0);
  _ ← ConsumeInvite (invite_WorldID invite) (invite_ID invite);
  mret (user, issued).

Definition acceptError (e : err) : Response :=
  if errors_Is e ErrInviteSpent || errors_Is e ErrNotFound
  then apiError 410 "invite_spent" "core.invite.noLongerValid"
  else if errors_Is e ErrUsernameTaken then apiError 409 "username_taken" "core.auth.usernameTaken"
  else if errors_Is e ErrWeakPassword then apiError 400 "weak_password" "core.auth.passwordTooShort"
  else if errors_Is e ErrInvalidCredentials then apiError 400 "bad_request" "core.auth.usernameRequired"
  else internalError.

Definition acceptInviteHandler (salt : res bytes) (randomID : string) (session : res string) (now : Time)
    (r : Request) (token : string) : S → Response * S :=
  withBody decodeCredentials r (λ body s,
    match runTx (acceptTx salt randomID session now r (HashToken token) body.1 body.2) s with
    | (Err e, s) => (acceptError e, s)
    | (Ok (user, issued), s) =>
        let resp := writeJSON 200 (identityOf user) in
        (match issued with
         | Some (token, expires) =>
             if bool_decide (token = "") then resp else withCookie (issueCookie d r token expires) resp
         | None => resp
         end, s)
    end).
End Worlds.

(** ** Slugs: lemmas *)

(** The maximal runs of kept bytes, the empty ones included. *)
Fixpoint runs (l : bytes) : list bytes :=
  match l with
  | [] => [[]]
  | c :: l =>
      match runs l with
      | w :: ws => if slugByte c then (c :: w) :: ws else [] :: w :: ws
      | [] => []
      end
  end.

(** The words of a text, and words joined by single dashes. *)
Definition slugWords (l : bytes) : list bytes := filter (λ w, w ≠ []) (runs l).

Fixpoint dashed (ws : list bytes) : bytes :=
  match ws with
  | [] => []
  | [w] => w
  | w :: ws => w ++ "-"%char :: dashed ws
  end.

(** What the loop appends, from the state it is in. *)
Fixpoint appended (started dash : bool) (l : bytes) : bytes :=
  match l with
  | [] => []
  | c :: l =>
      if slugByte c then c :: appended true false l
      else if negb dash && started then "-"%char :: appended true true l
      else appended started dash l
  end.

Lemma slugLoop_appended l out dash :
  (foldl slugStep (out, dash) l).1 = out ++ appended (negb (isNil out)) dash l.
Proof.
  revert out dash. induction l as [|c l IH]; intros out dash; cbn [foldl appended]; [by rewrite app_nil_r|].
  unfold slugStep at 2. destruct (slugByte c); [|destruct (negb dash && negb (isNil out))];
    rewrite IH, <-?app_assoc; cbn; try done; by destruct out.
Qed.

Lemma runs_cons l : ∃ w ws, runs l = w :: ws.
Proof.
  induction l as [|c l (w & ws & IH)]; cbn; [by do 2 eexists|]. rewrite IH.
  destruct (slugByte c); by do 2 eexists.
Qed.

(** Without the dashes at the end. *)
Fixpoint withoutEnd (l : bytes) : bytes :=
  match l with
  | [] => []
  | c :: l =>
      match withoutEnd l with
      | [] => if bool_decide (c = "-"%char) then [] else [c]
      | r => c :: r
      end
  end.

Lemma dropDashes_snoc l c :
  dropDashes (l ++ [c]) = match dropDashes l with [] => dropDashes [c] | r => r ++ [c] end.
Proof. induction l as [|a l IH]; [done|]. cbn. case_bool_decide; [exact IH|done]. Qed.

Lemma reverse_dropDashes l : reverse (dropDashes (reverse l)) = withoutEnd l.
Proof.
  induction l as [|c l IH]; [done|]. rewrite reverse_cons, dropDashes_snoc. cbn [withoutEnd].
  rewrite <-IH. destruct (dropDashes (reverse l)) as [|a k] eqn:E.
  - cbn. by case_bool_decide.
  - rewrite reverse_snoc. by destruct (reverse (a :: k)) eqn:Er;
      [apply (f_equal length) in Er; rewrite length_reverse in Er|].
Qed.

Lemma slugByte_dash c : slugByte c = true → c ≠ "-"%char.
Proof. by intros Hc ->. Qed.

Lemma withoutEnd_cons c l : slugByte c = true → withoutEnd (c :: l) = c :: withoutEnd l.
Proof.
  intros Hc%slugByte_dash. cbn. destruct (withoutEnd l); [|done]. by rewrite bool_decide_eq_false_2.
Qed.

Lemma dashed_cons_nil ws : dashed ([] :: ws) = if isNil ws then [] else "-"%char :: dashed ws.
Proof. by destruct ws. Qed.

Lemma dashed_nil ws : Forall (λ w, w ≠ []) ws → dashed ws = [] → ws = [].
Proof. intros Hw. destruct Hw as [|w ws Hne Hw]; [done|]. cbn. destruct ws, w; done. Qed.

Lemma slugWords_nonempty l : Forall (λ w, w ≠ []) (slugWords l).
Proof. apply Forall_forall. intros w [Hw _]%list_elem_of_filter. exact Hw. Qed.

(** The loop before a word and inside one. *)
Lemma appended_spec l :
  (∀ started dash, negb dash && started = false →
     withoutEnd (appended started dash l) = dashed (slugWords l)) ∧
  (∀ w ws, runs l = w :: ws →
     withoutEnd (appended true false l) = dashed (w :: filter (λ w, w ≠ []) ws)).
Proof.
  induction l as [|c l [IH1 IH2]]; [split; [done|by intros w ws [= <- <-]]|].
  destruct (runs_cons l) as (w & ws & Hr). unfold slugWords. cbn [runs appended]. rewrite Hr.
  destruct (slugByte c) eqn:Ec.
  - split.
    + intros started dash _. rewrite withoutEnd_cons, (IH2 w ws Hr), filter_cons_True by done.
      by destruct (filter _ ws).
    + intros w' ws' [= <- <-]. rewrite withoutEnd_cons, (IH2 w ws Hr) by done. by destruct (filter _ ws).
  - split.
    + intros started dash Hd. rewrite Hd, IH1, filter_cons_False by (done || (by intros [])).
      unfold slugWords. by rewrite Hr.
    + intros w' ws' [= <- <-]. cbn [negb andb]. fold (slugWords l). rewrite dashed_cons_nil.
      assert (filter (λ w, w ≠ []) (w :: ws) = slugWords l) as -> by (unfold slugWords; by rewrite Hr).
      cbn [withoutEnd]. rewrite IH1 by done.
      pose proof (dashed_nil (slugWords l) (slugWords_nonempty l)) as Hn.
      destruct (dashed (slugWords l)) as [|a k] eqn:E; [by rewrite Hn|].
      by destruct (slugWords l).
Qed.

Lemma appended_head l : dropDashes (appended false false l) = appended false false l.
Proof.
  induction l as [|c l IH]; [done|]. cbn. destruct (slugByte c) eqn:Ec; [|exact IH].
  cbn. by rewrite bool_decide_eq_false_2 by by apply slugByte_dash.
Qed.

Lemma runs_bytes l : Forall (λ w, forallb slugByte w = true) (runs l).
Proof.
  induction l as [|c l IH]; cbn; [by repeat constructor|].
  destruct IH as [|w ws Hw Hws]; [done|]. destruct (slugByte c) eqn:Ec; repeat constructor; try done.
  cbn. by rewrite Ec.
Qed.

Lemma slugify_words `{Unicode} slug fallback :
  chars (slugify slug fallback) = dashed (slugWords (slugSource slug fallback)).
Proof.
  unfold slugify, trimDashes. rewrite chars_unchars, slugLoop_appended. cbn [app isNil negb].
  rewrite appended_head, reverse_dropDashes. by apply appended_spec.
Qed.

(** Joining and taking apart again. *)
Lemma runs_app_dash w l : forallb slugByte w = true → runs (w ++ "-"%char :: l) = w :: runs l.
Proof.
  induction w as [|c w IH]; cbn.
  - intros _. by destruct (runs_cons l) as (? & ? & ->).
  - intros [-> Hw]%andb_prop. by rewrite IH.
Qed.

Lemma runs_word w : forallb slugByte w = true → runs w = [w].
Proof. induction w as [|c w IH]; [done|]. cbn. intros [-> Hw]%andb_prop. by rewrite IH. Qed.

Lemma slugWords_dashed ws :
  Forall (λ w, w ≠ [] ∧ forallb slugByte w = true) ws → slugWords (dashed ws) = ws.
Proof.
  unfold slugWords. induction 1 as [|w ws [Hne Hb] Hws IH]; [done|].
  destruct ws as [|w' ws']; cbn [dashed].
  - rewrite runs_word by done. by rewrite filter_cons_True.
  - rewrite runs_app_dash, filter_cons_True by done. by f_equal.
Qed.

Lemma candidateSlug_inj base i j :
  0 ≤ i ≤ max_int64 → 0 ≤ j ≤ max_int64 → candidateSlug base i = candidateSlug base j → i = j.
Proof.
  intros Hi Hj Heq. apply (f_equal chars) in Heq. unfold candidateSlug in Heq. rewrite !chars_app in Heq.
  apply app_inv_head, app_inv_head, chars_inj in Heq.
  apply (f_equal Atoi) in Heq. rewrite !Atoi_Itoa in Heq by done. by injection Heq.
Qed.

(** A search that has not ended has seen that many taken slugs. *)
Lemma freeSlugFrom_None fuel base taken k :
  freeSlugFrom fuel base taken k = None → ∀ i, (i < fuel)%nat → candidateSlug base (k + Z.of_nat i) ∈ taken.
Proof.
  revert k. induction fuel as [|fuel IH]; intros k; cbn; [lia|].
  case_bool_decide as Hk; [|done]. intros Hn i Hi. destruct i as [|i]; [by rewrite Z.add_0_r|].
  replace (k + Z.of_nat (S i)) with (k + 1 + Z.of_nat i) by lia. apply IH; [done|lia].
Qed.

Lemma freeSlugFrom_Some fuel base taken k slug :
  freeSlugFrom fuel base taken k = Some slug →
  ∃ i, (i < fuel)%nat ∧ slug = candidateSlug base (k + Z.of_nat i) ∧ slug ∉ taken ∧
    ∀ j, (j < i)%nat → candidateSlug base (k + Z.of_nat j) ∈ taken.
Proof.
  revert k. induction fuel as [|fuel IH]; intros k; cbn; [done|]. case_bool_decide as Hk.
  - intros (i & Hi & -> & Hfree & Hall)%IH. exists (S i). split_and!; [lia| |done|].
    + f_equal. lia.
    + intros [|j] Hj; [by rewrite Z.add_0_r|].
      replace (k + Z.of_nat (S j)) with (k + 1 + Z.of_nat j) by lia. apply Hall. lia.
  - intros [= <-]. exists O. rewrite Z.add_0_r. split_and!; [lia|done|done|]. intros j Hj. lia.
Qed.

(** Among as many candidates as there are slugs and one more, one is free. *)
Lemma freeSlugFrom_total base (taken : gset string) fuel :
  (size taken < fuel)%nat → Z.of_nat fuel + 2 ≤ max_int64 → is_Some (freeSlugFrom fuel base taken 2).
Proof.
  intros Hf Hmax. destruct (freeSlugFrom fuel base taken 2) eqn:E; [by eexists|exfalso].
  pose proof (freeSlugFrom_None _ _ _ _ E) as Hin.
  set (cs := (λ i, candidateSlug base (2 + Z.of_nat i)) <$> seq 0 fuel).
  assert (NoDup cs) as Hd.
  { apply NoDup_fmap_2_strong; [|apply NoDup_seq]. intros i j Hi%elem_of_seq Hj%elem_of_seq Heq.
    apply candidateSlug_inj in Heq; lia. }
  assert (size (list_to_set cs : gset string) ≤ size taken)%nat as Hle.
  { apply subseteq_size. intros x (i & -> & Hi%elem_of_seq)%elem_of_list_to_set%list_elem_of_fmap.
    apply Hin. lia. }
  rewrite size_list_to_set in Hle by done. unfold cs in Hle. rewrite length_fmap, length_seq in Hle. lia.
Qed.

(** ** Members: lemmas *)

Section RoleChecks.
Context {S : Type} `{Tx S}.
Implicit Types (s : S) (r : Request).

(** A handler behind [requireRole] either answers without effect or runs for a
    member with the role. *)
Lemma requireRoleAs_cases {T R} (store : T → S) (answer : Response → R) r w gmOnly k st out st' :
  requireRoleAs store answer r w gmOnly k st = (out, st') →
  (st' = st ∧ ∃ resp, out = answer resp ∧ resp_Status resp ∈ [401; 403]) ∨
  ∃ user m, req_User r = Some user ∧ GetMember (store st) w (user_ID user) = Ok m ∧
    (gmOnly = true → member_Role m = RoleGM) ∧ k user st = (out, st').
Proof.
  assert (∀ n c key, n ∈ [401; 403] → answer (apiError n c key) = answer (apiError n c key) ∧
    resp_Status (apiError n c key) ∈ [401; 403]) as Href by done.
  unfold requireRoleAs, requireUserAs. destruct (req_User r) as [user|].
  2:{ intros [= <- <-]. left. split; [done|]. eexists. apply Href. set_solver. }
  destruct (GetMember (store st) w (user_ID user)) as [m|] eqn:Em.
  2:{ intros [= <- <-]. left. split; [done|]. eexists. apply Href. set_solver. }
  destruct (gmOnly && negb (bool_decide (member_Role m = RoleGM))) eqn:Eg.
  { intros [= <- <-]. left. split; [done|]. eexists. apply Href. set_solver. }
  intros Hk. right. exists user, m. split_and!; try done.
  intros ->. cbn in Eg. by apply negb_false_iff, bool_decide_eq_true in Eg.
Qed.

Lemma requireRole_cases r w gmOnly k s resp s' :
  requireRole r w gmOnly k s = (resp, s') →
  (s' = s ∧ resp_Status resp ∈ [401; 403]) ∨
  ∃ user m, req_User r = Some user ∧ GetMember s w (user_ID user) = Ok m ∧
    (gmOnly = true → member_Role m = RoleGM) ∧ k user s = (resp, s').
Proof. intros [(-> & x & -> & Hx)|?]%requireRoleAs_cases; auto. Qed.

Lemma refused_status resp n : resp_Status resp ∈ [401; 403] → n ≠ 401 → n ≠ 403 → resp_Status resp ≠ n.
Proof. rewrite !elem_of_cons, elem_of_nil. lia. Qed.
End RoleChecks.

Section WorldLaws.
Context `{Unicode} `{Argon2} {S : Type} `{TxLaws S} `{!AdmissionLaws S}.
Implicit Types (s : S) (r : Request).

Definition hasGM s (w : ID) : Prop := ∃ u m, GetMember s w u = Ok m ∧ member_Role m = RoleGM.

(** The requests that manage worlds, members and invites. *)
Inductive worldRequest :=
  | RCreateWorld (randomID : string) (now : Time) (r : Request)
  | RSetRole (now : Time) (r : Request) (world target : ID)
  | RRemove (r : Request) (world target : ID)
  | RCreateInvite (token : res string) (randomID : string) (created base now : Time) (r : Request) (world : ID)
  | RRevokeInvite (now : Time) (r : Request) (world invite : ID).

Definition serveWorld (q : worldRequest) : S → Response * S :=
  match q with
  | RCreateWorld randomID now r => createWorldHandler randomID now r
  | RSetRole now r w u => setMemberRoleHandler now r w u
  | RRemove r w u => removeMemberHandler r w u
  | RCreateInvite token randomID created base now r w => createInviteHandler token randomID created base now r w
  | RRevokeInvite now r w i => revokeInviteHandler now r w i
  end.

Definition requestOf (q : worldRequest) : Request :=
  match q with
  | RCreateWorld _ _ r | RSetRole _ r _ _ | RRemove r _ _ | RCreateInvite _ _ _ _ _ r _
  | RRevokeInvite _ r _ _ => r
  end.

(** The world a request manages; creating one needs no role. *)
Definition managed (q : worldRequest) : option ID :=
  match q with
  | RCreateWorld _ _ _ => None
  | RSetRole _ _ w _ | RRemove _ w _ | RCreateInvite _ _ _ _ _ _ w | RRevokeInvite _ _ w _ => Some w
  end.

(** What the body of each managing handler can do to the store. *)
Lemma createWorldTx_Ok randomID now user body chosen s world s' :
  wf s → createWorldTx randomID now user body chosen s = (Ok world, s') →
  wf s' ∧ (∃ m, GetMember s' (GenerateID randomID "world") (user_ID user) = Ok m ∧ member_Role m = RoleGM) ∧
  ∀ w u, (w, u) ≠ (GenerateID randomID "world", user_ID user) → GetMember s' w u = GetMember s w u.
Proof.
  intros Hwf Ht. unfold createWorldTx in Ht.
  apply M_bind_Ok in Ht as (taken & s1 & Htk & Ht). apply lift_Ok in Htk as [_ ->].
  apply M_bind_Ok in Ht as (slug & s1 & Hsl & Ht). apply ofRes_Ok in Hsl as [_ ->].
  apply M_bind_Ok in Ht as (x & s1 & Hw & Ht). apply M_bind_Ok in Ht as (y & s2 & Hm & Ht).
  apply ret_Ok in Ht as [-> ->].
  assert (wf s1) as Hwf1 by (refine (PutWorld_wf _ _ _ _ _ Hwf _ Hw); by right).
  destruct (PutWorld_members _ _ _ _ _ Hw) as [Hid Hsame]. cbn in Hid.
  destruct (PutMember_wf _ _ _ _ _ Hwf1 Hm) as (Hwf2 & (m & Hg & Hr) & Hother). cbn in *. rewrite Hid in *.
  split_and!; [done|by exists m|]. intros w u Hne. by rewrite Hother, Hsame.
Qed.

(** A step that keeps the store well formed, needs a game master of the managed
    world for any effect, and takes no world its last game master. *)
Definition managedStep (q : worldRequest) s s' : Prop :=
  wf s' ∧
  (s' ≠ s → ∃ user, req_User (requestOf q) = Some user ∧
     ∀ w, managed q = Some w → ∃ m, GetMember s w (user_ID user) = Ok m ∧ member_Role m = RoleGM) ∧
  (∀ w, hasGM s w → hasGM s' w).

Lemma managedStep_refl q s : wf s → managedStep q s s.
Proof. by intros Hwf. Qed.

Lemma managedStep_gm q s s' user w m :
  wf s' → req_User (requestOf q) = Some user → managed q = Some w →
  GetMember s w (user_ID user) = Ok m → member_Role m = RoleGM →
  (∀ w, hasGM s w → hasGM s' w) → managedStep q s s'.
Proof.
  intros Hwf Hu Hw Hm Hr Hgm. split_and!; [done| |done]. intros _. exists user. split; [done|].
  intros w'. rewrite Hw. intros [= <-]. by exists m.
Qed.

Lemma hasGM_same s s' : (∀ w u, GetMember s' w u = GetMember s w u) → ∀ w, hasGM s w → hasGM s' w.
Proof. intros Hsame w (u & m & Hm & Hr). exists u, m. by rewrite Hsame. Qed.

(** A membership changes and game master [a] is not the one that loses. *)
Lemma hasGM_other s s' w u a m :
  GetMember s w a = Ok m → member_Role m = RoleGM → a ≠ u →
  (∀ w' u', (w', u') ≠ (w, u) → GetMember s' w' u' = GetMember s w' u') →
  ∀ w, hasGM s w → hasGM s' w.
Proof.
  intros Hm Hr Hne Hsame w' (v & n & Hn & Hv). destruct (decide (w' = w)) as [->|Hw].
  - exists a, m. rewrite Hsame by congruence. done.
  - exists v, n. rewrite Hsame by congruence. done.
Qed.

(** A membership becomes that of a game master. *)
Lemma hasGM_promoted s s' w u m :
  GetMember s' w u = Ok m → member_Role m = RoleGM →
  (∀ w' u', (w', u') ≠ (w, u) → GetMember s' w' u' = GetMember s w' u') →
  ∀ w, hasGM s w → hasGM s' w.
Proof.
  intros Hm Hr Hsame w' (v & n & Hn & Hv). destruct (decide ((w', v) = (w, u))) as [[= -> ->]|Hne].
  - by exists u, m.
  - exists v, n. by rewrite Hsame.
Qed.

(** A branch that answers and changes nothing. *)
Ltac unchanged H := injection H as _ <-; by apply managedStep_refl.

Lemma createWorld_managed randomID now r s resp s' :
  wf s → createWorldHandler randomID now r s = (resp, s') → managedStep (RCreateWorld randomID now r) s s'.
Proof.
  intros Hwf Hq. unfold createWorldHandler, requireUser, requireUserAs, withBody in Hq.
  destruct (req_User r) as [user|] eqn:Eu; [|unchanged Hq].
  destruct (decodeCreateWorld _) as [body|]; [|unchanged Hq].
  destruct (_ || _); [unchanged Hq|].
  destruct (runTx _ s) as [[world|e] s1] eqn:Et; injection Hq as _ <-.
  2:{ apply runTx_Err in Et as ->. by apply managedStep_refl. }
  apply (proj1 (runTx_Ok _ _ _ _)) in Et.
  destruct (createWorldTx_Ok _ _ _ _ _ _ _ _ Hwf Et) as (Hwf' & (m & Hm & Hr) & Hsame).
  split_and!; [done|by exists user|]. by eapply hasGM_promoted.
Qed.

(** What admits a change of a role: a game master, a known role, and no demotion of
    oneself.  The rest is refused, and nothing is written. *)
Lemma admitRole_cases r w u s out s' :
  admitRole r w u s = (out, s') →
  s' = s ∧ ((∃ resp, out = inl resp) ∨
    ∃ user m role, req_User r = Some user ∧ GetMember s w (user_ID user) = Ok m ∧ member_Role m = RoleGM ∧
      out = inr role ∧ (u = user_ID user → role = RoleGM)).
Proof.
  intros [(-> & x & -> & _)|(user & m & Hu & Hm & Hr & Hq)]%requireRoleAs_cases; [split; [done|left; by eexists]|].
  specialize (Hr eq_refl). destruct (decodeRole _) as [role|]; [|injection Hq as <- <-; split; [done|left; by eexists]].
  destruct (negb (Valid role)); [injection Hq as <- <-; split; [done|left; by eexists]|].
  destruct (bool_decide (u = user_ID user) && _) eqn:Eself; injection Hq as <- <-; (split; [done|]);
    [left; by eexists|right]. exists user, m, role. split_and!; try done.
  intros ->. rewrite bool_decide_eq_true_2 in Eself by done. cbn in Eself.
  by apply negb_false_iff, bool_decide_eq_true in Eself.
Qed.

Lemma setMemberRole_managed now r w u s resp s' :
  wf s → setMemberRoleHandler now r w u s = (resp, s') → managedStep (RSetRole now r w u) s s'.
Proof.
  intros Hwf Hq. unfold setMemberRoleHandler in Hq. destruct (admitRole r w u s) as [out s0] eqn:Ea.
  apply admitRole_cases in Ea as [-> [[x ->]|(user & m & role & Hu & Hm & Hr & -> & Hself)]]; [unchanged Hq|].
  unfold storeRole in Hq. destruct (runTx _ s) as [[x|e] s1] eqn:Et; injection Hq as _ <-.
  2:{ apply runTx_Err in Et as ->. by apply managedStep_refl. }
  apply (proj1 (runTx_Ok _ _ _ _)) in Et. apply M_bind_Ok in Et as (y & s2 & Hy & Et).
  apply lift_Ok in Hy as [_ ->].
  destruct (PutMember_wf _ _ _ _ _ Hwf Et) as (Hwf' & (m' & Hm' & Hr') & Hsame). cbn in *.
  eapply managedStep_gm; [done..|]. destruct (decide (u = user_ID user)) as [->|Hne].
  - eapply hasGM_promoted; [done| |done]. rewrite Hr'. by apply Hself.
  - by eapply hasGM_other.
Qed.

Lemma admitRemoval_cases r w u s out s' :
  admitRemoval r w u s = (out, s') →
  s' = s ∧ ((∃ resp, out = inl resp) ∨
    ∃ user m, req_User r = Some user ∧ GetMember s w (user_ID user) = Ok m ∧ member_Role m = RoleGM ∧
      out = inr tt ∧ u ≠ user_ID user).
Proof.
  intros [(-> & x & -> & _)|(user & m & Hu & Hm & Hr & Hq)]%requireRoleAs_cases; [split; [done|left; by eexists]|].
  specialize (Hr eq_refl). case_bool_decide as Eself; injection Hq as <- <-; (split; [done|]);
    [left; by eexists|right]. by exists user, m.
Qed.

Lemma removeMember_managed r w u s resp s' :
  wf s → removeMemberHandler r w u s = (resp, s') → managedStep (RRemove r w u) s s'.
Proof.
  intros Hwf Hq. unfold removeMemberHandler in Hq. destruct (admitRemoval r w u s) as [out s0] eqn:Ea.
  apply admitRemoval_cases in Ea as [-> [[x ->]|(user & m & Hu & Hm & Hr & -> & Hself)]]; [unchanged Hq|].
  unfold storeRemoval in Hq. destruct (runTx _ s) as [[x|e] s1] eqn:Et; injection Hq as _ <-.
  2:{ apply runTx_Err in Et as ->. by apply managedStep_refl. }
  apply (proj1 (runTx_Ok _ _ _ _)) in Et. destruct (DeleteMember_members _ _ _ _ _ Et) as [_ Hsame].
  eapply managedStep_gm; [by eapply DeleteMember_wf|done..|]. by eapply hasGM_other.
Qed.

Lemma createInvite_managed token randomID created base now r w s resp s' :
  wf s → createInviteHandler token randomID created base now r w s = (resp, s') →
  managedStep (RCreateInvite token randomID created base now r w) s s'.
Proof.
  intros Hwf Hq. apply requireRole_cases in Hq as [[-> _]|(user & m & Hu & Hm & Hr & Hq)];
    [by apply managedStep_refl|].
  specialize (Hr eq_refl). unfold withBody in Hq.
  destruct (decodeCreateInvite _) as [body|]; [|unchanged Hq].
  cbn zeta in Hq. destruct (negb (Valid _)); [unchanged Hq|].
  destruct token as [token|]; [|unchanged Hq].
  destruct (runTx _ s) as [[x|e] s1] eqn:Et; injection Hq as _ <-.
  2:{ apply runTx_Err in Et as ->. by apply managedStep_refl. }
  apply (proj1 (runTx_Ok _ _ _ _)) in Et. pose proof (PutInvite_members _ _ _ _ _ Et) as Hsame.
  eapply managedStep_gm; [by eapply PutInvite_wf|done..|]. by apply hasGM_same.
Qed.

Lemma revokeInvite_managed now r w i s resp s' :
  wf s → revokeInviteHandler now r w i s = (resp, s') → managedStep (RRevokeInvite now r w i) s s'.
Proof.
  intros Hwf Hq. apply requireRole_cases in Hq as [[-> _]|(user & m & Hu & Hm & Hr & Hq)];
    [by apply managedStep_refl|].
  specialize (Hr eq_refl). destruct (runTx _ s) as [[x|e] s1] eqn:Et; injection Hq as _ <-.
  2:{ apply runTx_Err in Et as ->. by apply managedStep_refl. }
  apply (proj1 (runTx_Ok _ _ _ _)) in Et. pose proof (RevokeInvite_members _ _ _ _ _ _ Et) as Hsame.
  eapply managedStep_gm; [by eapply RevokeInvite_wf|done..|]. by apply hasGM_same.
Qed.

Lemma serveWorld_managed q s resp s' : wf s → serveWorld q s = (resp, s') → managedStep q s s'.
Proof.
  intros Hwf. destruct q; cbn [serveWorld]; intros Hq.
  - by eapply createWorld_managed.
  - by eapply setMemberRole_managed.
  - by eapply removeMember_managed.
  - by eapply createInvite_managed.
  - by eapply revokeInvite_managed.
Qed.
End WorldLaws.

(** ** Invites: lemmas *)

Section InviteLaws.
Context `{Unicode} `{Argon2} {S : Type} `{TxLaws S} `{!AdmissionLaws S}.
Implicit Types (s : S) (r : Request).
Variable d : AuthDeps.

(** Who joins is the user of the request, or a new account without any rights of
    an administrator; neither memberships nor invites are touched. *)
Lemma joiningUser_Ok salt randomID session now r username password s user issued s' :
  wf s → joiningUser d salt randomID session now r username password s = (Ok (user, issued), s') →
  wf s' ∧ (∀ w u, GetMember s' w u = GetMember s w u) ∧
  (∀ h, GetInviteByTokenHash s' h = GetInviteByTokenHash s h) ∧
  match req_User r with
  | Some u => user = u ∧ s' = s
  | None => user_ID user = "user-" +:+ randomID ∧
      GetUserByUsername s (NormaliseUsername username) = Err ErrNotFound ∧
      ∃ row, GetUser s' (user_ID user) = Ok row ∧ user_IsAdmin row = false ∧
        user_Username row = NormaliseUsername username
  end.
Proof.
  intros Hwf Hj. unfold joiningUser in Hj. destruct (req_User r) as [u|].
  { apply ret_Ok in Hj as [[= -> ->] ->]. by split_and!. }
  apply M_bind_Ok in Hj as (built & s1 & Hb & Hj). apply ofRes_Ok in Hb as [Hb ->].
  apply M_bind_Ok in Hj as (u & s1 & Hi & Hj). apply insertUser_Ok in Hi as [Hfree Hput].
  apply M_bind_Ok in Hj as (out & s2 & His & Hj). apply ret_Ok in Hj as [[= -> _] ->].
  unfold IssueSession in His. apply M_bind_Ok in His as (tok & s3 & Ht & His).
  apply ofRes_Ok in Ht as [_ ->]. apply M_bind_Ok in His as (x & s3 & Hx & His).
  apply ret_Ok in His as [_ ->].
  destruct (PutUser_wf _ _ _ _ _ Hwf Hput) as (Hwf1 & (row & Hrow & Hn & _ & Ha & _) & _ & _).
  destruct (PutUser_admission _ _ _ _ _ Hput) as (Hid & Hm1 & Hi1).
  destruct (PutUserSession_wf _ _ _ _ _ Hwf1 Hx) as (Hwf2 & Hus & _).
  destruct (PutUserSession_admission _ _ _ _ _ Hx) as [Hm2 Hi2].
  unfold BuildUser in Hb. case_bool_decide; [done|]. apply bind_Ok in Hb as (hash & _ & [= <-]). cbn in *.
  split_and!; try done.
  - intros w v. by rewrite Hm2, Hm1.
  - intros h. by rewrite Hi2, Hi1.
  - exists row. by rewrite Hus, Hid.
Qed.

Lemma acceptTx_Ok salt randomID session now r hash username password s user issued s' :
  wf s → acceptTx d salt randomID session now r hash username password s = (Ok (user, issued), s') →
  ∃ invite, GetInviteByTokenHash s hash = Ok invite ∧ Usable invite now = true ∧
    (invite_MaxUses invite = 0 ∨ invite_Uses invite < invite_MaxUses invite) ∧ wf s' ∧
    (∃ m, GetMember s' (invite_WorldID invite) (user_ID user) = Ok m ∧ member_Role m = invite_Role invite) ∧
    (∀ w u, (w, u) ≠ (invite_WorldID invite, user_ID user) → GetMember s' w u = GetMember s w u) ∧
    (∀ h i, GetInviteByTokenHash s h = Ok i →
       GetInviteByTokenHash s' h = Ok (if decide (invite_ID i = invite_ID invite) then usedOnce i else i)) ∧
    match req_User r with
    | Some u => user = u
    | None => user_ID user = "user-" +:+ randomID ∧
        GetUserByUsername s (NormaliseUsername username) = Err ErrNotFound
    end.
Proof.
  intros Hwf Ht. unfold acceptTx in Ht.
  apply M_bind_Ok in Ht as (invite & s1 & Hi & Ht). apply lift_Ok in Hi as [Hi ->].
  apply M_bind_Ok in Ht as ([] & s1 & Hg & Ht). apply ofRes_Ok in Hg as [Hg ->]. apply guard_res_Ok in Hg.
  apply M_bind_Ok in Ht as ([u out] & s1 & Hj & Ht).
  destruct (joiningUser_Ok _ _ _ _ _ _ _ _ _ _ _ Hwf Hj) as (Hwf1 & Hm1 & Hi1 & Hwho).
  apply M_bind_Ok in Ht as (y & s2 & Hp & Ht).
  destruct (PutMember_wf _ _ _ _ _ Hwf1 Hp) as (Hwf2 & (m & Hm & Hr) & Hm2).
  pose proof (PutMember_invites _ _ _ _ _ Hp) as Hi2.
  apply M_bind_Ok in Ht as (z & s3 & Hc & Ht). apply ret_Ok in Ht as [[= -> ->] ->].
  destruct (ConsumeInvite_admission _ _ _ _ _ Hwf2 Hc) as (Hm3 & Hi3 & Hspend). cbn in *.
  assert (∀ h, GetInviteByTokenHash s2 h = GetInviteByTokenHash s h) as Hsame by (intros h; by rewrite Hi2, Hi1).
  exists invite. split_and!; try done.
  - by apply (Hspend hash); [rewrite Hsame|].
  - by eapply ConsumeInvite_wf.
  - exists m. by rewrite Hm3.
  - intros w v Hne. by rewrite Hm3, Hm2, Hm1.
  - intros h i Hh. apply Hi3. by rewrite Hsame.
  - destruct (req_User r); [by destruct Hwho|]. by destruct Hwho as (? & ? & _).
Qed.

Lemma acceptError_status e : resp_Status (acceptError e) ≠ 200 ∧ resp_Cookies (acceptError e) = [].
Proof. unfold acceptError. by repeat case_match. Qed.

(** One request to accept an invite. *)
Record acceptance := MkAcceptance {
  acc_salt : res bytes; acc_randomID : string; acc_session : res string; acc_now : Time;
  acc_request : Request; acc_token : string
}.

Definition accept (x : acceptance) : S → Response * S :=
  acceptInviteHandler d (acc_salt x) (acc_randomID x) (acc_session x) (acc_now x) (acc_request x) (acc_token x).

(** How many of a sequence of requests are admitted with the given token. *)
Fixpoint admitted (hash : string) (xs : list acceptance) s : nat :=
  match xs with
  | [] => O
  | x :: xs =>
      let '(resp, s') := accept x s in
      ((if bool_decide (HashToken (acc_token x) = hash) && (resp_Status resp =? 200)%Z then 1 else 0)
       + admitted hash xs s')%nat
  end.

(** An answer to an acceptance: refused without effect, or admitted. *)
Lemma accept_cases x s resp s' :
  accept x s = (resp, s') →
  (s' = s ∧ resp_Status resp ≠ 200 ∧ resp_Cookies resp = []) ∨
  (resp_Status resp = 200 ∧ ∃ username password user issued,
     decodeCredentials (req_Body (acc_request x)) = Some (username, password) ∧
     resp_Body resp = identityOf user ∧
     acceptTx d (acc_salt x) (acc_randomID x) (acc_session x) (acc_now x) (acc_request x)
       (HashToken (acc_token x)) username password s = (Ok (user, issued), s')).
Proof.
  unfold accept, acceptInviteHandler, withBody.
  destruct (decodeCredentials _) as [[username password]|].
  2:{ intros [= <- <-]. by left. }
  cbn [fst snd]. destruct (runTx _ s) as [[[user issued]|e] s1] eqn:Et; intros [= <- <-].
  - right. apply (proj1 (runTx_Ok _ _ _ _)) in Et.
    split; [destruct issued as [[]|]; [case_bool_decide|]; done|].
    exists username, password, user, issued. split_and!; [done| |done].
    destruct issued as [[]|]; [case_bool_decide|]; done.
  - left. apply runTx_Err in Et as ->. destruct (acceptError_status e). done.
Qed.

Lemma accept_wf x s resp s' : wf s → accept x s = (resp, s') → wf s'.
Proof.
  intros Hwf [[-> _]|(_ & un & pw & u & o & _ & _ & Ht)]%accept_cases; [done|].
  destruct (acceptTx_Ok _ _ _ _ _ _ _ _ _ _ _ _ Hwf Ht) as (i & _ & _ & _ & Hwf' & _). done.
Qed.
End InviteLaws.

(** ** Theorems *)

(** A slug is the words of its source.  What [slugify] makes of a text are its
    maximal runs of lower case letters and digits, joined by single dashes: no
    dash at either end, none doubled, nothing else; and taking a slug apart at
    its dashes gives those words back. *)
Theorem slugify_exact `{Unicode} : ∀ slug fallback,
  let words := slugWords (slugSource slug fallback) in
  chars (slugify slug fallback) = dashed words ∧
  Forall (λ w, w ≠ [] ∧ forallb slugByte w = true) words ∧
  slugWords (chars (slugify slug fallback)) = words.
Proof.
  intros slug fallback words.
  assert (Forall (λ w, w ≠ [] ∧ forallb slugByte w = true) words) as Hw.
  { apply Forall_forall. intros w [Hne Hin]%list_elem_of_filter. split; [done|].
    exact (proj1 (Forall_forall _ _) (runs_bytes _) w Hin). }
  split_and!; [apply slugify_words|done|]. rewrite slugify_words. by apply slugWords_dashed.
Qed.

(** The search for a free slug ends.  Among as many candidates as there are
    taken slugs and one more there is a free one, so the unbounded loop returns,
    and it returns the candidate with the smallest suffix from 2 on that is not
    taken. *)
Theorem nextFreeSlug_first : ∀ base taken,
  Z.of_nat (size taken) + 3 ≤ max_int64 →
  ∃ k, 2 ≤ k ≤ Z.of_nat (size taken) + 2 ∧ nextFreeSlug base taken = Some (candidateSlug base k) ∧
    candidateSlug base k ∉ taken ∧ ∀ j, 2 ≤ j < k → candidateSlug base j ∈ taken.
Proof.
  intros base taken Hs. destruct (freeSlugFrom_total base taken (S (size taken))) as [slug Hf]; [lia..|].
  destruct (freeSlugFrom_Some _ _ _ _ _ Hf) as (i & Hi & -> & Hfree & Hall).
  exists (2 + Z.of_nat i). split_and!; [lia|lia|exact Hf|done|]. intros j Hj.
  replace j with (2 + Z.of_nat (Z.to_nat (j - 2))) by lia. apply Hall. lia.
Qed.

(** How long an invite lives.  Never longer than ninety days, and a positive
    time for every number of seconds whose nanoseconds fit 64 bits; beyond that
    the multiplication wraps and the invite can be expired from the start. *)
Theorem inviteTTL_range :
  (∀ n, inviteTTL n ≤ maxInviteTTL) ∧
  (∀ n, n * Second ≤ max_int64 → 0 < inviteTTL n) ∧
  inviteTTL 9223372037 < 0.
Proof.
  split_and!; [| |reflexivity]; intros n; unfold inviteTTL.
  - destruct (maxInviteTTL <? _) eqn:E; [done|]. apply Z.ltb_ge in E. exact E.
  - intros Hn. destruct (0 <? n) eqn:E0; [|reflexivity]. apply Z.ltb_lt in E0.
    rewrite wrap64_id by (unfold in_int64, Second, min_int64, max_int64 in *; lia).
    destruct (maxInviteTTL <? _); [reflexivity|]. unfold Second. lia.
Qed.

Section WorldTheorems.
Context `{Unicode} `{Argon2} {S : Type} `{TxLaws S} `{!AdmissionLaws S}.
Implicit Types (s : S).

(** C35: only a game master manages a world, and no world loses its last one.  Over
    any sequence of requests that create worlds, set roles, remove members and
    create or revoke invites: the store stays well formed; a request that changes
    anything comes from a signed-in user who, where a world is managed, is stored
    as its game master; and every world that had a game master has one. *)
Theorem worlds_keep_a_game_master : ∀ qs s,
  wf s →
  let s' := foldl (λ s q, (serveWorld q s).2) s qs in
  wf s' ∧ (∀ w, hasGM s w → hasGM s' w) ∧
  ∀ q, (serveWorld q s').2 ≠ s' →
    ∃ user, req_User (requestOf q) = Some user ∧
      ∀ w, managed q = Some w → ∃ m, GetMember s' w (user_ID user) = Ok m ∧ member_Role m = RoleGM.
Proof.
  intros qs s Hwf s'. assert (wf s' ∧ ∀ w, hasGM s w → hasGM s' w) as [Hwf' Hgm].
  { subst s'. revert s Hwf. induction qs as [|q qs IH]; intros s Hwf; [done|]. cbn [foldl].
    destruct (serveWorld q s) as [resp s1] eqn:E.
    destruct (serveWorld_managed _ _ _ _ Hwf E) as (Hwf1 & _ & Hgm1).
    destruct (IH s1 Hwf1) as [Hwf2 Hgm2]. split; [done|]. auto. }
  split_and!; [done|done|]. intros q Hne. destruct (serveWorld q s') as [resp s1] eqn:E.
  destruct (serveWorld_managed _ _ _ _ Hwf' E) as (_ & Hneed & _). by apply Hneed.
Qed.

(** Accepting an invite admits one member with the invite's role.  A refused
    request changes nothing; an admitted one had a usable invite, which is used
    once more; exactly one membership has changed, that of the signed-in user or,
    with nobody signed in, of a new account whose name was free. *)
Theorem accept_admits_one : ∀ d x s resp s',
  wf s → accept d x s = (resp, s') →
  (s' = s ∧ resp_Status resp ≠ 200 ∧ resp_Cookies resp = []) ∨
  (wf s' ∧ resp_Status resp = 200 ∧ ∃ invite user m,
     GetInviteByTokenHash s (HashToken (acc_token x)) = Ok invite ∧ Usable invite (acc_now x) = true ∧
     GetInviteByTokenHash s' (HashToken (acc_token x)) = Ok (usedOnce invite) ∧
     GetMember s' (invite_WorldID invite) (user_ID user) = Ok m ∧ member_Role m = invite_Role invite ∧
     (∀ w u, (w, u) ≠ (invite_WorldID invite, user_ID user) → GetMember s' w u = GetMember s w u) ∧
     (req_User (acc_request x) = Some user ∨
      req_User (acc_request x) = None ∧ user_ID user = "user-" +:+ acc_randomID x ∧
      ∃ username password, decodeCredentials (req_Body (acc_request x)) = Some (username, password) ∧
        GetUserByUsername s (NormaliseUsername username) = Err ErrNotFound)).
Proof.
  intros d x s resp s' Hwf [?|(Hst & un & pw & user & issued & Hdec & _ & Ht)]%accept_cases; [by left|right].
  destruct (acceptTx_Ok _ _ _ _ _ _ _ _ _ _ _ _ _ Hwf Ht)
    as (invite & Hi & Hu & _ & Hwf' & (m & Hm & Hr) & Hother & Hinv & Hwho).
  split_and!; [done..|]. exists invite, user, m. split_and!; try done.
  - rewrite (Hinv _ _ Hi). by rewrite decide_True.
  - destruct (req_User (acc_request x)) as [u|]; [left; by subst|right]. destruct Hwho.
    split_and!; [done..|]. by exists un, pw.
Qed.

(** C36: an invite for [n] uses admits at most [n].  Over any sequence of requests
    to accept invites, by whomever and with whatever tokens, those admitted with
    a given token are at most the uses its invite had left. *)
Theorem invite_admits_at_most : ∀ d xs s hash invite,
  wf s → GetInviteByTokenHash s hash = Ok invite → 0 < invite_MaxUses invite →
  Z.of_nat (admitted d hash xs s) ≤ Z.max 0 (invite_MaxUses invite - invite_Uses invite).
Proof.
  intros d xs. induction xs as [|x xs IH]; intros s hash invite Hwf Hi Hmax; cbn [admitted]; [lia|].
  destruct (accept d x s) as [resp s'] eqn:E. pose proof (accept_wf _ _ _ _ _ Hwf E) as Hwf'.
  apply accept_cases in E as [(-> & Hst & _)|(Hst & un & pw & user & issued & _ & _ & Ht)].
  { apply Z.eqb_neq in Hst as ->. rewrite andb_false_r. by apply IH. }
  destruct (acceptTx_Ok _ _ _ _ _ _ _ _ _ _ _ _ _ Hwf Ht)
    as (used & Hu & _ & Hleft & _ & _ & _ & Hinv & _). specialize (Hinv _ _ Hi).
  rewrite Hst. cbn [Z.eqb Pos.eqb]. rewrite andb_true_r. case_bool_decide as Hh.
  - subst hash. rewrite Hi in Hu. injection Hu as <-. rewrite decide_True in Hinv by done.
    specialize (IH s' _ _ Hwf' Hinv Hmax). cbn in IH. lia.
  - case_decide; specialize (IH s' _ _ Hwf' Hinv Hmax); cbn in IH; lia.
Qed.
End WorldTheorems.
