(* ===== verification/Footprint.v ===== *)
(** * What an operation may write

    The writes of the port sorted by the table they are about, and computations
    that write only some of the tables: [keeps T m] says that a success of [m] is
    a sequence of writes of the port to tables among [T], [stable T k] that this
    holds whatever a handler [k] answers.  The frame laws ([FrameLaws]) say what
    a write to one table leaves alone in the others, the log of events being
    appended to and never rewritten, and that stored documents hold JSON. *)

From S2P Require Import Prelude GoStrings Json Perm Storage Password Auth Http Worlds.

Local Open Scope Z_scope.

Create HintDb keeps.

(** ** Tables and writes *)

Inductive table :=
  | TWorlds | TUsers | TSessions | TMembers | TInvites | TDocuments | TEvents | TAssets.

#[export] Instance table_eq_dec : EqDecision table.
Proof. solve_decision. Defined.

(** A successful write of the port, by the table it is about.  A world is
    stored when it is new and has no events, or when it is there already;
    appending an event also advances the number its world carries. *)
Inductive wrote {S : Type} `{Tx S} : table → S → S → Prop :=
  | wrote_World now w s x s' :
      is_Ok (GetWorld s (world_ID w)) ∨ world_EventSeq w = 0 →
      PutWorld now w s = (Ok x, s') → wrote TWorlds s s'
  | wrote_User now u s x s' : PutUser now u s = (Ok x, s') → wrote TUsers s s'
  | wrote_Session now x s y s' : PutUserSession now x s = (Ok y, s') → wrote TSessions s s'
  | wrote_Touch h at_ s x s' : TouchUserSession h at_ s = (Ok x, s') → wrote TSessions s s'
  | wrote_Logout h s x s' : DeleteUserSession h s = (Ok x, s') → wrote TSessions s s'
  | wrote_LogoutAll u s x s' : DeleteUserSessionsOf u s = (Ok x, s') → wrote TSessions s s'
  | wrote_Member now m s x s' : PutMember now m s = (Ok x, s') → wrote TMembers s s'
  | wrote_NoMember w u s x s' : DeleteMember w u s = (Ok x, s') → wrote TMembers s s'
  | wrote_Invite now i s x s' : PutInvite now i s = (Ok x, s') → wrote TInvites s s'
  | wrote_Consume w i s x s' : ConsumeInvite w i s = (Ok x, s') → wrote TInvites s s'
  | wrote_Revoke now w i s x s' : RevokeInvite now w i s = (Ok x, s') → wrote TInvites s s'
  | wrote_Document now d s x s' : PutDocument now d s = (Ok x, s') → wrote TDocuments s s'
  | wrote_Patch now w i p s x s' : PatchDocument now w i p s = (Ok x, s') → wrote TDocuments s s'
  | wrote_Delete now w i m s x s' : DeleteDocument now w i m s = (Ok x, s') → wrote TDocuments s s'
  | wrote_Event now e s q s' : AppendEvent now e s = (Ok q, s') → wrote TEvents s s'
  | wrote_Asset now a s x s' : PutAsset now a s = (Ok x, s') → wrote TAssets s s'
  | wrote_NoAsset w i s x s' : DeleteAsset w i s = (Ok x, s') → wrote TAssets s s'.

#[export] Hint Constructors wrote : keeps.

Lemma wrote_wf {S : Type} `{TxLaws S} t s s' : wf s → wrote t s s' → wf s'.
Proof.
  intros Hwf Hw. destruct Hw as [now w s x s' Hc Hp|now u s x s' Hp|now x s y s' Hp|h at_ s x s' Hp|h s x s' Hp|
    u s x s' Hp|now m s x s' Hp|w u s x s' Hp|now i s x s' Hp|w i s x s' Hp|now w i s x s' Hp|now d s x s' Hp|
    now w i p s x s' Hp|now w i m s x s' Hp|now e s q s' Hp|now a s x s' Hp|w i s x s' Hp].
  - by eapply PutWorld_wf.
  - by eapply PutUser_wf.
  - by eapply PutUserSession_wf.
  - by eapply TouchUserSession_wf.
  - by eapply DeleteUserSession_wf.
  - by eapply DeleteUserSessionsOf_wf.
  - by eapply PutMember_wf.
  - by eapply DeleteMember_wf.
  - by eapply PutInvite_wf.
  - by eapply ConsumeInvite_wf.
  - by eapply RevokeInvite_wf.
  - by eapply PutDocument_wf.
  - by eapply PatchDocument_wf.
  - by eapply DeleteDocument_wf.
  - by eapply AppendEvent_wf.
  - by eapply PutAsset_wf.
  - by eapply DeleteAsset_wf.
Qed.

(** ** Frame laws *)

(** The row an appended event becomes: what the caller gives, under the number
    the store picked. *)
Definition logsAs (e : Event) (q : Z) (row : Event) : Prop :=
  event_WorldID row = event_WorldID e ∧ event_Seq row = q ∧ event_Kind row = event_Kind e ∧
  event_TargetKind row = event_TargetKind e ∧ event_TargetID row = event_TargetID e ∧
  event_SceneID row = event_SceneID e ∧ event_ActorUserID row = event_ActorUserID e ∧
  (∀ j, event_Payload e = Raw j → event_Payload row = Raw j) ∧
  (event_Audience e = RawEmpty → event_Audience row = Raw (JArr [])) ∧
  (∀ j, event_Audience e = Raw j → event_Audience row = Raw j).

(** [Log s w q] is the event of world [w] with number [q]. *)
Class FrameLaws (S : Type) `{!Tx S} `{!QueryLaws S} := {
  Log : S → ID → Z → option Event;
  Log_key : ∀ s w q e, wf s → Log s w q = Some e → event_WorldID e = w ∧ event_Seq e = q;
  Log_full : ∀ s w x q, wf s → GetWorld s w = Ok x → is_Some (Log s w q) ↔ 1 ≤ q ≤ world_EventSeq x;
  Log_world : ∀ s w q, wf s → is_Some (Log s w q) → is_Ok (GetWorld s w);
  EventsSince_log : ∀ s w q n es, wf s → EventsSince s w q n = Ok es →
    ∀ e, e ∈ es → Log s w (event_Seq e) = Some e;
  EventsSince_upto : ∀ s w q n es k e, wf s → EventsSince s w q n = Ok es → 0 < n →
    Log s w k = Some e → q < k ≤ q + n → e ∈ es;
  AppendEvent_log : ∀ now e s q s', wf s → AppendEvent now e s = (Ok q, s') →
    Log s (event_WorldID e) q = None ∧
    (∃ row, Log s' (event_WorldID e) q = Some row ∧ logsAs e q row) ∧
    ∀ w n, (w, n) ≠ (event_WorldID e, q) → Log s' w n = Log s w n;
  wrote_log : ∀ t s s', wf s → t ≠ TEvents → wrote t s s' → ∀ w q, Log s' w q = Log s w q;
  wrote_members : ∀ t s s', wf s → t ≠ TMembers → wrote t s s' → ∀ w u, GetMember s' w u = GetMember s w u;
  wrote_assets : ∀ t s s', wf s → t ≠ TAssets → wrote t s s' → ∀ w i, GetAsset s' w i = GetAsset s w i;
  wrote_worlds : ∀ t s s', wf s → t ≠ TWorlds → t ≠ TEvents → wrote t s s' → ∀ w, GetWorld s' w = GetWorld s w;
  GetDocument_readable : ∀ s w i d, wf s → GetDocument s w i = Ok d → readable d
}.

(** ** Computations by the tables they write *)

Section Keeps.
Context {S : Type} `{TxLaws S}.

Definition wroteIn (T : list table) (s s' : S) : Prop := ∃ t, t ∈ T ∧ wrote t s s'.

(** A sequence of writes to tables among [T]. *)
Definition writesTo (T : list table) : relation S := rtc (wroteIn T).

Definition keeps (T : list table) {A} (m : M S A) : Prop :=
  ∀ s a s', wf s → m s = (Ok a, s') → writesTo T s s'.

Definition stable (T : list table) {R} (k : S → R * S) : Prop :=
  ∀ s r s', wf s → k s = (r, s') → writesTo T s s'.

#[export] Instance writes_preorder T : PreOrder (writesTo T).
Proof. unfold writesTo. split; apply _. Qed.

Lemma writes_wf T s s' : wf s → writesTo T s s' → wf s'.
Proof. intros Hwf Hw. induction Hw as [|s s1 s' (t & _ & Hw) _ IH]; [done|]. apply IH. by eapply wrote_wf. Qed.

Lemma writes_weaken T T' s s' : T ⊆ T' → writesTo T s s' → writesTo T' s s'.
Proof. intros Hsub. apply rtc_subrel. intros x y (t & Ht & Hw). exists t. split; [by apply Hsub|done]. Qed.

Lemma writes_once T t s s' : t ∈ T → wrote t s s' → writesTo T s s'.
Proof. intros Ht Hw. apply rtc_once. by exists t. Qed.

Lemma writes_nothing s s' : writesTo [] s s' → s' = s.
Proof. intros Hw. destruct Hw as [|s s1 s' (t & Ht & _) _]; [done|]. by apply elem_of_nil in Ht. Qed.

(** A fact that survives every write to a table among [T] survives them all. *)
Lemma writes_preserve T (P : S → S → Prop) :
  PreOrder P → (∀ t s s', t ∈ T → wf s → wrote t s s' → P s s') →
  ∀ s s', wf s → writesTo T s s' → P s s'.
Proof.
  intros HP Hstep s s' Hwf Hw. induction Hw as [|s s1 s' (t & Ht & Hw) _ IH]; [reflexivity|].
  etrans; [by eapply Hstep|]. apply IH. by eapply wrote_wf.
Qed.

Lemma keeps_weaken T T' {A} (m : M S A) : T ⊆ T' → keeps T m → keeps T' m.
Proof. intros Hsub Hm s a s' Hwf Hr. eapply writes_weaken; [done|]. by eapply Hm. Qed.

Lemma stable_weaken T T' {R} (k : S → R * S) : T ⊆ T' → stable T k → stable T' k.
Proof. intros Hsub Hk s r s' Hwf Hr. eapply writes_weaken; [done|]. by eapply Hk. Qed.

Lemma keeps_ret T {A} (a : A) : keeps T (mret a).
Proof. by intros s b s' Hwf [_ ->]%ret_Ok. Qed.
Lemma keeps_fail T {A} e : keeps T (fail e : M S A).
Proof. by intros s a s' _ [=]. Qed.
Lemma keeps_lift T {A} (q : S → res A) : keeps T (lift q).
Proof. by intros s a s' Hwf [_ ->]%lift_Ok. Qed.
Lemma keeps_ofRes T {A} (r : res A) : keeps T (ofRes r).
Proof. by intros s a s' Hwf [_ ->]%ofRes_Ok. Qed.

Lemma keeps_bind T {A B} (m : M S A) (f : A → M S B) :
  keeps T m → (∀ a, keeps T (f a)) → keeps T (m ≫= f).
Proof.
  intros Hm Hf s b s' Hwf (a & s1 & H1 & H2)%M_bind_Ok. assert (writesTo T s s1) as Hw by (by eapply Hm).
  etrans; [exact Hw|]. eapply Hf, H2. by eapply writes_wf.
Qed.

(** The writes of the port. *)
Lemma keeps_PutUser T now u : TUsers ∈ T → keeps T (PutUser now u).
Proof. intros HT s a s' Hwf Hp. eapply writes_once; eauto with keeps. Qed.
Lemma keeps_PutUserSession T now u : TSessions ∈ T → keeps T (PutUserSession now u).
Proof. intros HT s a s' Hwf Hp. eapply writes_once; eauto with keeps. Qed.
Lemma keeps_DeleteUserSession T h : TSessions ∈ T → keeps T (DeleteUserSession h).
Proof. intros HT s a s' Hwf Hp. eapply writes_once; eauto with keeps. Qed.
Lemma keeps_PutMember T now m : TMembers ∈ T → keeps T (PutMember now m).
Proof. intros HT s a s' Hwf Hp. eapply writes_once; eauto with keeps. Qed.
Lemma keeps_DeleteMember T w u : TMembers ∈ T → keeps T (DeleteMember w u).
Proof. intros HT s a s' Hwf Hp. eapply writes_once; eauto with keeps. Qed.
Lemma keeps_PutInvite T now i : TInvites ∈ T → keeps T (PutInvite now i).
Proof. intros HT s a s' Hwf Hp. eapply writes_once; eauto with keeps. Qed.
Lemma keeps_ConsumeInvite T w i : TInvites ∈ T → keeps T (ConsumeInvite w i).
Proof. intros HT s a s' Hwf Hp. eapply writes_once; eauto with keeps. Qed.
Lemma keeps_RevokeInvite T now w i : TInvites ∈ T → keeps T (RevokeInvite now w i).
Proof. intros HT s a s' Hwf Hp. eapply writes_once; eauto with keeps. Qed.
Lemma keeps_PutDocument T now d : TDocuments ∈ T → keeps T (PutDocument now d).
Proof. intros HT s a s' Hwf Hp. eapply writes_once; eauto with keeps. Qed.
Lemma keeps_PatchDocument T now w i p : TDocuments ∈ T → keeps T (PatchDocument now w i p).
Proof. intros HT s a s' Hwf Hp. eapply writes_once; eauto with keeps. Qed.
Lemma keeps_AppendEvent T now e : TEvents ∈ T → keeps T (AppendEvent now e).
Proof. intros HT s a s' Hwf Hp. eapply writes_once; eauto with keeps. Qed.
Lemma keeps_PutAsset T now x : TAssets ∈ T → keeps T (PutAsset now x).
Proof. intros HT s a s' Hwf Hp. eapply writes_once; eauto with keeps. Qed.

(** A world that is new has no events; one that was read is stored again. *)
Lemma keeps_PutWorld T now w : TWorlds ∈ T → world_EventSeq w = 0 → keeps T (PutWorld now w).
Proof. intros HT Hw s a s' Hwf Hp. eapply writes_once; [exact HT|]. eapply wrote_World; [|done]. by right. Qed.
Lemma keeps_rewriteWorld T now id f {B} (k : World → M S B) :
  TWorlds ∈ T → (∀ w, world_ID (f w) = world_ID w) → (∀ w, keeps T (k w)) →
  keeps T (world ← lift (λ q, GetWorld q id); PutWorld now (f world) ≫= k).
Proof.
  intros HT Hf Hk s b s' Hwf (w & s1 & Hw & Hp)%M_bind_Ok. apply lift_Ok in Hw as [Hw ->].
  apply M_bind_Ok in Hp as (w' & s2 & Hp & Hr).
  assert (writesTo T s s2) as Hws.
  { eapply writes_once; [exact HT|]. eapply wrote_World; [|exact Hp]. left.
    rewrite Hf, (GetWorld_key _ _ _ Hwf Hw). by eexists. }
  etrans; [exact Hws|]. eapply Hk, Hr. by eapply writes_wf.
Qed.

(** ** Handlers *)

Lemma runTx_stable T {A} (m : M S A) : keeps T m → stable T (runTx m).
Proof.
  intros Hm s [a|e] s' Hwf Hr; [|by apply runTx_Err in Hr as ->].
  apply (proj1 (runTx_Ok _ _ _ _)) in Hr. by eapply Hm.
Qed.

Lemma stable_requireUser T r (k : User → S → Response * S) :
  (∀ u, stable T (k u)) → stable T (requireUser r k).
Proof.
  intros Hk s x s' Hwf. unfold requireUser, requireUserAs. destruct (req_User r); [by apply Hk|].
  by intros [= _ <-].
Qed.

Lemma stable_requireRole T r w gm (k : User → S → Response * S) :
  (∀ u, stable T (k u)) → stable T (requireRole r w gm k).
Proof.
  intros Hk s x s' Hwf [[-> _]|(u & m & _ & _ & _ & Hr)]%requireRole_cases; [done|]. by eapply Hk.
Qed.

Lemma stable_withBody T {A} (decode : raw → option A) r (k : A → S → Response * S) :
  (∀ a, stable T (k a)) → stable T (withBody decode r k).
Proof.
  intros Hk s x s' Hwf. unfold withBody. destruct (decode _); [by apply Hk|]. by intros [= _ <-].
Qed.
End Keeps.

#[export] Hint Resolve keeps_ret keeps_fail keeps_lift keeps_ofRes keeps_PutUser keeps_PutUserSession
  keeps_DeleteUserSession keeps_PutMember keeps_DeleteMember keeps_PutInvite keeps_ConsumeInvite
  keeps_RevokeInvite keeps_PutDocument keeps_PatchDocument keeps_AppendEvent keeps_PutAsset : keeps.

#[export] Hint Extern 1 (_ ∈ _ :: _) =>
  solve [repeat first [apply list_elem_of_here | apply list_elem_of_further]] : keeps.

(** A computation in the monad, bind by bind. *)
Ltac keep :=
  repeat match goal with
  | |- ∀ _, _ => intros
  | |- keeps _ (_ ≫= _) => apply keeps_bind
  | |- keeps _ (match ?x with _ => _ end) => destruct x
  | |- keeps _ (let '(_, _) := ?x in _) => destruct x
  end; auto with keeps.

(** A handler: through its guards to a transaction, or to an answer that
    changes nothing. *)
Ltac stabilize :=
  repeat match goal with
  | |- ∀ _, _ => intros
  | |- stable _ (requireUser _ _) => apply stable_requireUser
  | |- stable _ (requireRole _ _ _ _) => apply stable_requireRole
  | |- stable _ (withBody _ _ _) => apply stable_withBody
  end.

Ltac by_transaction :=
  let s := fresh "s" in let r := fresh "r" in let s' := fresh "s'" in let Hwf := fresh "Hwf" in
  intros s r s' Hwf; cbn;
  repeat match goal with
  | |- (_, _) = (_, _) → _ => intros [= _ <-]; solve [assumption | reflexivity]
  | |- context [runTx ?m s] =>
      let E := fresh "E" in
      lazymatch goal with
      | |- _ → writesTo ?T _ _ =>
          destruct (runTx m s) as [[]] eqn:E; (apply (runTx_stable T) in E; [|keep|assumption])
      end
  | |- context [match ?x with _ => _ end] => destruct x
  end.

(** ** History *)

Section History.
Context {S : Type} `{TxLaws S} `{!FrameLaws S}.

(** The log of [s'] is that of [s] with events added. *)
Definition logGrows (s s' : S) : Prop := ∀ w q e, Log s w q = Some e → Log s' w q = Some e.

#[export] Instance logGrows_preorder : PreOrder logGrows.
Proof. split; [by intros s w q e|]. intros s1 s2 s3 H1 H2 w q e He. by apply H2, H1. Qed.

Lemma wrote_grows t s s' : wf s → wrote t s s' → logGrows s s'.
Proof.
  intros Hwf Hw w q e He. destruct (decide (t = TEvents)) as [->|Ht]; [|by rewrite (wrote_log _ _ _ Hwf Ht Hw)].
  inversion Hw as [| | | | | | | | | | | | | |now x s0 n s0' Hp| |]; subst.
  destruct (AppendEvent_log _ _ _ _ _ Hwf Hp) as (Hnone & _ & Hsame).
  rewrite Hsame; [done|]. intros [= -> ->]. congruence.
Qed.

Lemma writes_grow T s s' : wf s → writesTo T s s' → logGrows s s'.
Proof. apply writes_preserve; [apply _|]. intros t x y _. apply wrote_grows. Qed.

Lemma writes_members T s s' :
  TMembers ∉ T → wf s → writesTo T s s' → ∀ w u, GetMember s' w u = GetMember s w u.
Proof.
  intros HT. apply (writes_preserve T (λ s s', ∀ w u, GetMember s' w u = GetMember s w u)).
  - split; [done|]. intros x y z H1 H2 w u. by rewrite H2.
  - intros t x y Ht Hwf Hw. eapply wrote_members; [done| |done]. by intros ->.
Qed.

Lemma writes_assets T s s' :
  TAssets ∉ T → wf s → writesTo T s s' → ∀ w i, GetAsset s' w i = GetAsset s w i.
Proof.
  intros HT. apply (writes_preserve T (λ s s', ∀ w i, GetAsset s' w i = GetAsset s w i)).
  - split; [done|]. intros x y z H1 H2 w i. by rewrite H2.
  - intros t x y Ht Hwf Hw. eapply wrote_assets; [done| |done]. by intros ->.
Qed.

Lemma writes_log T s s' :
  TEvents ∉ T → wf s → writesTo T s s' → ∀ w q, Log s' w q = Log s w q.
Proof.
  intros HT. apply (writes_preserve T (λ s s', ∀ w q, Log s' w q = Log s w q)).
  - split; [done|]. intros x y z H1 H2 w q. by rewrite H2.
  - intros t x y Ht Hwf Hw. eapply wrote_log; [done| |done]. by intros ->.
Qed.
End History.
