(* ===== verification/SqlFrame.v ===== *)
(** * The SQL store writes one table at a time

    Every statement of a write changes the rows of its own table (appending an
    event also advances its world), so the store satisfies the frame laws; its
    log of events is the table [world_events]. *)

From S2P Require Import Prelude GoStrings Json Perm Storage SqlStore SqlLaws Footprint.

Local Open Scope Z_scope.

Section Frame.
Context `{Dialect}.

(** The tables a write to [t] leaves alone. *)
Record sameBut (t : table) (d d' : db) : Prop := {
  same_worlds : t ≠ TWorlds → t ≠ TEvents → worlds d' = worlds d;
  same_documents : t ≠ TDocuments → documents d' = documents d;
  same_events : t ≠ TEvents → world_events d' = world_events d;
  same_members : t ≠ TMembers → world_members d' = world_members d;
  same_users : t ≠ TUsers → users d' = users d;
  same_sessions : t ≠ TSessions → user_sessions d' = user_sessions d;
  same_invites : t ≠ TInvites → invites d' = invites d;
  same_assets : t ≠ TAssets → assets d' = assets d
}.

(** A statement, branch by branch, down to the tables it leaves. *)
Ltac branches H :=
  first
    [ discriminate H
    | lazymatch type of H with (Ok _, _) = (Ok _, _) => injection H as _ <- end
    | match type of H with
      | context [match ?x with _ => _ end] =>
          lazymatch x with
          | context [match _ with _ => _ end] => fail
          | _ => destruct x; cbn in H; branches H
          end
      end ].

Lemma wrote_sameBut t (c c' : conn) : wrote t c c' → sameBut t (tables c) (tables c').
Proof.
  intros Hw. destruct Hw as [now w s x s' _ Hp|now u s x s' Hp|now x s y s' Hp|h at_ s x s' Hp|h s x s' Hp|
    u s x s' Hp|now m s x s' Hp|w u s x s' Hp|now i s x s' Hp|w i s x s' Hp|now w i s x s' Hp|now d s x s' Hp|
    now w i p s x s' Hp|now w i m s x s' Hp|now e s q s' Hp|now a s x s' Hp|w i s x s' Hp]; cbn in Hp.
  - unfold sqlPutWorld in Hp. unwritable. branches Hp; by constructor.
  - unfold sqlPutUser in Hp. unwritable. branches Hp; by constructor.
  - unfold sqlPutUserSession in Hp. unwritable. branches Hp; by constructor.
  - unfold sqlTouchUserSession in Hp. unwritable. branches Hp; by constructor.
  - unfold sqlDeleteUserSession in Hp. unwritable. branches Hp; by constructor.
  - unfold sqlDeleteUserSessionsOf in Hp. unwritable. branches Hp; by constructor.
  - unfold sqlPutMember in Hp. unwritable. branches Hp; by constructor.
  - unfold sqlDeleteMember in Hp. unwritable. branches Hp; by constructor.
  - unfold sqlPutInvite in Hp. unwritable. branches Hp; by constructor.
  - unfold sqlConsumeInvite in Hp. unwritable. branches Hp; by constructor.
  - unfold sqlRevokeInvite in Hp. unwritable. branches Hp; by constructor.
  - unfold sqlPutDocument in Hp. unwritable. branches Hp; by constructor.
  - unfold sqlPatchDocument in Hp. unwritable. branches Hp; by constructor.
  - unfold sqlDeleteDocument in Hp. unwritable. branches Hp; by constructor.
  - unfold sqlAppendEvent in Hp. unwritable. branches Hp; by constructor.
  - unfold sqlPutAsset in Hp. unwritable. branches Hp; by constructor.
  - unfold sqlDeleteAsset in Hp. unwritable. branches Hp; by constructor.
Qed.

(** The row of an appended event. *)
Lemma sqlAppendEvent_row now e (c : conn) q c' :
  sqlAppendEvent now e c = (Ok q, c') →
  world_events (tables c) !! (event_WorldID e, q) = None ∧
  ∃ row, world_events (tables c') = <[(event_WorldID e, q) := row]> (world_events (tables c)) ∧ logsAs e q row.
Proof.
  intros Ha. unfold sqlAppendEvent in Ha. unwritable.
  destruct (worlds (tables c) !! event_WorldID e) as [w|] eqn:Ew; cbn in Ha; [|done].
  destruct (jsonArg (event_Payload e) rawObject) as [payload|] eqn:Ep; cbn in Ha; [|done].
  destruct (jsonArg (event_Audience e) rawArray) as [audience|] eqn:Ea; cbn in Ha; [|done].
  destruct (jsonArg (event_Undo e) rawNull) as [undo|]; cbn in Ha; [|done].
  destruct (world_events (tables c) !! _) eqn:Ee; cbn in Ha; [done|].
  injection Ha as <- <-. split; [done|]. eexists. split; [done|]. unfold logsAs. cbn. split_and!; try done.
  - intros j Hj. rewrite Hj in Ep. by injection Ep as <-.
  - intros Hj. rewrite Hj in Ea. by injection Ea as <-.
  - intros j Hj. rewrite Hj in Ea. by injection Ea as <-.
Qed.

#[export] Instance sqlFrameLaws : FrameLaws conn.
Proof.
  refine {| Log := λ c w q, world_events (tables c) !! (w, q) |}.
  - intros c w q e OK He. apply (ok_event_key _ OK) in He. naive_solver.
  - intros c w x q OK Hx%orNotFound_Ok. by apply (ok_log _ OK).
  - intros c w q OK [e He]. apply (ok_log_world _ OK) in He as [x Hx]. exists x. by apply orNotFound_Ok.
  - intros c w q n es OK [= <-] e He%elem_of_limitTo.
    apply elem_of_orderBy, list_elem_of_filter in He as [[Hw _] [k Hk]%elem_of_rows].
    pose proof (ok_event_key _ OK _ _ Hk) as Hkey. cbn in Hkey. by rewrite <-Hw, Hkey.
  - intros c w q n es k e OK [= <-] Hn He Hk. unfold limitTo, effectiveLimit.
    rewrite (proj2 (Z.leb_gt _ _)) by done. pose proof (ok_event_key _ OK _ _ He) as [= Hw Hseq].
    apply (elem_of_take_upto event_Seq q); [by apply sorted_by_seq| |lia|].
    + apply Forall_forall. intros x Hx%elem_of_orderBy. by apply list_elem_of_filter in Hx as [[_ ?] _].
    + apply elem_of_orderBy, list_elem_of_filter. split; [split; [congruence|lia]|]. apply elem_of_rows. by exists (w, k).
  - intros now e c q c' OK Ha. destruct (sqlAppendEvent_row _ _ _ _ _ Ha) as (Hnone & row & -> & Hrow).
    split_and!; [done|exists row; by rewrite lookup_insert_eq|].
    intros w n Hne. by rewrite lookup_insert_ne.
  - intros t c c' _ Ht Hw w q. by rewrite (same_events _ _ _ (wrote_sameBut _ _ _ Hw)).
  - intros t c c' _ Ht Hw w u. cbn. unfold sqlGetMember. by rewrite (same_members _ _ _ (wrote_sameBut _ _ _ Hw)).
  - intros t c c' _ Ht Hw w i. cbn. unfold sqlGetAsset. by rewrite (same_assets _ _ _ (wrote_sameBut _ _ _ Hw)).
  - intros t c c' _ Ht1 Ht2 Hw w. cbn. unfold sqlGetWorld. by rewrite (same_worlds _ _ _ (wrote_sameBut _ _ _ Hw)).
  - intros c w i d OK Hd%orNotFound_Ok. by apply (ok_doc_json _ OK) in Hd.
Defined.
End Frame.
