(* ===== verification/Scenes.v ===== *)
(** * Scenes, tokens, actors and walls over HTTP (internal/transport/httpapi/scenes.go)

    The endpoints that list and create the documents of a scene and that change
    the access list of a document.  A listing of tokens or actors is computed for
    the caller: their role, their viewpoints, their grant on each document. *)

From S2P Require Import Prelude GoStrings Json Perm Storage Redact Access Vision Sight.
From S2P Require Import Auth Http Worlds.
From S2P Require Import Frame Outbox Ticket Hub Session Intents Doors.

Local Open Scope Z_scope.

Definition KindScene : string := "scene".
Definition KindToken : string := "token".
Definition KindActor : string := "actor".
Definition KindWall : string := "wall".

(** ** Data *)

Record SceneData := MkSceneData {
  scene_Width : Z; scene_Height : Z; scene_GridSize : Z; scene_GridType : string; scene_Background : string
}.

Record TokenData := MkTokenData {
  token_X : float64; token_Y : float64; token_Width : float64; token_Height : float64;
  token_Disposition : string; token_Hidden : bool
}.

Record WallData := MkWallData {
  wd_X1 : float64; wd_Y1 : float64; wd_X2 : float64; wd_Y2 : float64;
  wd_BlocksSight : bool; wd_BlocksMove : bool; wd_BlocksSound : bool; wd_Door : bool; wd_DoorOpen : bool
}.

(** [_ = json.Unmarshal(raw, &data)] keeps the fields that decode, the others
    stay zero. *)
Definition decodeSceneData (r : raw) : SceneData :=
  let fs := default [] (structFields r) in
  MkSceneData (decodeField convInt 0 "width" fs).1 (decodeField convInt 0 "height" fs).1
    (decodeField convInt 0 "gridSize" fs).1 (decodeField convString "" "gridType" fs).1
    (decodeField convString "" "background" fs).1.

Definition decodeWallData (r : raw) : WallData :=
  let fs := default [] (structFields r) in
  MkWallData (decodeField convFloat fzero "x1" fs).1 (decodeField convFloat fzero "y1" fs).1
    (decodeField convFloat fzero "x2" fs).1 (decodeField convFloat fzero "y2" fs).1
    (decodeField convBool false "blocksSight" fs).1 (decodeField convBool false "blocksMovement" fs).1
    (decodeField convBool false "blocksSound" fs).1 (decodeField convBool false "door" fs).1
    (decodeField convBool false "doorOpen" fs).1.

(** A float64 that is not finite has no encoding. *)
Definition fFinite (k : string) (f : float64) : res (list (string * json)) :=
  if finite64 f then Ok (fFloat k f) else Err (ErrOther "json: unsupported value").

Definition encodeSceneData (d : SceneData) : json :=
  JObj (fInt "width" (scene_Width d) ++ fInt "height" (scene_Height d) ++
    fInt "gridSize" (scene_GridSize d) ++ fStr "gridType" (scene_GridType d) ++
    fStrOpt "background" (scene_Background d)).

Definition encodeTokenData (d : TokenData) : res json :=
  x ← fFinite "x" (token_X d); y ← fFinite "y" (token_Y d);
  width ← fFinite "width" (token_Width d); height ← fFinite "height" (token_Height d);
  Ok (JObj (x ++ y ++ width ++ height ++ fStr "disposition" (token_Disposition d) ++
            fBool "hidden" (token_Hidden d))).

Definition encodeWallData (d : WallData) : res json :=
  x1 ← fFinite "x1" (wd_X1 d); y1 ← fFinite "y1" (wd_Y1 d);
  x2 ← fFinite "x2" (wd_X2 d); y2 ← fFinite "y2" (wd_Y2 d);
  Ok (JObj (x1 ++ y1 ++ x2 ++ y2 ++ fBool "blocksSight" (wd_BlocksSight d) ++
            fBool "blocksMovement" (wd_BlocksMove d) ++ fBool "blocksSound" (wd_BlocksSound d) ++
            fBool "door" (wd_Door d) ++ fBool "doorOpen" (wd_DoorOpen d))).

(** ** Views *)

Definition sceneView (id name : string) (active : bool) (data : SceneData) : json :=
  JObj (fStr "id" id ++ fStr "name" name ++ fBool "active" active ++ [("data", encodeSceneData data)]).

Record tokenView := MkTokenView { tv_ID : string; tv_Name : string; tv_Img : string; tv_Data : raw }.

Definition encodeTokenView (v : tokenView) : res json :=
  data ← fRaw "data" (tv_Data v);
  Ok (JObj (fStr "id" (tv_ID v) ++ fStr "name" (tv_Name v) ++ fStrOpt "img" (tv_Img v) ++ data)).

Record actorView := MkActorView {
  av_ID : string; av_Name : string; av_Subtype : string; av_Data : raw; av_Ownership : raw; av_CanEdit : bool
}.

Definition encodeActorView (v : actorView) : res json :=
  data ← fRaw "data" (av_Data v);
  ownership ← fRawOpt "ownership" (av_Ownership v);
  Ok (JObj (fStr "id" (av_ID v) ++ fStr "name" (av_Name v) ++ fStr "subtype" (av_Subtype v) ++ data ++
    ownership ++ fBool "canEdit" (av_CanEdit v))).

Definition encodeWallView (id : string) (data : WallData) : res json :=
  j ← encodeWallData data; Ok (JObj (fStr "id" id ++ [("data", j)])).

(** [writeJSON] of a value whose encoding can fail: the status is already sent,
    the body stays empty. *)
Definition writeEncoded (status : Z) (body : res json) : Response :=
  writeJSON status (match body with Ok j => Raw j | Err _ => RawEmpty end).

(** ** Requests *)

Record createSceneRequest := MkCreateSceneRequest {
  cs_Name : string; cs_Width : Z; cs_Height : Z; cs_GridSize : Z
}.

Definition decodeCreateScene (r : raw) : option createSceneRequest :=
  fs ← structFields r;
  let '(name, o1) := decodeField convString "" "name" fs in
  let '(width, o2) := decodeField convInt 0 "width" fs in
  let '(height, o3) := decodeField convInt 0 "height" fs in
  let '(gridSize, o4) := decodeField convInt 0 "gridSize" fs in
  if o1 && o2 && o3 && o4 then Some (MkCreateSceneRequest name width height gridSize) else None.

Record createTokenRequest := MkCreateTokenRequest {
  ct_Name : string; ct_X : float64; ct_Y : float64; ct_Img : string; ct_Disposition : string
}.

Definition decodeCreateToken (r : raw) : option createTokenRequest :=
  fs ← structFields r;
  let '(name, o1) := decodeField convString "" "name" fs in
  let '(x, o2) := decodeField convFloat fzero "x" fs in
  let '(y, o3) := decodeField convFloat fzero "y" fs in
  let '(img, o4) := decodeField convString "" "img" fs in
  let '(disposition, o5) := decodeField convString "" "disposition" fs in
  if o1 && o2 && o3 && o4 && o5 then Some (MkCreateTokenRequest name x y img disposition) else None.

Record createActorRequest := MkCreateActorRequest { ca_Name : string; ca_Subtype : string }.

Definition decodeCreateActor (r : raw) : option createActorRequest :=
  fs ← structFields r;
  let '(name, o1) := decodeField convString "" "name" fs in
  let '(subtype, o2) := decodeField convString "" "subtype" fs in
  if o1 && o2 then Some (MkCreateActorRequest name subtype) else None.

Record documentAccessRequest := MkDocumentAccessRequest { da_UserID : string; da_Level : string }.

Definition decodeDocumentAccess (r : raw) : option documentAccessRequest :=
  fs ← structFields r;
  let '(user, o1) := decodeField convString "" "userId" fs in
  let '(level, o2) := decodeField convString "" "level" fs in
  if o1 && o2 then Some (MkDocumentAccessRequest user level) else None.

Record createWallRequest := MkCreateWallRequest {
  cwall_X1 : float64; cwall_Y1 : float64; cwall_X2 : float64; cwall_Y2 : float64;
  cwall_Door : bool; cwall_BlocksSight : option bool
}.

Definition decodeCreateWall (r : raw) : option createWallRequest :=
  fs ← structFields r;
  let '(x1, o1) := decodeField convFloat fzero "x1" fs in
  let '(y1, o2) := decodeField convFloat fzero "y1" fs in
  let '(x2, o3) := decodeField convFloat fzero "x2" fs in
  let '(y2, o4) := decodeField convFloat fzero "y2" fs in
  let '(door, o5) := decodeField convBool false "door" fs in
  let '(blocks, o6) := decodeField (convPtr convBool) None "blocksSight" fs in
  if o1 && o2 && o3 && o4 && o5 && o6 then Some (MkCreateWallRequest x1 y1 x2 y2 door blocks) else None.

(** ** Documents the endpoints create *)

Definition defaultSceneData (body : createSceneRequest) : SceneData :=
  MkSceneData (if cs_Width body <=? 0 then 2400 else cs_Width body)
    (if cs_Height body <=? 0 then 1600 else cs_Height body)
    (if cs_GridSize body <=? 0 then 100 else cs_GridSize body) "square" "".

(** [json.Marshal(defaultVampireData())]: maps are written in key order. *)
Definition defaultVampireData : json :=
  let n z := JNum (numOfInt z) in
  JObj [("attributes", JObj [("charisma", n 1); ("composure", n 1); ("dexterity", n 1); ("intelligence", n 1);
          ("manipulation", n 1); ("resolve", n 1); ("stamina", n 1); ("strength", n 1); ("wits", n 1)]);
        ("clan", JStr "");
        ("health", JObj [("aggravated", n 0); ("max", n 4); ("superficial", n 0)]);
        ("hunger", n 1);
        ("notes", JStr "");
        ("willpower", JObj [("aggravated", n 0); ("max", n 2); ("superficial", n 0)])].

(** [json.RawMessage({"default":"observer"})]. *)
Definition observerDefault : raw := Raw (JObj (fStr "default" "observer")).

Definition orDefault `{Unicode} (name fallback : string) : string :=
  TrimSpace (if bool_decide (TrimSpace name = "") then fallback else name).

Definition newDocument (worldID id : ID) (kind subtype : string) (parent : ID) (name img : string)
    (data ownership : raw) (schema : string) : Document :=
  MkDocument worldID id kind subtype parent "" name 0 img data RawEmpty ownership "" schema 0 0 0 None.

Definition newWallData (body : createWallRequest) : WallData :=
  MkWallData (cwall_X1 body) (cwall_Y1 body) (cwall_X2 body) (cwall_Y2 body)
    (default true (cwall_BlocksSight body)) true (negb (cwall_Door body)) (cwall_Door body) false.

Definition newTokenData (body : createTokenRequest) : TokenData :=
  MkTokenData (ct_X body) (ct_Y body) (ofInt 1) (ofInt 1)
    (if bool_decide (ct_Disposition body = "") then "neutral" else ct_Disposition body) false.

(** The access list of a new actor: [map[string]string{actor: "owner", "default":
    "limited"}]; Go evaluates the two entries in order. *)
Definition actorOwnership (user : ID) : raw :=
  MarshalStringMap (<["default" := "limited"]> (<[user := "owner"]> ∅)).

(** ** Handlers *)

Section Scenes.
Context `{Unicode} {S : Type} `{Tx S}.
Variable policy : FieldPolicy.

Definition listScenesHandler (r : Request) (worldID : ID) : S → Response * S :=
  requireRole r worldID false (λ _ s,
    match world ← GetWorld s worldID; documents ← ListDocuments s worldID (ofKind KindScene);
          Ok (world, documents) with
    | Err _ => (internalError, s)
    | Ok (world, documents) =>
        (writeJSON 200 (Raw (JArr ((λ d, sceneView (doc_ID d) (doc_Name d)
           (bool_decide (doc_ID d = world_ActiveScene world)) (decodeSceneData (doc_Data d)))
           <$> (documents : list Document)))), s)
    end).

Definition createSceneHandler (randomID : string) (now : Time) (r : Request) (worldID : ID) : S → Response * S :=
  requireRole r worldID true (λ _, withBody decodeCreateScene r (λ body s,
    let data := Raw (encodeSceneData (defaultSceneData body)) in
    let document := newDocument worldID (GenerateID randomID "scene") KindScene "" ""
                      (orDefault (cs_Name body) "New scene") "" data observerDefault "" in
    match runTx (PutDocument now document) s with
    | (Err _, s) => (internalError, s)
    | (Ok document, s) =>
        (writeJSON 201 (Raw (sceneView (doc_ID document) (doc_Name document) false
           (decodeSceneData (doc_Data document)))), s)
    end)).

(** The loop of [listTokensHandler] over the tokens the caller sees. *)
Definition tokenViewStep (s : S) (subject : Subject) (views : list tokenView) (document : Document)
    : res (list tokenView) :=
  grant ← GrantOf s subject document;
  visible ← RedactDocument document subject grant policy;
  match visible with
  | None => Ok views
  | Some v => Ok (views ++ [MkTokenView (doc_ID v) (doc_Name v) (doc_Img v) (doc_Data v)])
  end.

(** The read-only transaction of [listTokensHandler]. *)
Definition tokensFor (s : S) (worldID sceneID userID : ID) : res (list tokenView) :=
  role ← RoleOf s worldID userID;
  let subject := MkSubject userID role in
  documents ← ListDocuments s worldID (ofKindIn KindToken sceneID 0);
  documents ← VisibleTokens s subject worldID sceneID documents;
  foldM (tokenViewStep s subject) [] documents.

Definition listTokensHandler (r : Request) (worldID sceneID : ID) : S → Response * S :=
  requireRole r worldID false (λ user s,
    match tokensFor s worldID sceneID (user_ID user) with
    | Err _ => (internalError, s)
    | Ok views => (writeEncoded 200 (js ← traverse encodeTokenView views; Ok (JArr js)), s)
    end).

(** A document below a scene: the scene has to exist. *)
Definition putBelow (now : Time) (worldID sceneID : ID) (document : Document) : M S Document :=
  _ ← lift (λ s, GetDocument s worldID sceneID);
  PutDocument now document.

Definition sceneError (e : err) : Response :=
  if errors_Is e ErrNotFound then apiError 404 "not_found" "core.scene.unknown" else internalError.

Definition createTokenHandler (randomID : string) (now : Time) (r : Request) (worldID sceneID : ID)
    : S → Response * S :=
  requireRole r worldID true (λ _, withBody decodeCreateToken r (λ body s,
    match encodeTokenData (newTokenData body) with
    | Err _ => (internalError, s)
    | Ok data =>
        let document := newDocument worldID (GenerateID randomID "token") KindToken "" sceneID
                          (orDefault (ct_Name body) "Token") (ct_Img body) (Raw data) observerDefault "" in
        match runTx (putBelow now worldID sceneID document) s with
        | (Err e, s) => (sceneError e, s)
        | (Ok d, s) =>
            (writeEncoded 201 (encodeTokenView (MkTokenView (doc_ID d) (doc_Name d) (doc_Img d) (doc_Data d))), s)
        end
    end)).

(** The loop of [listActorsHandler]. *)
Definition actorViewStep (s : S) (subject : Subject) (views : list actorView) (document : Document)
    : res (list actorView) :=
  grant ← GrantOf s subject document;
  visible ← RedactDocument document subject grant policy;
  match visible with
  | None => Ok views
  | Some v => Ok (views ++ [MkActorView (doc_ID v) (doc_Name v) (doc_Subtype v) (doc_Data v)
                              (doc_Ownership v) (CanEdit grant)])
  end.

(** The read-only transaction of [listActorsHandler]. *)
Definition actorsFor (s : S) (worldID userID : ID) : res (list actorView) :=
  role ← RoleOf s worldID userID;
  documents ← ListDocuments s worldID (ofKind KindActor);
  foldM (actorViewStep s (MkSubject userID role)) [] documents.

Definition listActorsHandler (r : Request) (worldID : ID) : S → Response * S :=
  requireRole r worldID false (λ user s,
    match actorsFor s worldID (user_ID user) with
    | Err _ => (internalError, s)
    | Ok views => (writeEncoded 200 (js ← traverse encodeActorView views; Ok (JArr js)), s)
    end).

Definition createActorHandler (randomID : string) (now : Time) (r : Request) (worldID : ID) : S → Response * S :=
  requireRole r worldID true (λ actor, withBody decodeCreateActor r (λ body s,
    let subtype := if bool_decide (ca_Subtype body = "") then "vampire" else ca_Subtype body in
    let document := newDocument worldID (GenerateID randomID "actor") KindActor subtype ""
                      (orDefault (ca_Name body) "New character") "" (Raw defaultVampireData)
                      (actorOwnership (user_ID actor)) "0.1.0" in
    match runTx (PutDocument now document) s with
    | (Err _, s) => (internalError, s)
    | (Ok d, s) =>
        (writeEncoded 201 (encodeActorView (MkActorView (doc_ID d) (doc_Name d) (doc_Subtype d) (doc_Data d)
           (doc_Ownership d) true)), s)
    end)).

Definition withOwnership (ownership : raw) (d : Document) : Document :=
  MkDocument (doc_WorldID d) (doc_ID d) (doc_Kind d) (doc_Subtype d) (doc_ParentID d) (doc_FolderID d)
    (doc_Name d) (doc_Sort d) (doc_Img d) (doc_Data d) (doc_Flags d) ownership (doc_SourcePack d)
    (doc_SchemaVersion d) (doc_CreatedAt d) (doc_UpdatedAt d) (doc_UpdatedSeq d) (doc_DeletedAt d).

(** The transaction of [setDocumentAccessHandler]. *)
Definition setAccessTx (now : Time) (worldID documentID userID : ID) (level : Level) : M S Document :=
  document ← lift (λ s, GetDocument s worldID documentID);
  acl ← ofRes (ParseACL (doc_Ownership document));
  PutDocument now (withOwnership (MarshalStringMap (LevelString <$> <[userID := level]> acl)) document).

Definition setDocumentAccessHandler (now : Time) (r : Request) (worldID documentID : ID) : S → Response * S :=
  requireRole r worldID true (λ _, withBody decodeDocumentAccess r (λ body s,
    match ParseLevel (da_Level body) with
    | Err _ => (apiError 400 "bad_request" "core.world.unknownLevel", s)
    | Ok level =>
        match runTx (setAccessTx now worldID documentID (da_UserID body) level) s with
        | (Err e, s) =>
            (if errors_Is e ErrNotFound then apiError 404 "not_found" "core.document.unknown"
             else internalError, s)
        | (Ok _, s) => (noContent, s)
        end
    end)).

Definition listWallsHandler (r : Request) (worldID sceneID : ID) : S → Response * S :=
  requireRole r worldID false (λ _ s,
    match ListDocuments s worldID (ofKindIn KindWall sceneID 0) with
    | Err _ => (internalError, s)
    | Ok documents =>
        (writeEncoded 200 (js ← traverse (λ d, encodeWallView (doc_ID d) (decodeWallData (doc_Data d)))
                                  (documents : list Document);
                           Ok (JArr js)), s)
    end).

Definition createWallHandler (randomID : string) (now : Time) (r : Request) (worldID sceneID : ID)
    : S → Response * S :=
  requireRole r worldID true (λ _, withBody decodeCreateWall r (λ body s,
    if feq (cwall_X1 body) (cwall_X2 body) && feq (cwall_Y1 body) (cwall_Y2 body) then
      (apiError 400 "bad_request" "core.scene.wallHasNoLength", s)
    else
      match encodeWallData (newWallData body) with
      | Err _ => (internalError, s)
      | Ok data =>
          let document := newDocument worldID (GenerateID randomID "wall") KindWall "" sceneID
                            "Wall" "" (Raw data) observerDefault "" in
          match runTx (putBelow now worldID sceneID document) s with
          | (Err e, s) => (sceneError e, s)
          | (Ok d, s) => (writeEncoded 201 (encodeWallView (doc_ID d) (decodeWallData (doc_Data d))), s)
          end
      end)).
End Scenes.

(** ** Data: lemmas *)

Lemma fFinite_Ok k f fs : fFinite k f = Ok fs ↔ finite64 f = true ∧ fs = fFloat k f.
Proof. unfold fFinite. destruct (finite64 f); naive_solver. Qed.

Lemma encodeWallData_Ok d j :
  encodeWallData d = Ok j →
  j = JObj (fFloat "x1" (wd_X1 d) ++ fFloat "y1" (wd_Y1 d) ++ fFloat "x2" (wd_X2 d) ++ fFloat "y2" (wd_Y2 d) ++
    fBool "blocksSight" (wd_BlocksSight d) ++ fBool "blocksMovement" (wd_BlocksMove d) ++
    fBool "blocksSound" (wd_BlocksSound d) ++ fBool "door" (wd_Door d) ++ fBool "doorOpen" (wd_DoorOpen d)) ∧
  finite64 (wd_X1 d) = true ∧ finite64 (wd_Y1 d) = true ∧ finite64 (wd_X2 d) = true ∧ finite64 (wd_Y2 d) = true.
Proof.
  unfold encodeWallData. intros (x1 & [? ->]%fFinite_Ok & Hj)%bind_Ok.
  apply bind_Ok in Hj as (y1 & [? ->]%fFinite_Ok & Hj). apply bind_Ok in Hj as (x2 & [? ->]%fFinite_Ok & Hj).
  apply bind_Ok in Hj as (y2 & [? ->]%fFinite_Ok & [= <-]). done.
Qed.

#[local] Opaque numOfFloat numOfInt.

(** What line of sight and the door toggle read of an encoded wall. *)
Lemma decodeWall_encoded d j :
  encodeWallData d = Ok j →
  decodeWall (Raw j) = Some (MkWallGeometry (wd_X1 d) (wd_Y1 d) (wd_X2 d) (wd_Y2 d)
                               (wd_BlocksSight d) (wd_Door d) (wd_DoorOpen d)).
Proof.
  intros (-> & H1 & H2 & H3 & H4)%encodeWallData_Ok. unfold decodeWall. read_fields.
  rewrite !convFloat_num by done. reflexivity.
Qed.

Lemma toggleDoor_encoded d j :
  encodeWallData d = Ok j → (∃ out, toggleDoor (Raw j) = Ok out) ↔ wd_Door d = true.
Proof.
  intros (-> & H1 & H2 & H3 & H4)%encodeWallData_Ok. unfold toggleDoor. cbn.
  rewrite !nf_numOfFloat, H1, H2, H3, H4. cbn. unfold boolAt. cbn. destruct (wd_Door d); cbn.
  - split; [done|]. intros _. by eexists.
  - split; [by intros []|done].
Qed.

Lemma pointOf_encoded d j doc :
  encodeTokenData d = Ok j → doc_Data doc = Raw j → pointOf doc = Some (MkPoint (token_X d) (token_Y d)).
Proof.
  unfold encodeTokenData. intros (x & [Hx ->]%fFinite_Ok & Hj)%bind_Ok.
  apply bind_Ok in Hj as (y & [Hy ->]%fFinite_Ok & Hj). apply bind_Ok in Hj as (w & [_ ->]%fFinite_Ok & Hj).
  apply bind_Ok in Hj as (h & [_ ->]%fFinite_Ok & [= <-]). intros Hd.
  unfold pointOf. rewrite Hd. read_fields. rewrite !convFloat_num by done. reflexivity.
Qed.

(** Decoding what was encoded gives the data back, sizes being 64-bit. *)
Lemma decodeSceneData_encoded d :
  in_int64 (scene_Width d) → in_int64 (scene_Height d) → in_int64 (scene_GridSize d) →
  decodeSceneData (Raw (encodeSceneData d)) = d.
Proof.
  intros Hw Hh Hg. destruct d as [w h g t b]; cbn [scene_Width scene_Height scene_GridSize] in *.
  unfold decodeSceneData, encodeSceneData, fStrOpt.
  cbn [scene_Width scene_Height scene_GridSize scene_GridType scene_Background].
  case_bool_decide as Hb; subst; cbn [structFields default from_option]; read_fields;
    rewrite !convInt_num by done; reflexivity.
Qed.

Lemma decodeCreateScene_sizes r body :
  decodeCreateScene r = Some body →
  in_int64 (cs_Width body) ∧ in_int64 (cs_Height body) ∧ in_int64 (cs_GridSize body).
Proof.
  unfold decodeCreateScene. destruct (structFields r) as [fs|]; [|done]. cbn.
  destruct (decodeField convString "" "name" fs) as [name o1].
  pose proof (decodeField_int64 "width" fs) as Hw. destruct (decodeField convInt 0 "width" fs) as [w o2].
  pose proof (decodeField_int64 "height" fs) as Hh. destruct (decodeField convInt 0 "height" fs) as [h o3].
  pose proof (decodeField_int64 "gridSize" fs) as Hg. destruct (decodeField convInt 0 "gridSize" fs) as [g o4].
  destruct (o1 && o2 && o3 && o4); [|done]. by intros [= <-].
Qed.

Lemma defaultSceneData_sizes body :
  in_int64 (cs_Width body) → in_int64 (cs_Height body) → in_int64 (cs_GridSize body) →
  let d := defaultSceneData body in
  0 < scene_Width d ≤ max_int64 ∧ 0 < scene_Height d ≤ max_int64 ∧ 0 < scene_GridSize d ≤ max_int64.
Proof.
  intros [_ Hw] [_ Hh] [_ Hg]. unfold defaultSceneData. cbn.
  unfold max_int64 in *. repeat case_match; lia.
Qed.

Lemma ParseACL_actor user : ParseACL (actorOwnership user) = Ok (<["default" := LevelLimited]> (<[user := LevelOwner]> ∅)).
Proof.
  rewrite <-ParseACL_encode. unfold encodeACL, actorOwnership. by rewrite !fmap_insert, fmap_empty.
Qed.

(** ** Listings: lemmas *)

Definition viewOfBrief (b : tokenBrief) : tokenView :=
  MkTokenView (brief_ID b) (brief_Name b) (brief_Img b) (brief_Data b).

Section Listings.
Context {S : Type} `{TxLaws S}.
Variable policy : FieldPolicy.
Implicit Types (q : S) (s : Session).

(** The two loops over the tokens a subject sees build the same views. *)
Lemma tokenViewStep_brief q subject acc token :
  tokenViewStep policy q subject (map viewOfBrief acc) token =
  match briefStep policy q subject acc token with
  | Ok briefs => Ok (map viewOfBrief briefs)
  | Err e => Err e
  end.
Proof.
  unfold tokenViewStep, briefStep. destruct (GrantOf q subject token) as [g|]; cbn; [|done].
  destruct (RedactDocument token subject g policy) as [[v|]|]; cbn; [|done..]. by rewrite map_app.
Qed.

Lemma tokenViews_briefs q subject tokens acc :
  foldM (tokenViewStep policy q subject) (map viewOfBrief acc) tokens =
  match foldM (briefStep policy q subject) acc tokens with
  | Ok briefs => Ok (map viewOfBrief briefs)
  | Err e => Err e
  end.
Proof.
  revert acc. induction tokens as [|t tokens IH]; intros acc; [done|]. cbn [foldM].
  rewrite tokenViewStep_brief. destruct (briefStep policy q subject acc t); cbn; [apply IH|done].
Qed.

Lemma encodeViews_briefs briefs :
  traverse encodeTokenView (map viewOfBrief briefs) = traverse encodeBrief briefs.
Proof. induction briefs as [|b briefs IH]; [done|]. cbn. by rewrite <-IH. Qed.

(** Every member with a valid role has a frame. *)
Lemma memberStep_total q s sceneID seq tokens members frames frames' :
  foldM (memberStep policy q s sceneID seq tokens) frames members = Ok frames' →
  (∀ u, is_Some (frames !! u) → is_Some (frames' !! u)) ∧
  ∀ m, m ∈ members → Valid (member_Role m) = true → is_Some (frames' !! member_UserID m).
Proof.
  revert frames. induction members as [|m members IH]; intros frames; cbn [foldM].
  { intros [= <-]. split; [done|]. by intros m Hm%elem_of_nil. }
  intros (f1 & Hstep & Hr)%bind_Ok. destruct (IH _ Hr) as [Hkeep Hin].
  unfold memberStep in Hstep. destruct (Valid (member_Role m)) eqn:Ev; cbn in Hstep.
  2:{ injection Hstep as <-. split; [done|]. intros m' [-> |Hm']%elem_of_cons Hv; [by rewrite Ev in Hv|auto]. }
  apply bind_Ok in Hstep as (visible & _ & Hstep). apply bind_Ok in Hstep as (briefs & _ & Hstep).
  apply bind_Ok in Hstep as (encoded & _ & [= <-]). split.
  - intros u Hu. apply Hkeep. rewrite lookup_insert. by case_decide.
  - intros m' [-> |Hm']%elem_of_cons Hv; [|auto]. apply Hkeep. rewrite lookup_insert_eq. by eexists.
Qed.

(** The frame of a member, computed from their own membership row. *)
Lemma visibilityFrames_of q s sceneID seq frames u m :
  wf q → visibilityFrames policy q s sceneID seq = Ok frames →
  GetMember q (sess_worldID s) u = Ok m → Valid (member_Role m) = true →
  (∃ ms, ListMembers q (sess_worldID s) = Ok ms) ∧
  ∃ tokens visible briefs encoded,
    ListDocuments q (sess_worldID s) (ofKindIn "token" sceneID 0) = Ok tokens ∧
    VisibleTokens q (MkSubject u (member_Role m)) (sess_worldID s) sceneID tokens = Ok visible ∧
    foldM (briefStep policy q (MkSubject u (member_Role m))) [] visible = Ok briefs ∧
    encodeVisibility sceneID briefs = Ok encoded ∧
    frames !! u = Some (eventFrame (MkEventBody seq "scene.visibility" (sess_worldID s) sceneID encoded)).
Proof.
  intros Hwf Hv Hm Hval. unfold visibilityFrames in Hv.
  apply bind_Ok in Hv as (ms & Hms & Hv). apply bind_Ok in Hv as (tokens & Htok & Hv).
  destruct (GetMember_key _ _ _ _ Hwf Hm) as [Hw Hu]. destruct (ListMembers_of _ _ _ Hwf Hms) as [_ Hin].
  assert (m ∈ ms) as Hmem by (apply Hin; by rewrite Hu).
  destruct (memberStep_total _ _ _ _ _ _ _ _ Hv) as [_ Hall].
  destruct (Hall m Hmem Hval) as [f Hf]. rewrite Hu in Hf. split; [by exists ms|].
  destruct (memberStep_frames _ _ _ _ _ _ _ _ _ _ _ Hv Hf) as [Hemp|Hfr]; [by rewrite lookup_empty in Hemp|].
  destruct Hfr as (m' & visible & briefs & encoded & Hin' & Hid & _ & Hvis & Hb & He & ->).
  assert (m' = m) as -> by (apply Hin in Hin'; rewrite Hid in Hin'; congruence).
  by exists tokens, visible, briefs, encoded.
Qed.
End Listings.

(** ** Writes: lemmas *)

Section Writes.
Context `{Unicode} {S : Type} `{TxLaws S} `{!DocumentLaws S}.
Implicit Types (s : S) (r : Request).

(** The requests that write. *)
Inductive sceneRequest :=
  | RScene (randomID : string) (now : Time) (r : Request) (world : ID)
  | RToken (randomID : string) (now : Time) (r : Request) (world scene : ID)
  | RActor (randomID : string) (now : Time) (r : Request) (world : ID)
  | RWall (randomID : string) (now : Time) (r : Request) (world scene : ID)
  | RAccess (now : Time) (r : Request) (world document : ID).

Definition serveScene (q : sceneRequest) : S → Response * S :=
  match q with
  | RScene randomID now r w => createSceneHandler randomID now r w
  | RToken randomID now r w scene => createTokenHandler randomID now r w scene
  | RActor randomID now r w => createActorHandler randomID now r w
  | RWall randomID now r w scene => createWallHandler randomID now r w scene
  | RAccess now r w document => setDocumentAccessHandler now r w document
  end.

Definition sceneRequestOf (q : sceneRequest) : Request :=
  match q with RScene _ _ r _ | RToken _ _ r _ _ | RActor _ _ r _ | RWall _ _ r _ _ | RAccess _ r _ _ => r end.

(** The one document a request may write. *)
Definition written (q : sceneRequest) : ID * ID :=
  match q with
  | RScene randomID _ _ w => (w, GenerateID randomID "scene")
  | RToken randomID _ _ w _ => (w, GenerateID randomID "token")
  | RActor randomID _ _ w => (w, GenerateID randomID "actor")
  | RWall randomID _ _ w _ => (w, GenerateID randomID "wall")
  | RAccess _ _ w document => (w, document)
  end.

(** A write of one document leaves everything else alone. *)
Definition onlyDocument s s' (key : ID * ID) : Prop :=
  wf s' ∧ (∀ w i, (w, i) ≠ key → GetDocument s' w i = GetDocument s w i) ∧
  (∀ w u, GetMember s' w u = GetMember s w u) ∧ (∀ w, GetWorld s' w = GetWorld s w).

Lemma onlyDocument_refl s key : wf s → onlyDocument s s key.
Proof. by intros Hwf. Qed.

Lemma PutDocument_only now d s x s' :
  wf s → PutDocument now d s = (Ok x, s') →
  onlyDocument s s' (doc_WorldID d, doc_ID d) ∧ keepsDocument d x ∧
  ∃ row, GetDocument s' (doc_WorldID d) (doc_ID d) = Ok row ∧ keepsDocument d row.
Proof.
  intros Hwf Hp. destruct (PutDocument_stored _ _ _ _ _ Hwf Hp) as (Hwf' & Hx & Hrow & Hd & Hm & Hw).
  by split_and!.
Qed.

Lemma putBelow_Ok now w scene d s x s' :
  putBelow now w scene d s = (Ok x, s') → is_Ok (GetDocument s w scene) ∧ PutDocument now d s = (Ok x, s').
Proof.
  unfold putBelow. intros (y & s1 & Hy & Hp)%M_bind_Ok. apply lift_Ok in Hy as [Hy ->].
  split; [by exists y|done].
Qed.

Lemma setAccessTx_Ok now w id user level s x s' :
  setAccessTx now w id user level s = (Ok x, s') →
  ∃ d acl, GetDocument s w id = Ok d ∧ ParseACL (doc_Ownership d) = Ok acl ∧
    PutDocument now (withOwnership (encodeACL (<[user := level]> acl)) d) s = (Ok x, s').
Proof.
  unfold setAccessTx. intros (d & s1 & Hd & Ht)%M_bind_Ok. apply lift_Ok in Hd as [Hd ->].
  apply M_bind_Ok in Ht as (acl & s1 & Ha & Ht). apply ofRes_Ok in Ha as [Ha ->]. by exists d, acl.
Qed.

(** What a write handler does: nothing, or one put by a game master. *)
Definition gmPut (r : Request) (w : ID) s s' (P : User → Document → Document → Prop) : Prop :=
  ∃ user m now d x, req_User r = Some user ∧ GetMember s w (user_ID user) = Ok m ∧
    member_Role m = RoleGM ∧ doc_WorldID d = w ∧ PutDocument now d s = (Ok x, s') ∧ P user d x.

Ltac refused H := left; injection H as <- <-; done.
Ltac refusedTx H Et := left; injection H as <- <-; apply runTx_Err in Et as ->; by repeat case_match.
Ltac gmCases H :=
  apply requireRole_cases in H as [[-> Hst]|(user & m & Hu & Hm & Hr & H)];
  [left; split; [done|by apply refused_status]|]; specialize (Hr eq_refl); unfold withBody in H.

Lemma createScene_cases randomID now r w s resp s' :
  createSceneHandler randomID now r w s = (resp, s') →
  (s' = s ∧ resp_Status resp ≠ 201) ∨
  (resp_Status resp = 201 ∧ gmPut r w s s' (λ user d x, ∃ body, decodeCreateScene (req_Body r) = Some body ∧
     resp = writeJSON 201 (Raw (sceneView (doc_ID x) (doc_Name x) false (decodeSceneData (doc_Data x)))) ∧
     d = newDocument w (GenerateID randomID "scene") KindScene "" "" (orDefault (cs_Name body) "New scene") ""
           (Raw (encodeSceneData (defaultSceneData body))) observerDefault "")).
Proof.
  intros Hq. gmCases Hq. destruct (decodeCreateScene _) as [body|]; [|refused Hq]. cbn zeta in Hq.
  destruct (runTx _ s) as [[x|e] s1] eqn:Et; [|refusedTx Hq Et].
  injection Hq as <- <-. apply (proj1 (runTx_Ok _ _ _ _)) in Et. right. split; [done|].
  exists user, m, now. do 2 eexists. split_and!; [done| |done| |done|by exists body]; done.
Qed.

Lemma createActor_cases randomID now r w s resp s' :
  createActorHandler randomID now r w s = (resp, s') →
  (s' = s ∧ resp_Status resp ≠ 201) ∨
  (resp_Status resp = 201 ∧ gmPut r w s s' (λ user d x, ∃ name subtype,
     d = newDocument w (GenerateID randomID "actor") KindActor subtype "" name ""
           (Raw defaultVampireData) (actorOwnership (user_ID user)) "0.1.0")).
Proof.
  intros Hq. gmCases Hq. destruct (decodeCreateActor _) as [body|]; [|refused Hq]. cbn zeta in Hq.
  destruct (runTx _ s) as [[x|e] s1] eqn:Et; [|refusedTx Hq Et].
  injection Hq as <- <-. apply (proj1 (runTx_Ok _ _ _ _)) in Et. right. split; [done|].
  exists user, m, now. do 2 eexists. split_and!; [done| |done| |done|by do 2 eexists]; done.
Qed.

Lemma createToken_cases randomID now r w scene s resp s' :
  createTokenHandler randomID now r w scene s = (resp, s') →
  (s' = s ∧ resp_Status resp ≠ 201) ∨
  (resp_Status resp = 201 ∧ is_Ok (GetDocument s w scene) ∧ gmPut r w s s' (λ user d x, ∃ body data,
     decodeCreateToken (req_Body r) = Some body ∧ encodeTokenData (newTokenData body) = Ok data ∧
     d = newDocument w (GenerateID randomID "token") KindToken "" scene (orDefault (ct_Name body) "Token")
           (ct_Img body) (Raw data) observerDefault "")).
Proof.
  intros Hq. gmCases Hq. destruct (decodeCreateToken _) as [body|]; [|refused Hq].
  destruct (encodeTokenData _) as [data|] eqn:Ed; [|refused Hq]. cbn zeta in Hq.
  destruct (runTx _ s) as [[x|e] s1] eqn:Et; [|unfold sceneError in Hq; refusedTx Hq Et].
  injection Hq as <- <-. apply (proj1 (runTx_Ok _ _ _ _)), putBelow_Ok in Et as [Hs Et]. right.
  split_and!; [done|done|]. exists user, m, now. do 2 eexists.
  split_and!; [done| |done| |done|by exists body, data]; done.
Qed.

Lemma createWall_cases randomID now r w scene s resp s' :
  createWallHandler randomID now r w scene s = (resp, s') →
  (s' = s ∧ resp_Status resp ≠ 201) ∨
  (resp_Status resp = 201 ∧ is_Ok (GetDocument s w scene) ∧ gmPut r w s s' (λ user d x, ∃ body data,
     decodeCreateWall (req_Body r) = Some body ∧ encodeWallData (newWallData body) = Ok data ∧
     feq (cwall_X1 body) (cwall_X2 body) && feq (cwall_Y1 body) (cwall_Y2 body) = false ∧
     d = newDocument w (GenerateID randomID "wall") KindWall "" scene "Wall" "" (Raw data) observerDefault "")).
Proof.
  intros Hq. gmCases Hq. destruct (decodeCreateWall _) as [body|]; [|refused Hq].
  destruct (_ && _) eqn:El; [refused Hq|].
  destruct (encodeWallData _) as [data|] eqn:Ed; [|refused Hq]. cbn zeta in Hq.
  destruct (runTx _ s) as [[x|e] s1] eqn:Et; [|unfold sceneError in Hq; refusedTx Hq Et].
  injection Hq as <- <-. apply (proj1 (runTx_Ok _ _ _ _)), putBelow_Ok in Et as [Hs Et]. right.
  split_and!; [done|done|]. exists user, m, now. do 2 eexists.
  split_and!; [done| |done| |done|by exists body, data]; done.
Qed.

Lemma setAccess_cases now r w id s resp s' :
  wf s → setDocumentAccessHandler now r w id s = (resp, s') →
  (s' = s ∧ resp_Status resp ≠ 204) ∨
  (resp_Status resp = 204 ∧ gmPut r w s s' (λ user d x, ∃ body level old acl,
     decodeDocumentAccess (req_Body r) = Some body ∧ ParseLevel (da_Level body) = Ok level ∧
     GetDocument s w id = Ok old ∧ ParseACL (doc_Ownership old) = Ok acl ∧ doc_ID d = id ∧
     d = withOwnership (encodeACL (<[da_UserID body := level]> acl)) old)).
Proof.
  intros Hwf Hq. gmCases Hq. destruct (decodeDocumentAccess _) as [body|]; [|refused Hq].
  destruct (ParseLevel _) as [level|] eqn:El; [|refused Hq].
  destruct (runTx _ s) as [[x|e] s1] eqn:Et; [|refusedTx Hq Et].
  injection Hq as <- <-. apply (proj1 (runTx_Ok _ _ _ _)), setAccessTx_Ok in Et as (d & acl & Hd & Ha & Et).
  destruct (GetDocument_key _ _ _ _ Hwf Hd) as [Hw Hi]. right. split; [done|].
  exists user, m, now. do 2 eexists. split_and!; [done| |done| |done|]; [done|done|].
  exists body, level, d, acl. by split_and!.
Qed.

Lemma gmPut_only r w s s' P :
  wf s → gmPut r w s s' P →
  ∃ user m d x row, req_User r = Some user ∧ GetMember s w (user_ID user) = Ok m ∧ member_Role m = RoleGM ∧
    doc_WorldID d = w ∧ onlyDocument s s' (w, doc_ID d) ∧ keepsDocument d x ∧
    GetDocument s' w (doc_ID d) = Ok row ∧ keepsDocument d row ∧ P user d x.
Proof.
  intros Hwf (user & m & now & d & x & Hu & Hm & Hr & Hw & Hp & HP).
  destruct (PutDocument_only _ _ _ _ _ Hwf Hp) as (Hon & Hx & row & Hrow & Hk). rewrite Hw in Hon, Hrow.
  exists user, m, d, x, row. by split_and!.
Qed.

Lemma serveScene_step q s resp s' :
  wf s → serveScene q s = (resp, s') →
  s' = s ∨
  (onlyDocument s s' (written q) ∧ ∃ user m, req_User (sceneRequestOf q) = Some user ∧
     GetMember s (written q).1 (user_ID user) = Ok m ∧ member_Role m = RoleGM).
Proof.
  intros Hwf. destruct q; cbn [serveScene written sceneRequestOf fst]; intros Hq.
  - apply createScene_cases in Hq as [[-> _]|(_ & Hp)]; [by left|right].
    apply (gmPut_only _ _ _ _ _ Hwf) in Hp as (user & m & d & x & row & Hu & Hm & Hr & _ & Ho & _ & _ & _ & b & _ & _ & ->).
    split; [done|]. by exists user, m.
  - apply createToken_cases in Hq as [[-> _]|(_ & _ & Hp)]; [by left|right].
    apply (gmPut_only _ _ _ _ _ Hwf) in Hp as (user & m & d & x & row & Hu & Hm & Hr & _ & Ho & _ & _ & _ & b & j & _ & _ & ->).
    split; [done|]. by exists user, m.
  - apply createActor_cases in Hq as [[-> _]|(_ & Hp)]; [by left|right].
    apply (gmPut_only _ _ _ _ _ Hwf) in Hp as (user & m & d & x & row & Hu & Hm & Hr & _ & Ho & _ & _ & _ & n & t & ->).
    split; [done|]. by exists user, m.
  - apply createWall_cases in Hq as [[-> _]|(_ & _ & Hp)]; [by left|right].
    apply (gmPut_only _ _ _ _ _ Hwf) in Hp as (user & m & d & x & row & Hu & Hm & Hr & _ & Ho & _ & _ & _ & b & j & _ & _ & _ & ->).
    split; [done|]. by exists user, m.
  - apply (setAccess_cases _ _ _ _ _ _ _ Hwf) in Hq as [[-> _]|(_ & Hp)]; [by left|right].
    apply (gmPut_only _ _ _ _ _ Hwf) in Hp as (user & m & d & x & row & Hu & Hm & Hr & _ & Ho & _ & _ & _ & b & l & o & a & _ & _ & _ & _ & <- & _).
    split; [done|]. by exists user, m.
Qed.
End Writes.

(** ** Theorems *)

Section SceneTheorems.
Context `{Unicode} {S : Type} `{TxLaws S} `{!DocumentLaws S}.
Variable policy : FieldPolicy.
Implicit Types (s : S) (r : Request).

(** C18: a page that is loaded and a page that is pushed show the same tokens.
    Whenever the per-user visibility frames of a scene can be computed on a
    store, the HTTP listing of that scene's tokens for a member is, value for
    value, the token list of that member's own frame, and reading changes
    nothing. *)
Theorem listing_is_the_frame : ∀ s sess r sceneID seq frames user m,
  wf s → req_User r = Some user →
  GetMember s (sess_worldID sess) (user_ID user) = Ok m → Valid (member_Role m) = true →
  visibilityFrames policy s sess sceneID seq = Ok frames →
  ∃ tokens,
    frames !! user_ID user = Some (eventFrame (MkEventBody seq "scene.visibility" (sess_worldID sess) sceneID
      (Raw (JObj (fStr "sceneId" sceneID ++ [("tokens", tokens)]))))) ∧
    listTokensHandler policy r (sess_worldID sess) sceneID s = (writeJSON 200 (Raw tokens), s).
Proof.
  intros s sess r sceneID seq frames user m Hwf Hu Hm Hval Hf.
  destruct (visibilityFrames_of policy _ _ _ _ _ _ _ Hwf Hf Hm Hval)
    as (_ & tokens & visible & briefs & encoded & Htok & Hvis & Hb & He & Hframe).
  unfold encodeVisibility in He. apply bind_Ok in He as (js & Hjs & [= <-]).
  exists (JArr js). split; [done|].
  unfold listTokensHandler, requireRole, requireRoleAs, requireUserAs. rewrite Hu, Hm. cbn [andb].
  unfold tokensFor, RoleOf. rewrite Hm, Hval. cbn [mbind res_bind].
  unfold KindToken. rewrite Htok. cbn [mbind res_bind]. rewrite Hvis. cbn [mbind res_bind].
  change (@nil tokenView) with (map viewOfBrief []). rewrite tokenViews_briefs, Hb. cbn [mbind res_bind].
  rewrite encodeViews_briefs, Hjs. done.
Qed.

(** C26: the segment that is drawn is the segment that blocks sight.  Creating a
    wall either changes nothing, or stores a row that line of sight reads with the
    very coordinates and flags of the request: while the scene lists fewer walls than the store's limit, the blockers of the
    scene then contain the wall's segment exactly as requested; and the door
    toggle accepts the row exactly if it was requested as a door. *)
Theorem created_wall_blocks : ∀ randomID now r w scene s resp s',
  wf s → createWallHandler randomID now r w scene s = (resp, s') →
  (s' = s ∧ resp_Status resp ≠ 201) ∨
  (resp_Status resp = 201 ∧ ∃ body row,
     decodeCreateWall (req_Body r) = Some body ∧
     GetDocument s' w (GenerateID randomID "wall") = Ok row ∧
     ((∃ out, toggleDoor (doc_Data row) = Ok out) ↔ cwall_Door body = true) ∧
     let line := MkSegment (MkPoint (cwall_X1 body) (cwall_Y1 body)) (MkPoint (cwall_X2 body) (cwall_Y2 body)) in
     blockerOf row = (if default true (cwall_BlocksSight body) then Some line else None) ∧
     ∀ walls, scene ≠ "" → ListDocuments s' w (ofKindIn KindWall scene 0) = Ok walls →
       Z.of_nat (length walls) < list_limit → default true (cwall_BlocksSight body) = true →
       ∃ blockers, BlockersOf s' w scene = Ok blockers ∧ line ∈ blockers).
Proof.
  intros randomID now r w scene s resp s' Hwf [?|(Hst & _ & Hp)]%createWall_cases; [by left|right].
  apply (gmPut_only _ _ _ _ _ Hwf) in Hp as (user & m & d & x & row & _ & _ & _ & _ & (Hwf' & _) & _ & Hrow & Hk & Hb).
  destruct Hb as (body & data & Hbody & Hdata & Hlen & ->).
  destruct Hk as (Hkw & Hki & Hkk & _ & Hkp & _ & _ & _ & Hdel & _ & Hkd & _).
  specialize (Hkd _ eq_refl). cbn in *. split; [done|]. exists body, row.
  assert (blockerOf row = if default true (cwall_BlocksSight body)
    then Some (MkSegment (MkPoint (cwall_X1 body) (cwall_Y1 body)) (MkPoint (cwall_X2 body) (cwall_Y2 body)))
    else None) as Hbl.
  { unfold blockerOf. rewrite Hkd, (decodeWall_encoded _ _ Hdata). cbn.
    destruct (default true _), (cwall_Door body); done. }
  split_and!; try done.
  - rewrite Hkd. exact (toggleDoor_encoded _ _ Hdata).
  - intros walls Hsc Hl Hshort Hsight. rewrite Hsight in Hbl.
    exists (omap blockerOf walls). unfold BlockersOf. fold KindWall. rewrite Hl. split; [done|].
    apply list_elem_of_omap. exists row. split; [|done].
    apply (ListDocuments_complete s' w _ walls row Hwf' Hl eq_refl Hshort); [by rewrite Hki|].
    unfold matchesFilter, ofKindIn. cbn. split_and!; try done; intros p [= <-]. done.
Qed.

(** A new access entry is the entry that decides.  Setting a user's level on a
    document either changes nothing, or was done by a game master of the world and
    rewrites that document's access list in this one entry: every other entry,
    payload and document is as before; any grant the user is then given has
    exactly that level, except that staff own everything and an observer is
    capped. *)
Theorem access_entry_decides : ∀ now r w id s resp s',
  wf s → setDocumentAccessHandler now r w id s = (resp, s') →
  (s' = s ∧ resp_Status resp ≠ 204) ∨
  (resp_Status resp = 204 ∧ ∃ body level old row acl,
     decodeDocumentAccess (req_Body r) = Some body ∧ ParseLevel (da_Level body) = Ok level ∧
     GetDocument s w id = Ok old ∧ GetDocument s' w id = Ok row ∧
     ParseACL (doc_Ownership old) = Ok acl ∧
     ParseACL (doc_Ownership row) = Ok (<[da_UserID body := level]> acl) ∧
     (∀ j, doc_Data old = Raw j → doc_Data row = Raw j) ∧ doc_Kind row = doc_Kind old ∧
     (∀ w' i, (w', i) ≠ (w, id) → GetDocument s' w' i = GetDocument s w' i) ∧
     ∀ role g, GrantOf s' (MkSubject (da_UserID body) role) row = Ok g →
       grant_Level g = if IsStaff role then LevelOwner
                       else if bool_decide (role = RoleObserver) then level_min level LevelObserver else level).
Proof.
  intros now r w id s resp s' Hwf [?|(Hst & Hp)]%setAccess_cases; [by left| |done]. right.
  apply (gmPut_only _ _ _ _ _ Hwf) in Hp
    as (user & m & d & x & row & _ & _ & _ & _ & (_ & Hother & _) & _ & Hrow & Hk & Hb).
  destruct Hb as (body & level & old & acl & Hbody & Hlev & Hold & Hacl & <- & Hd).
  destruct Hk as (_ & _ & Hkk & _ & _ & _ & _ & _ & _ & _ & Hkd & Hko).
  rewrite Hd in Hkk, Hkd, Hko. specialize (Hko _ eq_refl). cbn in Hkk, Hkd.
  assert (ParseACL (doc_Ownership row) = Ok (<[da_UserID body := level]> acl)) as Hnew
    by (rewrite Hko; apply ParseACL_encode).
  split; [done|]. exists body, level, old, row, acl. split_and!; try done.
  intros role g Hg. unfold GrantOf in Hg. rewrite Hnew in Hg. cbn in Hg.
  apply bind_Ok in Hg as (folder & _ & Hg). apply bind_Ok in Hg as (world & _ & [= <-]).
  rewrite Effective_level. unfold resolvedLevel, candidates. cbn. destruct (IsStaff role); [done|].
  by rewrite lookup_insert_eq.
Qed.

(** Only a game master writes the documents of a world over HTTP.  Over any
    sequence of requests that create scenes, tokens, actors or walls or set
    access: the store stays well formed and nobody's role and no world changes;
    each request changes at most the one document it names or creates, and only
    if its sender is signed in and stored as a game master of that world. *)
Theorem scene_writes_confined : ∀ qs s,
  wf s →
  let s' := foldl (λ s q, (serveScene q s).2) s qs in
  wf s' ∧ (∀ w u, GetMember s' w u = GetMember s w u) ∧ (∀ w, GetWorld s' w = GetWorld s w) ∧
  (∀ w i, (w, i) ∉ written <$> qs → GetDocument s' w i = GetDocument s w i) ∧
  ∀ q, (serveScene q s').2 ≠ s' →
    ∃ user m, req_User (sceneRequestOf q) = Some user ∧
      GetMember s (written q).1 (user_ID user) = Ok m ∧ member_Role m = RoleGM.
Proof.
  intros qs s Hwf s'.
  assert (wf s' ∧ (∀ w u, GetMember s' w u = GetMember s w u) ∧ (∀ w, GetWorld s' w = GetWorld s w) ∧
    (∀ w i, (w, i) ∉ written <$> qs → GetDocument s' w i = GetDocument s w i)) as (Hwf' & Hm & Hw & Hd).
  { subst s'. revert s Hwf. induction qs as [|q qs IH]; intros s Hwf; [done|]. cbn [foldl].
    destruct (serveScene q s) as [resp s1] eqn:E. cbn [snd].
    destruct (serveScene_step _ _ _ _ Hwf E) as [->|[(Hwf1 & Hd1 & Hm1 & Hw1) _]].
    - destruct (IH s Hwf) as (? & ? & ? & Hd). split_and!; [done..|]. intros w i Hn. apply Hd.
      rewrite fmap_cons in Hn. set_solver.
    - destruct (IH s1 Hwf1) as (Hwf2 & Hm2 & Hw2 & Hd2). split_and!; [done| | |].
      + intros w u. by rewrite Hm2, Hm1.
      + intros w. by rewrite Hw2, Hw1.
      + intros w i Hn. rewrite fmap_cons in Hn. rewrite Hd2, Hd1; set_solver. }
  split_and!; try done. intros q Hne. destruct (serveScene q s') as [resp s1] eqn:E.
  destruct (serveScene_step _ _ _ _ Hwf' E) as [->|(_ & user & m & Hu & Hg & Hr)]; [done|].
  exists user, m. by rewrite <-Hm.
Qed.

(** A new character is private.  Creating an actor either changes nothing or was
    done by a game master, who becomes the owner in its access list; every other
    member who is not staff has a limited grant on it, and what redaction sends
    them of it has empty data. *)
Theorem new_actor_private : ∀ randomID now r w s resp s',
  wf s → createActorHandler randomID now r w s = (resp, s') →
  (s' = s ∧ resp_Status resp ≠ 201) ∨
  (resp_Status resp = 201 ∧ ∃ user row, req_User r = Some user ∧
     GetDocument s' w (GenerateID randomID "actor") = Ok row ∧ doc_Data row = Raw defaultVampireData ∧
     ∀ u role g, GrantOf s' (MkSubject u role) row = Ok g → IsStaff role = false →
       (u = user_ID user → u ≠ DefaultKey → role ≠ RoleObserver → CanEdit g = true) ∧
       (u ≠ user_ID user → grant_Level g = LevelLimited ∧
          ∀ policy', ∃ v, RedactDocument row (MkSubject u role) g policy' = Ok (Some v) ∧
            doc_Data v = emptyObject)).
Proof.
  intros randomID now r w s resp s' Hwf [?|(Hst & Hp)]%createActor_cases; [by left|right].
  apply (gmPut_only _ _ _ _ _ Hwf) in Hp
    as (user & m & d & x & row & Hu & _ & _ & _ & _ & _ & Hrow & Hk & name & subtype & ->).
  destruct Hk as (_ & _ & _ & _ & _ & _ & _ & _ & _ & _ & Hkd & Hko).
  specialize (Hkd _ eq_refl). assert (doc_Ownership row = actorOwnership (user_ID user)) as Hown by exact (Hko _ eq_refl).
  split; [done|]. exists user, row. split_and!; try done. intros u role g Hg Hns.
  unfold GrantOf in Hg. rewrite Hown, ParseACL_actor in Hg. cbn [mbind res_bind] in Hg.
  apply bind_Ok in Hg as (folder & _ & Hg). apply bind_Ok in Hg as (world & _ & [= <-]). split.
  - intros -> Hdef Hobs. apply CanEdit_spec. cbn. split; [done|].
    unfold resolvedLevel, candidates. cbn. rewrite Hns, lookup_insert_ne, lookup_insert_eq by done. cbn.
    by rewrite bool_decide_eq_false_2.
  - intros Hne. match goal with |- grant_Level ?g = _ ∧ _ => assert (grant_Level g = LevelLimited) as Hl end.
    { rewrite Effective_level. unfold resolvedLevel, candidates. cbn. rewrite Hns.
      destruct (decide (u = "default")) as [->|Hu'].
      - rewrite lookup_insert_eq. cbn. by case_bool_decide.
      - rewrite lookup_insert_ne, lookup_insert_ne, lookup_empty, lookup_insert_eq by done. cbn.
        by case_bool_decide. }
    split; [done|]. intros policy'. unfold RedactDocument, CanRead. rewrite Hl. cbn. by eexists.
Qed.

(** What is created reads back.  A created scene has positive sizes that fit 64
    bits, and the data stored for it decodes to exactly the data that was encoded;
    a created token lies on an existing document of its world and stands, for
    line of sight, exactly at the requested coordinates. *)
Theorem created_reads_back : ∀ randomID now r w scene s resp s',
  wf s →
  (createSceneHandler randomID now r w s = (resp, s') → resp_Status resp = 201 →
   ∃ body row, decodeCreateScene (req_Body r) = Some body ∧
     GetDocument s' w (GenerateID randomID "scene") = Ok row ∧
     let data := defaultSceneData body in
     0 < scene_Width data ≤ max_int64 ∧ 0 < scene_Height data ≤ max_int64 ∧
     0 < scene_GridSize data ≤ max_int64 ∧ decodeSceneData (doc_Data row) = data ∧
     resp = writeJSON 201 (Raw (sceneView (GenerateID randomID "scene")
                                  (orDefault (cs_Name body) "New scene") false data))) ∧
  (createTokenHandler randomID now r w scene s = (resp, s') → resp_Status resp = 201 →
   ∃ body row, decodeCreateToken (req_Body r) = Some body ∧ is_Ok (GetDocument s w scene) ∧
     GetDocument s' w (GenerateID randomID "token") = Ok row ∧ doc_ParentID row = scene ∧
     pointOf row = Some (MkPoint (ct_X body) (ct_Y body))).
Proof.
  intros randomID now r w scene s resp s' Hwf. split.
  - intros [[_ Hbad]|[_ Hp]]%createScene_cases Hst; [by rewrite Hst in Hbad|].
    apply (gmPut_only _ _ _ _ _ Hwf) in Hp as (user & m & d & x & row & _ & _ & _ & _ & _ & Hx & Hrow & Hk & Hb).
    destruct Hb as (body & Hbody & -> & ->). destruct (decodeCreateScene_sizes _ _ Hbody) as (Hw & Hh & Hg).
    destruct (defaultSceneData_sizes body Hw Hh Hg) as (Hw' & Hh' & Hg').
    assert (decodeSceneData (Raw (encodeSceneData (defaultSceneData body))) = defaultSceneData body) as Hrt
      by (apply decodeSceneData_encoded; unfold in_int64, min_int64 in *; lia).
    destruct Hx as (_ & Hxi & _ & _ & _ & _ & Hxn & _ & _ & _ & Hxd & _).
    destruct Hk as (_ & _ & _ & _ & _ & _ & _ & _ & _ & _ & Hkd & _).
    specialize (Hxd _ eq_refl). specialize (Hkd _ eq_refl). exists body, row.
    rewrite Hkd, Hxd, Hxi, Hxn, Hrt. by split_and!.
  - intros [[_ Hbad]|(_ & Hs & Hp)]%createToken_cases Hst; [by rewrite Hst in Hbad|].
    apply (gmPut_only _ _ _ _ _ Hwf) in Hp as (user & m & d & x & row & _ & _ & _ & _ & _ & _ & Hrow & Hk & Hb).
    destruct Hb as (body & data & Hbody & Hdata & ->).
    destruct Hk as (_ & _ & _ & _ & Hkp & _ & _ & _ & _ & _ & Hkd & _). specialize (Hkd _ eq_refl).
    exists body, row. split_and!; try done. by rewrite (pointOf_encoded _ _ _ Hdata Hkd).
Qed.
End SceneTheorems.
