(* ===== verification/Blob.v ===== *)
(** * The blob store (internal/core/blob/{blob,disk}.go)

    Contents on disk under keys derived from hashes.  A disk is the files below
    it, by path; that a directory exists is not modelled.  [Put] is the sequence
    of system calls the code makes, any of which may fail.  A file has the content
    processes read and the content that is certainly on the medium: a write leaves
    the second unknown and [Sync] settles it.  A name has what it is bound to and
    what it was bound to before, because no directory is ever synced.  So there
    are two ways to stop: the process dies, and the files are as the calls made
    left them ([Crash]); or the machine does, and every name is bound to something
    it was bound to at some time, with any content at all if that file was not
    synced ([afterStop]). *)

From S2P Require Import Prelude GoStrings Json Storage.
From Stdlib Require Import Ascii.

Local Open Scope Z_scope.

(** ** Paths: [filepath.Clean] and [filepath.Join] *)

Definition slash : ascii := "/"%char.
Definition dot : bytes := ["."%char].
Definition dotdot : bytes := ["."%char; "."%char].

(** One component of a path against the components kept so far, last first. *)
Definition cleanStep (rooted : bool) (kept : list bytes) (component : bytes) : list bytes :=
  if bool_decide (component = []) || bool_decide (component = dot) then kept
  else if bool_decide (component = dotdot) then
    match kept with
    | last :: rest => if bool_decide (last = dotdot) then component :: kept else rest
    | [] => if rooted then kept else [component]
    end
  else component :: kept.

Definition isRooted (l : bytes) : bool := bool_decide (head l = Some slash).

Definition cleanParts (l : bytes) : list bytes :=
  reverse (foldl (cleanStep (isRooted l)) [] (splitBytes slash l)).

Definition Clean (l : bytes) : bytes :=
  match (if isRooted l then [slash] else []) ++ joinBytes slash (cleanParts l) with
  | [] => dot
  | p => p
  end.

(** [filepath.Join]: empty elements are ignored. *)
Definition joinPath (elements : list bytes) : bytes :=
  match filter (λ e, e ≠ []) elements with
  | [] => []
  | es => Clean (joinBytes slash es)
  end.

(** ** Keys *)

Definition isHex (c : ascii) : bool := inRange 97 102 c || isDigit c.
Definition isSuffixByte (c : ascii) : bool := isLowerLetter c || isDigit c.

Fixpoint spanBytes (p : ascii → bool) (l : bytes) : bytes * bytes :=
  match l with
  | c :: l' => if p c then let '(a, b) := spanBytes p l' in (c :: a, b) else ([], l)
  | [] => ([], [])
  end.

Definition fanOut : nat := 2.
Definition minimumKeySize : nat := 8.

(** [keyPattern]: eight hexadecimal digits or more, then at most one suffix.  A
    hyphen is no digit, so the run of digits is the longest one. *)
Definition keyPattern (key : bytes) : bool :=
  let '(digits, rest) := spanBytes isHex key in
  (8 <=? length digits)%nat &&
  match rest with
  | [] => true
  | c :: suffix => bool_decide (c = "-"%char) && forallb isSuffixByte suffix &&
                   (1 <=? length suffix)%nat && (length suffix <=? 16)%nat
  end.

(** ** The disk *)

(** A file: what is read from it, and what a stop of the machine leaves of it
    for certain, [None] when that may be anything. *)
Record File := MkFile { file_Content : bytes; file_Durable : option bytes }.

(** The files by name, and what each name was bound to before. *)
Record Files := MkFiles {
  fs_Names : gmap bytes File;
  fs_Past : gmap bytes (list (option File))
}.

Definition pastOf (m : Files) (p : bytes) : list (option File) := default [] (fs_Past m !! p).

(** A change of the directory: the name gets another file, or none. *)
Definition rebind (p : bytes) (b : option File) (m : Files) : Files :=
  MkFiles (partial_alter (λ _, b) p (fs_Names m)) (<[p := (fs_Names m !! p) :: pastOf m p]> (fs_Past m)).

(** A change of the file a name is bound to. *)
Definition modify (p : bytes) (f : File → File) (m : Files) : Files :=
  MkFiles (alter f p (fs_Names m)) (fs_Past m).

Record Disk := MkDisk { disk_root : bytes; disk_files : Files }.

Definition NewDisk (root : string) : Disk := MkDisk (chars root) (MkFiles ∅ ∅).

Definition withFiles (d : Disk) (m : Files) : Disk := MkDisk (disk_root d) m.

Definition path (root : bytes) (key : string) : res bytes :=
  let k := chars key in
  if (length k <? minimumKeySize)%nat || negb (keyPattern k) then Err ErrInvalidKey
  else Ok (joinPath [root; take fanOut k; take fanOut (drop fanOut k); k]).

(** [filepath.Dir]: the cleaned path up to its last separator. *)
Definition Dir (p : bytes) : bytes :=
  Clean (reverse (spanBytes (λ c, negb (bool_decide (c = slash))) (reverse p)).2).

(** ** Writing: the system calls of [Put] *)

Inductive call :=
  | MkdirAll (dir : bytes)
  | CreateTemp (name : bytes)
  | Write (name content : bytes)
  | Chmod (name : bytes)
  | Sync (name : bytes)
  | Close (name : bytes)
  | Rename (old new : bytes).

Definition written (content : bytes) (_ : File) : File := MkFile content None.
Definition synced (f : File) : File := MkFile (file_Content f) (Some (file_Content f)).

(** What a call does to the files. *)
Definition exec (c : call) (m : Files) : Files :=
  match c with
  | CreateTemp name => rebind name (Some (MkFile [] None)) m
  | Write name content => modify name (written content) m
  | Sync name => modify name synced m
  | Rename old new =>
      match fs_Names m !! old with
      | Some f => rebind new (Some f) (rebind old None m)
      | None => m
      end
  | MkdirAll _ | Chmod _ | Close _ => m
  end.

(** A call that stops half way: a write leaves a prefix. *)
Definition interrupted (partial : nat) (c : call) (m : Files) : Files :=
  match c with Write name content => modify name (written (take partial content)) m | _ => m end.

(** [os.Remove]. *)
Definition unlink (p : bytes) (m : Files) : Files :=
  match fs_Names m !! p with Some _ => rebind p None m | None => m end.

Definition errIO : err := ErrOther "blob: input or output".

(** The calls in order, the call after [budget] successful ones failing. *)
Fixpoint runCalls (budget partial : nat) (calls : list call) (m : Files) {struct calls} : res nat * Files :=
  match calls, budget with
  | [], _ => (Ok budget, m)
  | c :: _, O => (Err errIO, interrupted partial c m)
  | c :: calls, S budget => runCalls budget partial calls (exec c m)
  end.

Definition opening (target temporary : bytes) : list call := [MkdirAll (Dir target); CreateTemp temporary].
Definition writing (target temporary content : bytes) : list call :=
  [Write temporary content; Chmod temporary; Sync temporary; Close temporary; Rename temporary target].

(** [os.CreateTemp(dir, ".upload-*")]: the star becomes a random number, and a
    separator is added to a directory that does not end in one. *)
Definition temporaryName (target random : bytes) : bytes :=
  let dir := Dir target in
  dir ++ (if bool_decide (last dir = Some slash) then [] else [slash]) ++ chars ".upload-" ++ random.

(** What fails during a [Put]: the call after [f_Budget] successful ones, a write
    then leaving [f_Partial] bytes, and perhaps the removal of the temporary
    file. *)
Record faults := MkFaults { f_Budget : nat; f_Partial : nat; f_Removes : bool }.

(** [Put]; when the function returns it tries to remove the temporary file, and
    ignores whether that worked. *)
Definition Put (f : faults) (random : bytes) (key : string) (content : bytes) : M Disk unit := λ d,
  match path (disk_root d) key with
  | Err e => (Err e, d)
  | Ok target =>
      let temporary := temporaryName target random in
      match runCalls (f_Budget f) (f_Partial f) (opening target temporary) (disk_files d) with
      | (Err e, m) => (Err e, withFiles d m)
      | (Ok budget, m) =>
          let '(r, m) := runCalls budget (f_Partial f) (writing target temporary content) m in
          ((_ ← r; Ok tt), withFiles d (if f_Removes f then unlink temporary m else m))
      end
  end.

(** What is on disk when the process dies during [Put], after [budget] calls. *)
Definition Crash (budget partial : nat) (random : bytes) (key : string) (content : bytes) (d : Disk) : Disk :=
  match path (disk_root d) key with
  | Err _ => d
  | Ok target =>
      let temporary := temporaryName target random in
      withFiles d (runCalls budget partial (opening target temporary ++ writing target temporary content)
                     (disk_files d)).2
  end.

(** ** Reading and deleting *)

Definition Open (d : Disk) (key : string) : res bytes :=
  target ← path (disk_root d) key;
  match fs_Names (disk_files d) !! target with
  | Some f => Ok (file_Content f)
  | None => Err ErrBlobNotFound
  end.

(** [os.Remove] may fail, which is an error unless the file is not there. *)
Definition Delete (removes : bool) (key : string) : M Disk unit := λ d,
  match path (disk_root d) key with
  | Err e => (Err e, d)
  | Ok target =>
      if removes then (Ok tt, withFiles d (unlink target (disk_files d)))
      else if isNone (fs_Names (disk_files d) !! target) then (Ok tt, d)
      else (Err errIO, d)
  end.

(** ** When the machine stops *)

(** What a name may turn out to be bound to. *)
Definition bindings (m : Files) (p : bytes) : list (option File) := (fs_Names m !! p) :: pastOf m p.

(** What may be read from a file. *)
Definition survives (f : File) (content : bytes) : Prop :=
  match file_Durable f with Some durable => content = durable | None => True end.

(** What a key may read after the machine stopped and started again. *)
Inductive afterStop (d : Disk) (key : string) : res bytes → Prop :=
  | stop_bad_key e : path (disk_root d) key = Err e → afterStop d key (Err e)
  | stop_unbound target :
      path (disk_root d) key = Ok target → None ∈ bindings (disk_files d) target →
      afterStop d key (Err ErrBlobNotFound)
  | stop_bound target f content :
      path (disk_root d) key = Ok target → Some f ∈ bindings (disk_files d) target → survives f content →
      afterStop d key (Ok content).

(** ** Examples *)

Example clean_dots : Clean (chars "a//b/./c/../d/") = chars "a/b/d".
Proof. reflexivity. Qed.
Example clean_up : Clean (chars "../../x") = chars "../../x" ∧ Clean (chars "/../x") = chars "/x".
Proof. split; reflexivity. Qed.
Example path_ok : path (chars "data/blobs/") "0123abcdef-thumb" = Ok (chars "data/blobs/01/23/0123abcdef-thumb").
Proof. vm_compute. reflexivity. Qed.
Example path_bad : path (chars "data") "../../etc/passwd" = Err ErrInvalidKey ∧ path (chars "data") "0123abc" = Err ErrInvalidKey.
Proof. split; vm_compute; reflexivity. Qed.

(** ** Cleaning: lemmas *)

Lemma splitBytes_cons sep l : ∃ p ps, splitBytes sep l = p :: ps.
Proof.
  induction l as [|c l (p & ps & IH)]; cbn [splitBytes]; [by do 2 eexists|].
  case_bool_decide; [by do 2 eexists|]. rewrite IH. by do 2 eexists.
Qed.

Lemma splitBytes_sep sep a l : splitBytes sep (a ++ sep :: l) = splitBytes sep a ++ splitBytes sep l.
Proof.
  induction a as [|c a IH]; cbn [splitBytes app]; [by rewrite bool_decide_eq_true_2|].
  case_bool_decide; [by rewrite IH|]. rewrite IH. by destruct (splitBytes_cons sep a) as (p & ps & ->).
Qed.

Lemma splitBytes_free sep l : Forall (λ p, sep ∉ p) (splitBytes sep l).
Proof.
  induction l as [|c l IH]; cbn [splitBytes]; [repeat constructor; by apply not_elem_of_nil|].
  case_bool_decide as Hc; [constructor; [by apply not_elem_of_nil|done]|].
  destruct IH as [|p ps Hp Hps]; constructor; try done; try (apply not_elem_of_cons; split; [done|]).
  - by apply not_elem_of_nil.
  - exact Hp.
Qed.

Lemma joinBytes_app sep ps qs :
  qs ≠ [] → joinBytes sep (ps ++ qs) = concat ((λ p, p ++ [sep]) <$> ps) ++ joinBytes sep qs.
Proof.
  intros Hq. induction ps as [|p ps IH]; [done|]. cbn [app fmap list_fmap concat]. rewrite <-app_assoc, <-app_assoc, <-IH.
  cbn. by destruct (ps ++ qs) eqn:E; [apply app_nil in E as [_ ->]|].
Qed.

(** A component that is kept where it stands. *)
Definition plain (c : bytes) : Prop := c ≠ [] ∧ c ≠ dot ∧ c ≠ dotdot ∧ slash ∉ c.

(** What the components kept look like, last first. *)
Fixpoint settled (rooted : bool) (kept : list bytes) : Prop :=
  match kept with
  | [] => True
  | c :: kept =>
      c ≠ [] ∧ c ≠ dot ∧ slash ∉ c ∧
      (c = dotdot → rooted = false ∧ (kept = [] ∨ head kept = Some dotdot)) ∧ settled rooted kept
  end.

Lemma cleanStep_plain r kept c : plain c → cleanStep r kept c = c :: kept.
Proof. intros (H1 & H2 & H3 & _). unfold cleanStep. by rewrite !bool_decide_eq_false_2. Qed.

Lemma cleanStep_settled r kept c : slash ∉ c → settled r kept → settled r (cleanStep r kept c).
Proof.
  intros Hc Hk. unfold cleanStep. destruct (bool_decide (c = [])) eqn:E1; [done|].
  destruct (bool_decide (c = dot)) eqn:E2; [done|]. cbn. apply bool_decide_eq_false in E1, E2.
  case_bool_decide as E3.
  - destruct kept as [|k kept].
    + destruct r; [done|]. cbn. split_and!; try done. intros _. split; [done|by left].
    + case_bool_decide as Ek; [|by destruct Hk as (_ & _ & _ & _ & ?)].
      pose proof Hk as (_ & _ & _ & Hd & _). destruct (Hd Ek) as [Hr _].
      refine (conj E1 (conj E2 (conj Hc (conj _ Hk)))). intros _. split; [done|]. right. by rewrite Ek.
  - cbn [settled]. by split_and!.
Qed.

Lemma cleanParts_settled r l : Forall (λ p, slash ∉ p) l → settled r (foldl (cleanStep r) [] l).
Proof.
  intros Hl. assert (∀ kept, settled r kept → settled r (foldl (cleanStep r) kept l)) as Hg; [|by apply Hg].
  induction Hl as [|c l Hc Hl IH]; intros kept Hk; [done|]. cbn [foldl]. apply IH. by apply cleanStep_settled.
Qed.

(** Cleaning settled components changes nothing. *)
Lemma foldl_settled r kept : settled r kept → foldl (cleanStep r) [] (reverse kept) = kept.
Proof.
  induction kept as [|c kept IH]; [done|]. intros (H1 & H2 & _ & H3 & Hk).
  rewrite reverse_cons, foldl_app, IH by done. cbn. unfold cleanStep.
  rewrite !(bool_decide_eq_false_2 (c = _)) by done. cbn. case_bool_decide as Hd; [|done].
  destruct (H3 Hd) as [-> [->|Hh]]; [by rewrite Hd|]. destruct kept as [|k kept]; [done|].
  injection Hh as ->. by rewrite Hd, bool_decide_eq_true_2.
Qed.

(** ** Paths: lemmas *)

Lemma spanBytes_app p l : (spanBytes p l).1 ++ (spanBytes p l).2 = l.
Proof. induction l as [|c l IH]; [done|]. cbn. destruct (p c); [|done]. destruct (spanBytes p l). cbn in *. by rewrite IH. Qed.

Lemma spanBytes_all p l : Forall (λ c, p c = true) (spanBytes p l).1.
Proof. induction l as [|c l IH]; [constructor|]. cbn. destruct (p c) eqn:E; [|constructor]. destruct (spanBytes p l). by constructor. Qed.

Lemma spanBytes_exact p l c r : Forall (λ c, p c = true) l → p c = false → spanBytes p (l ++ c :: r) = (l, c :: r).
Proof. intros Hl Hc. induction Hl as [|a l Ha Hl IH]; cbn; [by rewrite Hc|]. by rewrite Ha, IH. Qed.

(** A key starts with eight hexadecimal digits and has no separator. *)
Lemma keyPattern_shape k :
  keyPattern k = true → slash ∉ k ∧ ∃ hex rest, k = hex ++ rest ∧ (8 ≤ length hex)%nat ∧ Forall (λ c, isHex c = true) hex.
Proof.
  unfold keyPattern. pose proof (spanBytes_app isHex k) as Happ. pose proof (spanBytes_all isHex k) as Hall.
  destruct (spanBytes isHex k) as [hex rest]. cbn in Happ, Hall. intros [Hlen Hrest]%andb_prop.
  apply Nat.leb_le in Hlen. split; [|by exists hex, rest].
  assert (∀ p : ascii → bool, p slash = false → ∀ l, Forall (λ c, p c = true) l → slash ∉ l) as Hno.
  { intros p Hp l Hl Hin. pose proof (proj1 (Forall_forall _ _) Hl _ Hin) as Hx. cbn in Hx. congruence. }
  rewrite <-Happ. apply not_elem_of_app. split; [by apply (Hno isHex)|].
  destruct rest as [|c suffix]; [by apply not_elem_of_nil|].
  apply andb_prop in Hrest as [Hrest _]. apply andb_prop in Hrest as [Hrest _].
  apply andb_prop in Hrest as [->%bool_decide_eq_true Hs]. apply not_elem_of_cons. split; [done|].
  apply (Hno isSuffixByte); [done|].
  apply Forall_forall. intros x Hx%list_elem_of_In. exact (proj1 (forallb_forall _ _) Hs x Hx).
Qed.

(** The parts of the path of a key below the root. *)
Definition keyParts (k : bytes) : list bytes := [take fanOut k; take fanOut (drop fanOut k); k].

Lemma hex_plain l : l ≠ [] → Forall (λ c, isHex c = true) (take 1 l) → slash ∉ l → plain l.
Proof.
  intros Hne Hh Hs. destruct l as [|c l]; [done|]. apply Forall_cons in Hh as [Hc _]. unfold plain.
  split_and!; try done; by intros [= -> _].
Qed.

Lemma keyParts_plain k : keyPattern k = true → Forall plain (keyParts k).
Proof.
  intros (Hs & hex & rest & -> & Hlen & Hhex)%keyPattern_shape.
  do 8 (destruct hex as [|? hex]; [cbn in Hlen; lia|]). clear Hlen.
  repeat match goal with H : Forall _ (_ :: _) |- _ => apply Forall_cons in H as [? H] end.
  cbn [app] in *. repeat match goal with H : _ ∉ _ :: _ |- _ => apply not_elem_of_cons in H as [? H] end.
  unfold keyParts. cbn [take drop fanOut]. repeat constructor; try done;
    try (by intros [= -> _]); rewrite ?not_elem_of_cons; try (split_and!; try done); by apply not_elem_of_nil.
Qed.

(** What every path under a root starts with. *)
Definition base (root : bytes) : bytes :=
  (if isRooted root then [slash] else []) ++ concat ((λ p, p ++ [slash]) <$> cleanParts root).

Lemma foldl_plain r parts kept : Forall plain parts → foldl (cleanStep r) kept parts = reverse parts ++ kept.
Proof.
  intros Hp. revert kept. induction Hp as [|c parts Hc Hp IH]; intros kept; [done|]. cbn [foldl].
  by rewrite cleanStep_plain, IH, reverse_cons, <-app_assoc.
Qed.

Lemma Clean_below root parts :
  root ≠ [] → parts ≠ [] → Forall plain parts →
  Clean (root ++ slash :: joinBytes slash parts) = base root ++ joinBytes slash parts.
Proof.
  intros Hr Hp Hpl. unfold Clean. assert (isRooted (root ++ slash :: joinBytes slash parts) = isRooted root) as ->.
  { by destruct root. }
  assert (cleanParts (root ++ slash :: joinBytes slash parts) = cleanParts root ++ parts) as ->.
  { unfold cleanParts. assert (isRooted (root ++ slash :: joinBytes slash parts) = isRooted root) as -> by by destruct root.
    rewrite splitBytes_sep, splitBytes_join, foldl_app; [|done|].
    2:{ eapply Forall_impl; [exact Hpl|]. by intros c (_ & _ & _ & ?). }
    by rewrite foldl_plain, reverse_app, reverse_involutive. }
  rewrite joinBytes_app by done. unfold base. rewrite <-app_assoc.
  destruct ((if isRooted root then [slash] else []) ++ concat ((λ p, p ++ [slash]) <$> cleanParts root)
            ++ joinBytes slash parts) eqn:E; [exfalso|done].
  apply app_nil in E as [_ E]. apply app_nil in E as [_ E]. destruct Hpl as [|c parts (Hc & _) _]; [done|].
  destruct parts; cbn in E; [done|]. by apply app_nil in E as [? _].
Qed.

Lemma splitBytes_base sep ps x :
  Forall (λ p, sep ∉ p) ps → splitBytes sep (concat ((λ p, p ++ [sep]) <$> ps) ++ x) = ps ++ splitBytes sep x.
Proof.
  induction 1 as [|p ps Hp Hps IH]; [done|]. cbn [fmap list_fmap concat app]. rewrite <-!app_assoc. cbn [app].
  by rewrite splitBytes_app, IH.
Qed.

Lemma root_settled root : settled (isRooted root) (reverse (cleanParts root)).
Proof. unfold cleanParts. rewrite reverse_involutive. apply cleanParts_settled, splitBytes_free. Qed.

Lemma settled_free r kept : settled r kept → Forall (λ p, p ≠ [] ∧ slash ∉ p) kept.
Proof. induction kept as [|c kept IH]; [constructor|]. intros (H1 & _ & H2 & _ & H3). constructor; auto. Qed.

Lemma cleanParts_free root : Forall (λ p, p ≠ [] ∧ slash ∉ p) (cleanParts root).
Proof. rewrite <-(reverse_involutive (cleanParts root)). apply Forall_reverse. eapply settled_free, root_settled. Qed.

(** The parts of a path below a root are the root's and its own. *)
Lemma base_parts root parts tail :
  parts ≠ [] → Forall plain parts → tail = [] ∨ tail = [slash] →
  let p := base root ++ joinBytes slash parts ++ tail in
  isRooted p = isRooted root ∧ cleanParts p = cleanParts root ++ parts.
Proof.
  intros Hp Hpl Htail p. subst p. set (r := isRooted root).
  assert (∃ c l, joinBytes slash parts = c :: l ∧ c ≠ slash) as (c & l & Hj & Hc).
  { destruct Hpl as [|p parts (H1 & _ & _ & H4) _]; [done|]. destruct p as [|c p]; [done|].
    apply not_elem_of_cons in H4 as [H4 _]. destruct parts; cbn; do 2 eexists; split; try done; congruence. }
  assert (isRooted (base root ++ joinBytes slash parts ++ tail) = r) as Hroot.
  { unfold base, isRooted, r. destruct (isRooted root) eqn:E; [unfold isRooted in E; by rewrite E|].
    unfold isRooted in E. rewrite E. cbn [app]. pose proof (cleanParts_free root) as Hf.
    destruct (cleanParts root) as [|p ps]; cbn; [rewrite Hj; cbn; by rewrite bool_decide_eq_false_2 by congruence|].
    apply Forall_cons in Hf as [[Hp1 Hp2] _]. destruct p as [|a p]; [done|]. cbn.
    apply not_elem_of_cons in Hp2 as [Hp2 _]. by rewrite bool_decide_eq_false_2 by congruence. }
  assert (splitBytes slash (joinBytes slash parts ++ tail) = parts ++ (if isNil tail then [] else [[]])) as Hsplit.
  { assert (Forall (λ p, slash ∉ p) parts) as Hfree by (eapply Forall_impl; [exact Hpl|]; by intros x (_ & _ & _ & ?)).
    destruct Htail as [-> | ->]; [by rewrite !app_nil_r, splitBytes_join|]. by rewrite splitBytes_sep, splitBytes_join. }
  assert (cleanParts (base root ++ joinBytes slash parts ++ tail) = cleanParts root ++ parts) as Hparts.
  { unfold cleanParts at 1. rewrite Hroot. unfold base. rewrite <-app_assoc.
    assert (∀ x, foldl (cleanStep r) [] (splitBytes slash ((if isRooted root then [slash] else []) ++ x)) =
                 foldl (cleanStep r) [] (splitBytes slash x)) as -> by (intros x; by destruct (isRooted root)).
    rewrite splitBytes_base, Hsplit, !foldl_app.
    2:{ eapply Forall_impl; [apply cleanParts_free|]. by intros x [_ ?]. }
    rewrite <-(reverse_involutive (cleanParts root)) at 1. unfold r at 3. rewrite foldl_settled by apply root_settled.
    assert (∀ kept, foldl (cleanStep r) kept (if isNil tail then [] else [[]]) = kept) as ->
      by (intros kept; by destruct tail).
    rewrite foldl_plain by done.
    by rewrite reverse_app, !reverse_involutive. }
  by split.
Qed.

Lemma joinBytes_nonempty sep parts : parts ≠ [] → Forall plain parts → joinBytes sep parts ≠ [].
Proof. intros Hp Hpl. destruct Hpl as [|p ps [H1 _] _]; [done|]. destruct p; [done|]. by destruct ps. Qed.

(** A path below a cleaned root is clean, and a separator at its end goes. *)
Lemma Clean_base root parts tail :
  parts ≠ [] → Forall plain parts → tail = [] ∨ tail = [slash] →
  Clean (base root ++ joinBytes slash parts ++ tail) = base root ++ joinBytes slash parts.
Proof.
  intros Hp Hpl Htail. destruct (base_parts root parts tail Hp Hpl Htail) as [Hroot Hparts]. cbv zeta in *.
  unfold Clean. rewrite Hroot, Hparts, joinBytes_app by done. unfold base. rewrite <-app_assoc.
  pose proof (joinBytes_nonempty slash parts Hp Hpl) as Hne.
  destruct ((if isRooted root then [slash] else []) ++ concat ((λ p, p ++ [slash]) <$> cleanParts root) ++
            joinBytes slash parts) eqn:E; [|done].
  exfalso. apply app_nil in E as [_ E]. by apply app_nil in E as [_ E].
Qed.

Lemma path_shape root key p :
  path root key = Ok p ↔ keyPattern (chars key) = true ∧ p = base root ++ joinBytes slash (keyParts (chars key)).
Proof.
  unfold path. set (k := chars key). assert (keyPattern k = true → (length k <? minimumKeySize)%nat = false) as Hlen.
  { intros (_ & hex & rest & -> & Hl & _)%keyPattern_shape. apply Nat.ltb_ge. rewrite length_app. unfold minimumKeySize. lia. }
  destruct (keyPattern k) eqn:Ek; [|rewrite orb_true_r; by split; [|intros [? _]]].
  rewrite Hlen by done. cbn [orb negb]. pose proof (keyParts_plain k Ek) as Hpl.
  assert (joinPath [root; take fanOut k; take fanOut (drop fanOut k); k] = base root ++ joinBytes slash (keyParts k)) as ->.
  2:{ split; [by intros [= <-]|]. by intros [_ ->]. }
  unfold joinPath. assert (filter (λ e, e ≠ []) (keyParts k) = keyParts k) as Hf.
  { apply filter_id_on. intros x Hx. by apply (proj1 (Forall_forall _ _) Hpl). }
  destruct (decide (root = [])) as [->|Hr].
  - rewrite filter_cons_False by (by intros []). fold (keyParts k). rewrite Hf. unfold keyParts at 1.
    pose proof (Clean_base [] (keyParts k) []) as Hc. rewrite app_nil_r in Hc. cbn [base] in Hc.
    apply Hc; [done|done|by left].
  - rewrite filter_cons_True by done. fold (keyParts k). rewrite Hf. unfold keyParts at 1.
    rewrite <-(Clean_below root (keyParts k)) by done. done.
Qed.

Lemma path_inj root k1 k2 p : path root k1 = Ok p → path root k2 = Ok p → k1 = k2.
Proof.
  intros [Hk1 ->]%path_shape [Hk2 He]%path_shape. apply app_inv_head in He.
  pose proof (keyParts_plain _ Hk1) as H1. pose proof (keyParts_plain _ Hk2) as H2.
  apply (f_equal (splitBytes slash)) in He. rewrite !splitBytes_join in He.
  - injection He as _ _ He. by apply chars_inj.
  - done.
  - eapply Forall_impl; [exact H2|]. by intros x (_ & _ & _ & ?).
  - done.
  - eapply Forall_impl; [exact H1|]. by intros x (_ & _ & _ & ?).
Qed.

Lemma keyParts_dir k : keyPattern k = true → Forall plain [take fanOut k; take fanOut (drop fanOut k)].
Proof. intros Hk. pose proof (keyParts_plain k Hk) as Hp. unfold keyParts in Hp.
  apply Forall_cons in Hp as [H1 [H2 _]%Forall_cons]. apply Forall_cons; split; [done|].
  apply Forall_cons; split; [done|constructor].
Qed.

Lemma joinBytes_snoc sep p q k : joinBytes sep [p; q; k] = joinBytes sep [p; q] ++ sep :: k.
Proof. cbn. by rewrite <-app_assoc. Qed.

Lemma Dir_path root key p :
  path root key = Ok p →
  Dir p = base root ++ joinBytes slash [take fanOut (chars key); take fanOut (drop fanOut (chars key))].
Proof.
  intros [Hk ->]%path_shape. set (k := chars key) in *. unfold Dir, keyParts. rewrite joinBytes_snoc.
  set (ab := joinBytes slash [take fanOut k; take fanOut (drop fanOut k)]).
  replace (reverse (base root ++ ab ++ slash :: k)) with (reverse k ++ slash :: reverse (base root ++ ab)).
  2:{ rewrite !reverse_app, reverse_cons, <-!app_assoc. done. }
  destruct (keyPattern_shape k Hk) as [Hs _]. rewrite spanBytes_exact.
  - cbn [snd]. rewrite reverse_cons, reverse_involutive, <-app_assoc. apply Clean_base; [done| |by right].
    by apply keyParts_dir.
  - apply Forall_reverse, Forall_forall. intros c Hc. rewrite bool_decide_eq_false_2; [done|]. by intros ->.
  - by rewrite bool_decide_eq_true_2.
Qed.

(** The temporary file lies beside the target. *)
Lemma temporaryName_shape root key p random :
  path root key = Ok p →
  temporaryName p random =
    base root ++ joinBytes slash [take fanOut (chars key); take fanOut (drop fanOut (chars key)); chars ".upload-" ++ random].
Proof.
  intros Hp. unfold temporaryName. rewrite (Dir_path _ _ _ Hp). apply path_shape in Hp as [Hk _].
  pose proof (keyParts_dir _ Hk) as Hpl. apply Forall_cons in Hpl as [_ Hpl].
  rewrite joinBytes_snoc. set (b := take fanOut (drop fanOut (chars key))).
  assert (plain b) as (Hb & _ & _ & Hbs) by (by apply Forall_cons in Hpl as [? _]).
  rewrite bool_decide_eq_false_2; [by rewrite <-!app_assoc|].
  clearbody b. intros Hl. apply Hbs. cbn [joinBytes] in Hl. rewrite !last_app, last_cons in Hl.
  destruct (last b) as [c|] eqn:El; [|by apply last_None in El]. injection Hl as ->.
  by apply last_Some_elem_of.
Qed.

(** It is no key's file. *)
Lemma temporaryName_no_path root key p random key' p' :
  path root key = Ok p → slash ∉ random → path root key' = Ok p' → temporaryName p random ≠ p'.
Proof.
  intros Hp Hr Hp' He. rewrite (temporaryName_shape _ _ _ random Hp) in He. apply path_shape in Hp as [Hk _].
  apply path_shape in Hp' as [Hk' ->]. apply app_inv_head in He. apply (f_equal (splitBytes slash)) in He.
  pose proof (keyParts_dir _ Hk) as Hd. pose proof (keyParts_plain _ Hk') as Hp.
  rewrite !splitBytes_join in He; try done.
  - injection He as _ _ He. apply keyPattern_shape in Hk' as (_ & hex & rest & Hh & Hlen & Hall).
    rewrite Hh in He. destruct hex as [|c hex]; [cbn in Hlen; lia|]. injection He as <- _.
    by apply Forall_cons in Hall as [? _].
  - eapply Forall_impl; [exact Hp|]. by intros x (_ & _ & _ & ?).
  - inversion Hd as [|? ? (_ & _ & _ & H1) Hd']; inversion Hd' as [|? ? (_ & _ & _ & H2) _]; subst.
    repeat constructor; try done. intros [Hin|Hin]%elem_of_app; [|done].
    apply list_elem_of_In in Hin. cbn in Hin. intuition discriminate.
Qed.

(** ** Writing: lemmas *)

Lemma names_rebind p b m q :
  fs_Names (rebind p b m) !! q = if decide (q = p) then b else fs_Names m !! q.
Proof. cbn. case_decide; [subst; by rewrite lookup_partial_alter_eq|by rewrite lookup_partial_alter_ne]. Qed.

Lemma past_rebind p b m q :
  pastOf (rebind p b m) q = if decide (q = p) then (fs_Names m !! p) :: pastOf m p else pastOf m q.
Proof. unfold pastOf at 1. cbn. case_decide; [subst; by rewrite lookup_insert_eq|by rewrite lookup_insert_ne]. Qed.

Lemma names_modify p f m q :
  fs_Names (modify p f m) !! q = if decide (q = p) then f <$> fs_Names m !! q else fs_Names m !! q.
Proof. cbn. case_decide; [subst; by rewrite lookup_alter_eq|by rewrite lookup_alter_ne]. Qed.

Lemma past_modify p f m q : pastOf (modify p f m) q = pastOf m q.
Proof. done. Qed.

(** All names but one are as they were, now and after a stop. *)
Definition sameBut (tmp : bytes) (m m' : Files) : Prop :=
  ∀ p, p ≠ tmp → fs_Names m' !! p = fs_Names m !! p ∧ pastOf m' p = pastOf m p.

(** The target has become a synced file of the content, and that is all. *)
Definition published (tmp target content : bytes) (m m' : Files) : Prop :=
  fs_Names m' !! target = Some (MkFile content (Some content)) ∧
  pastOf m' target = (fs_Names m !! target) :: pastOf m target ∧
  fs_Names m' !! tmp = None ∧
  ∀ p, p ≠ tmp → p ≠ target → fs_Names m' !! p = fs_Names m !! p ∧ pastOf m' p = pastOf m p.

Lemma sameBut_rebind tmp b m : sameBut tmp m (rebind tmp b m).
Proof. intros p Hp. by rewrite names_rebind, past_rebind, !decide_False. Qed.

Lemma sameBut_modify tmp f m m' : sameBut tmp m m' → sameBut tmp m (modify tmp f m').
Proof. intros Hs p Hp. rewrite names_modify, past_modify, decide_False by done. by apply Hs. Qed.

Lemma sameBut_unlink tmp m m' : sameBut tmp m m' → sameBut tmp m (unlink tmp m').
Proof.
  intros Hs. unfold unlink. destruct (fs_Names m' !! tmp); [|done].
  intros p Hp. rewrite names_rebind, past_rebind, !decide_False by done. by apply Hs.
Qed.

Lemma published_unlink tmp target content m m' :
  published tmp target content m m' → unlink tmp m' = m'.
Proof. intros (_ & _ & Hno & _). unfold unlink. by rewrite Hno. Qed.

Lemma published_rename tmp target content m m' :
  target ≠ tmp → sameBut tmp m m' → fs_Names m' !! tmp = Some (MkFile content (Some content)) →
  published tmp target content m (exec (Rename tmp target) m').
Proof.
  intros Hne Hs Ht. destruct (Hs target Hne) as [Hn Hp]. cbn [exec]. rewrite Ht. unfold published.
  rewrite !names_rebind, !past_rebind, ?names_rebind, ?past_rebind.
  rewrite !decide_True, !(decide_False (P := target = tmp)), !(decide_False (P := tmp = target)) by done.
  rewrite Hn, Hp. split; [done|]. split; [done|]. split; [by rewrite decide_True|]. intros p Hp1 Hp2.
  rewrite !names_rebind, !past_rebind, ?names_rebind, ?past_rebind, !decide_False by done. by apply Hs.
Qed.

(** What the calls have done when they stop: nothing outside the temporary file
    before the last one, and the publication after it. *)
Lemma writing_calls (budget partial : nat) (target tmp content : bytes) (m m0 : Files) r m' :
  target ≠ tmp → sameBut tmp m m0 → is_Some (fs_Names m0 !! tmp) →
  runCalls budget partial (writing target tmp content) m0 = (r, m') →
  (∃ left, r = Ok left ∧ published tmp target content m m') ∨ (r = Err errIO ∧ sameBut tmp m m').
Proof.
  intros Hne Hs [f0 Hf]. unfold writing.
  do 5 (destruct budget as [|budget]; cbn [runCalls exec interrupted];
    [intros [= <- <-]; right; split; [done|by repeat apply sameBut_modify]|]).
  intros [= <- <-]. left. exists budget. split; [done|].
  change (published tmp target content m
            (exec (Rename tmp target) (modify tmp synced (modify tmp (written content) m0)))).
  apply published_rename; [done|by repeat apply sameBut_modify|].
  by rewrite !names_modify, !decide_True, Hf.
Qed.

Lemma opening_calls (budget partial : nat) (target tmp : bytes) (m : Files) r m' :
  runCalls budget partial (opening target tmp) m = (r, m') →
  (∃ left, r = Ok left ∧ budget = S (S left) ∧ m' = rebind tmp (Some (MkFile [] None)) m) ∨
  (r = Err errIO ∧ m' = m).
Proof.
  unfold opening. destruct budget as [|[|budget]]; cbn; intros [= <- <-]; [by right..|]. left. by exists budget.
Qed.

Lemma opened tmp m : is_Some (fs_Names (rebind tmp (Some (MkFile [] None)) m) !! tmp).
Proof. by rewrite names_rebind, decide_True. Qed.

Lemma Put_cases (f : faults) (random : bytes) key (content : bytes) d target r d' :
  path (disk_root d) key = Ok target → slash ∉ random → Put f random key content d = (r, d') →
  disk_root d' = disk_root d ∧
  ((r = Ok tt ∧ published (temporaryName target random) target content (disk_files d) (disk_files d')) ∨
   (∃ e, r = Err e) ∧ sameBut (temporaryName target random) (disk_files d) (disk_files d')).
Proof.
  intros Hp Hr. pose proof (temporaryName_no_path _ _ _ random _ _ Hp Hr Hp) as Hne. unfold Put. rewrite Hp.
  destruct (runCalls (f_Budget f) _ (opening _ _) _) as [[left|e] m] eqn:Eo.
  2:{ intros [= <- <-]. apply opening_calls in Eo as [(? & [=] & _)|[_ ->]]. split; [done|]. right. by split; [eexists|]. }
  apply opening_calls in Eo as [(left' & [= <-] & _ & ->)|[[=] _]].
  destruct (runCalls left _ (writing _ _ _) _) as [out m'] eqn:Ew.
  eapply (writing_calls _ _ _ _ _ (disk_files d)) in Ew as [(rest & -> & Hpub)|(-> & Hs)];
    [| |done|apply sameBut_rebind|apply opened]; intros [= <- <-]; (split; [done|]); [left|right].
  - split; [done|]. cbn. destruct (f_Removes f); [|done]. by rewrite (published_unlink _ _ _ _ _ Hpub).
  - split; [by eexists|]. cbn. destruct (f_Removes f); [by apply sameBut_unlink|done].
Qed.

(** What is on disk at any moment of a [Put]: the old files and perhaps the
    temporary one, or the new blob beside them. *)
Lemma Crash_cases (budget partial : nat) (random : bytes) key (content : bytes) d target :
  path (disk_root d) key = Ok target → slash ∉ random →
  let c := Crash budget partial random key content d in
  disk_root c = disk_root d ∧
  (sameBut (temporaryName target random) (disk_files d) (disk_files c) ∨
   published (temporaryName target random) target content (disk_files d) (disk_files c)).
Proof.
  intros Hp Hr c. pose proof (temporaryName_no_path _ _ _ random _ _ Hp Hr Hp) as Hne.
  subst c. unfold Crash. rewrite Hp. split; [done|]. set (tmp := temporaryName target random) in *.
  destruct budget as [|[|budget]]; [by left..|]. cbn [opening app runCalls exec].
  destruct (runCalls budget partial (writing target tmp content) _) as [out m'] eqn:Ew.
  eapply (writing_calls _ _ _ _ _ (disk_files d)) in Ew as [(rest & _ & Hpub)|(_ & Hs)];
    [by right|by left|done|apply sameBut_rebind|apply opened].
Qed.

Lemma Open_sameBut root tmp m m' key :
  (∀ p, path root key = Ok p → tmp ≠ p) → sameBut tmp m m' → Open (MkDisk root m') key = Open (MkDisk root m) key.
Proof.
  intros Hne Hs. unfold Open. cbn. destruct (path root key) as [p|]; cbn; [|done].
  by rewrite (proj1 (Hs p (not_eq_sym (Hne p eq_refl)))).
Qed.

Lemma Open_published root tmp target m m' key content key' :
  path root key = Ok target → (∀ p, path root key' = Ok p → tmp ≠ p) → published tmp target content m m' →
  Open (MkDisk root m') key' = if decide (key' = key) then Ok content else Open (MkDisk root m) key'.
Proof.
  intros Hp Hne (Hn & _ & _ & Hs). unfold Open. cbn. case_decide as Hk.
  - subst. rewrite Hp. cbn. by rewrite Hn.
  - destruct (path root key') as [p'|] eqn:Hp'; cbn; [|done].
    destruct (Hs p') as [-> _]; [by apply not_eq_sym, Hne| |done].
    intros ->. by apply Hk, (path_inj root _ _ target).
Qed.

(** The temporary name of a write is new, as [os.CreateTemp] guarantees. *)
Definition freshName (d : Disk) (key : string) (random : bytes) : Prop :=
  slash ∉ random ∧
  ∀ target, path (disk_root d) key = Ok target → fs_Names (disk_files d) !! temporaryName target random = None.

Lemma Put_outcome (f : faults) (random : bytes) key (content : bytes) d r d' :
  freshName d key random → keyPattern (chars key) = true → Put f random key content d = (r, d') →
  (r = Ok tt ∧ (∀ k, Open d' k = if decide (k = key) then Ok content else Open d k) ∧
   ∀ key2 random2, freshName d key2 random2 → freshName d' key2 random2) ∨
  ((∃ e, r = Err e) ∧ ∀ k, Open d' k = Open d k).
Proof.
  intros [Hr Hfresh] Hk Hput.
  assert (∃ target, path (disk_root d) key = Ok target) as [target Hp].
  { eexists. apply path_shape. by split. }
  assert (∀ k p, path (disk_root d) k = Ok p → temporaryName target random ≠ p) as Hno.
  { intros k p Hp'. by eapply temporaryName_no_path. }
  destruct (Put_cases _ _ _ _ _ _ _ _ Hp Hr Hput) as [Hroot [[-> Hpub]|[He Hs]]];
    destruct d as [root m], d' as [root' m']; cbn in Hroot, Hno, Hp |- *; subst root'.
  - left. split_and!; [done|intros k; exact (Open_published root _ target m m' key content k Hp (Hno k) Hpub)|]. intros key2 random2 [Hr2 Hf2]. split; [done|].
    cbn in Hf2 |- *. intros target2 Hp2. destruct Hpub as (_ & _ & Hno' & Hrest).
    destruct (decide (temporaryName target2 random2 = temporaryName target random)) as [->|Hne]; [done|].
    destruct (Hrest _ Hne (temporaryName_no_path _ _ _ random2 _ _ Hp2 Hr2 Hp)) as [Hsame _].
    cbn in Hsame. rewrite Hsame. by apply Hf2.
  - right. split; [done|]. intros k. exact (Open_sameBut root _ m m' k (Hno k) Hs).
Qed.

Lemma Crash_outcome (budget partial : nat) (random : bytes) key (content : bytes) d k :
  slash ∉ random → let c := Crash budget partial random key content d in
  Open c k = Open d k ∨ (k = key ∧ Open c key = Ok content).
Proof.
  intros Hr c. subst c. destruct (path (disk_root d) key) as [target|e] eqn:Hp.
  2:{ left. unfold Crash. by rewrite Hp. }
  assert (∀ k p, path (disk_root d) k = Ok p → temporaryName target random ≠ p) as Hno.
  { intros k' p Hp'. by eapply temporaryName_no_path. }
  destruct (Crash_cases budget partial random key content d target Hp Hr) as [Hroot [Hs|Hpub]];
    destruct (Crash budget partial random key content d) as [root' m'], d as [root m]; cbn in Hroot, Hno, Hp |- *;
    subst root'.
  - left. exact (Open_sameBut root _ m m' k (Hno k) Hs).
  - rewrite (Open_published root _ target m m' key content k Hp (Hno k) Hpub).
    case_decide; [right; split; [done|]|by left].
    rewrite (Open_published root _ target m m' key content key Hp (Hno key) Hpub). by apply decide_True.
Qed.

(** ** Stops of the machine: lemmas *)

Lemma afterStop_sameBut root tmp m m' key v :
  (∀ p, path root key = Ok p → tmp ≠ p) → sameBut tmp m m' →
  afterStop (MkDisk root m') key v → afterStop (MkDisk root m) key v.
Proof.
  intros Hne Hs. destruct 1 as [e He|p Hp Hin|p f content Hp Hin Hf]; [by apply stop_bad_key|..]; cbn in *;
    unfold bindings in Hin; destruct (Hs p (not_eq_sym (Hne p Hp))) as [Hn Hpast]; rewrite Hn, Hpast in Hin.
  - by eapply stop_unbound.
  - by eapply stop_bound.
Qed.

Lemma afterStop_published root tmp target m m' key content key' v :
  path root key = Ok target → (∀ p, path root key' = Ok p → tmp ≠ p) → published tmp target content m m' →
  afterStop (MkDisk root m') key' v →
  afterStop (MkDisk root m) key' v ∨ (key' = key ∧ v = Ok content).
Proof.
  intros Hp Hne (Hn & Hpast & _ & Hs). destruct 1 as [e He|p Hp' Hin|p f c Hp' Hin Hf]; [left; by apply stop_bad_key|..];
    cbn in *; unfold bindings in Hin; (destruct (decide (p = target)) as [->|Hpt];
    [rewrite Hn, Hpast in Hin; apply elem_of_cons in Hin as [Heq|Hin]
    |destruct (Hs p (not_eq_sym (Hne p Hp')) Hpt) as [Hn' Hpast']; rewrite Hn', Hpast' in Hin]).
  - done.
  - left. by eapply stop_unbound.
  - left. by eapply stop_unbound.
  - injection Heq as ->. cbn in Hf. right. split; [by eapply path_inj|by rewrite Hf].
  - left. by eapply stop_bound.
  - left. by eapply stop_bound.
Qed.

(** ** Theorems *)

(** C37: a blob is written whole or not at all.  Whatever call of [Put] fails, the
    function either returns success and the key reads back exactly the content, or
    returns an error and every key reads what it read before, even when the
    temporary file could not be removed; with no failing call a valid key
    succeeds; no other key is touched.  If the process dies at any moment, half
    way through the write included, every key reads what it read before, except
    that the new key may already read the whole new content.  And if the machine
    stops, at any moment of the call or after it, where a file that was not synced
    may hold anything and any change of a directory may be lost, every key reads
    something it could have read had the machine stopped before the call, or it is
    the new key and reads the whole new content: never part of it. *)
Theorem blob_put_atomic : ∀ (f : faults) (random : bytes) key (content : bytes) d r d',
  freshName d key random → Put f random key content d = (r, d') →
  (match r with Ok _ => Open d' key = Ok content | Err _ => ∀ key', Open d' key' = Open d key' end) ∧
  (∀ key', key' ≠ key → Open d' key' = Open d key') ∧
  (keyPattern (chars key) = true → (7 ≤ f_Budget f)%nat → r = Ok tt) ∧
  (∀ key' v, afterStop d' key' v → afterStop d key' v ∨ (r = Ok tt ∧ key' = key ∧ v = Ok content)) ∧
  ∀ b p key', let c := Crash b p random key content d in
    (Open c key' = Open d key' ∨ (key' = key ∧ Open c key = Ok content)) ∧
    ∀ v, afterStop c key' v → afterStop d key' v ∨ (key' = key ∧ v = Ok content).
Proof.
  intros f random key content d r d' Hf Hput. pose proof Hf as [Hr _].
  destruct (path (disk_root d) key) as [target|e] eqn:Hp.
  2:{ unfold Put in Hput. unfold Crash. rewrite Hp in *. injection Hput as <- <-.
      split_and!; [done|done| |by left|by intros; split; [left|left]].
      intros Hk. assert (∃ p, path (disk_root d) key = Ok p) as [? ?] by (eexists; by apply path_shape). congruence. }
  assert (keyPattern (chars key) = true) as Hk by (by apply path_shape in Hp as [? _]).
  assert (∀ k p, path (disk_root d) k = Ok p → temporaryName target random ≠ p) as Hno.
  { intros k p Hp'. by eapply temporaryName_no_path. }
  split_and!.
  - destruct (Put_outcome _ _ _ _ _ _ _ Hf Hk Hput) as [(-> & Ho & _)|[[e ->] Ho]]; [|done].
    by rewrite Ho, decide_True.
  - intros key' Hne. destruct (Put_outcome _ _ _ _ _ _ _ Hf Hk Hput) as [(_ & Ho & _)|[_ Ho]]; [|done].
    by rewrite Ho, decide_False.
  - intros _ Hb. destruct f as [budget partial removes]. unfold Put in Hput. rewrite Hp in Hput. cbn [f_Budget] in *.
    do 7 (destruct budget as [|budget]; [lia|]). cbn in Hput. by injection Hput as <- _.
  - intros key' v. destruct (Put_cases _ _ _ _ _ _ _ _ Hp Hr Hput) as [Hroot [[-> Hpub]|[_ Hs]]];
      destruct d as [root m], d' as [root' m']; cbn in Hroot, Hno, Hp; subst root'.
    + intros Hv. destruct (afterStop_published root _ target m m' key content key' v Hp (Hno key') Hpub Hv); auto.
    + intros Hv. left. eapply afterStop_sameBut; [apply Hno|exact Hs|exact Hv].
  - intros b p key' c. split; [by apply Crash_outcome|]. intros v. subst c.
    destruct (Crash_cases b p random key content d target Hp Hr) as [Hroot [Hs|Hpub]];
      destruct (Crash b p random key content d) as [root' m'], d as [root m]; cbn in Hroot, Hno, Hp; subst root'.
    + intros Hv. left. eapply afterStop_sameBut; [apply Hno|exact Hs|exact Hv].
    + intros Hv. exact (afterStop_published root _ target m m' key content key' v Hp (Hno key') Hpub Hv).
Qed.

(** What syncing only the file leaves open: the rename that published a blob is
    not certain to be on the medium when [Put] returns, so a key that could be
    missing before may still be missing after the machine stops. *)
Lemma published_may_be_lost (f : faults) (random : bytes) key (content : bytes) d d' :
  freshName d key random → Put f random key content d = (Ok tt, d') →
  afterStop d key (Err ErrBlobNotFound) → afterStop d' key (Err ErrBlobNotFound).
Proof.
  intros [Hr _] Hput Hv. inversion Hv as [e He|target Hp Hin|]; subst.
  { apply stop_bad_key. unfold Put in Hput. by rewrite He in Hput. }
  destruct (Put_cases _ _ _ _ _ _ _ _ Hp Hr Hput) as [Hroot [[_ (_ & Hpast & _)]|[[e [=]] _]]].
  apply (stop_unbound _ _ target); [by rewrite Hroot|]. unfold bindings. rewrite Hpast. by right.
Qed.

(** No key leaves the root.  A path exists exactly for the keys of the pattern;
    it is a cleaned path whose components are those of the cleaned root followed by
    the two fan-out directories and the key itself, none of them a parent
    reference; and two keys never share a file. *)
Theorem blob_paths_confined : ∀ root key,
  (is_Ok (path root key) ↔ keyPattern (chars key) = true) ∧
  ∀ p, path root key = Ok p →
    Clean p = p ∧ cleanParts p = cleanParts root ++ keyParts (chars key) ∧
    Forall plain (keyParts (chars key)) ∧
    ∀ key', path root key' = Ok p → key' = key.
Proof.
  intros root key. split.
  - split; [by intros [p [Hk _]%path_shape]|]. intros Hk. eexists. by apply path_shape.
  - intros p Hp. pose proof Hp as [Hk ->]%path_shape. pose proof (keyParts_plain _ Hk) as Hpl.
    pose proof (Clean_base root (keyParts (chars key)) []) as Hc.
    pose proof (base_parts root (keyParts (chars key)) []) as Hb. cbv zeta in Hb. rewrite app_nil_r in Hc, Hb.
    split_and!; [apply Hc; [done|done|by left]|exact (proj2 (Hb ltac:(done) Hpl (or_introl eq_refl)))|done|].
    intros key' Hp'. by eapply path_inj.
Qed.
