(* ===== verification/AssetImage.v ===== *)
(** * Uploaded images (internal/core/asset/image.go)

    An upload is decoded and encoded again from pixels.  The decoders and encoders
    of the image formats are parameters; the limits, the sniffing of the format,
    the thumbnail and the addressing by hash are modelled. *)

From S2P Require Import Prelude GoStrings Sha256 Blob.
From Stdlib Require Import SpecFloat Ascii.

Local Open Scope Z_scope.

(** ** Images and their codecs *)

(** A pixel as [RGBA] gives it: premultiplied, 16 bits a channel. *)
Record Pixel := MkPixel { px_R : Z; px_G : Z; px_B : Z; px_A : Z }.

Record Image := MkImage { img_MinX : Z; img_MinY : Z; img_Dx : Z; img_Dy : Z; img_At : Z → Z → Pixel }.

Class ImageCodecs := {
  DecodeConfig : bytes → res (Z * Z);
  DecodeImage : bytes → res Image;
  EncodePNG : Image → res bytes;
  EncodeJPEG : Z → Image → res bytes
}.

Definition MimePNG : string := "image/png".
Definition MimeJPEG : string := "image/jpeg".
Definition jpegQuality : Z := 88.
Definition DefaultMaxBytes : Z := 32 * 2 ^ 20.
Definition DefaultMaxPixels : Z := 8192 * 8192.
Definition DefaultThumbnail : Z := 256.

Record Limits := MkLimits { MaxBytes : Z; MaxPixels : Z; Thumbnail : Z }.

Definition withDefaults (l : Limits) : Limits :=
  MkLimits (if MaxBytes l <=? 0 then DefaultMaxBytes else MaxBytes l)
    (if MaxPixels l <=? 0 then DefaultMaxPixels else MaxPixels l)
    (if Thumbnail l <=? 0 then DefaultThumbnail else Thumbnail l).

Record Variant := MkVariant {
  v_Content : bytes; v_Key : string; v_Mime : string; v_Bytes : Z; v_Width : Z; v_Height : Z
}.

Record Normalized := MkNormalized { n_Variant : Variant; n_SHA256 : string; n_Thumbnail : Variant }.

(** ** Sniffing *)

Definition magicPNG : bytes := ascii_of_nat <$> [137; 80; 78; 71; 13; 10; 26; 10]%nat.
Definition magicJPEG : bytes := ascii_of_nat <$> [255; 216; 255]%nat.

Definition hasPrefix (l prefix : bytes) : bool := bool_decide (take (length prefix) l = prefix).

Definition sniff (raw : bytes) : res string :=
  if hasPrefix raw magicPNG then Ok MimePNG
  else if hasPrefix raw magicJPEG then Ok MimeJPEG
  else if hasPrefix raw (chars "GIF87a") || hasPrefix raw (chars "GIF89a") then Ok MimePNG
  else Err ErrUnsupportedFormat.

(** ** The thumbnail *)

(** [int(f)] of a finite float64 that fits: towards zero. *)
Definition truncToInt (f : float64) : Z :=
  match f with
  | S754_finite s m e =>
      let a := if 0 <=? e then Z.pos m * 2 ^ e else Z.pos m / 2 ^ (- e) in if s then - a else a
  | _ => 0
  end.

Definition fdiv : float64 → float64 → float64 := SFdiv prec64 emax64.

Definition wrapU64 (z : Z) : Z := z `mod` 2 ^ 64.

(** The integers from [lo] up to, not including, [hi]. *)
Definition range (lo hi : Z) : list Z := (λ i, lo + Z.of_nat i) <$> seq 0 (Z.to_nat (hi - lo)).

(** The pixels the loops of [average] visit. *)
Definition boxPixels (source : Image) (left right top bottom : Z) : list Pixel :=
  y ← range top bottom; x ← range left right; [img_At source x y].

Definition sumChannel (channel : Pixel → Z) (pixels : list Pixel) : Z :=
  foldl (λ acc p, wrapU64 (acc + channel p)) 0 pixels.

(** [uint8(sum / count >> 8)]. *)
Definition meanChannel (channel : Pixel → Z) (pixels : list Pixel) : Z :=
  Z.land (Z.shiftr (sumChannel channel pixels / wrapU64 (Z.of_nat (length pixels))) 8) 255.

(** A pixel of an [image.RGBA], 8 bits a channel. *)
Definition average (source : Image) (left right top bottom : Z) : Pixel :=
  let right := Z.max right (left + 1) in
  let bottom := Z.max bottom (top + 1) in
  match boxPixels source left right top bottom with
  | [] => MkPixel 0 0 0 0
  | pixels => MkPixel (meanChannel px_R pixels) (meanChannel px_G pixels)
                      (meanChannel px_B pixels) (meanChannel px_A pixels)
  end.

(** What an [image.RGBA] answers for a stored 8-bit pixel. *)
Definition widen (p : Pixel) : Pixel :=
  let w c := Z.lor c (Z.shiftl c 8) in MkPixel (w (px_R p)) (w (px_G p)) (w (px_B p)) (w (px_A p)).
Definition narrow (p : Pixel) : Pixel :=
  let n c := Z.shiftr c 8 in MkPixel (n (px_R p)) (n (px_G p)) (n (px_B p)) (n (px_A p)).

Definition fone : float64 := ofInt 1.

Definition thumbnailScale (width height size : Z) : float64 :=
  if size <? Z.max width height then fdiv (ofInt size) (ofInt (Z.max width height)) else fone.

Definition scaledEdge (edge : Z) (scale : float64) : Z := Z.max 1 (truncToInt (fmul (ofInt edge) scale)).

(** Pixels outside the bounds of an image are transparent. *)
Definition insideOnly (dx dy : Z) (at_ : Z → Z → Pixel) (x y : Z) : Pixel :=
  if (0 <=? x) && (x <? dx) && (0 <=? y) && (y <? dy) then widen (at_ x y) else MkPixel 0 0 0 0.

Definition scaleToFit (source : Image) (size : Z) : Image :=
  let width := img_Dx source in
  let height := img_Dy source in
  let scale := thumbnailScale width height size in
  let dx := scaledEdge width scale in
  let dy := scaledEdge height scale in
  if feq scale fone then
    MkImage 0 0 dx dy (insideOnly dx dy (λ x y,
      if (x <? width) && (y <? height)
      then narrow (img_At source (img_MinX source + x) (img_MinY source + y)) else MkPixel 0 0 0 0))
  else
    let stepX := fdiv (ofInt width) (ofInt dx) in
    let stepY := fdiv (ofInt height) (ofInt dy) in
    let at_ n step := truncToInt (fmul (ofInt n) step) in
    MkImage 0 0 dx dy (insideOnly dx dy (λ x y,
      average source (img_MinX source + at_ x stepX) (img_MinX source + at_ (x + 1) stepX)
                     (img_MinY source + at_ y stepY) (img_MinY source + at_ (y + 1) stepY))).

(** ** Normalizing *)

Definition withKey (v : Variant) (key : string) : Variant :=
  MkVariant (v_Content v) key (v_Mime v) (v_Bytes v) (v_Width v) (v_Height v).

Section Normalize.
Context `{ImageCodecs}.

Definition encode (source : Image) (mime : string) : res Variant :=
  let '(content, mime) :=
    if bool_decide (mime = MimeJPEG) then (EncodeJPEG jpegQuality source, mime)
    else (EncodePNG source, MimePNG) in
  match content with
  | Err _ => Err (ErrOther "asset: encode")
  | Ok content => Ok (MkVariant content "" mime (Z.of_nat (length content)) (img_Dx source) (img_Dy source))
  end.

Definition Normalize (raw : bytes) (limits : Limits) : res Normalized :=
  let limits := withDefaults limits in
  if MaxBytes limits <? Z.of_nat (length raw) then Err ErrTooLarge
  else
    format ← sniff raw;
    match DecodeConfig raw with
    | Err _ => Err ErrBroken
    | Ok (width, height) =>
        if MaxPixels limits <? wrap64 (width * height) then Err ErrTooLarge
        else
          match DecodeImage raw with
          | Err _ => Err ErrBroken
          | Ok decoded =>
              full ← encode decoded format;
              thumbnail ← encode (scaleToFit decoded (Thumbnail limits)) MimePNG;
              let sum := hexEncode (Sum256 (v_Content full)) in
              Ok (MkNormalized (withKey full sum) sum (withKey thumbnail (sum +:+ "-thumb")))
          end
    end.
End Normalize.

(** ** Examples *)

Definition plainImage (dx dy : Z) : Image := MkImage 0 0 dx dy (λ x y, MkPixel (256 * x) (256 * y) 0 65535).

Example scaled_sizes :
  (λ wh, let i := scaleToFit (plainImage wh.1 wh.2) 256 in (img_Dx i, img_Dy i)) <$>
  [(512, 256); (100, 50); (257, 1); (1, 3000); (1000, 999)] = [(256, 128); (100, 50); (256, 1); (1, 256); (256, 255)].
Proof. vm_compute. reflexivity. Qed.

Example averaged : average (plainImage 4 4) 0 2 0 2 = MkPixel 0 0 0 255.
Proof. vm_compute. reflexivity. Qed.

(** ** Lemmas *)

Lemma be_bytes_range n z : length (be_bytes n z) = n ∧ Forall (λ b, 0 ≤ b < 256) (be_bytes n z).
Proof.
  unfold be_bytes. rewrite length_fmap, length_reverse, length_seq. split; [done|].
  apply Forall_forall. intros b (i & -> & _)%list_elem_of_fmap.
  change 255 with (Z.ones 8). rewrite Z.land_ones by lia. by apply Z.mod_pos_bound.
Qed.

Lemma sha_round_length s kw : length s = 8%nat → length (sha_round s kw) = 8%nat.
Proof. intros Hs. do 9 (destruct s as [|? s]; try done). Qed.

Lemma sha_block_length hs block : length hs = 8%nat → length (sha_block hs block) = 8%nat.
Proof.
  intros Hh. unfold sha_block. rewrite length_zip_with, Hh.
  assert (∀ l s, length s = 8%nat → length (foldl sha_round s l) = 8%nat) as ->; [|done|done].
  intros l. induction l as [|kw l IH]; intros s Hs; [done|]. apply IH. by apply sha_round_length.
Qed.

(** A digest is 32 bytes. *)
Lemma Sum256_bytes l : length (Sum256 l) = 32%nat ∧ Forall (λ b, 0 ≤ b < 256) (Sum256 l).
Proof.
  unfold Sum256. assert (∀ bs hs, length hs = 8%nat → length (foldl sha_block hs bs) = 8%nat) as Hf.
  { intros bs. induction bs as [|b bs IH]; intros hs Hh; [done|]. apply IH. by apply sha_block_length. }
  set (hs := foldl sha_block initialHash _).
  assert (length hs = 8%nat) as Hlen by by apply Hf. clearbody hs. split.
  - do 9 (destruct hs as [|? hs]; try done).
  - apply Forall_concat, Forall_fmap, Forall_forall. intros z _. apply be_bytes_range.
Qed.

Lemma hexDigit_isHex n : 0 ≤ n < 16 → isHex (hexDigit n) = true.
Proof.
  intros Hn. assert (n ∈ range 0 16) as Hin.
  { apply list_elem_of_fmap. exists (Z.to_nat n). split; [lia|]. apply elem_of_seq. lia. }
  assert (forallb (λ n, isHex (hexDigit n)) (range 0 16) = true) as Hall by (vm_compute; reflexivity).
  apply list_elem_of_In in Hin. exact (proj1 (forallb_forall _ _) Hall n Hin).
Qed.

Lemma hexEncode_hex l :
  Forall (λ b, 0 ≤ b < 256) l →
  length (chars (hexEncode l)) = (2 * length l)%nat ∧ Forall (λ c, isHex c = true) (chars (hexEncode l)).
Proof.
  intros Hl. unfold hexEncode. rewrite chars_unchars. induction Hl as [|b l Hb Hl [IH1 IH2]]; [done|].
  cbn [fmap list_fmap concat app length]. rewrite IH1. split; [lia|].
  repeat constructor; [apply hexDigit_isHex..|exact IH2].
  - split; [apply Z.div_pos; lia|apply Z.div_lt_upper_bound; lia].
  - by apply Z.mod_pos_bound.
Qed.

Lemma spanBytes_full p l r : Forall (λ c, p c = true) l → (∀ c r', r = c :: r' → p c = false) → spanBytes p (l ++ r) = (l, r).
Proof.
  intros Hl Hr. destruct r as [|c r]; [|by apply spanBytes_exact; [|apply (Hr c r)]].
  rewrite app_nil_r. induction Hl as [|a l Ha Hl IH]; [done|]. cbn. by rewrite Ha, IH.
Qed.

Lemma digest_length content : length (chars (hexEncode (Sum256 content))) = 64%nat.
Proof.
  destruct (Sum256_bytes content) as [Hlen Hb]. destruct (hexEncode_hex _ Hb) as [Hl _]. by rewrite Hl, Hlen.
Qed.

(** A digest is a key, and so is its thumbnail's. *)
Lemma digest_keys content :
  let sum := hexEncode (Sum256 content) in
  keyPattern (chars sum) = true ∧ keyPattern (chars (sum +:+ "-thumb")) = true ∧ sum ≠ sum +:+ "-thumb".
Proof.
  cbv zeta. destruct (Sum256_bytes content) as [Hlen Hb]. destruct (hexEncode_hex _ Hb) as [Hl Hh].
  rewrite Hlen in Hl. set (sum := hexEncode (Sum256 content)) in *. clearbody sum. unfold keyPattern.
  split_and!.
  - rewrite <-(app_nil_r (chars sum)), spanBytes_full, Hl by done. done.
  - rewrite chars_app, spanBytes_full, Hl; [done|done|]. by intros c r [= <- _].
  - intros He. apply (f_equal (λ s, length (chars s))) in He. rewrite chars_app, length_app in He. cbn in He. lia.
Qed.

Lemma boxPixels_length source left right top bottom :
  length (boxPixels source left right top bottom) = (Z.to_nat (bottom - top) * Z.to_nat (right - left))%nat.
Proof.
  assert (∀ y xs, length (x ← xs; [img_At source x y]) = length (xs : list Z)) as Hx.
  { intros y xs. induction xs as [|x xs IH]; [done|]. rewrite bind_cons, length_app, IH. done. }
  assert (∀ ys xs : list Z, length (y ← ys; x ← xs; [img_At source x y]) = (length ys * length xs)%nat) as Hxy.
  { intros ys xs. induction ys as [|y ys IH]; [done|]. rewrite bind_cons, length_app, IH, Hx. done. }
  unfold boxPixels. rewrite Hxy. unfold range. by rewrite !length_fmap, !length_seq.
Qed.

Lemma sumChannel_exact (channel : Pixel → Z) pixels :
  Forall (λ p, 0 ≤ channel p < 2 ^ 16) pixels → Z.of_nat (length pixels) ≤ 2 ^ 48 →
  sumChannel channel pixels = foldr (λ p acc, channel p + acc) 0 pixels.
Proof.
  intros Hp Hl. unfold sumChannel.
  assert (∀ acc, 0 ≤ acc → acc + 2 ^ 16 * Z.of_nat (length pixels) ≤ 2 ^ 64 →
    foldl (λ acc p, wrapU64 (acc + channel p)) acc pixels = acc + foldr (λ p acc, channel p + acc) 0 pixels) as Hg.
  { clear Hl. induction Hp as [|p pixels Hc Hp IH]; intros acc Ha Hb; [cbn; lia|]. cbn [foldl foldr length] in *.
    unfold wrapU64. rewrite Z.mod_small by lia. rewrite IH by lia. lia. }
  rewrite Hg by lia. lia.
Qed.

Lemma sum_between (channel : Pixel → Z) pixels lo hi :
  Forall (λ p, lo ≤ channel p ≤ hi) pixels →
  lo * Z.of_nat (length pixels) ≤ foldr (λ p acc, channel p + acc) 0 pixels ≤ hi * Z.of_nat (length pixels).
Proof. induction 1 as [|p pixels Hc Hp IH]; cbn [foldr length]; lia. Qed.

Lemma meanChannel_between (channel : Pixel → Z) pixels lo hi :
  pixels ≠ [] → Z.of_nat (length pixels) ≤ 2 ^ 48 → 0 ≤ lo → hi < 2 ^ 16 →
  Forall (λ p, lo ≤ channel p ≤ hi) pixels → lo / 256 ≤ meanChannel channel pixels ≤ hi / 256.
Proof.
  intros Hne Hl Hlo Hhi Hp. unfold meanChannel. rewrite sumChannel_exact; [|eapply Forall_impl; [exact Hp|]; cbn; lia|done].
  pose proof (sum_between _ _ _ _ Hp) as Hs. set (sum := foldr _ 0 pixels) in *. set (n := Z.of_nat (length pixels)) in *.
  assert (0 < n) as Hn by (unfold n; destruct pixels; [done|cbn [length]; lia]).
  unfold wrapU64. rewrite Z.mod_small by lia.
  assert (lo ≤ sum / n ≤ hi) as Hq.
  { split; [apply Z.div_le_lower_bound; lia|]. apply Z.div_le_upper_bound; lia. }
  rewrite Z.shiftr_div_pow2 by lia. change (2 ^ 8) with 256.
  assert (lo / 256 ≤ sum / n / 256 ≤ hi / 256) as Hd by (split; apply Z.div_le_mono; lia).
  change 255 with (Z.ones 8). rewrite Z.land_ones by lia. rewrite Z.mod_small; [done|].
  assert (0 ≤ lo / 256) by (apply Z.div_pos; lia). assert (hi / 256 < 256) by (apply Z.div_lt_upper_bound; lia).
  change (2 ^ 8) with 256. lia.
Qed.

Lemma sniff_mime raw mime : sniff raw = Ok mime → mime = MimePNG ∨ mime = MimeJPEG.
Proof. unfold sniff. repeat case_match; intros [= <-]; auto. Qed.

Lemma encode_Ok `{ImageCodecs} source mime v :
  mime = MimePNG ∨ mime = MimeJPEG → encode source mime = Ok v →
  v_Mime v = mime ∧ v_Bytes v = Z.of_nat (length (v_Content v)).
Proof.
  unfold encode. intros [-> | ->]; cbn; [destruct (EncodePNG source)|destruct (EncodeJPEG _ source)];
    try done; by intros [= <-].
Qed.

(** What a normalized upload carries. *)
Lemma Normalize_Ok `{ImageCodecs} raw limits n :
  Normalize raw limits = Ok n →
  n_SHA256 n = hexEncode (Sum256 (v_Content (n_Variant n))) ∧ v_Key (n_Variant n) = n_SHA256 n ∧
  v_Key (n_Thumbnail n) = n_SHA256 n +:+ "-thumb" ∧ v_Mime (n_Thumbnail n) = MimePNG ∧
  v_Bytes (n_Variant n) = Z.of_nat (length (v_Content (n_Variant n))) ∧ 0 ≤ v_Bytes (n_Thumbnail n) ∧
  keyPattern (chars (n_SHA256 n)) = true ∧ keyPattern (chars (n_SHA256 n +:+ "-thumb")) = true ∧
  n_SHA256 n ≠ n_SHA256 n +:+ "-thumb".
Proof.
  unfold Normalize. destruct (_ <? _); [done|]. intros (format & Hs%sniff_mime & Hn)%bind_Ok.
  destruct (DecodeConfig raw) as [[w h]|]; [|done]. destruct (_ <? _); [done|].
  destruct (DecodeImage raw) as [image|]; [|done]. apply bind_Ok in Hn as (full & Hf & Hn).
  apply bind_Ok in Hn as (thumb & Ht & [= <-]). destruct (encode_Ok _ _ _ Hs Hf) as [_ Hb].
  destruct (encode_Ok _ _ _ (or_introl eq_refl) Ht) as [Hm Htb].
  destruct (digest_keys (v_Content full)) as (Hk1 & Hk2 & Hk3). cbn. rewrite Htb. split_and!; try done. lia.
Qed.

(** ** Theorems *)

(** Averaging stays within what it averages.  For every box of at most 2^48
    source pixels, an empty one being widened to one pixel, the sums do not wrap
    their 64 bits, the count is not zero, and each channel of the result lies
    between the least and the greatest value of that channel in the box, scaled
    to 8 bits; so a box of one colour gives that colour. *)
Theorem average_between : ∀ source left right top bottom channel lo hi,
  channel ∈ [px_R; px_G; px_B; px_A] →
  Z.max 1 (right - left) * Z.max 1 (bottom - top) ≤ 2 ^ 48 → 0 ≤ lo → hi < 2 ^ 16 →
  (∀ x y, left ≤ x < Z.max right (left + 1) → top ≤ y < Z.max bottom (top + 1) →
     lo ≤ channel (img_At source x y) ≤ hi) →
  lo / 256 ≤ channel (average source left right top bottom) ≤ hi / 256.
Proof.
  intros source left right top bottom channel lo hi Hch Harea Hlo Hhi Hbox.
  assert (channel (average source left right top bottom) =
    meanChannel channel (boxPixels source left (Z.max right (left + 1)) top (Z.max bottom (top + 1)))) as ->.
  { unfold average. pose proof (boxPixels_length source left (Z.max right (left + 1)) top (Z.max bottom (top + 1))) as Hl.
    destruct (boxPixels _ _ _ _ _) as [|p ps]; [cbn in Hl; nia|].
    repeat (apply elem_of_cons in Hch as [-> |Hch]; [done|]). by apply elem_of_nil in Hch. }
  pose proof (boxPixels_length source left (Z.max right (left + 1)) top (Z.max bottom (top + 1))) as Hl.
  apply meanChannel_between; [|rewrite Hl; nia|done|done|].
  - intros He. rewrite He in Hl. cbn in Hl. nia.
  - apply Forall_forall. intros p Hp. unfold boxPixels in Hp.
    apply list_elem_of_bind in Hp as (y & Hp & Hy). apply list_elem_of_bind in Hp as (x & Hp & Hx).
    apply list_elem_of_singleton in Hp as ->.
    apply list_elem_of_fmap in Hx as (i & -> & Hi%elem_of_seq). apply list_elem_of_fmap in Hy as (j & -> & Hj%elem_of_seq).
    apply Hbox; lia.
Qed.

(** What normalizing an upload answers, on every branch.  A success is within the
    limits in bytes and pixels, has the format its first bytes say, and carries
    nothing of the upload but pixels: its contents are encoder output, addressed
    by the hash of the full rendition, under keys a blob store accepts.  Each error
    says exactly what was wrong, in the order the checks are made. *)
Theorem Normalize_outcome `{ImageCodecs} : ∀ raw limits,
  let l := withDefaults limits in
  match Normalize raw limits with
  | Ok n =>
      Z.of_nat (length raw) ≤ MaxBytes l ∧
      ∃ format w h image full thumb,
        sniff raw = Ok format ∧ DecodeConfig raw = Ok (w, h) ∧ wrap64 (w * h) ≤ MaxPixels l ∧
        DecodeImage raw = Ok image ∧ encode image format = Ok full ∧
        encode (scaleToFit image (Thumbnail l)) MimePNG = Ok thumb ∧
        n = MkNormalized (withKey full (n_SHA256 n)) (n_SHA256 n) (withKey thumb (n_SHA256 n +:+ "-thumb")) ∧
        n_SHA256 n = hexEncode (Sum256 (v_Content full)) ∧
        v_Mime full = format ∧ v_Bytes full = Z.of_nat (length (v_Content full)) ∧
        keyPattern (chars (n_SHA256 n)) = true ∧ keyPattern (chars (n_SHA256 n +:+ "-thumb")) = true
  | Err ErrTooLarge =>
      MaxBytes l < Z.of_nat (length raw) ∨
      ∃ w h, is_Ok (sniff raw) ∧ DecodeConfig raw = Ok (w, h) ∧ MaxPixels l < wrap64 (w * h)
  | Err ErrUnsupportedFormat => Z.of_nat (length raw) ≤ MaxBytes l ∧ sniff raw = Err ErrUnsupportedFormat
  | Err ErrBroken =>
      Z.of_nat (length raw) ≤ MaxBytes l ∧ is_Ok (sniff raw) ∧
      ((∃ e, DecodeConfig raw = Err e) ∨
       ∃ w h e, DecodeConfig raw = Ok (w, h) ∧ wrap64 (w * h) ≤ MaxPixels l ∧ DecodeImage raw = Err e)
  | Err e => e = ErrOther "asset: encode"
  end.
Proof.
  intros raw limits l. unfold Normalize. fold l. destruct (MaxBytes l <? _) eqn:Eb; [left; lia|].
  apply Z.ltb_ge in Eb. destruct (sniff raw) as [format|e] eqn:Es; cbn [mbind res_bind].
  2:{ assert (e = ErrUnsupportedFormat) as -> by (unfold sniff in Es; repeat case_match; congruence). done. }
  assert (is_Ok (sniff raw)) as Hs by by exists format.
  destruct (DecodeConfig raw) as [[w h]|e] eqn:Ec.
  2:{ split_and!; [done|by exists format|]. left. by exists e. }
  destruct (MaxPixels l <? _) eqn:Ep; [right; exists w, h; split_and!; [by exists format|done|lia]|].
  apply Z.ltb_ge in Ep. destruct (DecodeImage raw) as [image|e] eqn:Ed.
  2:{ split_and!; [done|by exists format|]. right. by exists w, h, e. }
  destruct (encode image format) as [full|e] eqn:Ef; cbn [mbind res_bind].
  2:{ unfold encode in Ef. destruct (if bool_decide _ then _ else _) as [[] ?]; [congruence|by injection Ef as <-]. }
  destruct (encode (scaleToFit _ _) MimePNG) as [thumb|e] eqn:Et; cbn [mbind res_bind].
  2:{ unfold encode in Et. destruct (if bool_decide _ then _ else _) as [[] ?]; [congruence|by injection Et as <-]. }
  split; [done|]. exists format, w, h, image, full, thumb. cbn [n_SHA256].
  destruct (digest_keys (v_Content full)) as (Hk1 & Hk2 & _).
  assert (v_Mime full = format ∧ v_Bytes full = Z.of_nat (length (v_Content full))) as [Hm Hb].
  { unfold encode in Ef. destruct (sniff_mime _ _ Es) as [-> | ->]; cbn in Ef.
    - destruct (EncodePNG image); [|done]. by injection Ef as <-.
    - destruct (EncodeJPEG _ image); [|done]. by injection Ef as <-. }
  by split_and!.
Qed.
