(* ===== verification/Assets.v ===== *)
(** * Assets over HTTP (internal/transport/httpapi/assets.go)

    Uploading an image to a world, listing its assets, and serving their bytes.
    The state is the store and the disk of blobs.  Parsing the multipart form and
    the conditional and range requests of [http.ServeContent] belong to the HTTP
    library: an upload is what the form parser found, a served asset is what is
    handed to [http.ServeContent]. *)

From S2P Require Import Prelude GoStrings GoTime Json Perm Storage Sha256 Auth Blob AssetImage Http Worlds.

Local Open Scope Z_scope.

Record AssetDeps := MkAssetDeps { ad_Limits : Limits; ad_WorldQuota : Z; ad_AssetBaseURL : string }.

Definition uploadMemory : Z := 8 * 2 ^ 20.

(** ** Views *)

(** [strings.TrimSuffix(base, "/")]. *)
Definition trimSlash (l : bytes) : bytes :=
  match reverse l with
  | c :: r => if bool_decide (c = slash) then reverse r else l
  | [] => []
  end.

Definition assetURL (baseURL : string) (worldID assetID : ID) (variant : string) : string :=
  unchars (trimSlash (chars baseURL)) +:+ "/assets/" +:+ worldID +:+ "/" +:+ assetID +:+
  (if bool_decide (variant = "") then "" else "/" +:+ variant).

(** The JSON of [assetVariants]; the content of a variant is not encoded. *)
Definition encodeVariants (v : Variant) : raw :=
  Raw (JObj [("thumbnail", JObj (fStr "key" (v_Key v) ++ fStr "mime" (v_Mime v) ++ fInt "bytes" (v_Bytes v) ++
    fInt "width" (v_Width v) ++ fInt "height" (v_Height v)))]).

(** Decoding into a variant that may have been decoded before. *)
Definition decodeVariant (v : Variant) (fs : list (string * json)) : Variant * bool :=
  let '(key, o1) := decodeField convString (v_Key v) "key" fs in
  let '(mime, o2) := decodeField convString (v_Mime v) "mime" fs in
  let '(size, o3) := decodeField convInt (v_Bytes v) "bytes" fs in
  let '(width, o4) := decodeField convInt (v_Width v) "width" fs in
  let '(height, o5) := decodeField convInt (v_Height v) "height" fs in
  (MkVariant [] key mime size width height, o1 && o2 && o3 && o4 && o5).

(** The pointer field [thumbnail]: null clears it, an object allocates it or is
    decoded into it. *)
Definition thumbnailStep (acc : option Variant * bool) (j : json) : option Variant * bool :=
  match j with
  | JNull => (None, acc.2)
  | JObj fs => let '(v, ok) := decodeVariant (default (MkVariant [] "" "" 0 0 0) acc.1) fs in
               (Some v, acc.2 && ok)
  | _ => (acc.1, false)
  end.

(** The thumbnail of a row, when its variants decode without an error. *)
Definition thumbnailOf (variants : raw) : option Variant :=
  fs ← structFields variants;
  let '(thumbnail, ok) := foldl thumbnailStep (None, true) (fieldValues "thumbnail" fs) in
  if ok then thumbnail else None.

Definition viewAsset (d : AssetDeps) (a : Asset) : json :=
  let url := assetURL (ad_AssetBaseURL d) (asset_WorldID a) (asset_ID a) in
  JObj (fStr "id" (asset_ID a) ++ fStr "mime" (asset_Mime a) ++ fInt "bytes" (asset_Bytes a) ++
    fInt "width" (asset_Width a) ++ fInt "height" (asset_Height a) ++ fStr "url" (url "") ++
    (match thumbnailOf (asset_Variants a) with Some _ => fStr "thumbnail" (url "thumbnail") | None => [] end) ++
    fStr "createdAt" (formatRFC3339 (asset_CreatedAt a))).

(** ** Uploads *)

(** What the form parser found: a body that is too long or no form, a form without
    the field [file], or the file, with whether it could be read to its end. *)
Inductive upload :=
  | UploadMalformed
  | UploadNoFile
  | UploadFile (bodySize : Z) (content : bytes) (readable : bool).

(** How the two writes of blobs go: for each what fails, and the random part of the
    temporary name. *)
Record writes := MkWrites {
  full_faults : faults; full_random : bytes;
  thumb_faults : faults; thumb_random : bytes
}.

(** A handler that streams an asset answers JSON or content. *)
Inductive served :=
  | Answered (r : Response)
  | Streamed (mime key : string) (modified : Time) (content : bytes).

Section Assets.
Context `{Unicode} `{ImageCodecs} {S : Type} `{Tx S}.
Variable d : AssetDeps.

Definition listAssetsHandler (r : Request) (worldID : ID) : S → Response * S :=
  requireRole r worldID false (λ _ s,
    match ListAssets s worldID 0 with
    | Err _ => (internalError, s)
    | Ok records => (writeJSON 200 (Raw (JArr (viewAsset d <$> (records : list Asset)))), s)
    end).

Definition withinQuota (s : S) (worldID : ID) (incoming : Z) : res unit :=
  if ad_WorldQuota d <=? 0 then Ok tt
  else
    used ← SumAssetBytes s worldID;
    guard_res (negb (ad_WorldQuota d <? wrap64 (used + incoming))) ErrQuotaExceeded.

Definition newAsset (randomID : string) (worldID userID : ID) (n : Normalized) : Asset :=
  let v := n_Variant n in
  MkAsset (GenerateID randomID "asset") worldID (n_SHA256 n) (v_Mime v) (v_Bytes v) (v_Width v) (v_Height v) 0
    (encodeVariants (n_Thumbnail n)) userID 0.

(** A statement on the blobs of the pair. *)
Definition onDisk {A} (m : M Disk A) : M (S * Disk) A := λ st, let '(r, disk) := m st.2 in (r, (st.1, disk)).
Definition onStore {A} (m : M S A) : M (S * Disk) A := λ st, let '(r, s) := m st.1 in (r, (s, st.2)).

(** The look-up for the same content. *)
Definition existingAsset (s : S) (worldID : ID) (sha : string) : res (option Asset) :=
  match GetAssetBySHA256 s worldID sha with
  | Ok found => Ok (Some found)
  | Err e => if errors_Is e ErrNotFound then Ok None else Err e
  end.

(** The asset and whether it was there before: blobs first, the row second. *)
Definition storeAsset (w : writes) (randomID : string) (now : Time) (worldID userID : ID) (n : Normalized)
    : M (S * Disk) (Asset * bool) :=
  existing ← lift (λ st, existingAsset st.1 worldID (n_SHA256 n));
  match existing with
  | Some found => mret (found, true)
  | None =>
      _ ← lift (λ st, withinQuota st.1 worldID (wrap64 (v_Bytes (n_Variant n) + v_Bytes (n_Thumbnail n))));
      _ ← onDisk (Put (full_faults w) (full_random w)
                    (v_Key (n_Variant n)) (v_Content (n_Variant n)));
      _ ← onDisk (Put (thumb_faults w) (thumb_random w)
                    (v_Key (n_Thumbnail n)) (v_Content (n_Thumbnail n)));
      record ← onStore (runTx (PutAsset now (newAsset randomID worldID userID n)));
      mret (record, false)
  end.

Definition normalizeError (e : err) : Response :=
  if errors_Is e ErrUnsupportedFormat then apiError 415 "unsupported" "core.asset.unsupportedFormat"
  else if errors_Is e ErrTooLarge then apiError 413 "too_large" "core.asset.tooLarge"
  else if errors_Is e ErrBroken then apiError 400 "bad_request" "core.asset.brokenImage"
  else internalError.

(** The limits of the handler: only the size in bytes gets its default here. *)
Definition uploadLimits : Limits :=
  let l := ad_Limits d in
  MkLimits (if MaxBytes l <=? 0 then DefaultMaxBytes else MaxBytes l) (MaxPixels l) (Thumbnail l).

(** Reading the file up to one byte past the limit. *)
Definition limitRead (content : bytes) : bytes := take (Z.to_nat (MaxBytes uploadLimits + 1)) content.

Definition uploadAssetHandler (w : writes) (randomID : string) (now : Time) (r : Request) (form : upload)
    (worldID : ID) : S * Disk → Response * (S * Disk) :=
  let malformed := apiError 400 "bad_request" "core.asset.malformedUpload" in
  requireRoleAs fst (λ resp, resp) r worldID true (λ user st,
    match form with
    | UploadMalformed => (malformed, st)
    | UploadNoFile => (apiError 400 "bad_request" "core.asset.noFile", st)
    | UploadFile bodySize content readable =>
        if MaxBytes uploadLimits + uploadMemory <? bodySize then (malformed, st)
        else if negb readable then (malformed, st)
        else
          match Normalize (limitRead content) uploadLimits with
          | Err e => (normalizeError e, st)
          | Ok n =>
              match storeAsset w randomID now worldID (user_ID user) n st with
              | (Err e, st) =>
                  (if errors_Is e ErrQuotaExceeded then apiError 413 "quota" "core.asset.worldIsFull"
                   else internalError, st)
              | (Ok (record, reused), st) =>
                  (writeJSON (if reused then 200 else 201) (Raw (viewAsset d record)), st)
              end
          end
    end).

Definition unknownAsset : Response := apiError 404 "not_found" "core.asset.unknown".

(** Which blob a request is for. *)
Definition servedKey (record : Asset) (variant : string) : string * string :=
  match thumbnailOf (asset_Variants record) with
  | Some t => if bool_decide (variant = "thumbnail") then (v_Key t, v_Mime t)
              else (asset_SHA256 record, asset_Mime record)
  | None => (asset_SHA256 record, asset_Mime record)
  end.

Definition serveAssetHandler (r : Request) (worldID assetID : ID) (variant : string)
    : S * Disk → served * (S * Disk) :=
  requireRoleAs fst Answered r worldID false (λ _ st,
    match GetAsset st.1 worldID assetID with
    | Err e => (Answered (if errors_Is e ErrNotFound then unknownAsset else internalError), st)
    | Ok record =>
        let '(key, mime) := servedKey record variant in
        match Open st.2 key with
        | Err e => (Answered (if errors_Is e ErrBlobNotFound then unknownAsset else internalError), st)
        | Ok content => (Streamed mime key (asset_CreatedAt record) content, st)
        end
    end).
End Assets.

(** ** Variants: lemmas *)

(** The integers of a variant fit the program's [int] and [int64]. *)
Definition fits (v : Variant) : Prop := in_int64 (v_Bytes v) ∧ in_int64 (v_Width v) ∧ in_int64 (v_Height v).

#[local] Opaque numOfInt.

Lemma thumbnailOf_encoded v :
  fits v → thumbnailOf (encodeVariants v) = Some (withKey (MkVariant [] "" (v_Mime v) (v_Bytes v) (v_Width v) (v_Height v)) (v_Key v)).
Proof.
  intros (H1 & H2 & H3). unfold thumbnailOf, encodeVariants. cbn [structFields mbind option_bind].
  rewrite fieldValues_pick. cbn [fmap list_fmap fst snd].
  replace (matching "thumbnail" ["thumbnail"]) with [true] by (vm_compute; reflexivity).
  cbn [pick foldl thumbnailStep fst snd default from_option]. unfold decodeVariant. read_fields.
  cbn [v_Key v_Mime v_Bytes v_Width v_Height]. rewrite !convInt_num by done. reflexivity.
Qed.

Lemma digest_not_thumb c c' : hexEncode (Sum256 c) ≠ hexEncode (Sum256 c') +:+ "-thumb".
Proof.
  intros He. apply (f_equal (λ s, length (chars s))) in He. rewrite chars_app, length_app, !digest_length in He.
  cbn in He. lia.
Qed.

(** ** Storing: lemmas *)

Section AssetProofs.
Context `{ImageCodecs} {S : Type} `{TxLaws S} `{!AssetLaws S}.
Implicit Types (s : S) (dk : Disk) (r : Request).
Variable d : AssetDeps.

(** The blobs of a row: content under its hash, and its thumbnail. *)
Definition hasBlobs dk (a : Asset) : Prop :=
  ∃ content t, asset_SHA256 a = hexEncode (Sum256 content) ∧ Open dk (asset_SHA256 a) = Ok content ∧
    thumbnailOf (asset_Variants a) = Some t ∧ v_Key t = asset_SHA256 a +:+ "-thumb" ∧ is_Ok (Open dk (v_Key t)).

(** What an upload or an interrupted upload may leave under a key. *)
Definition uploadBlob (key : string) (content : bytes) : Prop :=
  key = hexEncode (Sum256 content) ∨ ∃ c, key = hexEncode (Sum256 c) +:+ "-thumb".

Lemma hasBlobs_mono dk dk' a key content :
  uploadBlob key content → (∀ k, Open dk' k = Open dk k ∨ (k = key ∧ Open dk' k = Ok content)) →
  hasBlobs dk a → hasBlobs dk' a.
Proof.
  intros Hup Hsame (c & t & Hsha & Hc & Ht & Hk & [tc Hth]).
  assert (∃ c', asset_SHA256 a = hexEncode (Sum256 c') ∧ Open dk' (asset_SHA256 a) = Ok c') as (c' & Hsha' & Hc').
  { destruct (Hsame (asset_SHA256 a)) as [He|[He Ho]]; [exists c; by rewrite He|]. exists content. split; [|done].
    destruct Hup as [Hup|[c0 Hup]]; [congruence|]. rewrite Hsha in He. rewrite Hup in He. by destruct (digest_not_thumb c c0). }
  exists c', t. split_and!; try done. destruct (Hsame (v_Key t)) as [He|[_ Ho]]; [exists tc; by rewrite He|by exists content].
Qed.

(** The names of the two writes of an upload are new. *)
Definition freshNames (w : writes) (n : Normalized) dk : Prop :=
  freshName dk (v_Key (n_Variant n)) (full_random w) ∧ freshName dk (v_Key (n_Thumbnail n)) (thumb_random w).

Lemma onDisk_Ok {A} (m : M Disk A) (st : S * Disk) (out : res A) st' :
  onDisk m st = (out, st') ↔ st'.1 = st.1 ∧ m st.2 = (out, st'.2).
Proof. unfold onDisk. destruct (m st.2) as [x dk], st' as [s' dk']. cbn. naive_solver. Qed.

Lemma storeAsset_cases w randomID now world user n s dk raw out st' :
  Normalize raw (uploadLimits d) = Ok n → freshNames w n dk →
  storeAsset d w randomID now world user n (s, dk) = (out, st') →
  (∃ a, out = Ok (a, true) ∧ GetAssetBySHA256 s world (n_SHA256 n) = Ok a ∧ st' = (s, dk)) ∨
  ((∃ e, out = Err e) ∧ st'.1 = s ∧ ∀ a, hasBlobs dk a → hasBlobs st'.2 a) ∨
  (∃ x, out = Ok (x, false) ∧ GetAssetBySHA256 s world (n_SHA256 n) = Err ErrNotFound ∧
     withinQuota d s world (wrap64 (v_Bytes (n_Variant n) + v_Bytes (n_Thumbnail n))) = Ok tt ∧
     PutAsset now (newAsset randomID world user n) s = (Ok x, st'.1) ∧
     (∀ a, hasBlobs dk a → hasBlobs st'.2 a) ∧
     Open st'.2 (n_SHA256 n) = Ok (v_Content (n_Variant n)) ∧
     Open st'.2 (n_SHA256 n +:+ "-thumb") = Ok (v_Content (n_Thumbnail n))).
Proof.
  intros Hn [Hf1 Hf2] Hst. destruct (Normalize_Ok _ _ _ Hn) as (Hsum & Hk1 & Hk2 & _ & _ & _ & Hp1 & Hp2 & Hne).
  rewrite Hk1 in Hf1. rewrite Hk2 in Hf2.
  assert (uploadBlob (n_SHA256 n) (v_Content (n_Variant n))) as Hu1 by by left.
  assert (uploadBlob (n_SHA256 n +:+ "-thumb") (v_Content (n_Thumbnail n))) as Hu2 by (right; eexists; by rewrite Hsum).
  unfold storeAsset, lift, mbind, M_bind, existingAsset in Hst. cbn [fst snd] in Hst.
  destruct (GetAssetBySHA256 s world (n_SHA256 n)) as [a|e] eqn:Ea.
  { injection Hst as <- <-. left. by exists a. }
  destruct (errors_Is e ErrNotFound) eqn:Ee; [|injection Hst as <- <-; right; left; split_and!; [by eexists|done|done]].
  apply bool_decide_eq_true in Ee as ->.
  destruct (withinQuota _ _ _ _) as [[]|e] eqn:Eq; [|injection Hst as <- <-; right; left; split_and!; [by eexists|done|done]].
  destruct (onDisk (Put (full_faults w) _ _ _) _) as [r1 [s1 dk1]] eqn:E1.
  apply onDisk_Ok in E1 as [Hs1 E1]. cbn [fst snd] in Hs1, E1. subst s1. rewrite Hk1 in E1.
  apply (Put_outcome _ _ _ _ _ _ _ Hf1 Hp1) in E1 as [(-> & Ho1 & Hfr)|[[e ->] Ho]].
  2:{ injection Hst as <- <-. right; left; split_and!; [by eexists|done|].
      intros a. apply (hasBlobs_mono _ _ _ _ _ Hu1). intros k. left. apply Ho. }
  assert (∀ a, hasBlobs dk a → hasBlobs dk1 a) as Hb1.
  { intros a. apply (hasBlobs_mono _ _ _ _ _ Hu1). intros k. rewrite Ho1. case_decide; auto. }
  destruct (onDisk (Put (thumb_faults w) _ _ _) _) as [r2 [s2 dk2]] eqn:E2.
  apply onDisk_Ok in E2 as [Hs2 E2]. cbn [fst snd] in Hs2, E2. subst s2. rewrite Hk2 in E2.
  apply (Put_outcome _ _ _ _ _ _ _ (Hfr _ _ Hf2) Hp2) in E2 as [(-> & Ho2 & _)|[[e ->] Ho]].
  2:{ injection Hst as <- <-. right; left; split_and!; [by eexists|done|].
      intros a Ha. apply (hasBlobs_mono dk1 _ _ _ _ Hu2); [|by apply Hb1]. intros k. left. apply Ho. }
  assert (∀ a, hasBlobs dk a → hasBlobs dk2 a) as Hb2.
  { intros a Ha. apply (hasBlobs_mono dk1 _ _ _ _ Hu2); [|by apply Hb1]. intros k. rewrite Ho2. case_decide; auto. }
  unfold onStore in Hst. cbn [fst snd] in Hst.
  destruct (runTx _ s) as [[x|e] s3] eqn:Ep.
  2:{ apply runTx_Err in Ep as ->. injection Hst as <- <-. right; left; split_and!; [by eexists|done|exact Hb2]. }
  apply (proj1 (runTx_Ok _ _ _ _)) in Ep. injection Hst as <- <-. right; right. exists x.
  split_and!; try done.
  - cbn. rewrite Ho2, decide_False, Ho1 by done. by rewrite decide_True.
  - cbn. rewrite Ho2. by rewrite decide_True.
Qed.

Lemma normalizeError_status e : resp_Status (normalizeError e) ∈ [400; 413; 415; 500].
Proof. unfold normalizeError. repeat case_match; set_solver. Qed.

(** The names of every upload within the limits are new. *)
Definition freshUpload (w : writes) dk : Prop :=
  ∀ raw n, Normalize raw (uploadLimits d) = Ok n → freshNames w n dk ∧ fits (n_Thumbnail n).

(** A new row was stored for a normalized upload. *)
Definition storedNew (randomID : string) (now : Time) (world : ID) (user : User) (n : Normalized) (x : Asset)
    s dk (st' : S * Disk) : Prop :=
  GetAssetBySHA256 s world (n_SHA256 n) = Err ErrNotFound ∧
  withinQuota d s world (wrap64 (v_Bytes (n_Variant n) + v_Bytes (n_Thumbnail n))) = Ok tt ∧
  PutAsset now (newAsset randomID world (user_ID user) n) s = (Ok x, st'.1) ∧
  (∀ a, hasBlobs dk a → hasBlobs st'.2 a) ∧
  Open st'.2 (n_SHA256 n) = Ok (v_Content (n_Variant n)) ∧
  Open st'.2 (n_SHA256 n +:+ "-thumb") = Ok (v_Content (n_Thumbnail n)).

Lemma upload_cases w randomID now r form world s dk resp st' :
  freshUpload w dk →
  uploadAssetHandler d w randomID now r form world (s, dk) = (resp, st') →
  (st'.1 = s ∧ (∀ a, hasBlobs dk a → hasBlobs st'.2 a) ∧ resp_Status resp ≠ 200 ∧ resp_Status resp ≠ 201) ∨
  ∃ user m raw n, req_User r = Some user ∧ GetMember s world (user_ID user) = Ok m ∧ member_Role m = RoleGM ∧
    Normalize raw (uploadLimits d) = Ok n ∧
    ((∃ a, GetAssetBySHA256 s world (n_SHA256 n) = Ok a ∧ st' = (s, dk) ∧
       resp = writeJSON 200 (Raw (viewAsset d a))) ∨
     (∃ x, storedNew randomID now world user n x s dk st' ∧ resp = writeJSON 201 (Raw (viewAsset d x)))).
Proof.
  intros Hfresh Hup. unfold uploadAssetHandler in Hup.
  apply requireRoleAs_cases in Hup as [(-> & x & -> & Hx)|(user & m & Hu & Hm & Hr & Hup)].
  { left. split_and!; [done|done|by apply refused_status..]. }
  specialize (Hr eq_refl). cbn [fst] in Hm.
  destruct form as [| |size content readable]; [injection Hup as <- <-; left; by split_and!..|].
  destruct (_ <? size); [injection Hup as <- <-; left; by split_and!|].
  destruct readable; cbn [negb] in Hup; [|injection Hup as <- <-; left; by split_and!].
  destruct (Normalize (limitRead d content) (uploadLimits d)) as [n|e] eqn:En.
  2:{ injection Hup as <- <-. left. pose proof (normalizeError_status e) as Hst. rewrite !elem_of_cons, elem_of_nil in Hst.
      split_and!; [done|done|lia..]. }
  destruct (storeAsset _ _ _ _ _ _ _ _) as [out st1] eqn:Es.
  destruct (storeAsset_cases _ _ _ _ _ _ _ _ _ _ _ En (proj1 (Hfresh _ _ En)) Es)
    as [(a & -> & Ha & ->)|[([e ->] & Hs1 & Hb)|(x & -> & Hno & Hq & Hp & Hb & Ho1 & Ho2)]].
  - injection Hup as <- <-. right. exists user, m, (limitRead d content), n. split_and!; try done. left. by exists a.
  - injection Hup as <- <-. left. split_and!; [done|done|by case_match..].
  - injection Hup as <- <-. right. exists user, m, (limitRead d content), n. split_and!; try done. right. exists x.
    split; [|done]. unfold storedNew. by split_and!.
Qed.

Lemma storedNew_row randomID now world user n x s dk st' raw :
  wf s → Normalize raw (uploadLimits d) = Ok n → fits (n_Thumbnail n) →
  (∀ w, GetAsset s w (GenerateID randomID "asset") = Err ErrNotFound) →
  storedNew randomID now world user n x s dk st' →
  wf st'.1 ∧ (∀ w i, (w, i) ≠ (world, GenerateID randomID "asset") → GetAsset st'.1 w i = GetAsset s w i) ∧
  (∀ w u, GetMember st'.1 w u = GetMember s w u) ∧
  keepsAsset (newAsset randomID world (user_ID user) n) x ∧
  ∃ row, GetAsset st'.1 world (GenerateID randomID "asset") = Ok row ∧
    keepsAsset (newAsset randomID world (user_ID user) n) row ∧ hasBlobs st'.2 row ∧
    thumbnailOf (asset_Variants row) = Some (withKey (MkVariant [] "" (v_Mime (n_Thumbnail n)) (v_Bytes (n_Thumbnail n))
      (v_Width (n_Thumbnail n)) (v_Height (n_Thumbnail n))) (n_SHA256 n +:+ "-thumb")).
Proof.
  intros Hwf Hn Hfit Hfresh (_ & _ & Hput & _ & Ho1 & Ho2).
  destruct (Normalize_Ok _ _ _ Hn) as (Hsum & _ & Hk2 & _).
  destruct (PutAsset_fresh now (newAsset randomID world (user_ID user) n) s x st'.1 Hwf Hfresh Hput) as (Hwf' & Hx & (row & Hrow & Hkeep) & Hother & Hsame & Hm & _).
  assert (thumbnailOf (asset_Variants row) = Some (withKey (MkVariant [] "" (v_Mime (n_Thumbnail n)) (v_Bytes (n_Thumbnail n))
      (v_Width (n_Thumbnail n)) (v_Height (n_Thumbnail n))) (n_SHA256 n +:+ "-thumb"))) as Hthumb.
  { destruct Hkeep as (_ & _ & _ & _ & _ & _ & _ & Hv). rewrite (Hv _ eq_refl), <-Hk2. by apply thumbnailOf_encoded. }
  split_and!; try done.
  - intros w i Hne. destruct (decide (i = GenerateID randomID "asset")) as [->|Hi]; [|by apply Hsame].
    rewrite Hfresh. apply Hother. cbn. congruence.
  - exists row. split_and!; try done. destruct Hkeep as (_ & _ & Hsha & _). cbn in Hsha.
    eexists _, _. rewrite Hsha. split_and!; [exact Hsum|exact Ho1|exact Hthumb|done|by eexists].
Qed.

(** What can happen to a server with assets: an upload runs to its end, whatever
    fails; or it stops dead, having published a blob or inside one of its writes. *)
Inductive assetStep : S * Disk → S * Disk → Prop :=
  | step_upload w randomID now r form world s dk resp st' :
      (∀ w, GetAsset s w (GenerateID randomID "asset") = Err ErrNotFound) → freshUpload w dk →
      uploadAssetHandler d w randomID now r form world (s, dk) = (resp, st') →
      assetStep (s, dk) st'
  | step_published faults random raw n v s dk (out : res unit) dk' :
      Normalize raw (uploadLimits d) = Ok n → v ∈ [n_Variant n; n_Thumbnail n] → freshName dk (v_Key v) random →
      Put faults random (v_Key v) (v_Content v) dk = (out, dk') → assetStep (s, dk) (s, dk')
  | step_crash budget partial random raw n v s dk :
      Normalize raw (uploadLimits d) = Ok n → v ∈ [n_Variant n; n_Thumbnail n] → freshName dk (v_Key v) random →
      assetStep (s, dk) (s, Crash budget partial random (v_Key v) (v_Content v) dk).

(** The store is well formed and every row has its blobs. *)
Definition assetsOK (st : S * Disk) : Prop :=
  wf st.1 ∧ ∀ w i a, GetAsset st.1 w i = Ok a → hasBlobs st.2 a.

Lemma uploadBlob_variant raw n v :
  Normalize raw (uploadLimits d) = Ok n → v ∈ [n_Variant n; n_Thumbnail n] →
  uploadBlob (v_Key v) (v_Content v) ∧ keyPattern (chars (v_Key v)) = true.
Proof.
  intros Hn Hv. destruct (Normalize_Ok _ _ _ Hn) as (Hsum & Hk1 & Hk2 & _ & _ & _ & Hp1 & Hp2 & _).
  apply elem_of_cons in Hv as [-> |Hv]; [rewrite Hk1; split; [by left|done]|].
  apply list_elem_of_singleton in Hv as ->. rewrite Hk2. split; [right; eexists; by rewrite Hsum|done].
Qed.

Lemma assetStep_OK st st' : assetStep st st' → assetsOK st → assetsOK st'.
Proof.
  intros Hstep [Hwf Hall]. destruct Hstep as [w randomID now r form world s dk resp st' Hid Hfresh Hup|
      faults random raw n v s dk out dk' Hn Hv Hf Hp|budget partial random raw n v s dk Hn Hv Hf]; cbn in Hwf, Hall.
  - destruct (upload_cases _ _ _ _ _ _ _ _ _ _ Hfresh Hup) as
      [(Hs & Hb & _)|(user & m & raw & n & _ & _ & _ & Hn & [(a & _ & -> & _)|(x & Hnew & _)])].
    + split; rewrite Hs; [done|]. intros w' i a Ha. apply Hb. by eapply Hall.
    + by split.
    + destruct (storedNew_row _ _ _ _ _ _ _ _ _ _ Hwf Hn (proj2 (Hfresh _ _ Hn)) Hid Hnew)
        as (Hwf' & Hsame & _ & _ & row & Hrow & _ & Hrb & _).
      split; [done|]. intros w' i a Ha. destruct (decide ((w', i) = (world, GenerateID randomID "asset"))) as [[= -> ->]|Hne].
      * rewrite Hrow in Ha. by injection Ha as <-.
      * rewrite Hsame in Ha by done. destruct Hnew as (_ & _ & _ & Hb & _). apply Hb. by eapply Hall.
  - destruct (uploadBlob_variant _ _ _ Hn Hv) as [Hub Hk].
    split; [done|]. intros w i a Ha. apply (hasBlobs_mono dk _ _ _ _ Hub); [|by eapply Hall].
    apply (Put_outcome _ _ _ _ _ _ _ Hf Hk) in Hp as [(_ & Ho & _)|[_ Ho]]; intros k; rewrite Ho; [|by left].
    case_decide; auto.
  - destruct (uploadBlob_variant _ _ _ Hn Hv) as [Hub Hk]. split; [done|]. intros w i a Ha.
    apply (hasBlobs_mono dk _ _ _ _ Hub); [|by eapply Hall]. intros k.
    destruct (Crash_outcome budget partial random (v_Key v) (v_Content v) dk k (proj1 Hf)) as [?|[-> ?]]; auto.
Qed.

(** ** Theorems *)

(** What was uploaded is what is served.  A created asset is served, to every
    member of its world, as exactly the encoder's bytes with their type, keyed by
    their hash; its thumbnail likewise; and those bytes come from the codecs, for
    an upload that a game master sent. *)
Theorem upload_is_served : ∀ w randomID now r form world s dk resp st',
  wf s → (∀ w, GetAsset s w (GenerateID randomID "asset") = Err ErrNotFound) → freshUpload w dk →
  uploadAssetHandler d w randomID now r form world (s, dk) = (resp, st') → resp_Status resp = 201 →
  ∃ user m raw n, req_User r = Some user ∧ GetMember s world (user_ID user) = Ok m ∧ member_Role m = RoleGM ∧
    Normalize raw (uploadLimits d) = Ok n ∧
    ∀ r' reader m', req_User r' = Some reader → GetMember s world (user_ID reader) = Ok m' →
      ∃ created,
        serveAssetHandler r' world (GenerateID randomID "asset") "" st' =
          (Streamed (v_Mime (n_Variant n)) (n_SHA256 n) created (v_Content (n_Variant n)), st') ∧
        serveAssetHandler r' world (GenerateID randomID "asset") "thumbnail" st' =
          (Streamed (v_Mime (n_Thumbnail n)) (n_SHA256 n +:+ "-thumb") created (v_Content (n_Thumbnail n)), st').
Proof.
  intros w randomID now r form world s dk resp st' Hwf Hid Hfresh Hup Hst.
  destruct (upload_cases _ _ _ _ _ _ _ _ _ _ Hfresh Hup) as
    [(_ & _ & _ & Hbad)|(user & m & raw & n & Hu & Hm & Hr & Hn & [(a & _ & _ & ->)|(x & Hnew & _)])]; [done|done|].
  destruct (storedNew_row _ _ _ _ _ _ _ _ _ _ Hwf Hn (proj2 (Hfresh _ _ Hn)) Hid Hnew)
    as (Hwf' & _ & Hmem & _ & row & Hrow & (_ & _ & Hsha & Hmime & _) & _ & Hthumb).
  destruct Hnew as (_ & _ & _ & _ & Ho1 & Ho2). cbn in Hsha, Hmime.
  exists user, m, raw, n. split_and!; [done..|]. intros r' reader m' Hu' Hm'. exists (asset_CreatedAt row).
  unfold serveAssetHandler, requireRoleAs, requireUserAs, servedKey. cbn [fst snd andb].
  rewrite Hu', Hmem, Hm', Hrow, Hthumb. cbn [andb]. rewrite bool_decide_eq_false_2, bool_decide_eq_true_2 by done.
  cbn [v_Key v_Mime withKey]. rewrite Hsha, Hmime, Ho1, Ho2. done.
Qed.

(** The same picture is stored once.  When a world already has an asset with the
    hash of an upload's bytes, the upload answers with that asset and changes
    neither the store nor the disk, whatever the quota; and right after a created
    upload the same file is answered that way. *)
Theorem upload_deduplicates : ∀ w randomID now r size content world s dk resp st' n,
  freshUpload w dk → Normalize (limitRead d content) (uploadLimits d) = Ok n →
  uploadAssetHandler d w randomID now r (UploadFile size content true) world (s, dk) = (resp, st') →
  (∀ a, GetAssetBySHA256 s world (n_SHA256 n) = Ok a → resp_Status resp ≠ 201 ∧ st' = (s, dk)) ∧
  (wf s → (∀ w, GetAsset s w (GenerateID randomID "asset") = Err ErrNotFound) → resp_Status resp = 201 →
   ∀ w2 randomID2 now2, ∃ a, asset_ID a = GenerateID randomID "asset" ∧
     uploadAssetHandler d w2 randomID2 now2 r (UploadFile size content true) world st' =
       (writeJSON 200 (Raw (viewAsset d a)), st')).
Proof.
  intros w randomID now r size content world s dk resp st' n Hfresh Hn Hup.
  unfold uploadAssetHandler in Hup. apply requireRoleAs_cases in Hup as [(-> & y & -> & Hy)|(user & m & Hu & Hm & Hr & Hup)].
  { split; intros; [by split; [apply refused_status|]|]. exfalso. by eapply (refused_status y 201). }
  destruct (_ <? size) eqn:Esize; [injection Hup as <- <-; by split; intros|]. cbn [negb] in Hup. rewrite Hn in Hup.
  destruct (storeAsset _ _ _ _ _ _ _ _) as [out st1] eqn:Es. cbn [fst] in Hm.
  destruct (storeAsset_cases _ _ _ _ _ _ _ _ _ _ _ Hn (proj1 (Hfresh _ _ Hn)) Es)
    as [(a & -> & Ha & ->)|[([e ->] & Hs1 & Hb)|(x & -> & Hno & Hq & Hp & Hb & Ho1 & Ho2)]]; injection Hup as <- <-.
  - split; [by intros; split|by intros].
  - split; [|by case_match]. intros a Ha. unfold storeAsset, lift, mbind, M_bind, existingAsset in Es. cbn [fst] in Es.
    rewrite Ha in Es. discriminate Es.
  - split; [intros a Ha; congruence|]. intros Hwf Hid _ w2 randomID2 now2.
    assert (storedNew randomID now world user n x s dk st1) as Hnew by by split_and!.
    destruct (storedNew_row _ _ _ _ _ _ _ _ _ _ Hwf Hn (proj2 (Hfresh _ _ Hn)) Hid Hnew)
      as (Hwf' & _ & Hmem & _ & row & Hrow & (Hri & _ & Hsha & _) & _ & _).
    exists row. split; [done|]. unfold uploadAssetHandler, requireRoleAs, requireUserAs. rewrite Hu, Hmem, Hm.
    rewrite (Hr eq_refl), bool_decide_eq_true_2 by done. cbn [negb andb]. rewrite Esize. cbn [negb]. rewrite Hn.
    unfold storeAsset, lift, mbind, M_bind, existingAsset. cbn in Hsha. rewrite <-Hsha.
    by rewrite (GetAssetBySHA256_found _ _ _ _ Hwf' Hrow).
Qed.

(** The quota of a world holds.  With a quota set, no step takes the bytes its
    assets are accounted for above it, and a created asset adds its bytes; sums
    are taken to fit 64 bits. *)
Theorem quota_holds : ∀ st st' world n,
  assetStep st st' → wf st.1 → 0 < ad_WorldQuota d → SumAssetBytes st.1 world = Ok n → 0 ≤ n ≤ ad_WorldQuota d →
  (∀ raw v, Normalize raw (uploadLimits d) = Ok v →
     0 ≤ n + v_Bytes (n_Variant v) + v_Bytes (n_Thumbnail v) ≤ max_int64) →
  ∃ n', SumAssetBytes st'.1 world = Ok n' ∧ n ≤ n' ≤ ad_WorldQuota d.
Proof.
  intros st st' world n Hstep Hwf Hquota Hn Hle Hfit.
  destruct Hstep as [w randomID now r form world' s dk resp st' Hid Hfresh Hup| |]; [|by exists n; split; [|lia]..].
  cbn [fst] in *. destruct (upload_cases _ _ _ _ _ _ _ _ _ _ Hfresh Hup) as
    [(Hs & _)|(user & m & raw & v & _ & _ & _ & Hv & [(a & _ & -> & _)|(x & (_ & Hq & Hp & _) & _)])].
  - exists n. rewrite Hs. split; [done|lia].
  - exists n. split; [done|lia].
  - destruct (PutAsset_fresh now (newAsset randomID world' (user_ID user) v) s x st'.1 Hwf Hid Hp) as (_ & _ & _ & _ & _ & _ & Hsum & Hsum').
    destruct (decide (world = world')) as [->|Hne]; [|exists n; rewrite Hsum' by done; split; [done|lia]].
    exists (n + v_Bytes (n_Variant v)). split; [by apply Hsum|].
    destruct (Normalize_Ok _ _ _ Hv) as (_ & _ & _ & _ & Hb & Htb & _). specialize (Hfit _ _ Hv).
    unfold withinQuota in Hq. rewrite (proj2 (Z.leb_gt _ _)) in Hq by done. rewrite Hn in Hq.
    cbn [mbind res_bind] in Hq. apply guard_res_Ok, negb_true_iff, Z.ltb_ge in Hq.
    unfold max_int64 in Hfit.
    assert (∀ z, 0 ≤ z ≤ 2 ^ 63 - 1 → wrap64 z = z) as Hw
      by (intros z Hz; apply wrap64_id; unfold in_int64, min_int64, max_int64; lia).
    rewrite (Hw (v_Bytes (n_Variant v) + v_Bytes (n_Thumbnail v))) in Hq by lia. rewrite Hw in Hq by lia. lia.
Qed.
End AssetProofs.
