(* ===== verification/Router.v ===== *)
(** * The routes of the HTTP API (internal/transport/httpapi/router.go)

    The patterns the router registers with their handlers, how a request finds
    its handler, and the whole API as one step on the state of the server.  The
    multiplexer is the standard library's: a pattern is a method and a path
    whose segments are literals or wildcards for one segment; a pattern for GET
    also serves HEAD.  What a handler takes from outside the request (instants,
    random ids and tokens, the parsed upload) is the record [choices]. *)

From S2P Require Import Prelude GoStrings Json Perm Storage Redact RateLimit Password Auth Ticket Blob AssetImage.
From S2P Require Import Http Worlds Scenes Assets.
From Stdlib Require Import Ascii.

Local Open Scope Z_scope.

(** ** Patterns *)

Inductive pathSegment := Literal (s : string) | Wildcard (name : string).

#[export] Instance pathSegment_eq_dec : EqDecision pathSegment.
Proof. solve_decision. Defined.

(** [{name}] is a wildcard. *)
Definition parseSegment (s : string) : pathSegment :=
  match chars s with
  | c :: l => if bool_decide (c = "{"%char) then Wildcard (unchars (take (length l - 1) l)) else Literal s
  | [] => Literal s
  end.

Definition parsePattern (s : string) : list pathSegment := parseSegment <$> Split "/"%char s.

(** The values of the wildcards when the path matches, as [r.PathValue] reads
    them. *)
Fixpoint matchSegments (p : list pathSegment) (path : list string) : option (list (string * string)) :=
  match p, path with
  | [], [] => Some []
  | Literal s :: p, x :: path => if bool_decide (s = x) then matchSegments p path else None
  | Wildcard n :: p, x :: path =>
      if bool_decide (x = "") then None else vs ← matchSegments p path; Some ((n, x) :: vs)
  | _, _ => None
  end.

Definition PathValue (vs : list (string * string)) (name : string) : string :=
  default "" (snd <$> head (filter (λ v, v.1 = name) vs)).

Definition servesMethod (pattern method : string) : bool :=
  bool_decide (pattern = method) || (bool_decide (pattern = "GET") && bool_decide (method = "HEAD")).

(** ** Endpoints *)

Inductive endpoint :=
  | Healthz | Readyz
  | SetupState | Setup | LoginAt | LogoutAt | Me | TicketAt
  | Worlds | CreateWorld
  | Members (world : ID) | SetRole (world user : ID) | RemoveMember (world user : ID)
  | Invites (world : ID) | CreateInvite (world : ID) | RevokeInviteAt (world invite : ID)
  | ScenesOf (world : ID) | CreateScene (world : ID)
  | TokensOf (world scene : ID) | CreateToken (world scene : ID)
  | WallsOf (world scene : ID) | CreateWall (world scene : ID)
  | ActorsOf (world : ID) | CreateActor (world : ID)
  | SetAccess (world document : ID)
  | AssetsOf (world : ID) | UploadAsset (world : ID)
  | ServeAsset (world asset : ID) (variant : string)
  | PreviewInvite (token : string) | AcceptInvite (token : string)
  | Socket.

(** The parts of [Deps] that decide what is registered. *)
Record wiring := MkWiring { hasService : bool; hasBlobs : bool; hasSocket : bool }.

Definition route : Type := string * string * ((string → string) → endpoint).

Definition infoRoutes : list route :=
  [ ("GET", "/healthz", λ _, Healthz);
    ("GET", "/readyz", λ _, Readyz) ].

Definition serviceRoutes : list route :=
  [ ("GET", "/api/setup", λ _, SetupState);
    ("POST", "/api/setup", λ _, Setup);
    ("POST", "/api/auth/login", λ _, LoginAt);
    ("POST", "/api/auth/logout", λ _, LogoutAt);
    ("GET", "/api/auth/me", λ _, Me);
    ("POST", "/api/session/ticket", λ _, TicketAt);
    ("GET", "/api/worlds", λ _, Worlds);
    ("POST", "/api/worlds", λ _, CreateWorld);
    ("GET", "/api/worlds/{worldId}/members", λ v, Members (v "worldId"));
    ("PUT", "/api/worlds/{worldId}/members/{userId}", λ v, SetRole (v "worldId") (v "userId"));
    ("DELETE", "/api/worlds/{worldId}/members/{userId}", λ v, RemoveMember (v "worldId") (v "userId"));
    ("GET", "/api/worlds/{worldId}/invites", λ v, Invites (v "worldId"));
    ("POST", "/api/worlds/{worldId}/invites", λ v, CreateInvite (v "worldId"));
    ("DELETE", "/api/worlds/{worldId}/invites/{inviteId}",
       λ v, RevokeInviteAt (v "worldId") (v "inviteId"));
    ("GET", "/api/worlds/{worldId}/scenes", λ v, ScenesOf (v "worldId"));
    ("POST", "/api/worlds/{worldId}/scenes", λ v, CreateScene (v "worldId"));
    ("GET", "/api/worlds/{worldId}/scenes/{sceneId}/tokens", λ v, TokensOf (v "worldId") (v "sceneId"));
    ("POST", "/api/worlds/{worldId}/scenes/{sceneId}/tokens",
       λ v, CreateToken (v "worldId") (v "sceneId"));
    ("GET", "/api/worlds/{worldId}/scenes/{sceneId}/walls", λ v, WallsOf (v "worldId") (v "sceneId"));
    ("POST", "/api/worlds/{worldId}/scenes/{sceneId}/walls",
       λ v, CreateWall (v "worldId") (v "sceneId"));
    ("GET", "/api/worlds/{worldId}/actors", λ v, ActorsOf (v "worldId"));
    ("POST", "/api/worlds/{worldId}/actors", λ v, CreateActor (v "worldId"));
    ("PUT", "/api/worlds/{worldId}/documents/{documentId}/access",
       λ v, SetAccess (v "worldId") (v "documentId")) ].

Definition blobRoutes : list route :=
  [ ("GET", "/api/worlds/{worldId}/assets", λ v, AssetsOf (v "worldId"));
    ("POST", "/api/worlds/{worldId}/assets", λ v, UploadAsset (v "worldId"));
    ("GET", "/assets/{worldId}/{assetId}", λ v, ServeAsset (v "worldId") (v "assetId") (v "variant"));
    ("GET", "/assets/{worldId}/{assetId}/{variant}",
       λ v, ServeAsset (v "worldId") (v "assetId") (v "variant")) ].

Definition inviteRoutes : list route :=
  [ ("GET", "/api/invites/{token}", λ v, PreviewInvite (v "token"));
    ("POST", "/api/invites/{token}/accept", λ v, AcceptInvite (v "token")) ].

Definition NewRouter (w : wiring) : list route :=
  infoRoutes ++
  (if hasService w then
     serviceRoutes ++ (if hasBlobs w then blobRoutes else []) ++ inviteRoutes
   else []) ++
  (if hasSocket w then [("GET", "/ws", λ _, Socket)] else []).

(** A route that serves a method and a path. *)
Definition answers (method : string) (path : list string) (x : route) : option endpoint :=
  let '(m, pattern, handler) := x in
  if servesMethod m method then
    vs ← matchSegments (parsePattern pattern) path; Some (handler (PathValue vs))
  else None.

Definition resolve (w : wiring) (method path : string) : option endpoint :=
  head (omap (answers method (Split "/"%char path)) (NewRouter w)).

(** ** The API *)

Record choices := MkChoices {
  ch_now : Time; ch_later : Time; ch_fail : Time; ch_created : Time; ch_base : Time;
  ch_id : string; ch_token : res string; ch_salt : res bytes; ch_ready : res unit;
  ch_writes : writes; ch_form : upload
}.

Inductive reply :=
  | Reply (r : served)
  | Upgrade
  | NoRoute.

Section Api.
Context `{Unicode} `{Argon2} `{ImageCodecs} {S : Type} `{Tx S}.
Variables (auth : AuthDeps) (assetsAt : AssetDeps) (policy : FieldPolicy) (backend : string).

Record server := MkServer {
  srv_store : S; srv_limiter : Limiter; srv_tickets : TicketStore; srv_disk : Disk
}.

(** Handlers on a part of the state. *)
Definition atStore (k : S → Response * S) (st : server) : reply * server :=
  let '(resp, s) := k (srv_store st) in
  (Reply (Answered resp), MkServer s (srv_limiter st) (srv_tickets st) (srv_disk st)).
Definition atLimiter (k : S * Limiter → Response * (S * Limiter)) (st : server) : reply * server :=
  let '(resp, (s, l)) := k (srv_store st, srv_limiter st) in
  (Reply (Answered resp), MkServer s l (srv_tickets st) (srv_disk st)).
Definition atTickets (k : S * TicketStore → Response * (S * TicketStore)) (st : server) : reply * server :=
  let '(resp, (s, t)) := k (srv_store st, srv_tickets st) in
  (Reply (Answered resp), MkServer s (srv_limiter st) t (srv_disk st)).
Definition atDisk {R} (answer : R → served) (k : S * Disk → R * (S * Disk)) (st : server) : reply * server :=
  let '(resp, (s, d)) := k (srv_store st, srv_disk st) in
  (Reply (answer resp), MkServer s (srv_limiter st) (srv_tickets st) d).
Definition fixedAnswer (resp : Response) (st : server) : reply * server := (Reply (Answered resp), st).

Definition healthz : Response := writeJSON 200 (Raw (JObj (fStr "status" "ok"))).
Definition readyz (ready : res unit) : Response :=
  match ready with
  | Err _ => writeJSON 503 (Raw (JObj (fStr "status" "unavailable" ++ fStr "reason" "storage")))
  | Ok _ => writeJSON 200 (Raw (JObj (fStr "status" "ready" ++ fStr "storage" backend)))
  end.

Definition dispatch (c : choices) (e : endpoint) (r : Request) : server → reply * server :=
  let now := ch_now c in
  match e with
  | Healthz => fixedAnswer healthz
  | Readyz => fixedAnswer (readyz (ch_ready c))
  | SetupState => atStore (setupStateHandler r)
  | Setup => atStore (setupHandler auth (ch_salt c) (ch_id c) (ch_token c) now r)
  | LoginAt => atLimiter (loginHandler auth (ch_token c) now (ch_fail c) (ch_later c) r)
  | LogoutAt => atStore (logoutHandler auth r)
  | Me => atStore (meHandler r)
  | TicketAt => atTickets (ticketHandler (ch_token c) now (ch_later c) r)
  | Worlds => atStore (listWorldsHandler r)
  | CreateWorld => atStore (createWorldHandler (ch_id c) now r)
  | Members w => atStore (listMembersHandler r w)
  | SetRole w u => atStore (setMemberRoleHandler now r w u)
  | RemoveMember w u => atStore (removeMemberHandler r w u)
  | Invites w => atStore (listInvitesHandler r w)
  | CreateInvite w =>
      atStore (createInviteHandler (ch_token c) (ch_id c) (ch_created c) (ch_base c) now r w)
  | RevokeInviteAt w i => atStore (revokeInviteHandler now r w i)
  | ScenesOf w => atStore (listScenesHandler r w)
  | CreateScene w => atStore (createSceneHandler (ch_id c) now r w)
  | TokensOf w s => atStore (listTokensHandler policy r w s)
  | CreateToken w s => atStore (createTokenHandler (ch_id c) now r w s)
  | WallsOf w s => atStore (listWallsHandler r w s)
  | CreateWall w s => atStore (createWallHandler (ch_id c) now r w s)
  | ActorsOf w => atStore (listActorsHandler policy r w)
  | CreateActor w => atStore (createActorHandler (ch_id c) now r w)
  | SetAccess w d => atStore (setDocumentAccessHandler now r w d)
  | AssetsOf w => atStore (listAssetsHandler assetsAt r w)
  | UploadAsset w => atDisk Answered (uploadAssetHandler assetsAt (ch_writes c) (ch_id c) now r (ch_form c) w)
  | ServeAsset w a v => atDisk (λ x, x) (serveAssetHandler r w a v)
  | PreviewInvite t => atStore (previewInviteHandler now t)
  | AcceptInvite t =>
      atStore (acceptInviteHandler auth (ch_salt c) (ch_id c) (ch_token c) now r t)
  | Socket => λ st, (Upgrade, st)
  end.

(** A request from the network: the session middleware, then the handler its
    method and path resolve to. *)
Definition serve (w : wiring) (c : choices) (method path : string) (r : Request) (st : server)
    : reply * server :=
  let '(r, s) := if hasService w then withUser (ch_now c) r (srv_store st) else (r, srv_store st) in
  let st := MkServer s (srv_limiter st) (srv_tickets st) (srv_disk st) in
  match resolve w method path with
  | Some e => dispatch c e r st
  | None => (NoRoute, st)
  end.
End Api.

(** ** Who may use an endpoint *)

Inductive guard :=
  | Anyone
  | SignedIn
  | MemberOf (world : ID)
  | GameMasterOf (world : ID).

Definition guardOf (e : endpoint) : guard :=
  match e with
  | Healthz | Readyz | SetupState | Setup | LoginAt | LogoutAt | PreviewInvite _ | AcceptInvite _
  | Socket => Anyone
  | Me | TicketAt | Worlds | CreateWorld => SignedIn
  | Members w | ScenesOf w | TokensOf w _ | WallsOf w _ | ActorsOf w | AssetsOf w
  | ServeAsset w _ _ => MemberOf w
  | SetRole w _ | RemoveMember w _ | Invites w | CreateInvite w | RevokeInviteAt w _
  | CreateScene w | CreateToken w _ | CreateWall w _ | CreateActor w | SetAccess w _
  | UploadAsset w => GameMasterOf w
  end.

Section Access.
Context {S : Type} `{Tx S}.

(** The refusal a guard gives to a user in a store, if any. *)
Definition refusal (g : guard) (user : option User) (s : S) : option Response :=
  match g, user with
  | Anyone, _ => None
  | _, None => Some (apiError 401 "unauthorized" "core.auth.signInRequired")
  | SignedIn, Some _ => None
  | MemberOf w, Some u =>
      match GetMember s w (user_ID u) with
      | Err _ => Some (apiError 403 "forbidden" "core.auth.notAMemberOfThisWorld")
      | Ok _ => None
      end
  | GameMasterOf w, Some u =>
      match GetMember s w (user_ID u) with
      | Err _ => Some (apiError 403 "forbidden" "core.auth.notAMemberOfThisWorld")
      | Ok m =>
          if bool_decide (member_Role m = RoleGM) then None
          else Some (apiError 403 "forbidden" "core.auth.gameMasterOnly")
      end
  end.

(** What [requireUser] and [requireRole] answer is the refusal of their guard. *)
Lemma requireUserAs_refusal {T R} (store : T → S) (answer : Response → R) r k st x :
  refusal SignedIn (req_User r) (store st) = Some x →
  requireUserAs answer r k st = (answer x, st).
Proof. unfold requireUserAs, refusal. destruct (req_User r); [done|]. by intros [= <-]. Qed.

Lemma requireRoleAs_refusal {T R} (store : T → S) (answer : Response → R) r w (gmOnly : bool) k st x :
  refusal (if gmOnly then GameMasterOf w else MemberOf w) (req_User r) (store st) = Some x →
  requireRoleAs store answer r w gmOnly k st = (answer x, st).
Proof.
  unfold requireRoleAs, requireUserAs, refusal.
  destruct gmOnly, (req_User r) as [u|]; try (by intros [= <-]);
    (destruct (GetMember (store st) w (user_ID u)); [|by intros [= <-]]); cbn; [|done].
  case_bool_decide; [done|]. by intros [= <-].
Qed.
End Access.

Section Guarded.
Context `{Unicode} `{Argon2} `{ImageCodecs} {S : Type} `{Tx S}.
Variables (auth : AuthDeps) (assetsAt : AssetDeps) (policy : FieldPolicy) (backend : string).
Local Abbreviation run := (dispatch (S := S) auth assetsAt policy backend).

Lemma atStore_refused (k : S → Response * S) x st :
  k (srv_store st) = (x, srv_store st) → atStore k st = (Reply (Answered x), st).
Proof. unfold atStore. intros ->. by destruct st. Qed.

Lemma dispatch_refused c e r st x :
  refusal (guardOf e) (req_User r) (srv_store st) = Some x → run c e r st = (Reply (Answered x), st).
Proof.
  intros Hx. destruct e; try discriminate Hx; cbn [guardOf] in Hx;
    lazymatch goal with
    | |- run _ TicketAt _ _ = _ =>
        unfold dispatch, atTickets, ticketHandler, requireUser;
        rewrite (requireUserAs_refusal fst _ _ _ (srv_store st, srv_tickets st) _ Hx); by destruct st
    | |- run _ (UploadAsset _) _ _ = _ =>
        unfold dispatch, atDisk, uploadAssetHandler;
        rewrite (requireRoleAs_refusal fst _ _ _ true _ (srv_store st, srv_disk st) _ Hx); by destruct st
    | |- run _ (ServeAsset _ _ _) _ _ = _ =>
        unfold dispatch, atDisk, serveAssetHandler;
        rewrite (requireRoleAs_refusal fst _ _ _ false _ (srv_store st, srv_disk st) _ Hx); by destruct st
    | |- run _ (SetRole _ _) _ _ = _ =>
        apply atStore_refused; unfold setMemberRoleHandler, admitRole;
        by rewrite (requireRoleAs_refusal (λ s, s) inl _ _ true _ _ _ Hx)
    | |- run _ (RemoveMember _ _) _ _ = _ =>
        apply atStore_refused; unfold removeMemberHandler, admitRemoval;
        by rewrite (requireRoleAs_refusal (λ s, s) inl _ _ true _ _ _ Hx)
    | |- _ =>
        apply atStore_refused;
        first [ exact (requireUserAs_refusal (λ s, s) (λ resp, resp) _ _ _ _ Hx)
              | exact (requireRoleAs_refusal (λ s, s) (λ resp, resp) _ _ true _ _ _ Hx)
              | exact (requireRoleAs_refusal (λ s, s) (λ resp, resp) _ _ false _ _ _ Hx) ]
    end.
Qed.
End Guarded.

(** ** The world in the path *)

(** The paths of a world: below [/api/worlds/{worldId}/] and
    [/assets/{worldId}/]. *)
Definition pathOfWorld (w : ID) (path : list string) : Prop :=
  ∃ x rest, path = "" :: "api" :: "worlds" :: w :: x :: rest ∨ path = "" :: "assets" :: w :: x :: rest.

(** What a request under a path of [w] must find required: membership of [w],
    and to change anything the role of game master there. *)
Definition guardsWorld (w : ID) (method : string) (e : endpoint) : Prop :=
  guardOf e = GameMasterOf w ∨ guardOf e = MemberOf w ∧ servesMethod "GET" method = true.

(** One route against a path of a world: its literals and wildcards are read
    off the pattern. *)
Ltac read_route H :=
  cbn [answers] in H;
  repeat match type of H with
  | context [parsePattern ?s] =>
      let p := eval vm_compute in (parsePattern s) in change (parsePattern s) with p in H
  end;
  destruct (servesMethod _ _) eqn:?; [|discriminate H];
  cbn [matchSegments] in H;
  repeat (case_bool_decide; cbn [mbind option_bind] in H; try discriminate; subst;
          try match type of H with context [match ?l with [] => _ | _ :: _ => _ end] =>
            is_var l; destruct l; cbn [matchSegments] in H end);
  try discriminate H.

Lemma route_guards w method path x e :
  pathOfWorld w path → x ∈ NewRouter (MkWiring true true true) →
  answers method path x = Some e → guardsWorld w method e.
Proof.
  intros (y & rest & Hpath) Hx He. cbn in Hx.
  repeat (apply elem_of_cons in Hx as [->|Hx];
    [destruct Hpath as [-> | ->]; read_route He;
     try (injection He as <-; unfold guardsWorld; cbn; auto) |]).
  by apply elem_of_nil in Hx.
Qed.

Lemma NewRouter_full wi x : x ∈ NewRouter wi → x ∈ NewRouter (MkWiring true true true).
Proof.
  destruct wi as [[] [] []]; unfold NewRouter; cbn [hasService hasBlobs hasSocket];
    rewrite ?app_nil_r, !elem_of_app; rewrite ?elem_of_nil; tauto.
Qed.

Lemma resolve_guards wi w method path e :
  pathOfWorld w (Split "/"%char path) → resolve wi method path = Some e → guardsWorld w method e.
Proof.
  intros Hp He. unfold resolve in He. apply head_Some_elem_of, list_elem_of_omap in He as (x & Hx & He).
  by eapply route_guards; [|apply (NewRouter_full wi)|].
Qed.

Section Gate.
Context `{Unicode} `{Argon2} `{ImageCodecs} {S : Type} `{Tx S}.
Variables (auth : AuthDeps) (assetsAt : AssetDeps) (policy : FieldPolicy) (backend : string).

(** The state after the session middleware. *)
Definition signIn (now : Time) (r : Request) (st : server) : Request * server :=
  let '(r, s) := withUser now r (srv_store (S := S) st) in
  (r, MkServer s (srv_limiter st) (srv_tickets st) (srv_disk st)).

(** Whoever passes the guard of a world's endpoint is its member, and its game
    master where the guard says so. *)
Lemma refusal_None g w user (s : S) :
  g = GameMasterOf w ∨ g = MemberOf w → refusal g user s = None →
  ∃ u m, user = Some u ∧ GetMember s w (user_ID u) = Ok m ∧ (g = GameMasterOf w → member_Role m = RoleGM).
Proof.
  intros [-> | ->]; unfold refusal; destruct user as [u|]; try done;
    (destruct (GetMember s w (user_ID u)) as [m|] eqn:Em; [|done]).
  - case_bool_decide; [|done]. intros _. by exists u, m.
  - intros _. by exists u, m.
Qed.

Lemma refusal_status g user (s : S) x : refusal g user s = Some x → resp_Status x = 401 ∨ resp_Status x = 403.
Proof.
  unfold refusal. destruct g, user; try done; repeat case_match; try done; intros [= <-]; cbn; auto.
Qed.

(** C14: every request about a world is gated by membership in it.  Whatever
    endpoint a request under a path of world [w] reaches, either it is answered
    401 or 403 and has no effect beyond the session middleware, or the session
    cookie names a user who is a member of [w], its game master unless the
    method is GET or HEAD. *)
Theorem world_paths_are_gated c w wi method path r st e out st' :
  hasService wi = true →
  pathOfWorld w (Split "/"%char path) → resolve wi method path = Some e →
  serve auth assetsAt policy backend wi c method path r st = (out, st') →
  let '(r1, st1) := signIn (ch_now c) r st in
  (∃ x, out = Reply (Answered x) ∧ (resp_Status x = 401 ∨ resp_Status x = 403) ∧ st' = st1) ∨
  ∃ u m, req_User r1 = Some u ∧ GetMember (srv_store st1) w (user_ID u) = Ok m ∧
    (servesMethod "GET" method = false → member_Role m = RoleGM).
Proof.
  intros Hwi Hp He. pose proof (resolve_guards _ _ _ _ _ Hp He) as Hg.
  unfold serve, signIn. rewrite Hwi, He.
  destruct (withUser (ch_now c) r (srv_store st)) as [r1 s1]. cbn [srv_store].
  destruct (refusal (guardOf e) (req_User r1) s1) as [x|] eqn:Hx.
  - rewrite (dispatch_refused _ _ _ _ c e r1 (MkServer s1 _ _ _) x Hx). intros [= <- <-]. left.
    exists x. split_and!; [done| |done]. by eapply refusal_status.
  - intros _. right.
    destruct (refusal_None (guardOf e) w (req_User r1) s1) as (u & m & Hu & Hm & Hgm); [|done|].
    { destruct Hg as [->|[-> _]]; auto. }
    exists u, m. split_and!; [done..|]. intros Hget. apply Hgm.
    destruct Hg as [->|[-> Hg]]; [done|congruence].
Qed.
End Gate.

(** ** No request has two handlers *)

(** Whether some path could match both patterns. *)
Fixpoint overlap (p q : list pathSegment) : bool :=
  match p, q with
  | [], [] => true
  | Literal a :: p, Literal b :: q => bool_decide (a = b) && overlap p q
  | Literal a :: p, Wildcard _ :: q | Wildcard _ :: p, Literal a :: q =>
      negb (bool_decide (a = "")) && overlap p q
  | Wildcard _ :: p, Wildcard _ :: q => overlap p q
  | _, _ => false
  end.

Lemma matchSegments_cons a p x path vs :
  matchSegments (a :: p) (x :: path) = Some vs →
  match a with Literal s => s = x | Wildcard _ => x ≠ "" end ∧ is_Some (matchSegments p path).
Proof.
  destruct a; cbn; case_bool_decide; try done.
  destruct (matchSegments p path); [by eauto|done].
Qed.

Lemma overlap_sound p q path :
  is_Some (matchSegments p path) → is_Some (matchSegments q path) → overlap p q = true.
Proof.
  revert q path. induction p as [|a p IH]; intros [|b q] [|x path] [vs Hp] [ws Hq];
    try by (try destruct a; try destruct b; cbn in * ).
  apply matchSegments_cons in Hp as [Ha Hp]. apply matchSegments_cons in Hq as [Hb Hq].
  pose proof (IH _ _ Hp Hq) as Hr.
  destruct a, b; cbn; rewrite Hr; rewrite ?andb_true_r; subst; [by apply bool_decide_eq_true| | |done];
    by apply negb_true_iff, bool_decide_eq_false.
Qed.

Definition keyOf (x : route) : string * list pathSegment := (x.1.1, parsePattern x.1.2).

(** Two routes that may serve the same request are the same entry, and none is
    registered for HEAD itself. *)
Definition unambiguous (routes : list route) : bool :=
  forallb (λ x, negb (bool_decide (x.1.1 = "HEAD")) &&
    forallb (λ y, implb (bool_decide (x.1.1 = y.1.1) && overlap (keyOf x).2 (keyOf y).2)
                        (bool_decide (keyOf x = keyOf y))) routes) routes.

Lemma keys_unique : NoDup (keyOf <$> NewRouter (MkWiring true true true)) ∧
  unambiguous (NewRouter (MkWiring true true true)) = true.
Proof. split; [apply (bool_decide_unpack _); vm_compute; exact I|vm_compute; reflexivity]. Qed.

Lemma NoDup_fmap_eq {A B} (f : A → B) l x y : NoDup (f <$> l) → x ∈ l → y ∈ l → f x = f y → x = y.
Proof.
  induction l as [|a l IH]; cbn; [by intros _ ?%elem_of_nil|].
  rewrite NoDup_cons, !elem_of_cons. intros [Hn Hl] [->|Hx] [->|Hy] Heq; [done| | |by apply IH].
  - destruct Hn. rewrite Heq. by apply list_elem_of_fmap_2.
  - destruct Hn. rewrite <-Heq. by apply list_elem_of_fmap_2.
Qed.

Lemma route_unique method path x y e1 e2 :
  x ∈ NewRouter (MkWiring true true true) → y ∈ NewRouter (MkWiring true true true) →
  answers method path x = Some e1 → answers method path y = Some e2 → x = y.
Proof.
  intros Hx Hy Hax Hay. destruct keys_unique as [Hnd Hu].
  apply (NoDup_fmap_eq keyOf _ x y Hnd Hx Hy).
  unfold unambiguous in Hu. rewrite forallb_forall in Hu.
  pose proof (Hu y (proj1 (list_elem_of_In _ _) Hy)) as [HHy _]%andb_prop.
  specialize (Hu x (proj1 (list_elem_of_In _ _) Hx)) as [HHx Hu]%andb_prop.
  rewrite forallb_forall in Hu. specialize (Hu y (proj1 (list_elem_of_In _ _) Hy)).
  apply negb_true_iff, bool_decide_eq_false in HHx, HHy.
  destruct x as [[mx px] hx], y as [[my py] hy]. cbn in *.
  destruct (servesMethod mx method) eqn:Hmx; [|done]. destruct (servesMethod my method) eqn:Hmy; [|done].
  destruct (matchSegments (parsePattern px) path) as [vs|] eqn:Hvs; [|done].
  destruct (matchSegments (parsePattern py) path) as [ws|] eqn:Hws; [|done].
  assert (mx = my) as ->.
  { unfold servesMethod in *. repeat case_bool_decide; cbn in *; congruence. }
  rewrite (overlap_sound _ _ path) in Hu by by eexists.
  rewrite bool_decide_eq_true_2 in Hu by done.
  cbn in Hu. by apply bool_decide_eq_true in Hu.
Qed.

(** A request is served by a route exactly when that route's pattern matches it:
    the order of registration does not matter, and no two registered patterns
    conflict. *)
Lemma resolve_exact wi method path e :
  resolve wi method path = Some e ↔
  ∃ x, x ∈ NewRouter wi ∧ answers method (Split "/"%char path) x = Some e.
Proof.
  unfold resolve. split.
  - intros He. apply head_Some_elem_of, list_elem_of_omap in He as (x & Hx & He). eauto.
  - intros (x & Hx & He). destruct (omap _ _) as [|e' l] eqn:Eo.
    { assert (e ∈ ([] : list endpoint)) as []%elem_of_nil. rewrite <-Eo. apply list_elem_of_omap. eauto. }
    cbn. f_equal. assert (e' ∈ e' :: l) as Hin by left. rewrite <-Eo in Hin.
    apply list_elem_of_omap in Hin as (y & Hy & He').
    assert (y = x) as -> by (eapply route_unique; eauto using NewRouter_full). congruence.
Qed.
