(* ===== verification/Server.v ===== *)
(** * The server as a whole

    Every request of the HTTP API (Router.v) and every message of a session
    (the intents of the four files that register them) as steps on one store,
    and what holds under all of them: a handler [keeps] to the tables it may
    write or is [stable] on them (Footprint.v) because it is built of parts that
    are, so a well-formed store stays well formed, the log of events only grows,
    and every asset keeps its blob. *)

From S2P Require Import Prelude GoStrings Json Perm Storage Redact Dice RateLimit Password Auth Ticket Blob AssetImage.
From S2P Require Import Frame Outbox Hub Session Intents Chat Combat Doors.
From S2P Require Import Http Worlds Footprint Scenes Assets Router.
From Stdlib Require Import Ascii.

Local Open Scope Z_scope.

(** ** What an endpoint writes *)

Definition endpointTables (e : endpoint) : list table :=
  match e with
  | Setup => [TUsers; TSessions]
  | LoginAt | LogoutAt => [TSessions]
  | CreateWorld => [TWorlds; TMembers]
  | SetRole _ _ | RemoveMember _ _ => [TMembers]
  | CreateInvite _ | RevokeInviteAt _ _ => [TInvites]
  | AcceptInvite _ => [TUsers; TSessions; TMembers; TInvites]
  | CreateScene _ | CreateToken _ _ | CreateActor _ | CreateWall _ _ | SetAccess _ _ => [TDocuments]
  | UploadAsset _ => [TAssets]
  | _ => []
  end.

Section Handlers.
Context `{Unicode} `{Argon2} `{ImageCodecs} {S : Type} `{TxLaws S}.
Variables (auth : AuthDeps) (assetsAt : AssetDeps) (policy : FieldPolicy).

(** *** Accounts *)

Lemma keeps_insertUser T now u : TUsers ∈ T → keeps T (insertUser now u : M S User).
Proof.
  intros HT s a s' Hwf. unfold insertUser. destruct (GetUserByUsername s _) as [|e]; [done|].
  destruct (negb _); [done|]. destruct (PutUser now u s) as [[x|e'] s1] eqn:E; [|done].
  intros [= <- <-]. by eapply (keeps_PutUser T).
Qed.
Hint Resolve keeps_insertUser : keeps.

Lemma keeps_IssueSession T svc token now u agent :
  TSessions ∈ T → keeps T (IssueSession svc token now u agent : M S _).
Proof. intros HT. unfold IssueSession. keep. Qed.
Hint Resolve keeps_IssueSession : keeps.

Lemma Authenticate_stable token now : stable [TSessions] (Authenticate token now : M S User).
Proof.
  unfold Authenticate, Logout. by_transaction.
Qed.

Lemma withUser_stable now r : stable [TSessions] (withUser (S := S) now r).
Proof.
  intros s x s' Hwf. unfold withUser. destruct (req_Cookie r) as [v|]; [|by intros [= _ <-]].
  case_bool_decide; [by intros [= _ <-]|]. destruct (Authenticate v now s) as [[u|e] s1] eqn:E;
    apply Authenticate_stable in E; try done; by intros [= _ <-].
Qed.

Lemma loginHandler_stable token tA tF now r l s x s' l' :
  wf s → loginHandler auth token tA tF now r (s, l) = (x, (s', l')) → writesTo [TSessions] s s'.
Proof.
  intros Hwf. unfold loginHandler, Http.withBody. destruct (decodeCredentials _) as [body|]; [|by intros [= _ <- _]].
  unfold Login. destruct (Allow _ _ _ _) as [allowed l1]. destruct (negb allowed); [by intros [= _ <- _]|].
  destruct (loginAccount _ s) as [u|]; [|by intros [= _ <- _]].
  destruct (VerifyPassword _ _) as [[]|]; try by intros [= _ <- _].
  destruct token as [t|]; [|by intros [= _ <- _]].
  destruct (runTx _ s) as [[y|e] s1] eqn:E; (apply (runTx_stable [TSessions]) in E; [|auto with keeps|done]); by intros [= _ <- _].
Qed.

Lemma logoutHandler_stable r : stable [TSessions] (logoutHandler (S := S) auth r).
Proof. unfold logoutHandler, Logout. by_transaction. Qed.

Lemma setupHandler_stable salt i token now r : stable [TUsers; TSessions] (setupHandler (S := S) auth salt i token now r).
Proof. unfold setupHandler, setupTx, NeedsSetup, Http.withBody. by_transaction. Qed.

(** *** Worlds, members and invites *)

Lemma createWorldHandler_stable i now r : stable [TWorlds; TMembers] (createWorldHandler (S := S) i now r).
Proof.
  unfold createWorldHandler. stabilize. unfold createWorldTx.
  assert (∀ i now b slug, keeps [TWorlds; TMembers] (PutWorld now (newWorld i now b slug) : M S World)) as Hnew.
  { intros. apply keeps_PutWorld; [left|done]. }
  by_transaction.
Qed.

Lemma membersHandlers_stable now r w u :
  stable [] (listMembersHandler (S := S) r w) ∧ stable [TMembers] (setMemberRoleHandler (S := S) now r w u) ∧
  stable [TMembers] (removeMemberHandler (S := S) r w u).
Proof.
  assert (∀ role, stable [TMembers] (storeRole (S := S) now w u role)) as Hrole
    by (intros; unfold storeRole; by_transaction).
  assert (stable [TMembers] (storeRemoval (S := S) w u)) as Hremoval by (unfold storeRemoval; by_transaction).
  unfold listMembersHandler, setMemberRoleHandler, removeMemberHandler.
  split_and!; [stabilize; by_transaction|intros s resp s' Hwf..].
  - destruct (admitRole r w u s) as [out s0] eqn:Ea.
    apply admitRole_cases in Ea as [-> [[x ->]|(_ & _ & role & _ & _ & _ & -> & _)]]; [by intros [= _ <-]|].
    by apply Hrole.
  - destruct (admitRemoval r w u s) as [out s0] eqn:Ea.
    apply admitRemoval_cases in Ea as [-> [[x ->]|(_ & _ & _ & _ & _ & -> & _)]]; [by intros [= _ <-]|].
    by apply Hremoval.
Qed.

Lemma keeps_joiningUser T salt i token now r n p :
  TUsers ∈ T → TSessions ∈ T → keeps T (joiningUser auth salt i token now r n p : M S _).
Proof. intros HT1 HT2. unfold joiningUser. keep. Qed.
Hint Resolve keeps_joiningUser : keeps.

Lemma invitesHandlers_stable salt i token created base now r w x :
  stable [TInvites] (createInviteHandler (S := S) token i created base now r w) ∧
  stable [] (listInvitesHandler (S := S) r w) ∧ stable [TInvites] (revokeInviteHandler (S := S) now r w x) ∧
  stable [] (previewInviteHandler (S := S) now x) ∧
  stable [TUsers; TSessions; TMembers; TInvites] (acceptInviteHandler (S := S) auth salt i token now r x).
Proof.
  unfold createInviteHandler, listInvitesHandler, revokeInviteHandler, previewInviteHandler,
    acceptInviteHandler, acceptTx.
  split_and!; stabilize; by_transaction.
Qed.

(** *** Scenes and documents *)

Lemma keeps_putBelow T now w i d : TDocuments ∈ T → keeps T (putBelow now w i d : M S Document).
Proof. intros HT. unfold putBelow. keep. Qed.
Lemma keeps_setAccessTx T now w i u l : TDocuments ∈ T → keeps T (setAccessTx now w i u l : M S Document).
Proof. intros HT. unfold setAccessTx. keep. Qed.
Hint Resolve keeps_putBelow keeps_setAccessTx : keeps.

Lemma listings_stable r w x :
  stable [] (listWorldsHandler (S := S) r) ∧ stable [] (listScenesHandler (S := S) r w) ∧
  stable [] (listTokensHandler (S := S) policy r w x) ∧ stable [] (listActorsHandler (S := S) policy r w) ∧
  stable [] (listWallsHandler (S := S) r w x) ∧ stable [] (listAssetsHandler (S := S) assetsAt r w).
Proof.
  unfold listWorldsHandler, listScenesHandler, listTokensHandler, listActorsHandler, listWallsHandler,
    listAssetsHandler.
  split_and!; stabilize; by_transaction.
Qed.

Lemma creations_stable i now r w x :
  stable [TDocuments] (createSceneHandler (S := S) i now r w) ∧ stable [TDocuments] (createTokenHandler (S := S) i now r w x) ∧
  stable [TDocuments] (createActorHandler (S := S) i now r w) ∧ stable [TDocuments] (createWallHandler (S := S) i now r w x) ∧
  stable [TDocuments] (setDocumentAccessHandler (S := S) now r w x).
Proof.
  unfold createSceneHandler, createTokenHandler, createActorHandler, createWallHandler,
    setDocumentAccessHandler.
  split_and!; stabilize; by_transaction.
Qed.

(** *** Assets *)

(** The same, for computations on the store and the disk: whatever they
    answer, the store is as by writes to tables among [T]. *)
Definition safe (T : list table) {A} (m : M (S * Disk) A) : Prop :=
  ∀ st r st', wf st.1 → m st = (r, st') → writesTo T st.1 st'.1.

Lemma safe_bind T {A B} (m : M (S * Disk) A) (f : A → M (S * Disk) B) :
  safe T m → (∀ a, safe T (f a)) → safe T (m ≫= f).
Proof.
  intros Hm Hf st r st' Hwf. unfold mbind, M_bind. destruct (m st) as [[a|e] st1] eqn:E.
  - intros Hr. assert (writesTo T st.1 st1.1) as Hw by (by eapply Hm). etrans; [exact Hw|].
    eapply Hf, Hr. by eapply writes_wf.
  - intros [= _ <-]. by eapply Hm.
Qed.
Lemma safe_ret T {A} (a : A) : safe T (mret a).
Proof. by intros st r st' Hwf [= _ <-]. Qed.
Lemma safe_lift T {A} (q : S * Disk → res A) : safe T (lift q).
Proof. by intros st r st' Hwf [= _ <-]. Qed.
Lemma safe_onDisk T {A} (m : M Disk A) : safe T (Assets.onDisk m).
Proof. intros st r st' Hwf. unfold Assets.onDisk. destruct (m st.2). by intros [= _ <-]. Qed.
Lemma safe_onStore T {A} (m : M S A) : stable T m → safe T (Assets.onStore m).
Proof.
  intros Hm st r st' Hwf. unfold Assets.onStore. destruct (m st.1) eqn:E. intros [= _ <-]. by eapply Hm.
Qed.

Lemma storeAsset_safe c i now w u n : safe [TAssets] (storeAsset (S := S) assetsAt c i now w u n).
Proof.
  unfold storeAsset. apply safe_bind; [apply safe_lift|]. intros [a|]; [apply safe_ret|].
  apply safe_bind; [apply safe_lift|]. intros _. do 2 (apply safe_bind; [apply safe_onDisk|]; intros _).
  apply safe_bind; [|intros; apply safe_ret]. apply safe_onStore, runTx_stable. auto with keeps.
Qed.

Lemma uploadAssetHandler_safe c i now r form w st x st' :
  wf st.1 → uploadAssetHandler (S := S) assetsAt c i now r form w st = (x, st') →
  writesTo [TAssets] st.1 st'.1.
Proof.
  intros Hwf [[-> _]|(u & m & _ & _ & _ & Hr)]%requireRoleAs_cases; [done|]. revert Hr.
  destruct form as [| |size content readable]; try by intros [= _ <-].
  destruct (_ <? _); [by intros [= _ <-]|]. destruct (negb readable); [by intros [= _ <-]|].
  destruct (Normalize _ _) as [n|]; [|by intros [= _ <-]].
  destruct (storeAsset _ _ _ _ _ _ _ st) as [[[]|] st1] eqn:E; apply storeAsset_safe in E; try done;
    by intros [= _ <-].
Qed.

Lemma serveAssetHandler_same r w a v st x st' :
  serveAssetHandler (S := S) r w a v st = (x, st') → st' = st.
Proof.
  intros [[-> _]|(u & m & _ & _ & _ & Hr)]%requireRoleAs_cases; [done|]. revert Hr.
  destruct (GetAsset _ _ _); [|by intros [= _ <-]]. destruct (servedKey _ _) as [key mime].
  destruct (Open _ _); by intros [= _ <-].
Qed.

Lemma ticketHandler_stable token now later r s t x s' t' :
  ticketHandler (S := S) token now later r (s, t) = (x, (s', t')) → s' = s.
Proof.
  unfold ticketHandler, requireUser, requireUserAs, Http.withBody.
  destruct (req_User r); [|by intros [= _ <- _]]. destruct (decodeTicketRequest _); [|by intros [= _ <- _]].
  case_bool_decide; [by intros [= _ <- _]|]. cbn [fst snd].
  destruct (GetMember s _ _); [|by intros [= _ <- _]].
  destruct (Issue _ _ _ _ _ _ _) as [[[]|] ts]; by intros [= _ <- _].
Qed.

(** *** The whole API *)

Variable backend : string.

Lemma dispatch_writes c e r st out st' :
  wf (srv_store st) → dispatch auth assetsAt policy backend c e r st = (out, st') →
  writesTo (endpointTables e) (srv_store st) (srv_store (S := S) st').
Proof.
  intros Hwf.
  assert (Hs : ∀ T k, stable T k → atStore (S := S) k st = (out, st') → writesTo T (srv_store st) (srv_store st')).
  { intros T k Hk. unfold atStore. destruct (k (srv_store st)) as [x s1] eqn:E. intros [= _ <-]. by eapply Hk. }
  destruct e; cbn [dispatch endpointTables];
    try (by intros [= _ <-]);
    try (apply Hs;
         first [ apply setupHandler_stable | apply logoutHandler_stable | apply createWorldHandler_stable
               | by apply (listings_stable r "" "") | by apply (listings_stable r world "")
               | by apply (listings_stable r world scene)
               | by apply (membersHandlers_stable (ch_now c) r world "")
               | by apply (membersHandlers_stable (ch_now c) r world user)
               | by apply (invitesHandlers_stable (Ok []) (ch_id c) (ch_token c) (ch_created c) (ch_base c) (ch_now c) r world "")
               | by apply (invitesHandlers_stable (Ok []) (ch_id c) (ch_token c) (ch_created c) (ch_base c) (ch_now c) r world invite)
               | by apply (invitesHandlers_stable (ch_salt c) (ch_id c) (ch_token c) 0 0 (ch_now c) r "" token)
               | by apply (creations_stable (ch_id c) (ch_now c) r world "")
               | by apply (creations_stable (ch_id c) (ch_now c) r world scene)
               | by apply (creations_stable (ch_id c) (ch_now c) r world document) ]).
  - apply Hs. unfold setupStateHandler. by_transaction.
  - unfold atLimiter. destruct (loginHandler _ _ _ _ _ _ _) as [x [s1 l1]] eqn:E. intros [= _ <-].
    by eapply loginHandler_stable.
  - apply Hs. unfold meHandler. stabilize. by_transaction.
  - unfold atTickets. destruct (ticketHandler _ _ _ _ _) as [x [s1 t1]] eqn:E. intros [= _ <-].
    by apply ticketHandler_stable in E as ->.
  - unfold atDisk. destruct (uploadAssetHandler _ _ _ _ _ _ _ _) as [x [s1 d1]] eqn:E. intros [= _ <-].
    by eapply uploadAssetHandler_safe in E.
  - unfold atDisk. destruct (serveAssetHandler _ _ _ _ _) as [x [s1 d1]] eqn:E. intros [= _ <-].
    by apply serveAssetHandler_same in E as [= -> _].
Qed.

(** A request writes the row of its session, then the tables of its endpoint. *)
Lemma serve_writes wi c method path r st out st' :
  wf (srv_store st) → serve auth assetsAt policy backend wi c method path r st = (out, st') →
  ∃ s1, writesTo [TSessions] (srv_store st) s1 ∧
    writesTo (from_option endpointTables [] (resolve wi method path)) s1 (srv_store (S := S) st').
Proof.
  intros Hwf. unfold serve.
  destruct (if hasService wi then _ else _) as [r1 s1] eqn:Eu.
  assert (writesTo [TSessions] (srv_store st) s1) as Hw1.
  { destruct (hasService wi); [by eapply withUser_stable|]. by injection Eu as _ <-. }
  intros Hd. exists s1. split; [done|]. destruct (resolve wi method path) as [e|]; cbn.
  - apply dispatch_writes in Hd; [done|]. by eapply writes_wf.
  - by injection Hd as _ <-.
Qed.

(** No request appends events. *)
Lemma serve_store_log wi c method path r st out st' :
  wf (srv_store st) → serve auth assetsAt policy backend wi c method path r st = (out, st') →
  ∃ T, TEvents ∉ T ∧ writesTo T (srv_store st) (srv_store (S := S) st').
Proof.
  intros Hwf (s1 & Hsess & Hend)%serve_writes; [|done]. set (T := from_option _ _ _) in Hend.
  exists ([TSessions] ++ T). split.
  - intros [Hin%list_elem_of_singleton|Hin]%elem_of_app; [done|]. subst T.
    destruct (resolve wi method path) as [e|]; cbn in Hin; [|by apply elem_of_nil in Hin].
    destruct e; cbn in Hin; rewrite ?elem_of_cons, elem_of_nil in Hin; naive_solver.
  - etrans; [eapply writes_weaken, Hsess; by apply list_subseteq_app_l|eapply writes_weaken, Hend; by apply list_subseteq_app_r].
Qed.

Lemma serve_store wi c method path r st out st' :
  wf (srv_store st) → serve auth assetsAt policy backend wi c method path r st = (out, st') →
  ∃ T, writesTo T (srv_store st) (srv_store (S := S) st').
Proof. intros Hwf (T & _ & Hw)%serve_store_log; [|done]. by exists T. Qed.
End Handlers.

(** ** Intents *)

Section IntentsKeep.
Context `{Unicode} {G : Type} `{DiceSource G} {S : Type} `{TxLaws S}.
Variable policy : FieldPolicy.

(** A handler of intents that keeps the store, whatever it answers. *)
Definition intentKeeps (T : list table) (h : IntentFunc S) : Prop :=
  ∀ s i store, wf store → writesTo T store (out_store (h s i store)).

(** The outcome of a transaction: refused, or answered from its result. *)
Lemma outcome_keeps T {A} (m : M S A) store (f : res A * S → outcome S) :
  keeps T m → wf store → (∀ r s, out_store (f (r, s)) = s) → writesTo T store (out_store (f (runTx m store))).
Proof.
  intros Hm Hwf Hf. destruct (runTx m store) as [r s] eqn:E. rewrite Hf. by eapply runTx_stable.
Qed.

Lemma keeps_applyPatchTx now s i p kind payload : keeps [TDocuments; TEvents] (applyPatchTx policy now s i p kind payload : M S _).
Proof. unfold applyPatchTx. keep. Qed.
Lemma keeps_activateTx now s i : keeps [TWorlds; TEvents] (activateTx now s i : M S _).
Proof.
  unfold activateTx. do 2 (apply keeps_bind; [auto with keeps|]; intros).
  apply keeps_rewriteWorld; [left|done|]. keep.
Qed.
Lemma keeps_messageTx now s m b : keeps [TDocuments; TEvents] (messageTx now s m b : M S _).
Proof. unfold messageTx. keep. Qed.
Lemma keeps_commitCombat now s c : keeps [TDocuments; TEvents] (commitCombat now s c : M S _).
Proof. unfold commitCombat. keep. Qed.
Hint Resolve keeps_commitCombat : keeps.
Lemma keeps_readCombat s : keeps [TDocuments; TEvents] (readCombat s : M S _).
Proof. unfold readCombat. keep. Qed.
Hint Resolve keeps_readCombat : keeps.
Lemma keeps_toggleTx now s w : keeps [TDocuments; TEvents] (toggleTx policy now s w : M S _).
Proof. unfold toggleTx. keep. Qed.

Lemma applyPatch_keeps now s i p kind payload store :
  wf store → writesTo [TDocuments; TEvents] store (out_store (applyPatch policy now s i p kind payload store)).
Proof.
  intros Hwf. unfold applyPatch.
  apply (outcome_keeps [TDocuments; TEvents] _ store (λ x, match x with (Err e, s) => _ | (Ok v, s) => _ end));
    [apply keeps_applyPatchTx|done|].
  intros [[seq views]|e] st; [|done]. by repeat case_match.
Qed.

Lemma coreIntents_keep now : intentKeeps [TDocuments; TEvents] (handleDocumentPatch policy now) ∧
  intentKeeps [TDocuments; TEvents] (handleTokenMove policy now) ∧
  intentKeeps [TWorlds; TEvents] (handleSceneActivate now).
Proof.
  unfold handleDocumentPatch, handleTokenMove, handleSceneActivate. split_and!; intros s i store Hwf.
  - destruct (decodeDocumentPatch _); [|done]. case_bool_decide; [done|]. by apply applyPatch_keeps.
  - destruct (decodeTokenMove _); [|done]. case_bool_decide; [done|]. by apply applyPatch_keeps.
  - destruct (decodeOneString _ _); [|done]. case_bool_decide; [done|]. destruct (negb _); [done|].
    destruct (runTx _ store) as [[a|e] st] eqn:E; (eapply runTx_stable in E; [|apply keeps_activateTx|done]); done.
Qed.

Lemma publishMessage_keeps now i at_ s m store :
  wf store → writesTo [TDocuments; TEvents] store (out_store (publishMessage now i at_ s m store)).
Proof.
  intros Hwf. unfold publishMessage. cbn zeta.
  destruct (runTx _ store) as [[[seq audience]|e] st] eqn:E;
    (eapply runTx_stable in E; [|apply keeps_messageTx|done]); done.
Qed.

Lemma chatIntents_keep now i at_ (g : G) :
  intentKeeps [TDocuments; TEvents] (handleChatPost now i at_) ∧
  intentKeeps [TDocuments; TEvents] (handleChatRoll now i at_ g).
Proof.
  unfold handleChatPost, handleChatRoll. split; intros s m store Hwf.
  - destruct (structFields _ ≫= _) as [[text audience]|]; [|done]. cbn zeta. case_bool_decide; [done|].
    by apply publishMessage_keeps.
  - destruct (structFields _ ≫= _) as [[[expression reason] audience]|]; [|done].
    destruct (Roll expression g) as [[result g']|]; [|done]. by apply publishMessage_keeps.
Qed.

Lemma finishCombat_keeps s (m : M S (Combat * Z)) store :
  keeps [TDocuments; TEvents] m → wf store →
  writesTo [TDocuments; TEvents] store (out_store (finishCombat s (runTx m store))).
Proof.
  intros Hm Hwf. destruct (runTx m store) as [[[c seq]|e] st] eqn:E; (eapply runTx_stable in E; [|done..]); done.
Qed.

Lemma combatIntents_keep now (probe g : G) :
  intentKeeps [TDocuments; TEvents] (handleCombatStart now probe g) ∧
  intentKeeps [TDocuments; TEvents] (handleCombatNext now) ∧
  intentKeeps [TDocuments; TEvents] (handleCombatEnd now).
Proof.
  unfold handleCombatStart, handleCombatNext, handleCombatEnd. split_and!; intros s m store Hwf;
    (destruct (negb (IsStaff _)); [done|]).
  - destruct (structFields _ ≫= _) as [[sceneID formula]|]; [|done]. case_bool_decide; [done|]. cbn zeta.
    destruct (Roll _ probe); [|done]. apply finishCombat_keeps; [|done]. unfold startTx. keep.
  - apply finishCombat_keeps; [|done]. unfold nextTx. keep.
  - apply finishCombat_keeps; [|done]. unfold endTx. keep.
Qed.

Lemma doorIntents_keep now : intentKeeps [TDocuments; TEvents] (handleDoorToggle policy now).
Proof.
  unfold handleDoorToggle. intros s m store Hwf. destruct (negb (IsStaff _)); [done|].
  destruct (decodeOneString _ _); [|done]. case_bool_decide; [done|].
  destruct (runTx _ store) as [[[st0 perUser]|e] st] eqn:E; (eapply runTx_stable in E; [|apply keeps_toggleTx|done]); done.
Qed.

(** What [app.New] registers, with what the clock and the random sources give
    the one message the router is asked about. *)
Definition fullRouter (now : Time) (i at_ : string) (source probe g : G) : Session.Router S :=
  RegisterDoorIntents policy now
    (RegisterCombatIntents now probe g
       (RegisterChatIntents now i at_ source
          (RegisterCoreIntents policy now Session.NewRouter))).

(** What an intent writes. *)
Definition intentTables (kind : string) : list table :=
  if bool_decide (kind = "scene.activate") then [TWorlds; TEvents] else [TDocuments; TEvents].

Definition routerKeeps (r : Session.Router S) : Prop :=
  map_Forall (λ kind, intentKeeps (intentTables kind)) r.

Lemma Handle_keeps kind h r :
  intentKeeps (intentTables kind) h → routerKeeps r → routerKeeps (Handle kind h r).
Proof. intros Hh Hr. by apply map_Forall_insert_2. Qed.

Lemma fullRouter_keeps now i at_ source probe g : routerKeeps (fullRouter now i at_ source probe g).
Proof.
  unfold fullRouter, RegisterDoorIntents, RegisterCombatIntents, RegisterChatIntents, RegisterCoreIntents.
  repeat apply Handle_keeps;
    first [ apply doorIntents_keep | apply (combatIntents_keep now probe g)
          | apply (chatIntents_keep now i at_ source) | apply (coreIntents_keep now)
          | apply map_Forall_empty ].
Qed.

(** A message of a session, whatever it is. *)
Lemma readStep_writes router received s store s' store' ps :
  routerKeeps router → wf store →
  readStep router received s store = (s', store', ps) → ∃ T, TMembers ∉ T ∧ TAssets ∉ T ∧ writesTo T store store'.
Proof.
  intros Hr Hwf. unfold readStep.
  assert (∃ T, TMembers ∉ T ∧ TAssets ∉ T ∧ writesTo T store store) as Hsame
    by (exists []; split_and!; [apply not_elem_of_nil..|done]).
  destruct received as [frame|]; [|by intros [= _ <- _]].
  case_bool_decide; [by intros [= _ <- _]|]. case_bool_decide.
  - unfold handleIntent. destruct (frame_Intent frame) as [intent|]; [|by intros [= _ <- _]].
    destruct (router !! intent_Kind intent) as [h|] eqn:Eh; [|by intros [= _ <- _]].
    intros [= _ <- _]. exists (intentTables (intent_Kind intent)).
    split_and!; [unfold intentTables; case_match; by rewrite !elem_of_cons, elem_of_nil; intros [|[|]]..|].
    by apply (Hr _ _ Eh).
  - case_bool_decide; [|by intros [= _ <- _]].
    destruct (handleEphemeral frame s). by intros [= _ <- _].
Qed.
End IntentsKeep.

(** ** Runs of the server *)

Section Runs.
Context `{Unicode} `{Argon2} `{ImageCodecs} {G : Type} `{DiceSource G} {S : Type} `{TxLaws S}.
Variables (auth : AuthDeps) (assetsAt : AssetDeps) (policy : FieldPolicy) (backend : string).
Implicit Types (st : server (S := S)).

Definition withStore (store : S) st : server :=
  MkServer store (srv_limiter st) (srv_tickets st) (srv_disk st).
Definition withTickets (tickets : TicketStore) st : server :=
  MkServer (srv_store st) (srv_limiter st) tickets (srv_disk st).
Definition withDisk (disk : Disk) st : server :=
  MkServer (srv_store st) (srv_limiter st) (srv_tickets st) disk.

(** One thing a client makes the server do: a request of the API, the handshake
    of a session, or a message read from one, with whatever the clock and the
    random sources contribute. *)
Inductive serverStep : server → server → Prop :=
  | step_request wi c method path r st out st' :
      serve auth assetsAt policy backend wi c method path r st = (out, st') → serverStep st st'
  | step_handshake received now s st hello s' tickets' :
      authenticate (srv_store st) received now (s, srv_tickets st) = (hello, (s', tickets')) →
      serverStep st (withTickets tickets' st)
  | step_message now i at_ (source probe g : G) received s st s' store' ps :
      readStep (fullRouter policy now i at_ source probe g) received s (srv_store st) = (s', store', ps) →
      serverStep st (withStore store' st).

Lemma serverStep_writes st st' :
  wf (srv_store st) → serverStep st st' → ∃ T, writesTo T (srv_store st) (srv_store st').
Proof.
  intros Hwf Hstep. destruct Hstep as [wi c method path r st out st' Hs|received now s st hello s' tickets' _|
      now i at_ source probe g received s st s' store' ps Hs].
  - by eapply serve_store.
  - by exists [].
  - destruct (readStep_writes _ _ _ _ _ _ _ (fullRouter_keeps policy now i at_ source probe g) Hwf Hs)
      as (T & _ & _ & Hw). by exists T.
Qed.

Lemma serverSteps_wf st st' : wf (srv_store st) → rtc serverStep st st' → wf (srv_store st').
Proof.
  intros Hwf. induction 1 as [|st st1 st' Hstep _ IH]; [done|]. apply IH.
  destruct (serverStep_writes _ _ Hwf Hstep) as [T Hw]. by eapply writes_wf.
Qed.

(** C9: nothing a client sends can break the store or rewrite its history.
    Starting from a well-formed store, after any sequence of HTTP requests to any
    endpoint, of handshakes and of messages on any sessions, in any interleaving,
    the store is well formed, and every event that was ever logged is in the log
    under its number, unchanged. *)
Theorem server_keeps_the_store `{!FrameLaws S} st st' :
  wf (srv_store st) → rtc serverStep st st' →
  wf (srv_store st') ∧ logGrows (srv_store st) (srv_store st').
Proof.
  intros Hwf Hr. split; [by eapply serverSteps_wf|]. revert Hwf.
  induction Hr as [|st st1 st' Hstep _ IH]; intros Hwf; [done|].
  destruct (serverStep_writes _ _ Hwf Hstep) as [T Hw].
  etrans; [by eapply writes_grow|]. apply IH. by eapply writes_wf.
Qed.

(** An endpoint that answers GET writes no table. *)
Lemma resolve_reads wi method path e :
  resolve wi method path = Some e → servesMethod "GET" method = true → endpointTables e = [].
Proof.
  intros He Hm. unfold resolve in He.
  assert (e ∈ omap (answers method (Split "/"%char path)) (NewRouter wi)) as Hin.
  { destruct (omap _ _); [done|]. injection He as <-. left. }
  apply list_elem_of_omap in Hin as (((m & p) & h) & Hroute & Ha).
  unfold answers in Ha. destruct (servesMethod m method) eqn:Esm; [|done].
  destruct (matchSegments _ _) as [vs|]; [|done]. injection Ha as <-.
  assert (m = "GET" ∨ m = "HEAD") as Hget.
  { unfold servesMethod in Hm, Esm. apply orb_true_iff in Hm, Esm.
    rewrite andb_true_iff, !bool_decide_eq_true in Hm, Esm. destruct Hm as [?|[_ ?]], Esm as [?|[? _]]; subst; auto. }
  clear Hm Esm. unfold NewRouter, infoRoutes, serviceRoutes, blobRoutes, inviteRoutes in Hroute.
  destruct (hasService wi), (hasBlobs wi), (hasSocket wi); cbn [app] in Hroute;
    repeat (apply elem_of_cons in Hroute as [Hroute|Hroute];
            [injection Hroute as -> _ ->; first [reflexivity|by destruct Hget as [[=]|[=]]]|]);
    by apply elem_of_nil in Hroute.
Qed.

(** C15: a request writes what its endpoint is about and nothing else.  Its effect on
    the store is a sequence of successful writes: first at most to the rows of
    sessions (the middleware), then to the tables of the endpoint its method and
    path resolve to; a path that resolves to nothing, and every GET or HEAD,
    changes at most sessions, so reading has no effect. *)
Theorem requests_write_their_tables wi c method path r st out st' :
  wf (srv_store st) → serve auth assetsAt policy backend wi c method path r st = (out, st') →
  ∃ s1, writesTo [TSessions] (srv_store st) s1 ∧
    writesTo (from_option endpointTables [] (resolve wi method path)) s1 (srv_store st') ∧
    (resolve wi method path = None ∨ servesMethod "GET" method = true → srv_store st' = s1).
Proof.
  intros Hwf (s1 & Hsess & Hend)%serve_writes; [|done]. exists s1. split_and!; [done..|].
  intros Hread. destruct (resolve wi method path) as [e|] eqn:Ee; cbn in Hend; [|by apply writes_nothing].
  destruct Hread as [|Hget]; [done|]. rewrite (resolve_reads _ _ _ _ Ee Hget) in Hend. by apply writes_nothing.
Qed.

(** *** Assets *)

(** What the random source and the temporary names give a request is new. *)
Definition freshRequest (c : choices) st : Prop :=
  freshUpload assetsAt (ch_writes c) (srv_disk st) ∧
  ∀ w, GetAsset (srv_store st) w (GenerateID (ch_id c) "asset") = Err ErrNotFound.

Lemma dispatch_disk c e r st out st' :
  TAssets ∉ endpointTables e → dispatch auth assetsAt policy backend c e r st = (out, st') →
  srv_disk st' = srv_disk st.
Proof.
  intros He. destruct e; cbn [dispatch];
    try (unfold atStore; match goal with |- (let '(_, _) := ?k in _) = _ → _ => destruct k end; by intros [= _ <-]);
    try (by intros [= _ <-]).
  - unfold atLimiter. destruct (loginHandler _ _ _ _ _ _ _) as [x [s1 l1]]. by intros [= _ <-].
  - unfold atTickets. destruct (ticketHandler _ _ _ _ _) as [x [s1 t1]]. by intros [= _ <-].
  - destruct He. left.
  - unfold atDisk. destruct (serveAssetHandler _ _ _ _ _) as [x [s1 d1]] eqn:E. intros [= _ <-].
    by apply serveAssetHandler_same in E as [= _ ->].
Qed.

(** What can happen to a server with assets: a step of its clients, where an
    upload draws fresh names; or a stop inside an upload. *)
Inductive assetRun : server → server → Prop :=
  | run_request wi c method path r st out st' : freshRequest c st →
      serve auth assetsAt policy backend wi c method path r st = (out, st') → assetRun st st'
  | run_message now i at_ (source probe g : G) received s st s' store' ps :
      readStep (fullRouter policy now i at_ source probe g) received s (srv_store st) = (s', store', ps) →
      assetRun st (withStore store' st)
  | run_stopped st disk' :
      assetStep assetsAt (srv_store st, srv_disk st) (srv_store st, disk') → assetRun st (withDisk disk' st).

Definition assetsOf st : S * Disk := (srv_store st, srv_disk st).

(** Writes to other tables. *)
Lemma assetsOK_writes `{!FrameLaws S} T s dk s' :
  TAssets ∉ T → writesTo T s s' → assetsOK (s, dk) → assetsOK (s', dk).
Proof.
  intros HT Hw [Hwf Hall]. cbn in Hwf, Hall. split; [by eapply writes_wf|]. cbn. intros w i a.
  rewrite (writes_assets T s s'); [|done..]. by apply Hall.
Qed.

Lemma assetRun_OK `{!FrameLaws S} `{!AssetLaws S} st st' :
  assetRun st st' → assetsOK (assetsOf st) → assetsOK (assetsOf st').
Proof.
  intros Hstep HOK. pose proof HOK as [Hwf _]. cbn in Hwf.
  destruct Hstep as [wi c method path r st out st' [Hfresh Hid] Hs|now i at_ source probe g received s st s' store' ps Hs|st disk' Hs].
  - unfold serve in Hs. destruct (if hasService wi then _ else _) as [r1 s1] eqn:Eu.
    assert (writesTo [TSessions] (srv_store st) s1) as Hw1.
    { destruct (hasService wi); [by eapply withUser_stable|]. by injection Eu as _ <-. }
    assert (TAssets ∉ [TSessions]) as HT by (by rewrite list_elem_of_singleton).
    pose proof (assetsOK_writes _ _ (srv_disk st) _ HT Hw1 HOK) as HOK1. pose proof HOK1 as [Hwf1 _]. cbn in Hwf1.
    destruct (resolve wi method path) as [e|]; [|by injection Hs as _ <-].
    destruct (decide (TAssets ∈ endpointTables e)) as [Hin|Hout].
    2:{ pose proof (dispatch_disk _ _ _ _ _ _ Hout Hs) as Hd. apply dispatch_writes in Hs; [|done].
        unfold assetsOf. rewrite Hd. by eapply assetsOK_writes. }
    destruct e; cbn [endpointTables] in Hin; rewrite ?elem_of_cons, elem_of_nil in Hin; try (by naive_solver).
    cbn [dispatch] in Hs. unfold atDisk in Hs. cbn [srv_store srv_disk] in Hs.
    destruct (uploadAssetHandler _ _ _ _ _ _ _ _) as [x [s2 d2]] eqn:E. injection Hs as _ <-.
    eapply (assetStep_OK assetsAt (s1, srv_disk st)); [|done]. eapply step_upload; [|done|exact E].
    intros w. by rewrite (writes_assets _ _ _ HT Hwf Hw1).
  - destruct (readStep_writes _ _ _ _ _ _ _ (fullRouter_keeps policy now i at_ source probe g) Hwf Hs)
      as (T & _ & HT & Hw). by eapply assetsOK_writes.
  - by eapply assetStep_OK in Hs.
Qed.

(** C38: no asset without its bytes.  Whatever requests are served and messages
    read, whatever uploads fail, and wherever the machine stops inside one: every
    asset row of a server that started well has, under its hash, content with that
    very hash, and beside it the thumbnail its variants name. *)
Theorem server_assets_have_blobs `{!FrameLaws S} `{!AssetLaws S} st st' :
  rtc assetRun st st' → assetsOK (assetsOf st) → assetsOK (assetsOf st').
Proof. induction 1 as [|st st1 st' Hstep _ IH]; [done|]. intros HOK. by eapply IH, assetRun_OK. Qed.
End Runs.
