(* ===== verification/Gateway.v ===== *)
(** * The socket gateway and the registry of hubs (ws/gateway.go, ws/hub.go)

    What a gateway is made of when parts are left out, the codec a connection
    gets, and the registry that gives every world its one hub.  A hub is
    identified by the number of its creation; its own behaviour is Hub.v.  The
    WebSocket library is not modelled: a connection is what is read and written
    through it. *)

From S2P Require Import Prelude GoStrings Json Perm Storage Redact Dice Ticket Frame Outbox Hub Session.
From S2P Require Import Intents Chat Combat Doors Server.
From Stdlib Require Import Ascii.

Local Open Scope Z_scope.

(** ** Registry *)

Record registry := MkRegistry {
  reg_hubs : gmap ID nat;
  reg_created : nat;
  reg_running : gset nat
}.

Definition NewRegistry : registry := MkRegistry ∅ 0 ∅.

(** [Registry.Hub], under its lock: the hub of the world, started if there is
    none. *)
Definition HubOf (worldID : ID) (r : registry) : nat * registry :=
  match reg_hubs r !! worldID with
  | Some hub => (hub, r)
  | None =>
      let hub := reg_created r in
      (hub, MkRegistry (<[worldID := hub]> (reg_hubs r)) (S hub) ({[hub]} ∪ reg_running r))
  end.

(** [Registry.Close]: the hubs are forgotten under the lock and stopped after
    it. *)
Definition CloseAll (r : registry) : registry :=
  MkRegistry ∅ (reg_created r) (reg_running r ∖ map_to_set (λ _ hub, hub) (reg_hubs r)).

Inductive registryStep : registry → registry → Prop :=
  | step_Hub w r : registryStep r (HubOf w r).2
  | step_Close r : registryStep r (CloseAll r).

(** The running hubs are those the registry knows, one per world, and all were
    created by it. *)
Definition registryOK (r : registry) : Prop :=
  (∀ w w' h, reg_hubs r !! w = Some h → reg_hubs r !! w' = Some h → w = w') ∧
  (∀ w h, reg_hubs r !! w = Some h → (h < reg_created r)%nat) ∧
  (∀ h, h ∈ reg_running r ↔ ∃ w, reg_hubs r !! w = Some h).

Lemma registryOK_new : registryOK NewRegistry.
Proof. split_and!; intros *; cbn; rewrite ?lookup_empty; try done. set_solver. Qed.

Lemma HubOf_OK w r : registryOK r → registryOK (HubOf w r).2.
Proof.
  intros (Hinj & Hlt & Hrun). unfold HubOf. destruct (reg_hubs r !! w) as [h|] eqn:E; [by split_and!|].
  split_and!; cbn.
  - intros w1 w2 h. rewrite !lookup_insert_Some. intros [[<- <-]|[? H1]] [[<- ?]|[? H2]]; [done| | |by eapply Hinj].
    + apply Hlt in H2. lia.
    + subst. apply Hlt in H1. lia.
  - intros w1 h. rewrite lookup_insert_Some. intros [[_ <-]|[_ H1%Hlt]]; lia.
  - intros h. rewrite elem_of_union, elem_of_singleton, Hrun. split.
    + intros [->|[w1 H1]]; [exists w; by rewrite lookup_insert_eq|].
      exists w1. rewrite lookup_insert_ne; [done|congruence].
    + intros [w1 [[_ <-]|[_ H1]]%lookup_insert_Some]; eauto.
Qed.

Lemma CloseAll_OK r : registryOK r → registryOK (CloseAll r) ∧ reg_running (CloseAll r) = ∅.
Proof.
  intros (_ & _ & Hrun).
  assert (reg_running (CloseAll r) = ∅) as He.
  { apply set_eq. intros h. cbn. rewrite elem_of_difference, elem_of_map_to_set, Hrun. set_solver. }
  split; [|done]. split_and!; intros *; cbn [reg_hubs CloseAll]; rewrite ?lookup_empty; try done.
  rewrite He. set_solver.
Qed.

Lemma registry_reachable r : rtc registryStep NewRegistry r → registryOK r.
Proof.
  assert (∀ r1 r2, rtc registryStep r1 r2 → registryOK r1 → registryOK r2) as Hinv.
  { induction 1 as [|r1 r2 r3 [w r0|r0] _ IH]; [done|..]; intros HOK; apply IH.
    - by apply HubOf_OK.
    - by apply CloseAll_OK. }
  intros H. by apply (Hinv _ _ H), registryOK_new.
Qed.

(** A world has one hub.  In every state the registry can reach, asking for
    a world's hub gives one that runs, the same one when asked again, and never
    that of another world; closing stops every hub, and a world asked for after
    it gets a hub that was not there before. *)
Theorem one_hub_per_world r w :
  rtc registryStep NewRegistry r →
  let '(h, r') := HubOf w r in
  h ∈ reg_running r' ∧ HubOf w r' = (h, r') ∧
  (∀ w', (HubOf w' r').1 = h → w' = w) ∧
  reg_running (CloseAll r') = ∅ ∧ (HubOf w (CloseAll r')).1 ≠ h.
Proof.
  intros HOK%registry_reachable. pose proof (HubOf_OK w r HOK) as HOK'.
  destruct (HubOf w r) as [h r'] eqn:E. cbn in HOK'.
  assert (reg_hubs r' !! w = Some h) as Hw.
  { unfold HubOf in E. destruct (reg_hubs r !! w) eqn:Ew; injection E as <- <-; [done|].
    cbn. by rewrite lookup_insert_eq. }
  pose proof HOK' as (Hinj & Hlt & Hrun). split_and!.
  - apply Hrun. eauto.
  - unfold HubOf. by rewrite Hw.
  - intros w' Hh. unfold HubOf in Hh. destruct (reg_hubs r' !! w') as [h'|] eqn:E'; cbn in Hh; subst.
    + by eapply Hinj.
    + apply Hlt in Hw. lia.
  - by apply CloseAll_OK.
  - unfold HubOf. cbn. rewrite lookup_empty. cbn. apply Hlt in Hw. lia.
Qed.

(** ** Gateway *)

Definition readLimitBytes : Z := Z.shiftl 1 20.
Definition closeReasonMax : nat := 120.

Section Gateway.
Context {S : Type}.

(** [Deps] as a caller may give them: an absent part is filled in. *)
Record gatewayDeps := MkGatewayDeps {
  gd_Registry : option registry;
  gd_Tickets : option TicketStore;
  gd_Router : option (Session.Router S);
  gd_Policy : option FieldPolicy
}.

Record gateway := MkGateway {
  gw_Registry : registry;
  gw_Tickets : TicketStore;
  gw_Router : Session.Router S;
  gw_Policy : FieldPolicy;
  gw_allowJSON : bool
}.

(** [core] is the router with the intents of the four files registered. *)
Definition NewGateway (core : Session.Router S) (openPolicy : FieldPolicy) (d : gatewayDeps) : gateway :=
  MkGateway (default NewRegistry (gd_Registry d)) (default (NewTicketStore DefaultTicketTTL) (gd_Tickets d))
    (default core (gd_Router d)) (default openPolicy (gd_Policy d)) false.

Definition AllowJSONFormat (allow : bool) (g : gateway) : gateway :=
  MkGateway (gw_Registry g) (gw_Tickets g) (gw_Router g) (gw_Policy g) allow.
End Gateway.

(** The two codecs, and whether they write binary messages. *)
Inductive codec := JSONCodec | ProtoCodec.
Definition Binary (c : codec) : bool := match c with JSONCodec => false | ProtoCodec => true end.

(** [format] is the query parameter of the request. *)
Definition codecFor {S} (format : string) (g : gateway (S := S)) : codec :=
  if bool_decide (format = "json") && gw_allowJSON g then JSONCodec else ProtoCodec.

(** The reason of a close frame, cut to the size the protocol allows. *)
Definition closeReason (reason : string) : string :=
  if (closeReasonMax <? len reason)%nat then unchars (take closeReasonMax (chars reason)) else reason.

(** The readable codec is never used unless it was allowed. *)
Lemma codecFor_binary {S} format (g : gateway (S := S)) :
  gw_allowJSON g = false → Binary (codecFor format g) = true.
Proof. unfold codecFor. intros ->. by rewrite andb_false_r. Qed.

Lemma closeReason_fits reason : (len (closeReason reason) ≤ closeReasonMax)%nat.
Proof.
  unfold closeReason. case_match eqn:E; [|by apply Nat.ltb_ge].
  rewrite len_chars, chars_unchars, length_take. lia.
Qed.
