(* ===== verification/Entitled.v ===== *)
(** * What a client may be sent

    An event frame is due to a user when it stands for an event of the log that
    admits the user, and its payload is the one that event has for them: the
    document it is about as they could see it; or, for the kinds that tell everybody
    the same, a message, a fight, a door or a scene as the log and the store have
    it; or the tokens of a scene they could see.  Everything an intent publishes is
    due to everybody it is published for, and so is everything a session
    replays. *)

From S2P Require Import Prelude GoStrings Json Perm Storage Torn Redact Access Vision Sight Dice Auth.
From S2P Require Import Frame Outbox Ticket Hub Session Intents Chat Combat Doors Password Http Worlds Footprint Router Server.

Local Open Scope Z_scope.

(** The event of an event frame. *)
Definition eventBody (f : Frame) : option EventBody :=
  if bool_decide (frame_Type f = TypeEvent) then frame_Event f else None.

(** The kinds of events that carry a document, one view for each member. *)
Definition showsDocument (kind : string) : bool :=
  bool_decide (kind = "document.patch") || bool_decide (kind = "scene.token.move").

(** The frame a publication carries for a user, wherever their session is. *)
Definition carries (p : Publication) (u : ID) (f : Frame) : Prop :=
  allows p u = true ∧
  match pub_PerUser p with None => f = pub_Frame p | Some perUser => perUser !! u = Some f end.

(** ** Payloads *)

Section Shown.
Context {Q : Type} `{Query Q}.
Variable policy : FieldPolicy.
Implicit Types (q : Q) (row : Event).

(** The document [target] as a user in a role sees it in what a read finds:
    redacted under their grant, and in their line of sight. *)
Definition shownAs q (w u : ID) (role : Role) (target : ID) (seq : Z) (payload : raw) : Prop :=
  ∃ doc grant v, GetDocument q w target = Ok doc ∧
    GrantOf q (MkSubject u role) doc = Ok grant ∧
    RedactDocument doc (MkSubject u role) grant policy = Ok (Some v) ∧
    CanSee q (MkSubject u role) w doc = Ok true ∧
    MarshalView (viewOf (MkView (MkSubject u role) grant v) seq) = Ok payload.

(** A token as a user in a role sees it.  For a scene that has an id it is one of the
    scene's and in the user's line of sight. *)
Definition shownToken q (w u : ID) (role : Role) (scene : ID) (b : tokenBrief) : Prop :=
  ∃ token grant v, GetDocument q w (doc_ID token) = Ok token ∧ doc_Kind token = "token" ∧
    (scene ≠ "" → doc_ParentID token = scene ∧ CanSee q (MkSubject u role) w token = Ok true) ∧
    GrantOf q (MkSubject u role) token = Ok grant ∧
    RedactDocument token (MkSubject u role) grant policy = Ok (Some v) ∧
    b = MkTokenBrief (doc_ID v) (doc_Name v) (doc_Img v) (doc_Data v).

(** What catch-up sends of an event: the document it is about, as the user sees it
    when it is read, or else the payload the log has. *)
Definition replayAs q (w u : ID) (role : Role) row (payload : raw) : Prop :=
  if decide (event_TargetKind row = "document" ∧ event_TargetID row ≠ "")
  then shownAs q w u role (event_TargetID row) (event_Seq row) payload
  else payload = event_Payload row.

(** What the handler that committed an event sends of it, by the kind of the event;
    [q] is the store of its transaction, or the one before. *)
Inductive sentAs q (w u : ID) row (payload : raw) : Prop :=
  | sent_document m :
      showsDocument (event_Kind row) = true → event_TargetKind row = "document" → GetMember q w u = Ok m →
      shownAs q w u (member_Role m) (event_TargetID row) (event_Seq row) payload →
      sentAs q w u row payload
  | sent_visibility m briefs :
      event_Kind row = "scene.visibility" → GetMember q w u = Ok m →
      encodeVisibility (event_SceneID row) briefs = Ok payload →
      Forall (shownToken q w u (member_Role m) (event_SceneID row)) briefs →
      sentAs q w u row payload
  | sent_message m :
      event_Kind row = "chat.message" → msg_ID m = event_TargetID row → msg_AuthorID m = event_ActorUserID row →
      event_Payload row = encodeMessage m → payload = encodeMessage (withMsgSeq (event_Seq row) m) →
      sentAs q w u row payload
  | sent_combat c doc :
      event_Kind row = combatEventKind (c_Active c) → GetDocument q w CombatDocumentID = Ok doc →
      doc_Data doc = encodeCombat c → event_Payload row = encodeCombat c → payload = encodeCombat c →
      sentAs q w u row payload
  | sent_door wall fields :
      event_Kind row = "scene.door.toggle" → GetDocument q w (event_TargetID row) = Ok wall →
      UnmarshalObject (doc_Data wall) = Ok fields →
      payload = encodeDoorState (MkDoorState (event_TargetID row) (event_SceneID row)
                                   (boolAt "doorOpen" fields) (event_Seq row)) →
      sentAs q w u row payload
  | sent_scene scene :
      event_Kind row = "scene.activate" → GetDocument q w (event_TargetID row) = Ok scene →
      doc_Kind scene = "scene" →
      payload = encodeSceneActivated (MkSceneActivated (event_TargetID row) (doc_Name scene) (event_Seq row)) →
      sentAs q w u row payload.
End Shown.

Section Entitled.
Context {S : Type} `{TxLaws S} `{!FrameLaws S}.
Variable policy : FieldPolicy.
Implicit Types (q store : S) (past : list S).

(** A frame that may be sent to user [u] of world [w], whose session has a role:
    if it is an event, then one of the log that admits [u], with the payload that
    event has for [u]: as catch-up reads it, each query answered by one of the
    stores of the [past] and the role being that of the session, or as the handler
    that committed it found it in one of them. *)
Definition due past store (w u : ID) (role : Role) (f : Frame) : Prop :=
  ∀ e, eventBody f = Some e →
  ∃ row, Log store w (ev_Seq e) = Some row ∧
    ev_WorldID e = w ∧ ev_Kind e = event_Kind row ∧ ev_SceneID e = event_SceneID row ∧
    audienceAllows (event_Audience row) u = true ∧
    ((∃ v, drawnFrom past v ∧ replayAs policy v w u role row (ev_Payload e)) ∨
     (∃ q, q ∈ past ∧ sentAs policy q w u row (ev_Payload e))).

(** What may be published in a world: to each user what is due to them. *)
Definition soundFor past store (w : ID) (p : Publication) : Prop :=
  ∀ u role f, carries p u f → due past store w u role f.

Lemma due_mono past past' store store' w u role f :
  past ⊆ past' → logGrows store store' → due past store w u role f → due past' store' w u role f.
Proof.
  intros Hp Hl Hd e He. destruct (Hd e He) as (row & Hrow & Hw & Hk & Hsc & Ha & Hs).
  exists row. split_and!; try done; [by apply Hl|]. destruct Hs as [(v & Hv & Hs)|(q & Hq & Hs)].
  - left. exists v. split; [by eapply drawnFrom_mono|done].
  - right. exists q. split; [by apply Hp|done].
Qed.

Lemma soundFor_mono past past' store store' w p :
  past ⊆ past' → logGrows store store' → soundFor past store w p → soundFor past' store' w p.
Proof. intros Hp Hl Hs u role f Hf. by eapply due_mono, Hs. Qed.

(** A frame that is no event is due to anybody. *)
Lemma due_other past store w u role f : eventBody f = None → due past store w u role f.
Proof. intros Hf e. by rewrite Hf. Qed.

Lemma eventBody_type f : frame_Type f ≠ TypeEvent → eventBody f = None.
Proof. intros Hf. unfold eventBody. by rewrite bool_decide_eq_false_2. Qed.

Lemma eventBody_eventFrame e : eventBody (eventFrame e) = Some e.
Proof. done. Qed.

(** ** Appending and publishing *)

(** The row of an event appended on the way from one store to another. *)
Lemma appended now e store n s1 store' T :
  wf store → AppendEvent now e store = (Ok n, s1) → writesTo T s1 store' →
  ∃ row, Log store' (event_WorldID e) n = Some row ∧ logsAs e n row.
Proof.
  intros Hwf Ha Hw. destruct (AppendEvent_log _ _ _ _ _ Hwf Ha) as (_ & (row & Hrow & Hlogs) & _).
  exists row. split; [|done]. destruct (AppendEvent_wf _ _ _ _ _ Hwf Ha) as [Hwf1 _].
  by apply (writes_grow _ _ _ Hwf1 Hw).
Qed.

(** An event for everybody, published to the world. *)
Lemma toWorld_sound past store s seq kind tk target scene payload payload' row q :
  Log store (sess_worldID s) seq = Some row →
  logsAs (newEvent s kind tk target scene payload) seq row →
  q ∈ past → (∀ u, sentAs policy q (sess_worldID s) u row payload') →
  soundFor past store (sess_worldID s) (toWorld s seq kind scene payload').
Proof.
  intros Hrow (Hw & Hq & Hk & _ & _ & Hs & _ & _ & Ha & _) Hin Hlive. cbn in *.
  intros u role f [_ Hf]. cbn in Hf. subst f. intros e [= <-]. cbn. exists row.
  split_and!; try done; [by rewrite (Ha eq_refl)|]. right. by exists q.
Qed.

(** ** Intents *)

(** An intent whose publications are due to whom they are for. *)
Definition publishesDue (h : IntentFunc S) : Prop := ∀ s i store, wf store →
  let o := h s i store in
  Forall (soundFor [out_store o; store] (out_store o) (sess_worldID s)) (out_published o).

Lemma applyPatch_due now s id patch kind payload store :
  showsDocument kind = true → id ≠ "" → wf store →
  let o := applyPatch policy now s id patch kind payload store in
  Forall (soundFor [out_store o; store] (out_store o) (sess_worldID s)) (out_published o).
Proof.
  intros Hkind Hid Hwf o. subst o. unfold applyPatch.
  destruct (runTx _ store) as [[[seq views]|e] store'] eqn:Et; [|constructor].
  apply (proj1 (runTx_Ok _ _ _ _)) in Et. unfold applyPatchTx in Et.
  apply M_bind_Ok in Et as (doc & s1 & Hd & Et). apply lift_Ok in Hd as [Hd ->].
  apply M_bind_Ok in Et as (g & s1 & Hg & Et). apply lift_Ok in Hg as [_ ->].
  apply M_bind_Ok in Et as (seq' & s1 & Ha & Et).
  destruct (AppendEvent_wf _ _ _ _ _ Hwf Ha) as [Hwf1 _].
  apply M_bind_Ok in Et as (patched & s2 & Hp & Et).
  destruct (PatchDocument_wf _ _ _ _ _ _ _ Hwf1 Hp) as [Hwf2 Hget].
  assert (writesTo [TDocuments] s1 s2) as Hw.
  { eapply writes_once; [left|]. by eapply wrote_Patch. }
  apply M_bind_Ok in Et as (all & s3 & Hall & Et). apply lift_Ok in Hall as [Hall ->].
  apply M_bind_Ok in Et as (views' & s3 & Hf & Et). apply lift_Ok in Hf as [Hf ->].
  apply ret_Ok in Et as [[= -> ->] ->].
  destruct (appended _ _ _ _ _ _ _ Hwf Ha Hw) as (row & Hrow & Hlogs). cbn [newEvent event_WorldID] in Hrow.
  destruct (traverse _ _) as [perUser|e] eqn:Etr; [|constructor].
  assert (soundFor [s2; store] s2 (sess_worldID s) (perUserPublication s (list_to_map perUser))) as Hsound.
  2:{ destruct (views' !! sess_userID s); cbn; by constructor. }
  intros u role f [_ Hu]. cbn in Hu.
  apply (list_to_map_frames _ _ _ _ _ u f Etr) in Hu as (v & encoded & Hv & Hm & ->).
  intros e [= <-]. cbn. destruct Hlogs as (_ & Hsq & Hk & Htk & Hti & Hsc & _ & _ & Haud & _). cbn in *.
  exists row. split_and!; try done; [by rewrite (Haud eq_refl)|].
  pose proof (Filter_subset _ _ _ _ _ _ _ Hf Hv) as Hin.
  apply (Filter_CanSee _ _ _ _ _ _ _ Hf Hin) in Hv.
  destruct (GetDocument_key _ _ _ _ Hwf2 Hget) as [Hdw _].
  apply (ProjectForMembers_lookup _ _ _ _ _ _ Hwf2 Hall) in Hin as (ms & m & Hms & Hmin & <- & _ & Hsub & Hgr & Hred).
  rewrite Hdw in Hms. apply (proj2 (ListMembers_of _ _ _ Hwf2 Hms)) in Hmin.
  right. exists s2. split; [left|]. apply (sent_document _ _ _ _ _ _ m); [by rewrite Hk|done|done|].
  rewrite Hti, Hsq. destruct v as [sub gr vd]. cbn in *. subst sub. by exists patched, gr, vd.
Qed.

Lemma coreIntents_due now : publishesDue (handleDocumentPatch policy now) ∧
  publishesDue (handleTokenMove policy now) ∧ publishesDue (handleSceneActivate now).
Proof.
  split_and!; intros s i store Hwf; cbn zeta.
  - unfold handleDocumentPatch. destruct (decodeDocumentPatch _); [|constructor]. case_bool_decide; [constructor|].
    by apply applyPatch_due.
  - unfold handleTokenMove. destruct (decodeTokenMove _); [|constructor]. case_bool_decide; [constructor|].
    by apply applyPatch_due.
  - unfold handleSceneActivate. destruct (decodeOneString _ _); [|constructor].
    case_bool_decide; [constructor|]. destruct (negb _); [constructor|].
    destruct (runTx _ store) as [[a|e] st] eqn:Et; [|constructor].
    apply (proj1 (runTx_Ok _ _ _ _)) in Et. unfold activateTx in Et.
    apply M_bind_Ok in Et as (scene & s1 & Hs & Et). apply lift_Ok in Hs as [Hs ->].
    destruct (GetDocument_key _ _ _ _ Hwf Hs) as [_ Hsid].
    apply M_bind_Ok in Et as ([] & s1 & Hg & Et). apply ofRes_Ok in Hg as [Hg ->]. apply guard_res_Ok in Hg.
    apply bool_decide_eq_true in Hg.
    apply M_bind_Ok in Et as (world & s1 & Hworld & Et). apply lift_Ok in Hworld as [Hworld ->].
    apply M_bind_Ok in Et as (x & s1 & Hp & Et). apply M_bind_Ok in Et as (seq & s2 & Ha & Et).
    apply ret_Ok in Et as [-> ->]. cbn [out_store out_published sa_Seq sa_SceneID].
    assert (wf s1) as Hwf1.
    { refine (PutWorld_wf _ _ _ _ _ Hwf _ Hp). left. cbn.
      rewrite (GetWorld_key _ _ _ Hwf Hworld). by eexists. }
    destruct (appended _ _ _ _ _ s2 [] Hwf1 Ha ltac:(done)) as (row & Hrow & Hlogs).
    constructor; [|constructor]. apply (toWorld_sound _ _ _ _ _ _ _ _ _ _ _ store Hrow Hlogs); [right; left|].
    destruct Hlogs as (_ & Hsq & Hk & _ & Hti & _). cbn in Hk, Hti. intros u.
    apply (sent_scene _ _ _ _ _ _ scene); [done|by rewrite Hti, Hsid|done|by rewrite Hti, Hsq].
Qed.

Lemma publishMessage_due now i at_ s m store :
  wf store → let o := publishMessage now i at_ s m store in
  Forall (soundFor [out_store o; store] (out_store o) (sess_worldID s)) (out_published o).
Proof.
  intros Hwf o. subst o. unfold publishMessage. cbn zeta. set (msg := MkChatMessage _ _ _ _ _ _ _ _ _ _ _).
  destruct (runTx _ store) as [[[seq audience]|e] store'] eqn:Et; [|constructor].
  apply (proj1 (runTx_Ok _ _ _ _)) in Et. unfold messageTx in Et.
  apply M_bind_Ok in Et as (aud & s1 & Haud & Et).
  assert (s1 = store) as ->.
  { destruct (bool_decide _).
    - apply M_bind_Ok in Haud as (ms & s2 & Hms & Haud). apply lift_Ok in Hms as [_ ->]. by apply ret_Ok in Haud as [_ ->].
    - by apply ret_Ok in Haud as [_ ->]. }
  apply M_bind_Ok in Et as (q & s1 & Ha & Et). apply M_bind_Ok in Et as (d & s2 & Hp & Et).
  apply ret_Ok in Et as [[= -> ->] ->]. cbn [out_store out_published].
  assert (writesTo [TDocuments] s1 s2) as Hw.
  { eapply writes_once; [left|]. by eapply wrote_Document. }
  destruct (appended _ _ _ _ _ _ _ Hwf Ha Hw) as (row & Hrow & Hlogs).
  constructor; [|constructor]. intros u role f [Hu Hf]. cbn in Hf. subst f.
  intros e [= <-]. cbn. destruct Hlogs as (_ & Hsq & Hk & _ & Hti & Hsc & Hac & Hpay & _ & Haudience). cbn in *.
  exists row. split_and!; try done.
  - assert (event_Audience row = MarshalStrings aud) as -> by (unfold MarshalStrings in *; by destruct aud; apply Haudience).
    rewrite audienceAllows_Marshal. exact Hu.
  - right. exists s2. split; [left|].
    apply (sent_message _ _ _ _ _ _ msg); [done|by rewrite Hti|by rewrite Hac|by apply Hpay|by rewrite Hsq].
Qed.

Lemma chatIntents_due `{Unicode} {G} `{DiceSource G} now i at_ (g : G) :
  publishesDue (handleChatPost now i at_) ∧ publishesDue (handleChatRoll now i at_ g).
Proof.
  split; intros s m store Hwf; cbn zeta.
  - unfold handleChatPost. destruct (structFields _ ≫= _) as [[text audience]|]; [|constructor]. cbn zeta.
    case_bool_decide; [constructor|]. by apply publishMessage_due.
  - unfold handleChatRoll. destruct (structFields _ ≫= _) as [[[expression reason] audience]|]; [|constructor].
    destruct (Roll expression g) as [[result g']|]; [|constructor]. by apply publishMessage_due.
Qed.

Lemma commitCombat_due now s combat store seq store' :
  wf store → commitCombat now s combat store = (Ok seq, store') →
  soundFor [store'; store] store' (sess_worldID s)
    (toWorld s seq (combatEventKind (c_Active combat)) (c_SceneID combat) (encodeCombat combat)).
Proof.
  intros Hwf Ht. unfold commitCombat in Ht.
  apply M_bind_Ok in Ht as (n & s1 & Ha & Ht). apply M_bind_Ok in Ht as (d & s2 & Hp & Ht).
  apply ret_Ok in Ht as [-> ->].
  assert (writesTo [TDocuments] s1 s2) as Hw.
  { eapply writes_once; [left|]. by eapply wrote_Document. }
  destruct (appended _ _ _ _ _ _ _ Hwf Ha Hw) as (row & Hrow & Hlogs).
  destruct (AppendEvent_wf _ _ _ _ _ Hwf Ha) as [Hwf1 _].
  destruct (PutDocument_wf _ _ _ _ _ Hwf1 Hp) as (_ & (doc & Hdoc & _ & _ & _ & Hdata) & _).
  apply (toWorld_sound _ _ _ _ _ _ _ _ _ _ _ s2 Hrow Hlogs); [left|]. intros u.
  destruct Hlogs as (_ & _ & Hk & _ & _ & _ & _ & Hpay & _).
  apply (sent_combat _ _ _ _ _ _ combat doc); [done|done|by apply Hdata|by apply Hpay|done].
Qed.

(** A transaction that reads, then commits the fight it answers. *)
Lemma finishCombat_due s (m : M S (Combat * Z)) store :
  (∀ c seq store', m store = (Ok (c, seq), store') →
     soundFor [store'; store] store' (sess_worldID s)
       (toWorld s seq (combatEventKind (c_Active c)) (c_SceneID c) (encodeCombat c))) →
  let o := finishCombat s (runTx m store) in
  Forall (soundFor [out_store o; store] (out_store o) (sess_worldID s)) (out_published o).
Proof.
  intros Hm o. subst o. destruct (runTx m store) as [[[c seq]|e] st] eqn:E; [|constructor].
  apply (proj1 (runTx_Ok _ _ _ _)) in E. constructor; [|constructor]. by apply Hm.
Qed.

Lemma readCombat_same s store c store' : readCombat s store = (Ok c, store') → store' = store.
Proof.
  unfold readCombat. intros (d & s1 & Hd & Hr)%M_bind_Ok. apply lift_Ok in Hd as [_ ->].
  by apply ofRes_Ok in Hr as [_ ->].
Qed.

Lemma combatIntents_due `{Unicode} {G} `{DiceSource G} now (probe g : G) :
  publishesDue (handleCombatStart now probe g) ∧ publishesDue (handleCombatNext now) ∧
  publishesDue (handleCombatEnd now).
Proof.
  split_and!; intros s m store Hwf; cbn zeta;
    unfold handleCombatStart, handleCombatNext, handleCombatEnd; (destruct (negb (IsStaff _)); [constructor|]).
  - destruct (structFields _ ≫= _) as [[sceneID formula]|]; [|constructor]. case_bool_decide; [constructor|].
    cbn zeta. destruct (Roll _ probe); [|constructor]. apply finishCombat_due. intros c seq store' Ht.
    unfold startTx in Ht. apply M_bind_Ok in Ht as (tokens & s1 & Hl & Ht). apply lift_Ok in Hl as [_ ->].
    apply M_bind_Ok in Ht as ([] & s1 & Hg & Ht). apply ofRes_Ok in Hg as [_ ->].
    apply M_bind_Ok in Ht as (cs & s1 & Hcs & Ht). apply ofRes_Ok in Hcs as [_ ->].
    apply M_bind_Ok in Ht as (n & s1 & Hc & Ht). apply ret_Ok in Ht as [[= -> ->] ->]. by eapply commitCombat_due.
  - apply finishCombat_due. intros c seq store' Ht. unfold nextTx in Ht.
    apply M_bind_Ok in Ht as (loaded & s1 & Hl & Ht). apply readCombat_same in Hl as ->.
    apply M_bind_Ok in Ht as ([] & s1 & Hg & Ht). apply ofRes_Ok in Hg as [_ ->].
    apply M_bind_Ok in Ht as (n & s1 & Hc & Ht). apply ret_Ok in Ht as [[= -> ->] ->]. by eapply commitCombat_due.
  - apply finishCombat_due. intros c seq store' Ht. unfold endTx in Ht.
    apply M_bind_Ok in Ht as (loaded & s1 & Hl & Ht). apply readCombat_same in Hl as ->.
    apply M_bind_Ok in Ht as (n & s1 & Hc & Ht). apply ret_Ok in Ht as [[= -> ->] ->]. by eapply commitCombat_due.
Qed.

(** The frames [visibilityFrames] makes show their user what they may see. *)
Lemma visibilityFrames_due q s scene seq perUser u f row :
  wf q → visibilityFrames policy q s scene seq = Ok perUser → perUser !! u = Some f →
  event_Kind row = "scene.visibility" → event_SceneID row = scene →
  ∃ payload, f = eventFrame (MkEventBody seq "scene.visibility" (sess_worldID s) scene payload) ∧
    sentAs policy q (sess_worldID s) u row payload.
Proof.
  intros Hwf Hv Hu Hk Hsc. unfold visibilityFrames in Hv.
  apply bind_Ok in Hv as (ms & Hms & Hv). apply bind_Ok in Hv as (tokens & Htok & Hv).
  destruct (memberStep_frames _ _ _ _ _ _ _ _ _ _ _ Hv Hu) as [Hemp|Hm]; [by rewrite lookup_empty in Hemp|].
  destruct Hm as (m & visible & briefs & payload & Hin & <- & _ & Hvis & Hb & Henc & ->).
  exists payload. split; [done|].
  apply (sent_visibility _ _ _ _ _ _ m briefs); [done| |by rewrite Hsc|].
  { by apply (proj2 (ListMembers_of _ _ _ Hwf Hms)). }
  pose proof (ListDocuments_of _ _ _ _ Hwf Htok) as Hall. rewrite Forall_forall in Hall.
  apply Forall_forall. intros b. rewrite (briefStep_spec _ _ _ _ _ _ Hb b), elem_of_nil, Hsc.
  intros [[]|(token & grant & r & Ht & Hg & Hr & ->)].
  destruct (VisibleTokens_sound _ _ _ _ _ _ _ Hvis Ht) as [Hlisted Hsee].
  destruct (Hall _ Hlisted) as [(_ & Hkind & _ & Hparent & _) Hget]. cbn in Hkind, Hparent.
  exists token, grant, r. split_and!; try done; [by apply Hkind|].
  intros Hne. split; [by apply Hparent|]. apply Hsee; [by apply Hkind|by apply Hparent|done].
Qed.

Lemma doorIntents_due now : publishesDue (handleDoorToggle policy now).
Proof.
  intros s m store Hwf; cbn zeta. unfold handleDoorToggle. destruct (negb (IsStaff _)); [constructor|].
  destruct (decodeOneString _ _) as [id|]; [|constructor]. case_bool_decide; [constructor|].
  destruct (runTx _ store) as [[[state perUser]|e] st] eqn:Et; [|constructor].
  apply (proj1 (runTx_Ok _ _ _ _)) in Et. unfold toggleTx in Et.
  apply M_bind_Ok in Et as (wall & s1 & Hw & Et). apply lift_Ok in Hw as [Hw ->].
  destruct (GetDocument_key _ _ _ _ Hwf Hw) as [Hdw _].
  apply M_bind_Ok in Et as ([encoded open] & s1 & Htog & Et). apply ofRes_Ok in Htog as [Htog ->].
  apply M_bind_Ok in Et as (seq & s1 & Ha & Et). destruct (AppendEvent_wf _ _ _ _ _ Hwf Ha) as [Hwf1 _].
  apply M_bind_Ok in Et as (d & s2 & Hp & Et).
  destruct (PutDocument_wf _ _ _ _ _ Hwf1 Hp) as (Hwf2 & (wall' & Hget & _ & _ & _ & Hdata) & _).
  cbn in Hget, Hdata. rewrite Hdw in Hget.
  apply M_bind_Ok in Et as (vseq & s3 & Hv & Et).
  destruct (AppendEvent_wf _ _ _ _ _ Hwf2 Hv) as (Hwf3 & _ & _ & Hdocs & _).
  apply M_bind_Ok in Et as (pu & s4 & Hvis & Et). apply lift_Ok in Hvis as [Hvis ->].
  apply ret_Ok in Et as [[= -> ->] ->]. cbn [out_store out_published door_Seq door_SceneID].
  assert (writesTo [TDocuments; TEvents] s1 s3) as Hws.
  { etrans; (eapply writes_once; [|]); [left|by eapply wrote_Document|right; left|by eapply wrote_Event]. }
  destruct (appended _ _ _ _ _ _ _ Hwf Ha Hws) as (row & Hrow & Hlogs).
  destruct (appended _ _ _ _ _ s3 [] Hwf2 Hv ltac:(done)) as (vrow & Hvrow & Hvlogs).
  constructor; [|constructor; [|constructor]].
  - apply (toWorld_sound _ _ _ _ _ _ _ _ _ _ _ s3 Hrow Hlogs); [left|]. intros u.
    apply toggleDoor_Ok in Htog as (fields & _ & _ & _ & _ & Hout).
    destruct Hlogs as (_ & Hsq & Hk & _ & Hti & Hsc & _). cbn in Hsq, Hk, Hti, Hsc.
    assert (∃ j, encoded = Raw j) as [j ->] by (destruct encoded; [done|done|by eexists]).
    eapply (sent_door _ _ _ _ _ _ wall'); [done|by rewrite Hti, Hdocs|by rewrite (Hdata _ eq_refl)|].
    rewrite Hti, Hsc, Hsq. unfold boolAt. by rewrite objGet_insert, bool_decide_eq_true_2.
  - intros u role f [_ Hf]. cbn in Hf. destruct Hvlogs as (_ & _ & Hk & _ & _ & Hsc & _ & _ & Haud & _).
    cbn in Hk, Hsc, Haud.
    destruct (visibilityFrames_due _ _ _ _ _ _ _ vrow Hwf3 Hvis Hf Hk Hsc) as (payload & -> & Hsent).
    intros e [= <-]. cbn. exists vrow. split_and!; try done; [by rewrite (Haud eq_refl)|].
    right. exists s3. split; [left|done].
Qed.

(** A frame from one client to others. *)
Lemma ephemeral_due past store s frame :
  Forall (soundFor past store (sess_worldID s)) (handleEphemeral frame s).2.
Proof.
  unfold handleEphemeral. destruct (frame_Ephemeral frame) as [e|]; [|constructor].
  case_bool_decide; [constructor|]. cbn. constructor; [|constructor]. intros u role f [_ Hf]. cbn in Hf. subst f.
  by apply due_other.
Qed.

(** The intents the server registers. *)
Lemma fullRouter_due `{Unicode} {G} `{DiceSource G} now i at_ (source probe g : G) :
  map_Forall (λ _, publishesDue) (fullRouter policy now i at_ source probe g).
Proof.
  unfold fullRouter, RegisterDoorIntents, RegisterCombatIntents, RegisterChatIntents, RegisterCoreIntents, Handle.
  repeat (apply map_Forall_insert_2);
    first [ apply doorIntents_due | apply (combatIntents_due now probe g)
          | apply (chatIntents_due now i at_ source) | apply (coreIntents_due now)
          | apply map_Forall_empty ].
Qed.

(** ** Catch-up *)

(** An event a read found: the log has it. *)
Definition logged store (w : ID) (e : Event) : Prop :=
  event_WorldID e = w ∧ Log store w (event_Seq e) = Some e.

Lemma logged_mono store store' w e : logGrows store store' → logged store w e → logged store' w e.
Proof. intros Hl [Hw He]. split; [done|by apply Hl]. Qed.

(** What [EventsSince] answers: events of the log above the number asked for, in order. *)
Lemma EventsSince_logged store w fromSeq limit events :
  wf store → EventsSince store w fromSeq limit = Ok events →
  Forall (logged store w) events ∧ StronglySorted Z.lt (event_Seq <$> events) ∧
  Forall (λ n, fromSeq < n) (event_Seq <$> events).
Proof.
  intros Hwf He. destruct (EventsSince_of _ _ _ _ _ Hwf He) as [Hev Hsorted]. rewrite Forall_forall in Hev.
  split_and!; [|done|].
  - apply Forall_forall. intros e Hin. split; [by apply Hev|]. by apply (EventsSince_log _ _ _ _ _ Hwf He).
  - apply Forall_fmap, Forall_forall. intros e Hin. by apply Hev.
Qed.

(** What projecting one event adds to the frames: nothing, or the frame of the
    event, which is due whatever stores the queries found. *)
Lemma replayStep_due past store (v : reads S) s e frames frames' :
  drawnFrom past v → logged store (sess_worldID s) e → replayStep policy v s frames e = Ok frames' →
  frames' = frames ∨
  ∃ f, frames' = frames ++ [f] ∧ eventSeq f = Some (event_Seq e) ∧
    due past store (sess_worldID s) (sess_userID s) (sess_role s) f.
Proof.
  intros Hv [Hw Hlog] Hstep. unfold replayStep in Hstep.
  destruct (audienceAllows _ _) eqn:Ea; cbn in Hstep; [|injection Hstep as <-; by left].
  apply bind_Ok in Hstep as ([p|] & Hp & [= <-]); [|by left]. right.
  exists (eventOf e p). split_and!; [done|by rewrite eventSeq_eventOf|].
  intros b [= <-]. cbn. exists e. split_and!; try done. left. exists v. split; [done|].
  unfold replayAs. destruct (decide _) as [[Hk Ht]|Hno].
  - destruct (replayPayload_shown _ _ _ _ _ Hp Hk Ht) as (doc & grant & x & Hshown). by exists doc, grant, x.
  - unfold replayPayload in Hp. destruct (negb _ || _) eqn:E; [by injection Hp|].
    apply orb_false_iff in E as [Hk%negb_false_iff%bool_decide_eq_true Ht%bool_decide_eq_false].
    by destruct Hno.
Qed.
End Entitled.
