(* ===== verification/Announce.v ===== *)
(** * What is committed is published

    The other half of Entitled.v: every event a handler appends to the log is
    handed to the hub, under its number, for everybody it concerns.  One that goes
    to everybody, or to a list of users, is published for all its row admits; one
    whose frame is made for each member apart (a patch, a move, what a door brings
    into view), for every member the committed store lets see its document. *)

From S2P Require Import Prelude GoStrings Json Perm Storage Redact Access Vision Sight Dice.
From S2P Require Import Frame Outbox Ticket Hub Session Intents Chat Combat Doors Password Http Worlds Footprint Router Server.
From S2P Require Import Entitled.

Local Open Scope Z_scope.

(** A publication that brings event [q] of world [w] to user [u]. *)
Definition brings (w u : ID) (q : Z) (p : Publication) : Prop :=
  pub_Lane p = LaneDocument ∧ pub_Channel p = WorldChannel w ∧ pub_Exclude p = "" ∧
  ∃ f, carries p u f ∧ eventSeq f = Some q.

(** The events whose frames are made for each member apart. *)
Definition perMember (row : Event) : bool :=
  bool_decide (event_TargetKind row = "document") &&
  (showsDocument (event_Kind row) || bool_decide (event_Kind row = "scene.visibility")).

Section Announce.
Context {S : Type} `{TxLaws S} `{!FrameLaws S}.
Variable policy : FieldPolicy.
Implicit Types (q store : S).

(** In store [q], user [u] is a member of the world with a valid role; and when the
    event shows a document, its document is one the user can read and is in sight. *)
Definition concerns q (w u : ID) (row : Event) : Prop :=
  ∃ m, GetMember q w u = Ok m ∧ Valid (member_Role m) = true ∧
  (showsDocument (event_Kind row) = true →
   ∃ doc grant v, GetDocument q w (event_TargetID row) = Ok doc ∧
     GrantOf q (MkSubject u (member_Role m)) doc = Ok grant ∧
     RedactDocument doc (MkSubject u (member_Role m)) grant policy = Ok (Some v) ∧
     CanSee q (MkSubject u (member_Role m)) w doc = Ok true).

(** Those an event is to be sent to when it is committed. *)
Definition addressed q (w u : ID) (row : Event) : Prop :=
  audienceAllows (event_Audience row) u = true ∧ (perMember row = true → concerns q w u row).

(** What [ps] bring of the rows that are in the log of [store'] and not in that
    of [store]. *)
Definition announcedBy (w : ID) store store' (ps : list Publication) : Prop :=
  ∀ w' n row, Log store' w' n = Some row → Log store w' n = None →
  w' = w ∧ ∀ u, addressed store' w u row → ∃ p, p ∈ ps ∧ brings w u n p.

(** An intent that publishes what it commits. *)
Definition publishesAll (h : IntentFunc S) : Prop := ∀ s i store, wf store →
  let o := h s i store in announcedBy (sess_worldID s) store (out_store o) (out_published o).

Lemma announced_same w store ps : announcedBy w store store ps.
Proof. intros w' n row Hs Hn. congruence. Qed.

Lemma announced_log w store1 store2 store3 ps :
  (∀ w n, Log store2 w n = Log store1 w n) → announcedBy w store2 store3 ps → announcedBy w store1 store3 ps.
Proof. intros Hlog Ha w' n row Hr Hn. apply Ha; [done|]. by rewrite Hlog. Qed.

(** Appending one event and writing other tables adds one row. *)
Lemma only_appended now e store n s1 store' T w k row :
  wf store → AppendEvent now e store = (Ok n, s1) → writesTo T s1 store' → TEvents ∉ T →
  Log store' w k = Some row → Log store w k = None →
  w = event_WorldID e ∧ k = n ∧ logsAs e n row.
Proof.
  intros Hwf Ha Hw HT Hr Hn. destruct (AppendEvent_log _ _ _ _ _ Hwf Ha) as (_ & (row' & Hrow' & Hlogs) & Hsame).
  destruct (AppendEvent_wf _ _ _ _ _ Hwf Ha) as [Hwf1 _]. rewrite (writes_log _ _ _ HT Hwf1 Hw) in Hr.
  destruct (decide ((w, k) = (event_WorldID e, n))) as [[= -> ->]|Hne].
  - rewrite Hrow' in Hr. injection Hr as <-. done.
  - rewrite (Hsame w k Hne) in Hr. congruence.
Qed.

(** An appended event whose publication brings it. *)
Lemma announced_one now e w store n s1 store' T ps :
  wf store → AppendEvent now e store = (Ok n, s1) → writesTo T s1 store' → TEvents ∉ T → event_WorldID e = w →
  (∀ row u, logsAs e n row → addressed store' w u row → ∃ p, p ∈ ps ∧ brings w u n p) →
  announcedBy w store store' ps.
Proof.
  intros Hwf Ha Hw HT Hwe Hps w' k row Hr Hn.
  destruct (only_appended _ _ _ _ _ _ _ _ _ _ Hwf Ha Hw HT Hr Hn) as (-> & -> & Hlogs). split; [done|].
  intros u Hu. by eapply Hps.
Qed.

(** The publications to a whole world. *)
Lemma toWorld_brings s n kind scene payload u : brings (sess_worldID s) u n (toWorld s n kind scene payload).
Proof. split_and!; [done..|]. by eexists. Qed.

(** A frame of one's own in a per-user publication. *)
Lemma perUser_brings s (perUser : gmap ID Frame) u f n :
  perUser !! u = Some f → eventSeq f = Some n → brings (sess_worldID s) u n (perUserPublication s perUser).
Proof. intros Hu Hf. split_and!; [done..|]. by exists f. Qed.

Lemma perMember_row e n row :
  logsAs e n row → perMember row = perMember e.
Proof. intros (_ & _ & Hk & Htk & _). unfold perMember. by rewrite Hk, Htk. Qed.

#[local] Hint Extern 1 (_ ∉ _) => set_solver : announce.

(** ** Intents *)

(** Every member a patched document concerns has a frame of it. *)
Lemma viewFrames_reach q s kind n id patched all views perUser u row :
  wf q → GetDocument q (sess_worldID s) id = Ok patched → ProjectForMembers policy q patched = Ok all →
  Filter q (sess_worldID s) patched all = Ok views →
  traverse (viewFrame s kind n) (map_to_list views) = Ok perUser →
  showsDocument (event_Kind row) = true → event_TargetID row = id → concerns q (sess_worldID s) u row →
  ∃ f, (list_to_map perUser : gmap ID Frame) !! u = Some f ∧ eventSeq f = Some n.
Proof.
  intros Hwf Hget Hall Hf Htr Hk Hid (m & Hm & Hv & Hsees).
  destruct (Hsees Hk) as (doc & grant & v & Hdoc & Hgr & Hred & Hsee).
  rewrite Hid, Hget in Hdoc. injection Hdoc as <-.
  destruct (GetDocument_key _ _ _ _ Hwf Hget) as [Hdw _]. destruct (GetMember_key _ _ _ _ Hwf Hm) as [_ Hmu].
  assert (all !! u = Some (MkView (MkSubject u (member_Role m)) grant v)) as Hin.
  { apply (ProjectForMembers_lookup _ _ _ _ _ _ Hwf Hall). pose proof Hall as (ms & Hms & _)%bind_Ok.
    exists ms, m. split; [done|]. split; [|split; [done|by rewrite <-Hmu in *; split_and!]].
    rewrite Hdw in Hms. apply (proj2 (ListMembers_of _ _ _ Hwf Hms)). by rewrite Hmu. }
  apply (Filter_CanSee _ _ _ _ _ _ _ Hf Hin) in Hsee.
  destruct (MarshalView_readable (MkView (MkSubject u (member_Role m)) grant v) n) as [payload Hp].
  { eapply RedactDocument_readable, Hred. by eapply GetDocument_readable. }
  eexists. split; [eapply list_to_map_frames; [exact Htr|]; by eexists _, payload|done].
Qed.

(** The views of a stored document can all be encoded. *)
Lemma viewFrames_total q s kind n id patched all views :
  wf q → GetDocument q (sess_worldID s) id = Ok patched → ProjectForMembers policy q patched = Ok all →
  Filter q (sess_worldID s) patched all = Ok views →
  ∃ perUser, traverse (viewFrame s kind n) (map_to_list views) = Ok perUser.
Proof.
  intros Hwf Hget Hall Hf. apply traverse_total. intros [u v] Hv%elem_of_map_to_list.
  pose proof (Filter_subset _ _ _ _ _ _ _ Hf Hv) as Hin.
  apply (ProjectForMembers_lookup _ _ _ _ _ _ Hwf Hall) in Hin as (ms & m & _ & _ & _ & _ & _ & _ & Hred).
  destruct (MarshalView_readable v n) as [payload Hp].
  { eapply RedactDocument_readable, Hred. by eapply GetDocument_readable. }
  unfold viewFrame. cbn. rewrite Hp. by eexists.
Qed.

Lemma applyPatch_announces now s id patch kind payload store :
  showsDocument kind = true → wf store →
  let o := applyPatch policy now s id patch kind payload store in
  announcedBy (sess_worldID s) store (out_store o) (out_published o).
Proof.
  intros Hkind Hwf o. subst o. unfold applyPatch.
  destruct (runTx _ store) as [[[seq views]|e] store'] eqn:Et.
  2:{ apply runTx_Err in Et as ->. apply announced_same. }
  apply (proj1 (runTx_Ok _ _ _ _)) in Et. unfold applyPatchTx in Et.
  apply M_bind_Ok in Et as (doc & s1 & Hd & Et). apply lift_Ok in Hd as [Hd ->].
  apply M_bind_Ok in Et as (g & s1 & Hg & Et). apply lift_Ok in Hg as [_ ->].
  apply M_bind_Ok in Et as (seq' & s1 & Ha & Et). apply M_bind_Ok in Et as (patched & s2 & Hp & Et).
  destruct (AppendEvent_wf _ _ _ _ _ Hwf Ha) as [Hwf1 _].
  destruct (PatchDocument_wf _ _ _ _ _ _ _ Hwf1 Hp) as [Hwf2 Hget].
  assert (writesTo [TDocuments] s1 s2) as Hw.
  { eapply writes_once; [left|]. by eapply wrote_Patch. }
  apply M_bind_Ok in Et as (all & s3 & Hall & Et). apply lift_Ok in Hall as [Hall ->].
  apply M_bind_Ok in Et as (views' & s3 & Hf & Et). apply lift_Ok in Hf as [Hf ->].
  apply ret_Ok in Et as [[= -> ->] ->].
  destruct (viewFrames_total _ s kind seq' _ _ _ _ Hwf2 Hget Hall Hf) as [perUser Htr]. rewrite Htr.
  set (p := perUserPublication s (list_to_map perUser)).
  assert (announcedBy (sess_worldID s) store s2 [p]) as Hps; [|by destruct (views' !! _)].
  eapply (announced_one _ _ _ _ _ _ _ [TDocuments]); [done|exact Ha|done|set_solver|done|].
  intros row u (_ & _ & Hk & Htk & Hti & _) [_ Hc]. cbn in Hk, Htk, Hti.
  unfold perMember in Hc. rewrite Htk, Hk, Hkind in Hc.
  destruct (viewFrames_reach _ _ _ _ _ _ _ _ _ u row Hwf2 Hget Hall Hf Htr ltac:(by rewrite Hk) Hti (Hc eq_refl))
    as (f & Hu & Hq).
  exists p. split; [left|]. by eapply perUser_brings.
Qed.

Lemma coreIntents_announce now : publishesAll (handleDocumentPatch policy now) ∧
  publishesAll (handleTokenMove policy now) ∧ publishesAll (handleSceneActivate now).
Proof.
  split_and!; intros s i store Hwf; cbn zeta.
  - unfold handleDocumentPatch. destruct (decodeDocumentPatch _); [|apply announced_same].
    case_bool_decide; [apply announced_same|]. by apply applyPatch_announces.
  - unfold handleTokenMove. destruct (decodeTokenMove _); [|apply announced_same].
    case_bool_decide; [apply announced_same|]. by apply applyPatch_announces.
  - unfold handleSceneActivate. destruct (decodeOneString _ _); [|apply announced_same].
    case_bool_decide; [apply announced_same|]. destruct (negb _); [apply announced_same|].
    destruct (runTx _ store) as [[a|e] st] eqn:Et.
    2:{ apply runTx_Err in Et as ->. apply announced_same. }
    apply (proj1 (runTx_Ok _ _ _ _)) in Et. unfold activateTx in Et.
    apply M_bind_Ok in Et as (scene & s1 & Hs & Et). apply lift_Ok in Hs as [_ ->].
    apply M_bind_Ok in Et as ([] & s1 & Hg & Et). apply ofRes_Ok in Hg as [_ ->].
    apply M_bind_Ok in Et as (world & s1 & Hworld & Et). apply lift_Ok in Hworld as [Hworld ->].
    apply M_bind_Ok in Et as (x & s1 & Hp & Et). apply M_bind_Ok in Et as (seq & s2 & Ha & Et).
    apply ret_Ok in Et as [-> ->]. cbn [out_store out_published sa_Seq sa_SceneID].
    assert (writesTo [TWorlds] store s1) as Hw.
    { eapply writes_once; [left|]. eapply wrote_World; [|exact Hp]. left. cbn.
      rewrite (GetWorld_key _ _ _ Hwf Hworld). by eexists. }
    eapply announced_log; [apply (writes_log [TWorlds]); [set_solver|done|done]|].
    eapply (announced_one _ _ _ _ _ _ _ []); [by eapply writes_wf|exact Ha|done|set_solver|done|].
    intros row u _ _. eexists. split; [left|]. apply toWorld_brings.
Qed.

Lemma publishMessage_announces now i at_ s m store :
  wf store → let o := publishMessage now i at_ s m store in
  announcedBy (sess_worldID s) store (out_store o) (out_published o).
Proof.
  intros Hwf o. subst o. unfold publishMessage. cbn zeta. set (msg := MkChatMessage _ _ _ _ _ _ _ _ _ _ _).
  destruct (runTx _ store) as [[[seq audience]|e] store'] eqn:Et.
  2:{ apply runTx_Err in Et as ->. apply announced_same. }
  apply (proj1 (runTx_Ok _ _ _ _)) in Et. unfold messageTx in Et.
  apply M_bind_Ok in Et as (aud & s1 & Haud & Et).
  assert (s1 = store) as ->.
  { destruct (bool_decide _).
    - apply M_bind_Ok in Haud as (ms & s2 & Hms & Haud). apply lift_Ok in Hms as [_ ->]. by apply ret_Ok in Haud as [_ ->].
    - by apply ret_Ok in Haud as [_ ->]. }
  apply M_bind_Ok in Et as (q & s1 & Ha & Et). apply M_bind_Ok in Et as (d & s2 & Hp & Et).
  apply ret_Ok in Et as [[= -> ->] ->]. cbn [out_store out_published].
  assert (writesTo [TDocuments] s1 s2) as Hw.
  { eapply writes_once; [left|]. by eapply wrote_Document. }
  eapply (announced_one _ _ _ _ _ _ _ [TDocuments]); [done|exact Ha|done|set_solver|done|].
  intros row u (_ & _ & _ & _ & _ & _ & _ & _ & _ & Haudience) [Hu _]. cbn in Haudience.
  assert (event_Audience row = MarshalStrings aud) as Hrow
    by (unfold MarshalStrings in *; by destruct aud; apply Haudience).
  rewrite Hrow, audienceAllows_Marshal in Hu. eexists. split; [left|].
  split_and!; [done..|]. by eexists.
Qed.

Lemma chatIntents_announce `{Unicode} {G} `{DiceSource G} now i at_ (g : G) :
  publishesAll (handleChatPost now i at_) ∧ publishesAll (handleChatRoll now i at_ g).
Proof.
  split; intros s m store Hwf; cbn zeta.
  - unfold handleChatPost. destruct (structFields _ ≫= _) as [[text audience]|]; [|apply announced_same]. cbn zeta.
    case_bool_decide; [apply announced_same|]. by apply publishMessage_announces.
  - unfold handleChatRoll. destruct (structFields _ ≫= _) as [[[expression reason] audience]|]; [|apply announced_same].
    destruct (Roll expression g) as [[result g']|]; [|apply announced_same]. by apply publishMessage_announces.
Qed.

Lemma commitCombat_announces now s combat store seq store' :
  wf store → commitCombat now s combat store = (Ok seq, store') →
  announcedBy (sess_worldID s) store store'
    [toWorld s seq (combatEventKind (c_Active combat)) (c_SceneID combat) (encodeCombat combat)].
Proof.
  intros Hwf Ht. unfold commitCombat in Ht.
  apply M_bind_Ok in Ht as (n & s1 & Ha & Ht). apply M_bind_Ok in Ht as (d & s2 & Hp & Ht).
  apply ret_Ok in Ht as [-> ->].
  assert (writesTo [TDocuments] s1 s2) as Hw.
  { eapply writes_once; [left|]. by eapply wrote_Document. }
  eapply (announced_one _ _ _ _ _ _ _ [TDocuments]); [done|exact Ha|done|set_solver|done|].
  intros row u _ _. eexists. split; [left|]. apply toWorld_brings.
Qed.

(** A transaction that reads, then commits the fight it answers. *)
Lemma finishCombat_announces s (m : M S (Combat * Z)) store :
  (∀ c seq store', m store = (Ok (c, seq), store') →
     announcedBy (sess_worldID s) store store'
       [toWorld s seq (combatEventKind (c_Active c)) (c_SceneID c) (encodeCombat c)]) →
  let o := finishCombat s (runTx m store) in
  announcedBy (sess_worldID s) store (out_store o) (out_published o).
Proof.
  intros Hm o. subst o. destruct (runTx m store) as [[[c seq]|e] st] eqn:E.
  - apply (proj1 (runTx_Ok _ _ _ _)) in E. by apply Hm.
  - apply runTx_Err in E as ->. apply announced_same.
Qed.

Lemma combatIntents_announce `{Unicode} {G} `{DiceSource G} now (probe g : G) :
  publishesAll (handleCombatStart now probe g) ∧ publishesAll (handleCombatNext now) ∧
  publishesAll (handleCombatEnd now).
Proof.
  split_and!; intros s m store Hwf; cbn zeta;
    unfold handleCombatStart, handleCombatNext, handleCombatEnd; (destruct (negb (IsStaff _)); [apply announced_same|]).
  - destruct (structFields _ ≫= _) as [[sceneID formula]|]; [|apply announced_same].
    case_bool_decide; [apply announced_same|].
    cbn zeta. destruct (Roll _ probe); [|apply announced_same]. apply finishCombat_announces. intros c seq store' Ht.
    unfold startTx in Ht. apply M_bind_Ok in Ht as (tokens & s1 & Hl & Ht). apply lift_Ok in Hl as [_ ->].
    apply M_bind_Ok in Ht as ([] & s1 & Hg & Ht). apply ofRes_Ok in Hg as [_ ->].
    apply M_bind_Ok in Ht as (cs & s1 & Hcs & Ht). apply ofRes_Ok in Hcs as [_ ->].
    apply M_bind_Ok in Ht as (n & s1 & Hc & Ht). apply ret_Ok in Ht as [[= -> ->] ->]. by eapply commitCombat_announces.
  - apply finishCombat_announces. intros c seq store' Ht. unfold nextTx in Ht.
    apply M_bind_Ok in Ht as (loaded & s1 & Hl & Ht). apply readCombat_same in Hl as ->.
    apply M_bind_Ok in Ht as ([] & s1 & Hg & Ht). apply ofRes_Ok in Hg as [_ ->].
    apply M_bind_Ok in Ht as (n & s1 & Hc & Ht). apply ret_Ok in Ht as [[= -> ->] ->]. by eapply commitCombat_announces.
  - apply finishCombat_announces. intros c seq store' Ht. unfold endTx in Ht.
    apply M_bind_Ok in Ht as (loaded & s1 & Hl & Ht). apply readCombat_same in Hl as ->.
    apply M_bind_Ok in Ht as (n & s1 & Hc & Ht). apply ret_Ok in Ht as [[= -> ->] ->]. by eapply commitCombat_announces.
Qed.

Lemma visibilityFrames_reach q s scene n perUser u m :
  wf q → visibilityFrames policy q s scene n = Ok perUser →
  GetMember q (sess_worldID s) u = Ok m → Valid (member_Role m) = true →
  ∃ f, perUser !! u = Some f ∧ eventSeq f = Some n.
Proof.
  intros Hwf Hv Hm Hvalid. unfold visibilityFrames in Hv.
  apply bind_Ok in Hv as (ms & Hms & Hv). apply bind_Ok in Hv as (tokens & _ & Hv).
  destruct (GetMember_key _ _ _ _ Hwf Hm) as [_ Hmu].
  destruct (memberStep_reaches _ _ _ _ _ _ _ _ _ u Hv) as [f Hu].
  { right. exists m. split_and!; [|done|done]. apply (proj2 (ListMembers_of _ _ _ Hwf Hms)). by rewrite Hmu. }
  exists f. split; [done|].
  destruct (memberStep_frames _ _ _ _ _ _ _ _ _ _ _ Hv Hu) as [Hemp|Hmem]; [by rewrite lookup_empty in Hemp|].
  by destruct Hmem as (m' & visible & briefs & enc & _ & _ & _ & _ & _ & _ & ->).
Qed.

Lemma doorIntents_announce now : publishesAll (handleDoorToggle policy now).
Proof.
  intros s m store Hwf; cbn zeta. unfold handleDoorToggle. destruct (negb (IsStaff _)); [apply announced_same|].
  destruct (decodeOneString _ _) as [id|]; [|apply announced_same]. case_bool_decide; [apply announced_same|].
  destruct (runTx _ store) as [[[state perUser]|e] st] eqn:Et.
  2:{ apply runTx_Err in Et as ->. apply announced_same. }
  apply (proj1 (runTx_Ok _ _ _ _)) in Et. unfold toggleTx in Et.
  apply M_bind_Ok in Et as (wall & s1 & Hw & Et). apply lift_Ok in Hw as [_ ->].
  apply M_bind_Ok in Et as ([encoded open] & s1 & Htog & Et). apply ofRes_Ok in Htog as [_ ->].
  apply M_bind_Ok in Et as (seq & s1 & Ha & Et). destruct (AppendEvent_wf _ _ _ _ _ Hwf Ha) as [Hwf1 _].
  apply M_bind_Ok in Et as (d & s2 & Hp & Et). destruct (PutDocument_wf _ _ _ _ _ Hwf1 Hp) as [Hwf2 _].
  apply M_bind_Ok in Et as (vseq & s3 & Hv & Et).
  apply M_bind_Ok in Et as (pu & s4 & Hvis & Et). apply lift_Ok in Hvis as [Hvis ->].
  apply ret_Ok in Et as [[= -> ->] ->]. cbn [out_store out_published door_Seq door_SceneID].
  assert (writesTo [TDocuments] s1 s2) as Hws.
  { eapply writes_once; [left|by eapply wrote_Document]. }
  intros w' k row Hr Hn. destruct (Log s2 w' k) as [row2|] eqn:E2.
  - assert (Log s3 w' k = Some row2) as E3.
    { eapply (writes_grow [TEvents]); [exact Hwf2| |exact E2]. eapply writes_once; [left|by eapply wrote_Event]. }
    rewrite E3 in Hr. injection Hr as ->.
    destruct (only_appended _ _ _ _ _ _ [TDocuments] _ _ _ Hwf Ha Hws ltac:(set_solver) E2 Hn) as (-> & -> & _).
    split; [done|]. intros u _. eexists. split; [left|]. apply toWorld_brings.
  - destruct (only_appended _ _ _ _ _ s3 [] _ _ _ Hwf2 Hv ltac:(done) ltac:(set_solver) Hr E2) as (-> & -> & Hlogs).
    split; [done|]. intros u [_ Hc]. rewrite (perMember_row _ _ _ Hlogs) in Hc.
    destruct (Hc eq_refl) as (mem & Hmem & Hvalid & _).
    destruct (AppendEvent_wf _ _ _ _ _ Hwf2 Hv) as [Hwf3 _].
    destruct (visibilityFrames_reach _ _ _ _ _ u mem Hwf3 Hvis Hmem Hvalid) as (f & Hu & Hq).
    eexists. split; [right; left|]. by eapply perUser_brings.
Qed.

(** The intents the server registers. *)
Lemma fullRouter_announces `{Unicode} {G} `{DiceSource G} now i at_ (source probe g : G) :
  map_Forall (λ _, publishesAll) (fullRouter policy now i at_ source probe g).
Proof.
  unfold fullRouter, RegisterDoorIntents, RegisterCombatIntents, RegisterChatIntents, RegisterCoreIntents, Handle.
  repeat (apply map_Forall_insert_2);
    first [ apply doorIntents_announce | apply (combatIntents_announce now probe g)
          | apply (chatIntents_announce now i at_ source) | apply (coreIntents_announce now)
          | apply map_Forall_empty ].
Qed.
End Announce.
