(* ===== verification/Live.v ===== *)
(** * The gateway at work (internal/transport/ws/{session,hub}.go)

    Every goroutine of the gateway as steps on one state: the [Serve] of each
    session (handshake, join, welcome, its read loop), its [writeLoop], the [run]
    of each hub, and the HTTP API beside them, over one store.  A step is what
    happens between two points where another goroutine can come in: a channel
    operation, an outbox operation under its lock, a store transaction, a write to
    the connection.  Catch-up reads outside any transaction: first the events, then
    event by event what it shows of them, each query finding a store the server has
    had since the step before.  Besides whole requests the HTTP API may make any
    single write to a table other than the log, so nothing here rests on a request
    being atomic.  What the network, the clock, the random sources and the
    scheduler decide is in the arguments of a step.

    [lv_past] is no state of the program: it remembers the stores the server has
    had, so that a theorem can say when something was true. *)

From S2P Require Import Prelude GoStrings Json Perm Storage Torn Redact Access Vision Sight Dice RateLimit Auth Password.
From S2P Require Import Frame Outbox Ticket Hub Session Intents Chat Combat Doors.
From S2P Require Import Blob AssetImage Http Worlds Footprint Scenes Assets Router Server Gateway Entitled.

Local Open Scope Z_scope.

(** ** State *)

(** The read loop: at [Read]; inside a handler, with what it has still to publish
    and the answer it will give; or ended. *)
Inductive reading :=
  | Reading
  | Answering (ps : list Publication) (answer : option (Z * res IntentResult))
  | Stopped.

(** The write loop: at one of its points, or holding a popped frame. *)
Inductive writing := At (pc : writerPc) | Holding (f : Frame).

(** Where a session's [Serve] is.  [Projecting] is the loop of [replayFrames]: the
    events it has still to look at and the frames it has made, [began] being the
    number of stores the server had had when the loop came to the next event. *)
Inductive phase :=
  | Dialing
  | Authenticated (hello : Hello)
  | Joining (hub : nat) (hello : Hello)
  | Greeting (hub : nat) (hello : Hello)
  | Replaying (hub : nat) (from : Z)
  | Projecting (hub : nat) (began : nat) (events : list Event) (frames : list Frame)
  | Prepending (hub : nat) (replay : list Frame)
  | Failing (hub : nat) (e : err)
  | Serving (hub : nat) (rd : reading) (wr : writing)
  | Leaving (hub : nat)
  | Left
  | Gone.

(** A session's goroutines, and what has been written to its connection. *)
Record client := MkClient { cl_phase : phase; cl_wire : list Frame }.

(** [run]: at its select, in a fan-out or closing its sessions with the ones it
    has still to visit, or returned. *)
Inductive hubPc :=
  | HubIdle
  | HubFanning (p : Publication) (rest : list string)
  | HubClosing (rest : list string)
  | HubDone.

(** [type Hub struct]: [hp_members] is the local [sessions] of [run], [hp_queue]
    the buffer of the channel [publish], [hp_quit] says that [quit] is closed. *)
Record hubProc := MkHubProc {
  hp_world : ID; hp_members : gset string; hp_queue : list Publication; hp_quit : bool; hp_pc : hubPc
}.

Definition NewHub (worldID : ID) : hubProc := MkHubProc worldID ∅ [] false HubIdle.

Definition publishBuffer : nat := 256.

Definition withPc (pc : hubPc) (h : hubProc) : hubProc :=
  MkHubProc (hp_world h) (hp_members h) (hp_queue h) (hp_quit h) pc.
Definition withMembers (m : gset string) (h : hubProc) : hubProc :=
  MkHubProc (hp_world h) m (hp_queue h) (hp_quit h) (hp_pc h).
Definition withQueue (q : list Publication) (h : hubProc) : hubProc :=
  MkHubProc (hp_world h) (hp_members h) q (hp_quit h) (hp_pc h).
Definition askedToQuit (h : hubProc) : hubProc :=
  MkHubProc (hp_world h) (hp_members h) (hp_queue h) true (hp_pc h).

(** What a session asks of a hub: [None] while the hub is busy and the caller has to
    wait.  A hub that is done lets everybody pass. *)
Definition Join (id : string) (h : hubProc) : option hubProc :=
  match hp_pc h with
  | HubIdle => Some (withMembers (hp_members h ∪ {[id]}) h)
  | HubDone => Some h
  | _ => None
  end.

Definition Leave (id : string) (h : hubProc) : option hubProc :=
  match hp_pc h with
  | HubIdle => Some (withMembers (hp_members h ∖ {[id]}) h)
  | HubDone => Some h
  | _ => None
  end.

(** The channel of publications has a buffer, so a hub need not be idle. *)
Definition Publish (p : Publication) (h : hubProc) : option hubProc :=
  if bool_decide (length (hp_queue h) < publishBuffer)%nat then Some (withQueue (hp_queue h ++ [p]) h)
  else match hp_pc h with HubDone => Some h | _ => None end.

Definition Sessions (h : hubProc) : option (list string) :=
  match hp_pc h with
  | HubIdle => Some (elements (hp_members h))
  | HubDone => Some []
  | _ => None
  end.

(** Asked when it has joined and before it has left, a hub names the session. *)
Lemma Join_Leave id h h1 h2 ids :
  hp_pc h = HubIdle → Join id h = Some h1 → Sessions h1 = Some ids → Leave id h1 = Some h2 →
  id ∈ ids ∧ (id ∉ hp_members h → h2 = h).
Proof.
  unfold Join, Leave, Sessions. intros Hpc. rewrite Hpc. intros [= <-]. cbn. rewrite Hpc. intros [= <-] [= <-]. cbn.
  split; [set_solver|]. intros Hid. destruct h as [w m q b pc]. cbn in *. unfold withMembers. cbn. f_equal. set_solver.
Qed.

(** Who takes a step. *)
Inductive actor := Outside | OfSession (id : string) | OfHub (n : nat).

(** ** The steps of a handler and of the welcome *)

Section Parts.
Context {S : Type} `{Tx S}.
Variable policy : FieldPolicy.

(** [welcome] up to its first write: the session, the frame, and where catch-up
    starts. *)
Definition greet (q : S) (hello : Hello) (s : Session) : res (Session * Frame * Z) :=
  world ← GetWorld q (sess_worldID s);
  let deltaFrom := if (hello_LastSeq hello <? 0) || (world_EventSeq world <? hello_LastSeq hello)
                   then 0 else hello_LastSeq hello in
  Ok (storeLastSeq deltaFrom s,
      welcomeFrame (MkWelcome (sess_id s) (sess_userID s) (sess_role s) (world_EventSeq world) deltaFrom ""),
      deltaFrom).

Lemma welcome_parts (q : S) write hello s :
  welcome policy q write hello s =
  match greet q hello s with
  | Err e => (Err e, s)
  | Ok (s, frame, from) =>
      match write frame with
      | Err e => (Err e, s)
      | Ok _ =>
          match replayFrames policy q s from with
          | Err e => (Err e, s)
          | Ok replay => onOutbox (PrependDocument replay) s
          end
      end
  end.
Proof. unfold welcome, greet. by destruct (GetWorld q (sess_worldID s)). Qed.

(** Undisturbed, catch-up by one query after the other is [replayFrames]. *)
Lemma replayFrames_parts (q : S) s from :
  replayFrames policy q s from =
  (events ← EventsSince q (sess_worldID s) from catchUpLimit;
   foldM (replayStep policy (steady q) s) [] events).
Proof. done. Qed.

(** [readLoop] on one message, up to the first publication. *)
Definition readStart (router : Session.Router S) (received : option Frame) (s : Session) (store : S)
    : Session * S * reading :=
  match received with
  | None => (pushControl (errorFrame 0 CodeBadRequest "core.ws.malformedFrame") s, store, Reading)
  | Some frame =>
      if bool_decide (frame_Type frame = TypePing) then (handlePing frame s, store, Reading)
      else if bool_decide (frame_Type frame = TypeIntent) then
        match frame_Intent frame with
        | None => (pushControl (errorFrame 0 CodeBadRequest "core.ws.missingIntent") s, store, Reading)
        | Some intent =>
            match router !! intent_Kind intent with
            | None =>
                (pushDocument (errorFrame (intent_RequestID intent) CodeUnsupported "core.ws.unknownIntent") s,
                 store, Reading)
            | Some handler =>
                let o := handler s intent store in
                (s, out_store o, Answering (out_published o) (Some (intent_RequestID intent, out_result o)))
            end
        end
      else if bool_decide (frame_Type frame = TypeEphemeral) then
        let '(s, ps) := handleEphemeral frame s in (s, store, Answering ps None)
      else (pushControl (errorFrame 0 CodeBadRequest "core.ws.unexpectedFrame") s, store, Reading)
  end.

(** The answer of [handleIntent], after the handler. *)
Definition readFinish (answer : option (Z * res IntentResult)) (s : Session) : Session :=
  match answer with
  | Some (requestID, r) => pushDocument (answerFrame requestID (sess_lastSeq s) r) s
  | None => s
  end.

(** Undisturbed, the two are [readStep]. *)
Lemma readStep_parts router received s (store : S) :
  readStep router received s store =
  let '(s1, store1, rd) := readStart router received s store in
  match rd with
  | Answering ps answer => (readFinish answer s1, store1, ps)
  | _ => (s1, store1, [])
  end.
Proof.
  unfold readStep, readStart, handleIntent. destruct received as [f|]; [|done].
  case_bool_decide; [done|]. case_bool_decide.
  - destruct (frame_Intent f) as [i|]; [|done]. by destruct (router !! intent_Kind i).
  - case_bool_decide; [|done]. by destruct (handleEphemeral f s).
Qed.
End Parts.

(** ** The system *)

Section System.
Context `{Unicode} `{Argon2} `{ImageCodecs} {G : Type} `{DiceSource G} {S : Type} `{Tx S}.
Variables (auth : AuthDeps) (assetsAt : AssetDeps) (policy : FieldPolicy) (backend : string).

Record live := MkLive {
  lv_store : S;
  lv_past : list S;
  lv_tickets : TicketStore;
  lv_registry : registry;
  lv_hubs : gmap nat hubProc;
  lv_heap : gmap string Session;
  lv_clients : gmap string client
}.

Definition liveInit (store : S) (tickets : TicketStore) : live :=
  MkLive store [store] tickets NewRegistry ∅ ∅ ∅.

Definition setStore (s : S) (st : live) : live :=
  MkLive s (s :: lv_past st) (lv_tickets st) (lv_registry st) (lv_hubs st) (lv_heap st) (lv_clients st).
Definition setTickets (t : TicketStore) (st : live) : live :=
  MkLive (lv_store st) (lv_past st) t (lv_registry st) (lv_hubs st) (lv_heap st) (lv_clients st).
Definition setRegistry (r : registry) (st : live) : live :=
  MkLive (lv_store st) (lv_past st) (lv_tickets st) r (lv_hubs st) (lv_heap st) (lv_clients st).
Definition setHubs (hubs : gmap nat hubProc) (st : live) : live :=
  MkLive (lv_store st) (lv_past st) (lv_tickets st) (lv_registry st) hubs (lv_heap st) (lv_clients st).
Definition setHub (n : nat) (h : hubProc) (st : live) : live := setHubs (<[n := h]> (lv_hubs st)) st.
Definition setHeap (heap : gmap string Session) (st : live) : live :=
  MkLive (lv_store st) (lv_past st) (lv_tickets st) (lv_registry st) (lv_hubs st) heap (lv_clients st).
Definition setSession (id : string) (s : Session) (st : live) : live :=
  setHeap (<[id := s]> (lv_heap st)) st.
Definition setClient (id : string) (c : client) (st : live) : live :=
  MkLive (lv_store st) (lv_past st) (lv_tickets st) (lv_registry st) (lv_hubs st) (lv_heap st)
    (<[id := c]> (lv_clients st)).

(** The stores the server has had since there were [began] of them, the one before
    included. *)
Definition seenSince (began : nat) (st : live) : list S :=
  take (1 + (length (lv_past st) - began)) (lv_past st).

(** A session [s] and its goroutines are at a point. *)
Definition clientAt (st : live) (id : string) (s : Session) (ph : phase) (wire : list Frame) : Prop :=
  lv_heap st !! id = Some s ∧ lv_clients st !! id = Some (MkClient ph wire).

(** The session and its goroutines move on. *)
Definition moveTo (id : string) (s : Session) (ph : phase) (wire : list Frame) (st : live) : live :=
  setClient id (MkClient ph wire) (setSession id s st).

Definition handshakeError (e : err) : Frame := errorFrame 0 (codeForHandshake e) "core.ws.handshakeFailed".

(** What is written when a write may fail. *)
Definition written (sent : bool) (f : Frame) (wire : list Frame) : list Frame :=
  if sent then wire ++ [f] else wire.

(** [Registry.Hub]: the hub's goroutine starts with it. *)
Definition hubFor (w : ID) (st : live) : nat * live :=
  let '(n, r) := HubOf w (lv_registry st) in
  (n, setRegistry r (match lv_hubs st !! n with Some _ => st | None => setHub n (NewHub w) st end)).

(** [Registry.Close]: the hubs it knows are asked to quit. *)
Definition shutdown (st : live) : live :=
  setRegistry (CloseAll (lv_registry st))
    (setHubs (map_imap (λ n h, Some (if bool_decide (n ∈ (map_to_set (λ _ hub, hub) (reg_hubs (lv_registry st)) : gset nat))
                                     then askedToQuit h else h)) (lv_hubs st)) st).

(** The HTTP API, new connections, the shutdown of the gateway. *)
Inductive outsideStep : live → live → Prop :=
  | live_request st wi c method path r l disk out sv' :
      serve auth assetsAt policy backend wi c method path r (MkServer (lv_store st) l (lv_tickets st) disk) =
        (out, sv') →
      outsideStep st (setTickets (srv_tickets sv') (setStore (srv_store sv') st))
  | live_table_write st t store' :
      wrote t (lv_store st) store' → t ≠ TEvents → outsideStep st (setStore store' st)
  | live_accept st id documentCap ephemeralCap :
      lv_heap st !! id = None →
      outsideStep st (moveTo id (NewSession id documentCap ephemeralCap) Dialing [] st)
  | live_shutdown st : outsideStep st (shutdown st).

(** [Serve]: the handshake, the welcome, and the end. *)
Inductive serveStep : string → live → live → Prop :=
  | live_hello st id s wire received now hello s' tickets' :
      clientAt st id s Dialing wire →
      authenticate (lv_store st) received now (s, lv_tickets st) = (Ok hello, (s', tickets')) →
      serveStep id st (setTickets tickets' (moveTo id s' (Authenticated hello) wire st))
  | live_refused st id s wire received now e s' tickets' sent :
      clientAt st id s Dialing wire →
      authenticate (lv_store st) received now (s, lv_tickets st) = (Err e, (s', tickets')) →
      serveStep id st
        (setTickets tickets' (moveTo id s' Gone (written sent (handshakeError e) wire) st))
  | live_hub st id s wire hello n st1 :
      clientAt st id s (Authenticated hello) wire → hubFor (sess_worldID s) st = (n, st1) →
      serveStep id st (moveTo id s (Joining n hello) wire st1)
  | live_join st id s wire n hello h :
      clientAt st id s (Joining n hello) wire → lv_hubs st !! n = Some h → hp_pc h = HubIdle →
      serveStep id st
        (moveTo id s (Greeting n hello) wire (setHub n (withMembers (hp_members h ∪ {[id]}) h) st))
  | live_join_done st id s wire n hello h :
      clientAt st id s (Joining n hello) wire → lv_hubs st !! n = Some h → hp_pc h = HubDone →
      serveStep id st (moveTo id s (Greeting n hello) wire st)
  | live_greet st id s wire n hello s' frame from :
      clientAt st id s (Greeting n hello) wire → greet (lv_store st) hello s = Ok (s', frame, from) →
      serveStep id st (moveTo id s' (Replaying n from) (wire ++ [frame]) st)
  | live_greet_unsent st id s wire n hello s' frame from e :
      clientAt st id s (Greeting n hello) wire → greet (lv_store st) hello s = Ok (s', frame, from) →
      serveStep id st (moveTo id s' (Failing n e) wire st)
  | live_greet_failed st id s wire n hello e :
      clientAt st id s (Greeting n hello) wire → greet (lv_store st) hello s = Err e →
      serveStep id st (moveTo id s (Failing n e) wire st)
  | live_events st id s wire n from events :
      clientAt st id s (Replaying n from) wire →
      EventsSince (lv_store st) (sess_worldID s) from catchUpLimit = Ok events →
      serveStep id st (moveTo id s (Projecting n (length (lv_past st)) events []) wire st)
  | live_events_failed st id s wire n from e :
      clientAt st id s (Replaying n from) wire →
      EventsSince (lv_store st) (sess_worldID s) from catchUpLimit = Err e →
      serveStep id st (moveTo id s (Failing n e) wire st)
  | live_project st id s wire n began e events frames (v : reads S) frames' :
      clientAt st id s (Projecting n began (e :: events) frames) wire →
      drawnFrom (seenSince began st) v → replayStep policy v s frames e = Ok frames' →
      serveStep id st (moveTo id s (Projecting n (length (lv_past st)) events frames') wire st)
  | live_project_failed st id s wire n began e events frames (v : reads S) err :
      clientAt st id s (Projecting n began (e :: events) frames) wire →
      drawnFrom (seenSince began st) v → replayStep policy v s frames e = Err err →
      serveStep id st (moveTo id s (Failing n err) wire st)
  | live_projected st id s wire n began frames :
      clientAt st id s (Projecting n began [] frames) wire →
      serveStep id st (moveTo id s (Prepending n frames) wire st)
  | live_prepend st id s wire n frames s' u :
      clientAt st id s (Prepending n frames) wire → onOutbox (PrependDocument frames) s = (Ok u, s') →
      serveStep id st (moveTo id s' (Serving n Reading (At Popping)) wire st)
  | live_prepend_failed st id s wire n frames s' e :
      clientAt st id s (Prepending n frames) wire → onOutbox (PrependDocument frames) s = (Err e, s') →
      serveStep id st (moveTo id s' (Failing n e) wire st)
  | live_failed st id s wire n e sent :
      clientAt st id s (Failing n e) wire →
      serveStep id st (moveTo id s (Leaving n) (written sent (handshakeError e) wire) st)
  | live_served st id s wire n :
      clientAt st id s (Serving n Stopped (At Done)) wire →
      serveStep id st (moveTo id s (Leaving n) wire st)
  | live_leave st id s wire n h :
      clientAt st id s (Leaving n) wire → lv_hubs st !! n = Some h → hp_pc h = HubIdle →
      serveStep id st (moveTo id s Left wire (setHub n (withMembers (hp_members h ∖ {[id]}) h) st))
  | live_leave_done st id s wire n h :
      clientAt st id s (Leaving n) wire → lv_hubs st !! n = Some h → hp_pc h = HubDone →
      serveStep id st (moveTo id s Left wire st)
  | live_gone st id s wire :
      clientAt st id s Left wire →
      serveStep id st (moveTo id (with_outbox (Outbox.Close (sess_outbox s)) s) Gone wire st).

(** [readLoop] and the handlers it calls. *)
Inductive readLoopStep : string → live → live → Prop :=
  | live_read st id s wire n wr now i at_ (source probe g : G) received s' store' rd :
      clientAt st id s (Serving n Reading wr) wire →
      readStart (fullRouter policy now i at_ source probe g) received s (lv_store st) = (s', store', rd) →
      readLoopStep id st (setStore store' (moveTo id s' (Serving n rd wr) wire st))
  | live_publish st id s wire n p ps answer wr h :
      clientAt st id s (Serving n (Answering (p :: ps) answer) wr) wire →
      lv_hubs st !! n = Some h → (length (hp_queue h) < publishBuffer)%nat →
      readLoopStep id st
        (moveTo id s (Serving n (Answering ps answer) wr) wire (setHub n (withQueue (hp_queue h ++ [p]) h) st))
  | live_publish_done st id s wire n p ps answer wr h :
      clientAt st id s (Serving n (Answering (p :: ps) answer) wr) wire →
      lv_hubs st !! n = Some h → hp_pc h = HubDone →
      readLoopStep id st (moveTo id s (Serving n (Answering ps answer) wr) wire st)
  | live_answer st id s wire n answer wr :
      clientAt st id s (Serving n (Answering [] answer) wr) wire →
      readLoopStep id st (moveTo id (readFinish answer s) (Serving n Reading wr) wire st)
  | live_hangup st id s wire n wr :
      clientAt st id s (Serving n Reading wr) wire →
      readLoopStep id st
        (moveTo id (with_outbox (Outbox.Close (sess_outbox s)) s) (Serving n Stopped wr) wire st).

(** [writeLoop]. *)
Inductive writeLoopStep : string → live → live → Prop :=
  | live_pop st id s wire n rd f o :
      clientAt st id s (Serving n rd (At Popping)) wire → Pop (sess_outbox s) = (Some f, o) →
      writeLoopStep id st (moveTo id (with_outbox o s) (Serving n rd (Holding f)) wire st)
  | live_skip st id s wire n rd f q :
      clientAt st id s (Serving n rd (Holding f)) wire → writeFilter f (sess_lastSeq s) = (None, q) →
      writeLoopStep id st (moveTo id s (Serving n rd (At Popping)) wire st)
  | live_write st id s wire n rd f g' q sent :
      clientAt st id s (Serving n rd (Holding f)) wire → writeFilter f (sess_lastSeq s) = (Some g', q) →
      writeLoopStep id st
        (moveTo id (storeLastSeq q s) (Serving n rd (At Popping)) (written sent g' wire) st)
  | live_write_failed st id s wire n rd f g' q :
      clientAt st id s (Serving n rd (Holding f)) wire → writeFilter f (sess_lastSeq s) = (Some g', q) →
      writeLoopStep id st (moveTo id (storeLastSeq q s) (Serving n rd (At Done)) wire st)
  | live_empty st id s wire n rd o :
      clientAt st id s (Serving n rd (At Popping)) wire → Pop (sess_outbox s) = (None, o) →
      writeLoopStep id st (moveTo id s (Serving n rd (At Checking)) wire st)
  | live_closed st id s wire n rd :
      clientAt st id s (Serving n rd (At Checking)) wire → closed (sess_outbox s) = true →
      writeLoopStep id st (moveTo id s (Serving n rd (At Done)) wire st)
  | live_open st id s wire n rd :
      clientAt st id s (Serving n rd (At Checking)) wire → closed (sess_outbox s) = false →
      writeLoopStep id st (moveTo id s (Serving n rd (At Waiting)) wire st)
  | live_woken st id s wire n rd :
      clientAt st id s (Serving n rd (At Waiting)) wire → signal (sess_outbox s) = true →
      writeLoopStep id st
        (moveTo id (with_outbox (clearSignal (sess_outbox s)) s) (Serving n rd (At Popping)) wire st)
  | live_cancelled st id s wire n rd :
      clientAt st id s (Serving n rd (At Waiting)) wire →
      writeLoopStep id st (moveTo id s (Serving n rd (At Done)) wire st).

(** [run] of a hub.  A Go map is ranged over in any order. *)
Inductive hubRunStep : nat → live → live → Prop :=
  | live_take st n h p queue rest :
      lv_hubs st !! n = Some h → hp_pc h = HubIdle → hp_queue h = p :: queue →
      rest ≡ₚ elements (hp_members h) →
      hubRunStep n st (setHub n (withPc (HubFanning p rest) (withQueue queue h)) st)
  | live_fan st n h p id rest hs :
      lv_hubs st !! n = Some h → hp_pc h = HubFanning p (id :: rest) →
      fanOutStep p (MkHubState (hp_members h) (lv_heap st)) id = hs →
      hubRunStep n st
        (setHeap (hub_heap hs) (setHub n (withPc (HubFanning p rest) (withMembers (hub_sessions hs) h)) st))
  | live_fanned st n h p :
      lv_hubs st !! n = Some h → hp_pc h = HubFanning p [] →
      hubRunStep n st (setHub n (withPc HubIdle h) st)
  | live_quit st n h rest :
      lv_hubs st !! n = Some h → hp_pc h = HubIdle → hp_quit h = true → rest ≡ₚ elements (hp_members h) →
      hubRunStep n st (setHub n (withPc (HubClosing rest) h) st)
  | live_closing st n h id rest :
      lv_hubs st !! n = Some h → hp_pc h = HubClosing (id :: rest) →
      hubRunStep n st
        (setHeap (alter (CloseWithResync "world closed" 0) id (lv_heap st))
           (setHub n (withPc (HubClosing rest) h) st))
  | live_down st n h :
      lv_hubs st !! n = Some h → hp_pc h = HubClosing [] →
      hubRunStep n st (setHub n (withPc HubDone (withMembers ∅ h)) st).

Definition liveStep (a : actor) (st st' : live) : Prop :=
  match a with
  | Outside => outsideStep st st'
  | OfSession id => serveStep id st st' ∨ readLoopStep id st st' ∨ writeLoopStep id st st'
  | OfHub n => hubRunStep n st st'
  end.

Definition liveSteps : relation live := rtc (λ st st', ∃ a, liveStep a st st').
End System.
