(* ===== verification/LiveSafety.v ===== *)
(** * What reaches a client

    The invariant of the gateway: everything on its way to a client (published,
    queued at a hub, waiting in an outbox, held by a writer) is due to the user it
    is on its way to, numbers on a wire only go up, and a hub knows only sessions
    that are being served in its world.  It holds in every reachable state. *)

From S2P Require Import Prelude GoStrings Json Perm Storage Torn Redact Access Vision Sight Dice RateLimit Auth Password.
From S2P Require Import Frame Outbox Ticket Hub Session Intents Chat Combat Doors.
From S2P Require Import Blob AssetImage Http Worlds Footprint Scenes Assets Router Server Gateway Entitled Live.

Local Open Scope Z_scope.

(** ** Outboxes whose frames satisfy a predicate *)

Record boxOK (D : Frame → Prop) (o : outbox) : Prop := {
  box_control : Forall D (control o);
  box_document : Forall D (document o);
  box_ephemeral : map_Forall (λ _, D) (ephemeral o)
}.

Section Box.
Variable D : Frame → Prop.

Lemma boxOK_same o o' :
  control o' = control o → document o' = document o → ephemeral o' = ephemeral o → boxOK D o → boxOK D o'.
Proof. intros H1 H2 H3 [Hc Hd He]. constructor; [by rewrite H1|by rewrite H2|by rewrite H3]. Qed.

Lemma boxOK_new d e : boxOK D (newOutbox d e).
Proof. constructor; [constructor|constructor|apply map_Forall_empty]. Qed.

Lemma boxOK_control f o : D f → boxOK D o → boxOK D (PushControl f o).2.
Proof.
  intros Hf HO. pose proof HO as [Hc Hd He]. unfold PushControl. destruct (closed o); [done|].
  constructor; cbn; [|done..]. apply Forall_app. by rewrite Forall_singleton.
Qed.

Lemma boxOK_document f o : D f → boxOK D o → boxOK D (PushDocument f o).2.
Proof.
  intros Hf HO. pose proof HO as [Hc Hd He]. unfold PushDocument. destruct (closed o); [done|].
  destruct (_ <=? _); [by eapply boxOK_same, HO|].
  constructor; cbn; [done| |done]. apply Forall_app. by rewrite Forall_singleton.
Qed.

Lemma boxOK_ephemeral k f o : D f → boxOK D o → boxOK D (PushEphemeral k f o).2.
Proof.
  intros Hf HO. pose proof HO as [Hc Hd He]. unfold PushEphemeral. destruct (closed o); [done|].
  destruct (ephemeral o !! k); [constructor; cbn; [done|done|by apply map_Forall_insert_2]|].
  assert (boxOK D (evictOldest o)) as [Hc' Hd' He'].
  { unfold evictOldest. destruct (_ <=? _); [|done]. destruct (order o); [done|].
    constructor; cbn; [done|done|by apply map_Forall_delete]. }
  constructor; cbn; [done|done|by apply map_Forall_insert_2].
Qed.

Lemma boxOK_prepend fs o : Forall D fs → boxOK D o → boxOK D (PrependDocument fs o).2.
Proof.
  intros Hf HO. pose proof HO as [Hc Hd He]. unfold PrependDocument. destruct (isNil fs); [done|].
  destruct (closed o); [done|]. constructor; cbn; [done| |done]. by apply Forall_app.
Qed.

Lemma boxOK_close o : boxOK D o → boxOK D (Outbox.Close o).
Proof. intros HO. unfold Outbox.Close. destruct (closed o); [done|]. by eapply boxOK_same, HO. Qed.

Lemma boxOK_pop o f o' : D zeroFrame → boxOK D o → Pop o = (f, o') → boxOK D o' ∧ ∀ g, f = Some g → D g.
Proof.
  intros Hz [Hc Hd He]. unfold Pop. destruct (control o) as [|c cs] eqn:Ec.
  - destruct (document o) as [|d ds] eqn:Ed.
    + destruct (order o) as [|k ks].
      * intros [= <- <-]. split; [|done]. constructor; [by rewrite Ec|by rewrite Ed|done].
      * intros [= <- <-]. split; [constructor; cbn; [constructor|constructor|by apply map_Forall_delete]|].
        intros g [= <-]. destruct (ephemeral o !! k) as [g|] eqn:Ek; [by apply (He k)|done].
    + intros [= <- <-]. apply Forall_cons in Hd as [Hd Hds].
      split; [constructor; cbn; [constructor|done|done]|]. by intros g [= <-].
  - intros [= <- <-]. apply Forall_cons in Hc as [Hc Hcs].
    split; [constructor; cbn; done|]. by intros g [= <-].
Qed.
End Box.

Lemma boxOK_impl (D E : Frame → Prop) o : (∀ f, D f → E f) → boxOK D o → boxOK E o.
Proof.
  intros HDE [Hc Hd He]. constructor; [by eapply Forall_impl|by eapply Forall_impl|].
  intros k f Hf. by eapply HDE, He.
Qed.

(** What a session keeps through what is done with it: who it is, and that the
    number it remembers only goes up. *)
Definition sameIdentity (s s' : Session) : Prop :=
  sess_userID s' = sess_userID s ∧ sess_worldID s' = sess_worldID s ∧ sess_role s' = sess_role s ∧
  sess_lastSeq s ≤ sess_lastSeq s'.

Lemma sameIdentity_refl s : sameIdentity s s.
Proof. done. Qed.

#[export] Hint Resolve sameIdentity_refl : core.

(** ** What is due to a session *)

Section Due.
Context {S : Type} `{TxLaws S} `{!FrameLaws S}.
Variables (policy : FieldPolicy) (past : list S) (store : S).

Definition dueTo (s : Session) : Frame → Prop :=
  due policy past store (sess_worldID s) (sess_userID s) (sess_role s).

(** What waits in a session's outbox is due to it. *)
Definition sessionOK (s : Session) : Prop := boxOK (dueTo s) (sess_outbox s).

Lemma dueTo_other s f : frame_Type f ≠ TypeEvent → dueTo s f.
Proof. intros Hf. by apply due_other, eventBody_type. Qed.

Lemma sessionOK_box s o : boxOK (dueTo s) o → sessionOK (with_outbox o s).
Proof. done. Qed.

Lemma onOutbox_OK {A} (m : M outbox A) s :
  (boxOK (dueTo s) (sess_outbox s) → boxOK (dueTo s) (m (sess_outbox s)).2) →
  sessionOK s → sessionOK (onOutbox m s).2 ∧ sameIdentity s (onOutbox m s).2.
Proof. intros Hm HO. unfold onOutbox. destruct (m (sess_outbox s)) as [r o]. cbn in *. split; [by apply Hm|done]. Qed.

Lemma pushControl_OK f s :
  frame_Type f ≠ TypeEvent → sessionOK s → sessionOK (pushControl f s) ∧ sameIdentity s (pushControl f s).
Proof. intros Hf. apply onOutbox_OK. by apply boxOK_control, dueTo_other. Qed.

Lemma pushDocument_OK f s :
  frame_Type f ≠ TypeEvent → sessionOK s → sessionOK (pushDocument f s) ∧ sameIdentity s (pushDocument f s).
Proof. intros Hf. apply onOutbox_OK. by apply boxOK_document, dueTo_other. Qed.

Lemma answerFrame_type n q r : frame_Type (answerFrame n q r) ≠ TypeEvent.
Proof. unfold answerFrame. by destruct r as [[]|[]]. Qed.

Lemma readFinish_OK a s : sessionOK s → sessionOK (readFinish a s) ∧ sameIdentity s (readFinish a s).
Proof. intros HO. destruct a as [[n r]|]; [|by split]. apply pushDocument_OK; [apply answerFrame_type|done]. Qed.

Lemma CloseWithResync_OK reason n s :
  sessionOK s → sessionOK (CloseWithResync reason n s) ∧ sameIdentity s (CloseWithResync reason n s).
Proof.
  intros HO. unfold CloseWithResync. fold (pushControl (resyncFrame reason n) s).
  destruct (pushControl_OK (resyncFrame reason n) s ltac:(done) HO) as [HO' Hid].
  split; [|done]. by apply sessionOK_box, boxOK_close.
Qed.

Lemma frameFor_carries p id s f : frameFor p id s = Some f → carries p (sess_userID s) f.
Proof.
  unfold frameFor, carries. destruct (bool_decide _); [done|]. destruct (negb (Subscribed _ _)); [done|].
  destruct (allows p _) eqn:Ea; [|done]. destruct (pub_PerUser p); [done|]. by intros [= ->].
Qed.

Lemma deliver_OK p f s : dueTo s f → sessionOK s → sessionOK (deliver p f s).2 ∧ sameIdentity s (deliver p f s).2.
Proof.
  intros Hf. unfold deliver. destruct (pub_Lane p); apply onOutbox_OK;
    [by apply boxOK_control|by apply boxOK_document|by apply boxOK_ephemeral|by apply boxOK_document].
Qed.

Lemma fanned_OK p id s :
  soundFor policy past store (sess_worldID s) p → sessionOK s →
  sessionOK (fanned p id s).1 ∧ sameIdentity s (fanned p id s).1.
Proof.
  intros Hp HO. unfold fanned. destruct (frameFor p id s) as [f|] eqn:Ef; [|by split].
  apply frameFor_carries in Ef. destruct (deliver_OK p f s (Hp _ _ _ Ef) HO) as [HO' Hid].
  destruct (deliver p f s) as [[u|e] s1]; cbn in *; [done|].
  destruct (CloseWithResync_OK "slow consumer" (sess_lastSeq s1) s1 HO') as [HO2 (? & ? & ? & ?)].
  split; [done|]. destruct Hid as (? & ? & ? & ?). split_and!; [congruence..|by etrans].
Qed.

(** Reading a message leaves the session in order; what a handler still has to
    publish is sound in the store it committed. *)
Lemma readStart_OK router received s s' store' rd :
  map_Forall (λ _, publishesDue policy) router → wf store → store ∈ past → sessionOK s →
  readStart router received s store = (s', store', rd) →
  sessionOK s' ∧ sameIdentity s s' ∧
  ∀ ps a, rd = Answering ps a → Forall (soundFor policy (store' :: past) store' (sess_worldID s)) ps.
Proof.
  intros Hr Hwf Hpast HO. unfold readStart.
  assert (∀ f x, frame_Type f ≠ TypeEvent → (pushControl f s, store, Reading) = (s', store', x) →
    sessionOK s' ∧ sameIdentity s s' ∧
    ∀ ps a, x = Answering ps a → Forall (soundFor policy (store' :: past) store' (sess_worldID s)) ps) as Hpush.
  { intros f x Hf [= <- <- <-]. destruct (pushControl_OK f s Hf HO). by split_and!. }
  destruct received as [frame|]; [|by apply Hpush]. case_bool_decide; [by apply Hpush|]. case_bool_decide.
  - destruct (frame_Intent frame) as [intent|]; [|by apply Hpush].
    destruct (router !! intent_Kind intent) as [h|] eqn:Eh.
    2:{ intros [= <- <- <-]. by destruct (pushDocument_OK (errorFrame (intent_RequestID intent) CodeUnsupported "core.ws.unknownIntent") s ltac:(done) HO). }
    intros [= <- <- <-]. split_and!; [done..|]. intros ps a [= <- _].
    eapply Forall_impl; [exact (Hr _ _ Eh s intent store Hwf)|]. intros p. apply soundFor_mono; [|done].
    intros q [->| ->%list_elem_of_singleton]%elem_of_cons; [left|by right].
  - case_bool_decide; [|by apply Hpush].
    pose proof (ephemeral_due policy (store :: past) store s frame) as Hps.
    assert (sessionOK (handleEphemeral frame s).1 ∧ sameIdentity s (handleEphemeral frame s).1) as [HO' Hid].
    { unfold handleEphemeral. destruct (frame_Ephemeral frame); [|by apply pushControl_OK].
      case_bool_decide; [by apply pushControl_OK|by split]. }
    destruct (handleEphemeral frame s) as [s1 ps1]. cbn in *. intros [= <- <- <-].
    split_and!; [done..|]. by intros ps a [= <- _].
Qed.
End Due.

(** ** The invariant *)

Section Invariant.
Context `{Unicode} `{Argon2} `{ImageCodecs} {G : Type} `{DiceSource G} {S : Type} `{TxLaws S} `{!FrameLaws S}.
Variables (auth : AuthDeps) (assetsAt : AssetDeps) (policy : FieldPolicy) (backend : string).
Local Abbreviation live := (live (S := S)).
Local Abbreviation step := (liveStep (G := G) auth assetsAt policy backend).
Implicit Types st : live.

(** The hub a session has been given, and whether it has joined it and not yet
    left. *)
Definition hubOf (ph : phase) : option nat :=
  match ph with
  | Joining n _ | Greeting n _ | Replaying n _ | Projecting n _ _ _ | Prepending n _ | Failing n _ | Serving n _ _ | Leaving n => Some n
  | Dialing | Authenticated _ | Left | Gone => None
  end.

Definition joined (n : nat) (ph : phase) : Prop :=
  hubOf ph = Some n ∧ match ph with Joining _ _ => False | _ => True end.

(** Before the welcome has set the number the client starts at. *)
Definition unwelcomed (ph : phase) : Prop :=
  match ph with Dialing | Authenticated _ | Joining _ _ | Greeting _ _ => True | _ => False end.

(** What a session is about to send or publish. *)
Definition inHand (past : list S) (store : S) (s : Session) (ph : phase) : Prop :=
  match ph with
  | Dialing => ∀ D, boxOK D (sess_outbox s)
  | Projecting _ _ events frames =>
      Forall (dueTo policy past store s) frames ∧ Forall (logged store (sess_worldID s)) events
  | Prepending _ replay => Forall (dueTo policy past store s) replay
  | Serving _ rd wr =>
      (∀ ps a, rd = Answering ps a → Forall (soundFor policy past store (sess_worldID s)) ps) ∧
      (∀ f, wr = Holding f → dueTo policy past store s f)
  | _ => True
  end.

(** The connection of a session: what is written is due, and its numbers go up
    to the last one remembered. *)
Definition wireOK (past : list S) (store : S) (s : Session) (ph : phase) (wire : list Frame) : Prop :=
  Forall (dueTo policy past store s) wire ∧ StronglySorted Z.lt (eventSeqs wire) ∧
  Forall (λ k, k ≤ sess_lastSeq s) (eventSeqs wire) ∧ (unwelcomed ph → wire = []).

Definition clientOK (past : list S) (store : S) (s : Session) (ph : phase) (wire : list Frame) : Prop :=
  sessionOK policy past store s ∧ inHand past store s ph ∧ wireOK past store s ph wire.

(** The sessions a hub has still to visit in a loop. *)
Definition remaining (pc : hubPc) : list string :=
  match pc with HubFanning _ rest | HubClosing rest => rest | _ => [] end.

Definition hubQueued (past : list S) (store : S) (h : hubProc) : Prop :=
  Forall (soundFor policy past store (hp_world h)) (hp_queue h) ∧
  ∀ p rest, hp_pc h = HubFanning p rest → soundFor policy past store (hp_world h) p.

Record liveOK st : Prop := {
  lo_wf : wf (lv_store st);
  lo_past : ∃ older, lv_past st = lv_store st :: older;
  lo_history : ∀ q, q ∈ lv_past st → wf q ∧ logGrows q (lv_store st);
  lo_clients : ∀ id s ph wire, clientAt st id s ph wire →
    clientOK (lv_past st) (lv_store st) s ph wire ∧
    ∀ n, hubOf ph = Some n → ∃ h, lv_hubs st !! n = Some h ∧ hp_world h = sess_worldID s;
  lo_dom : ∀ id, is_Some (lv_clients st !! id) → is_Some (lv_heap st !! id);
  lo_queued : ∀ n h, lv_hubs st !! n = Some h → hubQueued (lv_past st) (lv_store st) h;
  lo_members : ∀ n h id, lv_hubs st !! n = Some h → id ∈ hp_members h →
    ∃ s ph wire, clientAt st id s ph wire ∧ joined n ph ∧ sess_worldID s = hp_world h;
  lo_rest : ∀ n h, lv_hubs st !! n = Some h →
    NoDup (remaining (hp_pc h)) ∧ (∀ id, id ∈ remaining (hp_pc h) → id ∈ hp_members h) ∧
    (hp_pc h = HubDone → hp_members h = ∅);
  lo_registry : ∀ w n, reg_hubs (lv_registry st) !! w = Some n → ∃ h, lv_hubs st !! n = Some h ∧ hp_world h = w;
  lo_created : ∀ n, is_Some (lv_hubs st !! n) ↔ (n < reg_created (lv_registry st))%nat
}.

Lemma liveOK_init store tickets : wf store → liveOK (liveInit store tickets).
Proof.
  intros Hwf. split; cbn.
  - done.
  - by eexists.
  - by intros q ->%list_elem_of_singleton.
  - intros id s ph wire [Hs _]. cbn in Hs. by rewrite lookup_empty in Hs.
  - intros id [c Hc]. by rewrite lookup_empty in Hc.
  - intros n h Hh. by rewrite lookup_empty in Hh.
  - intros n h id Hh. by rewrite lookup_empty in Hh.
  - intros n h Hh. by rewrite lookup_empty in Hh.
  - intros w n Hn. by rewrite lookup_empty in Hn.
  - intros n. rewrite lookup_empty. split; [by intros []|lia].
Qed.

(** *** The store moves on *)

Lemma sessionOK_mono past past' store store' s :
  past ⊆ past' → logGrows store store' → sessionOK policy past store s → sessionOK policy past' store' s.
Proof. intros Hp Hl. apply boxOK_impl. intros f. by apply due_mono. Qed.

Lemma clientOK_mono past past' store store' s ph wire :
  past ⊆ past' → logGrows store store' → clientOK past store s ph wire → clientOK past' store' s ph wire.
Proof.
  intros Hp Hl (HO & Hh & Hd & Hs & Hb & Hu).
  assert (∀ l, Forall (dueTo policy past store s) l → Forall (dueTo policy past' store' s) l) as Hmono.
  { intros l Hall. eapply Forall_impl; [exact Hall|]. intros f. by apply due_mono. }
  unfold clientOK, wireOK. split_and!; [by eapply sessionOK_mono| |by apply Hmono|done..].
  destruct ph; try done; cbn in *; [|by apply Hmono|].
  { destruct Hh as [Hf He]. split; [by apply Hmono|]. eapply Forall_impl; [exact He|]. intros e. by apply logged_mono. }
  destruct Hh as [Hps Hf]. split.
  - intros ps a Ha. eapply Forall_impl; [by eapply Hps|]. intros p. by apply soundFor_mono.
  - intros f Hwr. eapply due_mono; [done|done|by apply Hf].
Qed.

Lemma hubQueued_mono past past' store store' h :
  past ⊆ past' → logGrows store store' → hubQueued past store h → hubQueued past' store' h.
Proof.
  intros Hp Hl [Hq Hf]. split.
  - eapply Forall_impl; [exact Hq|]. intros p. by apply soundFor_mono.
  - intros p rest Hpc. eapply soundFor_mono; [done|done|by eapply Hf].
Qed.

Lemma setStore_OK store' st : liveOK st → wf store' → logGrows (lv_store st) store' → liveOK (setStore store' st).
Proof.
  intros [Hwf Hpast Hhist Hcl Hdom Hq Hm Hrest Hreg Hcr] Hwf' Hl.
  assert (lv_past st ⊆ store' :: lv_past st) as Hsub by (intros x; by right).
  split; cbn; try done.
  - by eexists.
  - intros q [->|Hin]%elem_of_cons; [done|]. destruct (Hhist q Hin). split; [done|]. by etrans.
  - intros id s ph wire Hat. destruct (Hcl id s ph wire Hat) as [HO Hh]. split; [|done]. by eapply clientOK_mono.
  - intros n h Hh. by eapply hubQueued_mono, Hq.
Qed.

Lemma setTickets_OK t st : liveOK st → liveOK (setTickets t st).
Proof. by intros []; split. Qed.

(** *** A session moves on *)

Lemma clientAt_moved st id s ph wire id' s' ph' wire' :
  clientAt (moveTo id s ph wire st) id' s' ph' wire' ↔
  (id' = id ∧ s' = s ∧ ph' = ph ∧ wire' = wire) ∨ (id' ≠ id ∧ clientAt st id' s' ph' wire').
Proof.
  unfold clientAt, moveTo. cbn. rewrite !lookup_insert. case_decide as Hid; [subst id'|].
  - split; [intros [[= <-] [= <- <-]]; by left|]. intros [(_ & -> & -> & ->)|[? _]]; done.
  - split; [intros Hat; right; by split|]. by intros [(? & _)|[_ ?]].
Qed.

Lemma clientAt_hubs hubs st id s ph wire : clientAt (setHubs hubs st) id s ph wire ↔ clientAt st id s ph wire.
Proof. done. Qed.

Lemma moveTo_OK st id s ph wire :
  liveOK st →
  clientOK (lv_past st) (lv_store st) s ph wire →
  (∀ n, hubOf ph = Some n → ∃ h, lv_hubs st !! n = Some h ∧ hp_world h = sess_worldID s) →
  (∀ n h, lv_hubs st !! n = Some h → id ∈ hp_members h → joined n ph ∧ sess_worldID s = hp_world h) →
  liveOK (moveTo id s ph wire st).
Proof.
  intros [Hwf Hpast Hhist Hcl Hdom Hq Hm Hrest Hreg Hcr] HO Hhub Hmem. split; try done.
  - intros id' s' ph' wire' [(-> & -> & -> & ->)|[_ Hat]]%clientAt_moved; [by split|]. by apply (Hcl id').
  - cbn. intros id'. rewrite !lookup_insert. case_decide; [by intros _; eexists|]. apply Hdom.
  - intros n h id' Hh Hin. destruct (decide (id' = id)) as [->|Hne].
    + destruct (Hmem _ _ Hh Hin) as [Hj Hw]. exists s, ph, wire. split_and!; [|done..].
      apply clientAt_moved. by left.
    + destruct (Hm _ _ _ Hh Hin) as (s' & ph' & wire' & Hat & Hrest'). exists s', ph', wire'.
      split; [|done]. apply clientAt_moved. by right.
Qed.

(** The usual case: the same identity, still with the same hub. *)
Lemma moveTo_same st id s ph wire s' ph' wire' :
  liveOK st → clientAt st id s ph wire → sess_worldID s' = sess_worldID s →
  (∀ n, hubOf ph' = Some n → hubOf ph = Some n) →
  (∀ n, joined n ph → joined n ph') →
  clientOK (lv_past st) (lv_store st) s' ph' wire' →
  liveOK (moveTo id s' ph' wire' st).
Proof.
  intros HOK Hat Hw Hhub Hj HO. destruct (lo_clients _ HOK _ _ _ _ Hat) as [_ Hh].
  apply moveTo_OK; [done..| |].
  - intros n Hn%Hhub. rewrite Hw. by apply Hh.
  - intros n h Hn Hin. destruct (lo_members _ HOK _ _ _ Hn Hin) as (s0 & ph0 & w0 & [Hs0 Hc0] & Hjn & Hw0).
    destruct Hat as [Hs Hc]. rewrite Hs in Hs0. rewrite Hc in Hc0. injection Hs0 as <-. injection Hc0 as <- <-.
    split; [by apply Hj|congruence].
Qed.

(** *** A hub moves on *)

Lemma setHub_OK st n h h' :
  liveOK st → lv_hubs st !! n = Some h → hp_world h' = hp_world h →
  hubQueued (lv_past st) (lv_store st) h' →
  (∀ id, id ∈ hp_members h' → id ∈ hp_members h ∨
     ∃ s ph wire, clientAt st id s ph wire ∧ joined n ph ∧ sess_worldID s = hp_world h) →
  NoDup (remaining (hp_pc h')) → (∀ id, id ∈ remaining (hp_pc h') → id ∈ hp_members h') →
  (hp_pc h' = HubDone → hp_members h' = ∅) →
  liveOK (setHub n h' st).
Proof.
  intros [Hwf Hpast Hhist Hcl Hdom Hq Hm Hrest Hreg Hcr] Hn Hw Hq' Hsub Hnd Hin Hdone. split; cbn; try done.
  - intros id s ph wire Hat. destruct (Hcl id s ph wire Hat) as [HO Hh]. split; [done|].
    intros m Hm'. destruct (Hh m Hm') as (h0 & Hh0 & Hw0). rewrite lookup_insert. case_decide; [|by exists h0].
    subst m. exists h'. rewrite Hn in Hh0. injection Hh0 as <-. split; [done|congruence].
  - intros m h0. rewrite lookup_insert. case_decide; [by intros [= <-]|]. apply Hq.
  - intros m h0 id. rewrite lookup_insert. case_decide; [|by apply Hm]. subst m. intros [= <-] Hi.
    rewrite Hw. destruct (Hsub _ Hi) as [Hi'|?]; [by apply (Hm n h id Hn)|done].
  - intros m h0. rewrite lookup_insert. case_decide; [by intros [= <-]|]. apply Hrest.
  - intros w m Hwm. destruct (Hreg w m Hwm) as (h0 & Hh0 & Hw0). rewrite lookup_insert. case_decide; [|by exists h0].
    subst m. exists h'. rewrite Hn in Hh0. injection Hh0 as <-. split; [done|congruence].
  - intros m. rewrite <-Hcr, lookup_insert. case_decide; [|done]. subst m. split; intros _; by eexists.
Qed.

(** *** Steps of a session *)

Lemma dueTo_same past store s s' : sameIdentity s s' → dueTo policy past store s' = dueTo policy past store s.
Proof. intros (Hu & Hw & Hr & _). unfold dueTo. by rewrite Hu, Hw, Hr. Qed.

Lemma eventSeqs_app fs gs : eventSeqs (fs ++ gs) = eventSeqs fs ++ eventSeqs gs.
Proof. apply omap_app. Qed.

Lemma eventSeq_other f : frame_Type f ≠ TypeEvent → eventSeq f = None.
Proof. intros Hf. unfold eventSeq. by rewrite bool_decide_eq_false_2. Qed.

(** Frames that are no events may be written at any point. *)
Lemma eventSeqs_written sent f wire : frame_Type f ≠ TypeEvent → eventSeqs (written sent f wire) = eventSeqs wire.
Proof.
  intros Hf. destruct sent; [|done]. cbn. rewrite eventSeqs_app, eventSeqs_cons, eventSeq_other by done.
  apply app_nil_r.
Qed.

Lemma moveTo_wrote st id s ph wire s' ph' sent f :
  liveOK st → clientAt st id s ph wire → sameIdentity s s' →
  (∀ n, hubOf ph' = Some n → hubOf ph = Some n) → (∀ n, joined n ph → joined n ph') →
  (sent = true → frame_Type f ≠ TypeEvent) → (unwelcomed ph' → unwelcomed ph ∧ sent = false) →
  sessionOK policy (lv_past st) (lv_store st) s' → inHand (lv_past st) (lv_store st) s' ph' →
  liveOK (moveTo id s' ph' (written sent f wire) st).
Proof.
  intros HOK Hat Hid Hhub Hj Hf Hun HO Hin. apply (moveTo_same st id s ph wire); [done|done|apply Hid|done|done|].
  destruct (lo_clients _ HOK _ _ _ _ Hat) as [(_ & _ & Hd & Hs & Hb & Hu) _].
  split_and!; [done|done|]. unfold wireOK. rewrite (dueTo_same _ _ _ _ Hid).
  destruct Hid as (_ & _ & _ & Hle). assert (eventSeqs (written sent f wire) = eventSeqs wire) as Hseq.
  { destruct sent; [|done]. by apply (eventSeqs_written true), Hf. }
  rewrite Hseq. split_and!; [|done| |].
  - destruct sent; [|done]. cbn. apply Forall_app. split; [done|]. apply Forall_singleton.
    by apply due_other, eventBody_type, Hf.
  - eapply Forall_impl; [exact Hb|]. cbn. lia.
  - intros [Hu' ->]%Hun. by apply Hu.
Qed.

Lemma moveTo_quiet st id s ph wire s' ph' :
  liveOK st → clientAt st id s ph wire → sameIdentity s s' →
  (∀ n, hubOf ph' = Some n → hubOf ph = Some n) → (∀ n, joined n ph → joined n ph') →
  (unwelcomed ph' → unwelcomed ph) →
  sessionOK policy (lv_past st) (lv_store st) s' → inHand (lv_past st) (lv_store st) s' ph' →
  liveOK (moveTo id s' ph' wire st).
Proof.
  intros HOK Hat Hid Hhub Hj Hun HO Hin. change wire with (written false zeroFrame wire).
  eapply moveTo_wrote; try done. intros Hu. split; [by apply Hun|done].
Qed.

Lemma client_session st id s ph wire :
  liveOK st → clientAt st id s ph wire →
  sessionOK policy (lv_past st) (lv_store st) s ∧ inHand (lv_past st) (lv_store st) s ph ∧
  wireOK (lv_past st) (lv_store st) s ph wire.
Proof. intros HOK Hat. by destruct (lo_clients _ HOK _ _ _ _ Hat). Qed.

(** Writing a popped frame. *)
Lemma wireOK_write past store s ph ph' wire f g' q sent :
  wireOK past store s ph wire → dueTo policy past store s f → ¬ unwelcomed ph' →
  writeFilter f (sess_lastSeq s) = (Some g', q) →
  wireOK past store (storeLastSeq q s) ph' (written sent g' wire) ∧ sess_lastSeq s ≤ q.
Proof.
  intros (Hd & Hs & Hb & _) Hf Hun Hw. pose proof (writeFilter_spec f (sess_lastSeq s)) as Hspec.
  assert (g' = f ∧ sess_lastSeq s ≤ q ∧ (∀ k, eventSeq f = Some k → sess_lastSeq s < k ∧ k = q)) as (-> & Hle & Hk).
  { destruct (eventSeq f) as [k|]; rewrite Hw in Hspec.
    - destruct (k <=? sess_lastSeq s) eqn:E; [done|]. injection Hspec as -> ->. apply Z.leb_gt in E.
      split_and!; [done|lia|]. intros ? [= <-]. by split.
    - injection Hspec as -> ->. by split_and!. }
  split; [|done]. unfold wireOK. rewrite (dueTo_same _ _ s (storeLastSeq q s)) by (by split_and!).
  assert (Forall (λ k, k ≤ sess_lastSeq (storeLastSeq q s)) (eventSeqs wire)) as Hb'.
  { eapply Forall_impl; [exact Hb|]. cbn. lia. }
  destruct sent; cbn [written]; [|by split_and!]. rewrite eventSeqs_app, eventSeqs_cons.
  change (eventSeqs []) with (@nil Z). rewrite app_nil_r. split_and!; [| | |done].
  - apply Forall_app. split; [done|]. by apply Forall_singleton.
  - destruct (eventSeq f) as [k|] eqn:Ek; cbn; [|by rewrite app_nil_r]. destruct (Hk k eq_refl) as [Hlt _].
    apply StronglySorted_app_2; [|done|repeat constructor]. intros x y Hx ->%list_elem_of_singleton.
    rewrite Forall_forall in Hb. specialize (Hb x Hx). cbn in Hb. lia.
  - apply Forall_app. split; [done|]. destruct (eventSeq f) as [k|] eqn:Ek; cbn; [|constructor].
    destruct (Hk k eq_refl) as [_ ->]. by apply Forall_singleton.
Qed.

(** [fanOutStep] touches one session of the heap. *)
Lemma fanOutStep_heap p m (heap : gmap string Session) id s :
  heap !! id = Some s →
  hub_heap (fanOutStep p (MkHubState m heap) id) = <[id := (fanned p id s).1]> heap ∧
  (hub_sessions (fanOutStep p (MkHubState m heap) id) = m ∨
   hub_sessions (fanOutStep p (MkHubState m heap) id) = m ∖ {[id]}).
Proof.
  intros Hs. unfold fanOutStep, fanned. cbn. rewrite Hs. destruct (frameFor p id s) as [f|]; cbn.
  - destruct (deliver p f s) as [[u|e] s1]; cbn; auto.
  - rewrite insert_id by done. auto.
Qed.

Lemma fanOutStep_dom p m (heap : gmap string Session) id :
  dom heap ⊆ dom (hub_heap (fanOutStep p (MkHubState m heap) id)).
Proof.
  destruct (heap !! id) as [s|] eqn:Hs.
  - destruct (fanOutStep_heap p m heap id s Hs) as [-> _]. rewrite dom_insert. set_solver.
  - unfold fanOutStep. cbn. by rewrite Hs.
Qed.

(** Another goroutine changes the outbox of a session that is being served. *)
Lemma touch_OK st id s ph wire s' :
  liveOK st → clientAt st id s ph wire → ph ≠ Dialing → sameIdentity s s' →
  sessionOK policy (lv_past st) (lv_store st) s' → liveOK (setSession id s' st).
Proof.
  intros HOK Hat Hph Hid HO. pose proof Hat as [Hs Hc].
  destruct (client_session _ _ _ _ _ HOK Hat) as (_ & Hin & _).
  assert (setSession id s' st = moveTo id s' ph wire st) as ->.
  { unfold moveTo, setClient, setSession, setHeap. cbn. by rewrite (insert_id (lv_clients st)). }
  eapply moveTo_quiet; [done..|]. pose proof Hid as (_ & Hw & _).
  pose proof (dueTo_same (lv_past st) (lv_store st) _ _ Hid) as Hdue.
  destruct ph; cbn in *; rewrite ?Hdue, ?Hw; done.
Qed.

Lemma authenticate_cases q received now s tickets r s' tickets' :
  authenticate q received now (s, tickets) = (r, (s', tickets')) → sess_outbox s' = sess_outbox s.
Proof.
  unfold authenticate. destruct received as [f|]; [|by intros [= _ <- _]].
  destruct (frame_Hello f) as [h|]; [|by intros [= _ <- _]]. destruct (negb _); [by intros [= _ <- _]|].
  destruct (_ || _); [by intros [= _ <- _]|]. destruct (Redeem _ _ _) as [[t|] ts]; [|by intros [= _ <- _]].
  destruct (_ && _); [by intros [= _ <- _]|]. by destruct (resolveRole _ _); intros [= _ <- _].
Qed.

(** A session at [Dial] is in no hub. *)
Lemma dialing_free st id s ph wire n h :
  liveOK st → clientAt st id s ph wire → hubOf ph = None → lv_hubs st !! n = Some h → id ∉ hp_members h.
Proof.
  intros HOK [Hs Hc] Hph Hn Hin. destruct (lo_members _ HOK _ _ _ Hn Hin) as (s0 & ph0 & w0 & [_ Hc0] & [Hj _] & _).
  rewrite Hc in Hc0. injection Hc0 as <- <-. congruence.
Qed.

(** The first message of a connection: a new identity, with nothing sent. *)
Lemma handshake_OK st id s wire s' ph' wire' :
  liveOK st → clientAt st id s Dialing wire → sess_outbox s' = sess_outbox s →
  hubOf ph' = None → inHand (lv_past st) (lv_store st) s' ph' →
  (wire' = [] ∨ ∃ f, wire' = [f] ∧ frame_Type f ≠ TypeEvent ∧ ¬ unwelcomed ph') →
  liveOK (moveTo id s' ph' wire' st).
Proof.
  intros HOK Hat Hbox Hph Hin Hwire. destruct (client_session _ _ _ _ _ HOK Hat) as (_ & Hfree & _). cbn in Hfree.
  apply moveTo_OK; [done| | |].
  - split_and!; [|done|].
    + unfold sessionOK. rewrite Hbox. apply Hfree.
    + unfold wireOK. destruct Hwire as [->|(f & -> & Hf & Hun)].
      * split_and!; [constructor|constructor|constructor|done].
      * rewrite eventSeqs_cons, eventSeq_other by done. cbn.
        split_and!; [|constructor|constructor|done]. apply Forall_singleton. by apply due_other, eventBody_type.
  - intros n Hn. congruence.
  - intros n h Hn Hmem. exfalso. by eapply dialing_free.
Qed.

Lemma hubFor_sameClients w st n st1 :
  hubFor w st = (n, st1) → lv_heap st1 = lv_heap st ∧ lv_clients st1 = lv_clients st.
Proof. unfold hubFor. destruct (HubOf _ _) as [n' r]. intros [= <- <-]. by destruct (lv_hubs st !! n'). Qed.

(** The registry gives a session the hub of its world. *)
Lemma hubFor_OK st w n st1 :
  liveOK st → hubFor w st = (n, st1) →
  liveOK st1 ∧ lv_heap st1 = lv_heap st ∧ lv_clients st1 = lv_clients st ∧
  lv_past st1 = lv_past st ∧ lv_store st1 = lv_store st ∧
  ∃ h, lv_hubs st1 !! n = Some h ∧ hp_world h = w.
Proof.
  intros HOK. unfold hubFor, HubOf. destruct (reg_hubs (lv_registry st) !! w) as [m|] eqn:Ew.
  - intros [= <- <-]. destruct (lo_registry _ HOK _ _ Ew) as (h & Hh & Hw). rewrite Hh.
    split_and!; try done; [|by exists h]. destruct HOK. by split.
  - intros [= <- <-]. set (m := reg_created (lv_registry st)).
    assert (lv_hubs st !! m = None) as Hnone.
    { apply eq_None_not_Some. intros Hm%(lo_created _ HOK). unfold m in Hm. lia. }
    rewrite Hnone. split_and!; try done; [|eexists; split; [by apply lookup_insert_eq|done]].
    destruct HOK as [Hwf Hpast Hhist Hcl Hdom Hq Hm Hrest Hreg Hcr]. split; cbn; try done.
    + intros id s ph wire Hat. destruct (Hcl id s ph wire Hat) as [HO Hh]. split; [done|].
      intros k Hk. destruct (Hh k Hk) as (h & Hlook & Hwd). exists h. rewrite lookup_insert_ne; [done|]. congruence.
    + intros k h. rewrite lookup_insert. case_decide; [|by apply Hq]. intros [= <-]. split; [constructor|done].
    + intros k h id. rewrite lookup_insert. case_decide; [|by apply Hm]. intros [= <-]. cbn. set_solver.
    + intros k h. rewrite lookup_insert. case_decide; [|by apply Hrest]. intros [= <-]. cbn.
      split_and!; [constructor|by intros id ?%elem_of_nil|done].
    + intros w' k. rewrite lookup_insert. case_decide.
      * intros [= <-]. subst w'. rewrite lookup_insert_eq. by eexists.
      * intros Hk. destruct (Hreg _ _ Hk) as (h & Hh & Hwd). exists h. rewrite lookup_insert_ne; [done|]. congruence.
    + intros k. rewrite lookup_insert. case_decide as Hk.
      * subst k. split; [unfold m; lia|by eexists].
      * rewrite Hcr. fold m. lia.
Qed.

Lemma shutdown_OK st : liveOK st → liveOK (shutdown st).
Proof.
  intros [Hwf Hpast Hhist Hcl Hdom Hq Hm Hrest Hreg Hcr].
  assert (∀ n h', lv_hubs (shutdown st) !! n = Some h' → ∃ h, lv_hubs st !! n = Some h ∧
    hp_world h' = hp_world h ∧ hp_members h' = hp_members h ∧ hp_queue h' = hp_queue h ∧ hp_pc h' = hp_pc h) as Hold.
  { intros n h'. cbn. rewrite map_lookup_imap. destruct (lv_hubs st !! n) as [h|]; [|done]. cbn.
    intros [= <-]. exists h. by case_bool_decide. }
  assert (∀ n h, lv_hubs st !! n = Some h → ∃ h', lv_hubs (shutdown st) !! n = Some h' ∧ hp_world h' = hp_world h) as Hnew.
  { intros n h Hh. cbn. rewrite map_lookup_imap, Hh. cbn. eexists. split; [done|]. by case_bool_decide. }
  split; try done.
  - intros id s ph wire Hat. destruct (Hcl id s ph wire Hat) as [HO Hh]. split; [done|].
    intros n Hn. destruct (Hh n Hn) as (h & Hl & Hw). destruct (Hnew _ _ Hl) as (h' & Hl' & Hw').
    exists h'. split; [done|congruence].
  - intros n h' (h & Hh & Hw & _ & Hqu & Hpc)%Hold. destruct (Hq _ _ Hh) as [Hq1 Hq2]. split.
    + by rewrite Hw, Hqu.
    + rewrite Hw, Hpc. exact Hq2.
  - intros n h' id (h & Hh & Hw & Hme & _)%Hold. rewrite Hme, Hw. by apply Hm.
  - intros n h' (h & Hh & _ & Hme & _ & Hpc)%Hold. rewrite Hme, Hpc. by eapply Hrest.
  - intros n. cbn. rewrite <-Hcr, map_lookup_imap. destruct (lv_hubs st !! n); cbn; [|done].
    split; intros _; by eexists.
Qed.


Ltac quietly HOK Hat :=
  let HO := fresh "HO" in let Hin := fresh "Hin" in let Hwire := fresh "Hwire" in
  destruct (client_session _ _ _ _ _ HOK Hat) as (HO & Hin & Hwire);
  eapply (moveTo_quiet _ _ _ _ _ _ _ HOK Hat); try done.

Lemma greet_OK st id s wire n hello s' frame from ph' sent :
  liveOK st → clientAt st id s (Greeting n hello) wire → greet (lv_store st) hello s = Ok (s', frame, from) →
  joined n ph' → ¬ unwelcomed ph' → inHand (lv_past st) (lv_store st) s' ph' →
  liveOK (moveTo id s' ph' (written sent frame wire) st).
Proof.
  intros HOK Hat (world & Hworld & Hg)%bind_Ok Hj Hun Hin. injection Hg as Hs' Hframe _.
  assert (frame_Type frame ≠ TypeEvent) as Hf by (by subst frame).
  destruct (client_session _ _ _ _ _ HOK Hat) as (HO & _ & (_ & _ & _ & Hu)). rewrite (Hu I).
  apply (moveTo_same st id s (Greeting n hello) wire); try done.
  - by subst s'.
  - destruct Hj as [Hj _]. intros m Hm. cbn. congruence.
  - intros m [[= <-] _]. done.
  - split_and!; [by subst s'|done|]. unfold wireOK. rewrite eventSeqs_written by done.
    split_and!; [|constructor|constructor|done]. destruct sent; [|constructor]. cbn.
    apply Forall_singleton. by apply due_other, eventBody_type.
Qed.

Lemma seenSince_past began st (v : reads S) : drawnFrom (seenSince began st) v → drawnFrom (lv_past st) v.
Proof. apply drawnFrom_mono. intros q (i & Hq & _)%elem_of_take. by eapply list_elem_of_lookup_2. Qed.

(** The store there is now may answer everything. *)
Lemma seenSince_now began st q older : lv_past st = q :: older → drawnFrom (seenSince began st) (steady q).
Proof. intros Hq. apply drawnFrom_steady. unfold seenSince. rewrite Hq. left. Qed.

Lemma past_now st : liveOK st → lv_store st ∈ lv_past st.
Proof. intros HOK. destruct (lo_past _ HOK) as [older ->]. left. Qed.

Lemma serveStep_OK id st st' : liveOK st → serveStep policy id st st' → liveOK st'.
Proof.
  intros HOK Hstep.
  destruct Hstep as [st id s wire received now hello s' ts Hat Ha|st id s wire received now e s' ts sent Hat Ha|
    st id s wire hello n st1 Hat Hh|st id s wire n hello h Hat Hn Hpc|st id s wire n hello h Hat Hn Hpc|
    st id s wire n hello s' frame from Hat Hg|st id s wire n hello s' frame from e Hat Hg|
    st id s wire n hello e Hat Hg|st id s wire n from events Hat He|st id s wire n from e Hat He|
    st id s wire n began e events frames v frames' Hat Hv Hr|st id s wire n began e events frames v err Hat Hv Hr|
    st id s wire n began frames Hat|
    st id s wire n frames s' u Hat Hp|st id s wire n frames s' e Hat Hp|st id s wire n e sent Hat|
    st id s wire n Hat|st id s wire n h Hat Hn Hpc|st id s wire n h Hat Hn Hpc|st id s wire Hat].
  - apply setTickets_OK. apply authenticate_cases in Ha. eapply handshake_OK; try done.
    destruct (client_session _ _ _ _ _ HOK Hat) as (_ & _ & _ & _ & _ & Hu). left. by apply Hu.
  - apply setTickets_OK. apply authenticate_cases in Ha. eapply handshake_OK; try done.
    destruct (client_session _ _ _ _ _ HOK Hat) as (_ & _ & _ & _ & _ & Hu). rewrite (Hu I).
    destruct sent; [right; eexists; split_and!; [done|done|by intros []]|by left].
  - destruct (hubFor_OK _ _ _ _ HOK Hh) as (HOK1 & Hheap & Hcl & Hpast & Hst & h & Hn & Hw).
    assert (clientAt st1 id s (Authenticated hello) wire) as Hat1 by (unfold clientAt; by rewrite Hheap, Hcl).
    destruct (lo_clients _ HOK1 _ _ _ _ Hat1) as [(HO & Hin & Hwire) _].
    apply moveTo_OK; [done|by split_and!|by intros m [= <-]; exists h|].
    intros m h' Hm Hmem. exfalso. by eapply (dialing_free st1).
  - change (liveOK (setHub n (withMembers (hp_members h ∪ {[id]}) h) (moveTo id s (Greeting n hello) wire st))).
    assert (liveOK (moveTo id s (Greeting n hello) wire st)) as HOK1.
    { quietly HOK Hat. by intros m [? []]. }
    destruct (lo_rest _ HOK _ _ Hn) as (Hnd & Hsub & Hdone). destruct (lo_clients _ HOK _ _ _ _ Hat) as [_ Hhub].
    destruct (Hhub n eq_refl) as (h0 & Hn0 & Hw0). rewrite Hn in Hn0. injection Hn0 as <-.
    eapply setHub_OK; [done|exact Hn|done|exact (lo_queued _ HOK _ _ Hn)| |done| |cbn; congruence].
    + intros id' [Hin| ->%elem_of_singleton]%elem_of_union; [by left|]. right.
      exists s, (Greeting n hello), wire. split_and!; [apply clientAt_moved; by left|done..].
    + intros id' Hin. apply elem_of_union. left. by apply Hsub.
  - quietly HOK Hat. by intros m [? []].
  - by eapply (greet_OK _ _ _ _ _ _ _ _ _ _ true HOK Hat Hg); [done|intros []|].
  - by eapply (greet_OK _ _ _ _ _ _ _ _ _ _ false HOK Hat Hg); [done|intros []|].
  - quietly HOK Hat.
  - quietly HOK Hat. cbn. split; [constructor|]. by eapply EventsSince_logged; [apply lo_wf|].
  - quietly HOK Hat.
  - quietly HOK Hat. destruct Hin as [Hf [He Hes]%Forall_cons]. split; [|done].
    destruct (replayStep_due policy (lv_past st) _ _ _ _ _ _ (seenSince_past _ _ _ Hv) He Hr)
      as [->|(f & -> & _ & Hf')]; [done|]. apply Forall_app. by rewrite Forall_singleton.
  - quietly HOK Hat.
  - quietly HOK Hat. by destruct Hin.
  - quietly HOK Hat.
    all: destruct (onOutbox_OK policy (lv_past st) (lv_store st) (PrependDocument frames) s) as [HO' Hid];
      [by apply boxOK_prepend|done|]; by rewrite Hp in HO', Hid.
  - quietly HOK Hat.
    all: destruct (onOutbox_OK policy (lv_past st) (lv_store st) (PrependDocument frames) s) as [HO' Hid];
      [by apply boxOK_prepend|done|]; by rewrite Hp in HO', Hid.
  - destruct (client_session _ _ _ _ _ HOK Hat) as (HO & _ & _). by eapply (moveTo_wrote _ _ _ _ _ _ _ _ _ HOK Hat).
  - quietly HOK Hat.
  - destruct (lo_rest _ HOK _ _ Hn) as (Hnd & Hsub & Hdone).
    assert (liveOK (setHub n (withMembers (hp_members h ∖ {[id]}) h) st)) as HOK1.
    { eapply setHub_OK; [done|exact Hn|done|exact (lo_queued _ HOK _ _ Hn)| |done| |cbn; congruence].
      - intros id' [Hin _]%elem_of_difference. by left.
      - intros id' Hin. cbn in Hin. rewrite Hpc in Hin. by apply elem_of_nil in Hin. }
    destruct (client_session _ _ _ _ _ HOK Hat) as (HO & _ & (Hd & Hs & Hb & _)).
    apply moveTo_OK; [done|by split_and!|done|]. intros m h' Hm Hmem. exfalso.
    destruct (lo_members _ HOK1 _ _ _ Hm Hmem) as (s0 & ph0 & w0 & [_ Hc0] & [Hj _] & _).
    destruct Hat as [_ Hc]. cbn in Hc0. rewrite Hc in Hc0. injection Hc0 as <- <-. injection Hj as <-.
    cbn in Hm. rewrite lookup_insert_eq in Hm. injection Hm as <-. cbn in Hmem. set_solver.
  - destruct (lo_rest _ HOK _ _ Hn) as (_ & _ & Hdone).
    destruct (client_session _ _ _ _ _ HOK Hat) as (HO & _ & (Hd & Hs & Hb & _)).
    apply moveTo_OK; [done|by split_and!|done|]. intros m h' Hm Hmem. exfalso.
    destruct (lo_members _ HOK _ _ _ Hm Hmem) as (s0 & ph0 & w0 & [_ Hc0] & [Hj _] & _).
    destruct Hat as [_ Hc]. rewrite Hc in Hc0. injection Hc0 as <- <-. injection Hj as <-.
    rewrite Hn in Hm. injection Hm as <-. rewrite (Hdone Hpc) in Hmem. set_solver.
  - quietly HOK Hat. by apply sessionOK_box, boxOK_close.
Qed.

Lemma readLoopStep_OK id st st' : liveOK st → readLoopStep (G := G) policy id st st' → liveOK st'.
Proof.
  intros HOK Hstep.
  destruct Hstep as [st id s wire n wr now i at_ source probe g received s' store' rd Hat Hr|
    st id s wire n p ps answer wr h Hat Hn Hlen|st id s wire n p ps answer wr h Hat Hn Hpc|
    st id s wire n answer wr Hat|st id s wire n wr Hat].
  - destruct (client_session _ _ _ _ _ HOK Hat) as (HO & [_ Hhold] & (Hd & Hs & Hb & _)).
    pose proof (fullRouter_keeps policy now i at_ source probe g) as Hkeeps.
    pose proof (readStep_parts (fullRouter policy now i at_ source probe g) received s (lv_store st)) as Hstep.
    rewrite Hr in Hstep.
    destruct (readStart_OK policy (lv_past st) (lv_store st) _ _ _ _ _ _
      (fullRouter_due policy now i at_ source probe g) (lo_wf _ HOK) (past_now _ HOK) HO Hr) as (HO' & Hid & Hps).
    assert (∃ T, writesTo T (lv_store st) store') as [T Hw].
    { destruct rd; by destruct (readStep_writes _ _ _ _ _ _ _ Hkeeps (lo_wf _ HOK) Hstep) as (T & _ & _ & Hw); exists T. }
    assert (liveOK (setStore store' st)) as HOK1.
    { apply setStore_OK; [done|by eapply writes_wf, Hw; apply lo_wf|by eapply writes_grow, Hw; apply lo_wf]. }
    change (liveOK (moveTo id s' (Serving n rd wr) wire (setStore store' st))).
    assert (clientAt (setStore store' st) id s (Serving n Reading wr) wire) as Hat1 by exact Hat.
    eapply (moveTo_quiet _ _ _ _ _ _ _ HOK1 Hat1); try done.
    + eapply sessionOK_mono, HO'; [by right|]. by eapply writes_grow, Hw; apply lo_wf.
    + split; [by rewrite (proj1 (proj2 Hid))|]. intros f Hf. rewrite (dueTo_same _ _ _ _ Hid).
      eapply due_mono, Hhold, Hf; [by right|]. by eapply writes_grow, Hw; apply lo_wf.
  - change (liveOK (setHub n (withQueue (hp_queue h ++ [p]) h)
      (moveTo id s (Serving n (Answering ps answer) wr) wire st))).
    destruct (client_session _ _ _ _ _ HOK Hat) as (HO & [Hps Hhold] & _).
    specialize (Hps _ _ eq_refl). apply Forall_cons in Hps as [Hp Hps].
    assert (liveOK (moveTo id s (Serving n (Answering ps answer) wr) wire st)) as HOK1.
    { eapply (moveTo_quiet _ _ _ _ _ _ _ HOK Hat); try done. split; [|done]. by intros ? ? [= <- _]. }
    destruct (lo_queued _ HOK _ _ Hn) as [Hq Hf]. destruct (lo_rest _ HOK _ _ Hn) as (Hnd & Hsub & Hdone).
    destruct (lo_clients _ HOK _ _ _ _ Hat) as [_ Hhub]. destruct (Hhub n eq_refl) as (h0 & Hn0 & Hw0).
    rewrite Hn in Hn0. injection Hn0 as <-.
    eapply setHub_OK; [done|exact Hn|done| |by left|done..]. split; [|done]. cbn. apply Forall_app.
    split; [done|]. apply Forall_singleton. by rewrite Hw0.
  - destruct (client_session _ _ _ _ _ HOK Hat) as (HO & [Hps Hhold] & _).
    specialize (Hps _ _ eq_refl). apply Forall_cons in Hps as [Hp Hps].
    eapply (moveTo_quiet _ _ _ _ _ _ _ HOK Hat); try done. split; [|done]. by intros ? ? [= <- _].
  - destruct (client_session _ _ _ _ _ HOK Hat) as (HO & [Hps Hhold] & _).
    destruct (readFinish_OK policy _ _ answer s HO) as [HO' Hid].
    eapply (moveTo_quiet _ _ _ _ _ _ _ HOK Hat); try done. split; [done|]. intros f Hf.
    rewrite (dueTo_same _ _ _ _ Hid). by apply Hhold.
  - destruct (client_session _ _ _ _ _ HOK Hat) as (HO & [_ Hhold] & _).
    eapply (moveTo_quiet _ _ _ _ _ _ _ HOK Hat); try done. by apply sessionOK_box, boxOK_close.
Qed.

Lemma writeLoopStep_OK id st st' : liveOK st → writeLoopStep id st st' → liveOK st'.
Proof.
  intros HOK Hstep.
  destruct Hstep as [st id s wire n rd f o Hat Hp|st id s wire n rd f q Hat Hw|st id s wire n rd f g' q sent Hat Hw|
    st id s wire n rd f g' q Hat Hw|st id s wire n rd o Hat Hp|st id s wire n rd Hat Hc|st id s wire n rd Hat Hc|
    st id s wire n rd Hat Hsig|st id s wire n rd Hat];
    destruct (client_session _ _ _ _ _ HOK Hat) as (HO & [Hps Hhold] & Hwire).
  - destruct (boxOK_pop _ _ _ _ (dueTo_other policy (lv_past st) (lv_store st) s zeroFrame ltac:(done)) HO Hp) as [HO' Hf].
    eapply (moveTo_quiet _ _ _ _ _ _ _ HOK Hat); try done. split; [done|]. intros g0 [= <-]. by apply Hf.
  - by eapply (moveTo_quiet _ _ _ _ _ _ _ HOK Hat).
  - destruct (wireOK_write _ _ _ _ (Serving n rd (At Popping)) _ _ _ _ sent Hwire (Hhold _ eq_refl) ltac:(intros []) Hw) as [Hwire' Hle].
    by eapply (moveTo_same st id s).
  - destruct (wireOK_write _ _ _ _ (Serving n rd (At Done)) _ _ _ _ false Hwire (Hhold _ eq_refl) ltac:(intros []) Hw) as [Hwire' Hle].
    by eapply (moveTo_same st id s).
  - by eapply (moveTo_quiet _ _ _ _ _ _ _ HOK Hat).
  - by eapply (moveTo_quiet _ _ _ _ _ _ _ HOK Hat).
  - by eapply (moveTo_quiet _ _ _ _ _ _ _ HOK Hat).
  - eapply (moveTo_quiet _ _ _ _ _ _ _ HOK Hat); try done. apply sessionOK_box. by eapply boxOK_same, HO.
  - by eapply (moveTo_quiet _ _ _ _ _ _ _ HOK Hat).
Qed.

(** One session of a fan-out. *)
Lemma fan_OK st n h p id rest :
  liveOK st → lv_hubs st !! n = Some h → hp_pc h = HubFanning p (id :: rest) →
  let hs := fanOutStep p (MkHubState (hp_members h) (lv_heap st)) id in
  liveOK (setHeap (hub_heap hs) (setHub n (withPc (HubFanning p rest) (withMembers (hub_sessions hs) h)) st)).
Proof.
  intros HOK Hn Hpc hs. destruct (lo_rest _ HOK _ _ Hn) as (Hnd & Hsub & _).
  destruct (lo_queued _ HOK _ _ Hn) as [Hq Hf]. specialize (Hf _ _ Hpc). rewrite Hpc in Hnd, Hsub. cbn in Hnd, Hsub.
  apply NoDup_cons in Hnd as [Hni Hnd].
  destruct (lo_members _ HOK _ _ id Hn) as (s & ph & wire & Hat & Hj & Hw); [apply Hsub; left|].
  destruct (client_session _ _ _ _ _ HOK Hat) as (HO & _ & _). rewrite <-Hw in Hf.
  destruct (fanned_OK policy _ _ p id s Hf HO) as [HO' Hid]. pose proof Hat as [Hs _].
  destruct (fanOutStep_heap p (hp_members h) (lv_heap st) id s Hs) as [Hheap Hmem]. fold hs in Hheap, Hmem.
  rewrite Hheap. assert (liveOK (setSession id (fanned p id s).1 st)) as HOK1.
  { eapply touch_OK; [done|exact Hat|by intros ->; destruct Hj|done|done]. }
  change (liveOK (setHub n (withPc (HubFanning p rest) (withMembers (hub_sessions hs) h)) (setSession id (fanned p id s).1 st))).
  eapply setHub_OK; [done|exact Hn|done| | |done| |done].
  - split; [done|]. intros p' rest' [= <- <-]. cbn. by rewrite <-Hw.
  - intros id' Hin. left. cbn in Hin. destruct Hmem as [Hm|Hm]; rewrite Hm in Hin; [done|]. set_solver.
  - intros id' Hin. cbn in *. assert (id' ≠ id) as Hne by (by intros ->).
    specialize (Hsub id' ltac:(by right)). destruct Hmem as [-> | ->]; [done|]. set_solver.
Qed.

Lemma hubRunStep_OK n st st' : liveOK st → hubRunStep n st st' → liveOK st'.
Proof.
  intros HOK Hstep.
  destruct Hstep as [st n h p queue rest Hn Hpc Hqueue Hperm|st n h p id rest hs Hn Hpc <-|st n h p Hn Hpc|
    st n h rest Hn Hpc Hquit Hperm|st n h id rest Hn Hpc|st n h Hn Hpc];
    destruct (lo_rest _ HOK _ _ Hn) as (Hnd & Hsub & _); destruct (lo_queued _ HOK _ _ Hn) as [Hq Hf].
  - eapply setHub_OK; [done|exact Hn|done| |by left| | |done].
    + rewrite Hqueue in Hq. apply Forall_cons in Hq as [Hp Hq]. split; [done|]. by intros p' rest' [= <- _].
    + cbn. rewrite Hperm. apply NoDup_elements.
    + intros id. cbn. by rewrite Hperm, elem_of_elements.
  - by eapply fan_OK.
  - eapply setHub_OK; [done|exact Hn|done|by split|by left|constructor|by intros id ?%elem_of_nil|done].
  - eapply setHub_OK; [done|exact Hn|done|by split|by left| | |done].
    + cbn. rewrite Hperm. apply NoDup_elements.
    + intros id. cbn. by rewrite Hperm, elem_of_elements.
  - rewrite Hpc in Hnd, Hsub. cbn in Hnd, Hsub. apply NoDup_cons in Hnd as [Hni Hnd].
    destruct (lo_members _ HOK _ _ id Hn) as (s & ph & wire & Hat & Hj & Hw); [apply Hsub; left|].
    destruct (client_session _ _ _ _ _ HOK Hat) as (HO & _ & _). pose proof Hat as [Hs _].
    destruct (CloseWithResync_OK policy _ _ "world closed" 0 s HO) as [HO' Hid].
    assert (alter (CloseWithResync "world closed" 0) id (lv_heap st) =
      <[id := CloseWithResync "world closed" 0 s]> (lv_heap st)) as ->.
    { apply map_eq. intros i. rewrite lookup_alter, lookup_insert. case_decide; [|done]. subst i. by rewrite Hs. }
    assert (liveOK (setSession id (CloseWithResync "world closed" 0 s) st)) as HOK1.
    { eapply touch_OK; [done|exact Hat|by intros ->; destruct Hj|done|done]. }
    change (liveOK (setHub n (withPc (HubClosing rest) h) (setSession id (CloseWithResync "world closed" 0 s) st))).
    eapply setHub_OK; [done|exact Hn|done|by split|by left|done| |done].
    intros id' Hin. apply Hsub. by right.
  - eapply setHub_OK; [done|exact Hn|done|by split| |constructor|by intros id ?%elem_of_nil|done].
    intros id Hin. cbn in Hin. set_solver.
Qed.

Lemma outsideStep_OK st st' :
  liveOK st → outsideStep auth assetsAt policy backend st st' → liveOK st'.
Proof.
  intros HOK Hstep.
  destruct Hstep as [st wi c method path r l disk out sv' Hs|st t store' Hw Ht|st id dcap ecap Hnone|st].
  - apply setTickets_OK. apply serve_store in Hs as [T Hw]; [|by apply lo_wf]. cbn in Hw.
    apply setStore_OK; [done|by eapply writes_wf, Hw; apply lo_wf|by eapply writes_grow, Hw; apply lo_wf].
  - apply setStore_OK; [done|eapply wrote_wf, Hw; by apply lo_wf|eapply wrote_grows, Hw; by apply lo_wf].
  - apply moveTo_OK; [done| |done|].
    + split_and!; [apply boxOK_new|intros D; apply boxOK_new|]. unfold wireOK. split_and!; [constructor|constructor|constructor|done].
    + intros n h Hn Hin. exfalso. destruct (lo_members _ HOK _ _ _ Hn Hin) as (s & ph & wire & [Hs _] & _). congruence.
  - by apply shutdown_OK.
Qed.

Lemma liveStep_OK a st st' : liveOK st → step a st st' → liveOK st'.
Proof.
  destruct a as [|id|n]; cbn [liveStep].
  - apply outsideStep_OK.
  - intros HOK [Hs|[Hs|Hs]]; [by eapply serveStep_OK|by eapply readLoopStep_OK|by eapply writeLoopStep_OK].
  - apply hubRunStep_OK.
Qed.

Lemma liveSteps_OK st st' : liveOK st → liveSteps (G := G) auth assetsAt policy backend st st' → liveOK st'.
Proof. intros HOK. induction 1 as [|st st1 st' [a Hs] _ IH]; [done|]. by eapply IH, liveStep_OK. Qed.
End Invariant.

(** ** Theorems *)

Section LiveTheorems.
Context `{Unicode} `{Argon2} `{ImageCodecs} {G : Type} `{DiceSource G} {S : Type} `{TxLaws S} `{!FrameLaws S}.
Variables (auth : AuthDeps) (assetsAt : AssetDeps) (policy : FieldPolicy) (backend : string).
Implicit Types st : live (S := S).

(** C1: no client is ever sent what it may not see.  Start from any well-formed
    store and let any number of sessions, their readers and writers, the hubs,
    HTTP requests, single writes and shutdowns take steps in any interleaving, with
    writes that fail and messages of any content.  Whatever has been written to a
    session's connection: each event frame stands for an event of the log of the
    session's own world, under its number, with its kind and scene, whose audience
    admits the session's user, and its payload is one that event has for the user
    ([due]).  From catch-up ([replayAs]), it is the payload of the log, or for an
    event about a document that document redacted under the user's grant and in
    their line of sight, every query of the projection answered by a store the
    server has had.  From a handler ([sentAs]), it is by the kind of the event: for a
    patch or a move the document redacted for the user as a member and in their
    sight, for what a door brings into view tokens of the scene redacted for them
    and in their sight, in one store; and for a message, a fight, a door or a scene
    exactly that message, fight, door state or scene, without anything else of the
    store.  The numbers strictly increase, so nothing is sent twice. *)
Theorem every_wire_is_due store tickets st id s ph wire :
  wf store → liveSteps (G := G) auth assetsAt policy backend (liveInit store tickets) st →
  clientAt st id s ph wire →
  Forall (due policy (lv_past st) (lv_store st) (sess_worldID s) (sess_userID s) (sess_role s)) wire ∧
  StronglySorted Z.lt (eventSeqs wire).
Proof.
  intros Hwf Hr Hat. assert (liveOK policy st) as HOK by (eapply liveSteps_OK, Hr; by apply liveOK_init).
  by destruct (client_session _ _ _ _ _ _ HOK Hat) as (_ & _ & Hd & Hs & _).
Qed.

(** C5: a hub knows exactly the living of its world.  In every reachable state, a
    session a hub fans out to is between its join and its leave, was given that
    very hub and belongs to the hub's world; so a session that has ended is in no
    hub, a hub that has returned holds no session, and the hub the registry gives
    out for a world is a hub of that world. *)
Theorem hubs_hold_the_living store tickets st n h :
  wf store → liveSteps (G := G) auth assetsAt policy backend (liveInit store tickets) st →
  lv_hubs st !! n = Some h →
  (∀ id, id ∈ hp_members h →
     ∃ s ph wire, clientAt st id s ph wire ∧ joined n ph ∧ sess_worldID s = hp_world h) ∧
  (∀ id s ph wire, clientAt st id s ph wire → hubOf ph = None → id ∉ hp_members h) ∧
  (hp_pc h = HubDone → hp_members h = ∅) ∧
  (∀ w, reg_hubs (lv_registry st) !! w = Some n → hp_world h = w).
Proof.
  intros Hwf Hr Hn. assert (liveOK policy st) as HOK by (eapply liveSteps_OK, Hr; by apply liveOK_init).
  split_and!.
  - intros id. by apply (lo_members _ _ HOK).
  - intros id s ph wire Hat Hph. by eapply dialing_free.
  - exact (proj2 (proj2 (lo_rest _ _ HOK _ _ Hn))).
  - intros w Hw. destruct (lo_registry _ _ HOK _ _ Hw) as (h' & Hh' & <-). rewrite Hn in Hh'. by injection Hh' as <-.
Qed.
End LiveTheorems.
