(* ===== verification/LiveRun.v ===== *)
(** * Running the gateway

    The steps of Live.v as a function: a [move] names who acts and what the
    outside gives them (a message, the clock, the random sources), and [act]
    computes the state after it, with writes that succeed and maps ranged over in
    the order of their keys.  A computed run is a run of the system.

    The second part is about the order of what reaches a client: a wire only
    grows, so a number that was overtaken on it never comes. *)

From S2P Require Import Prelude GoStrings Json Perm Storage Torn Redact Access Vision Sight Dice RateLimit Auth Password.
From S2P Require Import Frame Outbox Ticket Hub Session Intents Chat Combat Doors.
From S2P Require Import Blob AssetImage Http Worlds Footprint Scenes Assets Router Server Gateway Entitled Live LiveSafety.

Local Open Scope Z_scope.

Section Run.
Context `{Unicode} `{Argon2} `{ImageCodecs} {G : Type} `{DiceSource G} {S : Type} `{Tx S}.
Variables (auth : AuthDeps) (assetsAt : AssetDeps) (policy : FieldPolicy) (backend : string).
Local Abbreviation live := (live (S := S)).
Implicit Types st : live.

(** ** Moves *)

Inductive move :=
  | MAccept (id : string) (documentCap ephemeralCap : Z)
  | MHello (id : string) (received : res Frame) (now : Time)
  | MServe (id : string)
  | MRead (id : string) (received : option Frame) (now : Time) (i at_ : string) (source probe g : G)
  | MHandler (id : string)
  | MHangup (id : string)
  | MWriter (id : string)
  | MHub (n : nat)
  | MShutdown.

(** The session with this id, where it is and what it was sent. *)
Definition at_session {A} (id : string) st (f : Session → phase → list Frame → option A) : option A :=
  s ← lv_heap st !! id; c ← lv_clients st !! id; f s (cl_phase c) (cl_wire c).

(** The next step of [Serve], with a connection that takes what is written. *)
Definition serveNext (id : string) st : option live :=
  at_session id st (λ s ph wire,
    match ph with
    | Authenticated hello =>
        let '(n, st1) := hubFor (sess_worldID s) st in Some (moveTo id s (Joining n hello) wire st1)
    | Joining n hello =>
        h ← lv_hubs st !! n; h' ← Join id h;
        Some (moveTo id s (Greeting n hello) wire (setHub n h' st))
    | Greeting n hello =>
        match greet (lv_store st) hello s with
        | Ok (s', frame, from) => Some (moveTo id s' (Replaying n from) (wire ++ [frame]) st)
        | Err e => Some (moveTo id s (Failing n e) wire st)
        end
    | Replaying n from =>
        match EventsSince (lv_store st) (sess_worldID s) from catchUpLimit with
        | Ok events => Some (moveTo id s (Projecting n (length (lv_past st)) events []) wire st)
        | Err e => Some (moveTo id s (Failing n e) wire st)
        end
    | Projecting n _ (e :: events) frames =>
        q ← head (lv_past st);
        match replayStep policy (steady q) s frames e with
        | Ok frames' => Some (moveTo id s (Projecting n (length (lv_past st)) events frames') wire st)
        | Err e => Some (moveTo id s (Failing n e) wire st)
        end
    | Projecting n _ [] frames => Some (moveTo id s (Prepending n frames) wire st)
    | Prepending n frames =>
        match onOutbox (PrependDocument frames) s with
        | (Ok _, s') => Some (moveTo id s' (Serving n Reading (At Popping)) wire st)
        | (Err e, s') => Some (moveTo id s' (Failing n e) wire st)
        end
    | Failing n e => Some (moveTo id s (Leaving n) (wire ++ [handshakeError e]) st)
    | Serving n Stopped (At Done) => Some (moveTo id s (Leaving n) wire st)
    | Leaving n =>
        h ← lv_hubs st !! n; h' ← Leave id h;
        Some (moveTo id s Left wire (setHub n h' st))
    | Left => Some (moveTo id (with_outbox (Outbox.Close (sess_outbox s)) s) Gone wire st)
    | _ => None
    end).

(** The next step of a handler: publish, or answer. *)
Definition handlerNext (id : string) st : option live :=
  at_session id st (λ s ph wire,
    match ph with
    | Serving n (Answering (p :: ps) answer) wr =>
        h ← lv_hubs st !! n; h' ← Publish p h;
        Some (moveTo id s (Serving n (Answering ps answer) wr) wire (setHub n h' st))
    | Serving n (Answering [] answer) wr =>
        Some (moveTo id (readFinish answer s) (Serving n Reading wr) wire st)
    | _ => None
    end).

Definition writerNext (id : string) st : option live :=
  at_session id st (λ s ph wire,
    match ph with
    | Serving n rd (At Popping) =>
        match Pop (sess_outbox s) with
        | (Some f, o) => Some (moveTo id (with_outbox o s) (Serving n rd (Holding f)) wire st)
        | (None, _) => Some (moveTo id s (Serving n rd (At Checking)) wire st)
        end
    | Serving n rd (Holding f) =>
        match writeFilter f (sess_lastSeq s) with
        | (Some g, q) => Some (moveTo id (storeLastSeq q s) (Serving n rd (At Popping)) (wire ++ [g]) st)
        | (None, _) => Some (moveTo id s (Serving n rd (At Popping)) wire st)
        end
    | Serving n rd (At Checking) =>
        Some (moveTo id s (Serving n rd (At (if closed (sess_outbox s) then Done else Waiting))) wire st)
    | Serving n rd (At Waiting) =>
        if signal (sess_outbox s) then
          Some (moveTo id (with_outbox (clearSignal (sess_outbox s)) s) (Serving n rd (At Popping)) wire st)
        else None
    | _ => None
    end).

Definition hubNext (n : nat) st : option live :=
  h ← lv_hubs st !! n;
  match hp_pc h with
  | HubIdle =>
      match hp_queue h with
      | p :: queue =>
          Some (setHub n (withPc (HubFanning p (elements (hp_members h))) (withQueue queue h)) st)
      | [] => if hp_quit h then Some (setHub n (withPc (HubClosing (elements (hp_members h))) h) st) else None
      end
  | HubFanning p (id :: rest) =>
      let hs := fanOutStep p (MkHubState (hp_members h) (lv_heap st)) id in
      Some (setHeap (hub_heap hs) (setHub n (withPc (HubFanning p rest) (withMembers (hub_sessions hs) h)) st))
  | HubFanning p [] => Some (setHub n (withPc HubIdle h) st)
  | HubClosing (id :: rest) =>
      Some (setHeap (alter (CloseWithResync "world closed" 0) id (lv_heap st))
              (setHub n (withPc (HubClosing rest) h) st))
  | HubClosing [] => Some (setHub n (withPc HubDone (withMembers ∅ h)) st)
  | HubDone => None
  end.

Definition act (m : move) st : option live :=
  match m with
  | MAccept id documentCap ephemeralCap =>
      match lv_heap st !! id with
      | None => Some (moveTo id (NewSession id documentCap ephemeralCap) Dialing [] st)
      | Some _ => None
      end
  | MHello id received now =>
      at_session id st (λ s ph wire,
        match ph with
        | Dialing =>
            match authenticate (lv_store st) received now (s, lv_tickets st) with
            | (Ok hello, (s', tickets')) =>
                Some (setTickets tickets' (moveTo id s' (Authenticated hello) wire st))
            | (Err e, (s', tickets')) =>
                Some (setTickets tickets' (moveTo id s' Gone (wire ++ [handshakeError e]) st))
            end
        | _ => None
        end)
  | MServe id => serveNext id st
  | MRead id received now i at_ source probe g =>
      at_session id st (λ s ph wire,
        match ph with
        | Serving n Reading wr =>
            let '(s', store', rd) := readStart (fullRouter policy now i at_ source probe g) received s (lv_store st) in
            Some (setStore store' (moveTo id s' (Serving n rd wr) wire st))
        | _ => None
        end)
  | MHandler id => handlerNext id st
  | MHangup id =>
      at_session id st (λ s ph wire,
        match ph with
        | Serving n Reading wr =>
            Some (moveTo id (with_outbox (Outbox.Close (sess_outbox s)) s) (Serving n Stopped wr) wire st)
        | _ => None
        end)
  | MWriter id => writerNext id st
  | MHub n => hubNext n st
  | MShutdown => Some (shutdown st)
  end.

Fixpoint simulate (ms : list move) st : option live :=
  match ms with
  | [] => Some st
  | m :: ms => st1 ← act m st; simulate ms st1
  end.

Definition actorOf (m : move) : actor :=
  match m with
  | MAccept _ _ _ | MShutdown => Outside
  | MHello id _ _ | MServe id | MRead id _ _ _ _ _ _ _ | MHandler id | MHangup id | MWriter id => OfSession id
  | MHub n => OfHub n
  end.

(** ** A computed run is a run *)

Local Abbreviation step := (liveStep (G := G) auth assetsAt policy backend).

Lemma at_session_Some {A} id st (f : Session → phase → list Frame → option A) x :
  at_session id st f = Some x → ∃ s ph wire, clientAt st id s ph wire ∧ f s ph wire = Some x.
Proof.
  unfold at_session. intros (s & Hs & (c & Hc & Hf)%bind_Some)%bind_Some.
  exists s, (cl_phase c), (cl_wire c). split; [split; [done|by destruct c]|done].
Qed.

Lemma setHub_same n h st : lv_hubs st !! n = Some h → setHub n h st = st.
Proof. intros Hn. unfold setHub, setHubs. rewrite insert_id by done. by destruct st. Qed.

Lemma serveNext_sound id st st' : serveNext id st = Some st' → serveStep policy id st st'.
Proof.
  intros (s & ph & wire & Hat & Hn)%at_session_Some. destruct ph as [|hello|n hello|n hello|n from|n began [|e events] frames|n frames|n e|n rd wr|n| |]; try done.
  - destruct (hubFor _ _) as [n st1] eqn:Ef. injection Hn as <-. by eapply live_hub.
  - apply bind_Some in Hn as (h & Hh & (h' & Hj & [= <-])%bind_Some). unfold Join in Hj.
    destruct (hp_pc h) eqn:Hpc; try done; injection Hj as <-; [by eapply live_join|].
    rewrite setHub_same by done. by eapply live_join_done.
  - destruct (greet _ _ _) as [[[s' frame] from]|e] eqn:Eg; injection Hn as <-; [by eapply live_greet|by eapply live_greet_failed].
  - destruct (EventsSince _ _ _ _) as [events|e] eqn:Ev; injection Hn as <-; [by eapply live_events|by eapply live_events_failed].
  - injection Hn as <-. by eapply live_projected.
  - apply bind_Some in Hn as (q & Hq & Hn).
    assert (∃ older, lv_past st = q :: older) as [older Hpast].
    { destruct (lv_past st); [done|]. injection Hq as ->. by eexists. }
    pose proof (seenSince_now began _ _ _ Hpast) as Hv.
    destruct (replayStep _ _ _ _ _) as [frames'|e'] eqn:Er; injection Hn as <-;
      [by eapply live_project|by eapply live_project_failed].
  - destruct (onOutbox _ s) as [[u|e] s'] eqn:Ep; injection Hn as <-; [by eapply live_prepend|by eapply live_prepend_failed].
  - injection Hn as <-. exact (live_failed _ _ _ _ _ _ _ true Hat).
  - destruct rd, wr as [[]|]; try done. injection Hn as <-. by apply live_served.
  - apply bind_Some in Hn as (h & Hh & (h' & Hl & [= <-])%bind_Some). unfold Leave in Hl.
    destruct (hp_pc h) eqn:Hpc; try done; injection Hl as <-; [by eapply live_leave|].
    rewrite setHub_same by done. by eapply live_leave_done.
  - injection Hn as <-. by apply live_gone.
Qed.

Lemma handlerNext_sound id st st' : handlerNext id st = Some st' → readLoopStep (G := G) policy id st st'.
Proof.
  intros (s & ph & wire & Hat & Hn)%at_session_Some. destruct ph as [| | | | | | | |n rd wr| | |]; try done.
  destruct rd as [|[|p ps] answer|]; try done.
  - injection Hn as <-. by apply live_answer.
  - apply bind_Some in Hn as (h & Hh & (h' & Hp & [= <-])%bind_Some). unfold Publish in Hp.
    case_bool_decide; [injection Hp as <-; by eapply live_publish|].
    destruct (hp_pc h) eqn:Hpc; try done. injection Hp as <-. rewrite setHub_same by done. by eapply live_publish_done.
Qed.

Lemma writerNext_sound id st st' : writerNext id st = Some st' → writeLoopStep id st st'.
Proof.
  intros (s & ph & wire & Hat & Hn)%at_session_Some. destruct ph as [| | | | | | | |n rd wr| | |]; try done.
  destruct wr as [[]|f]; try done.
  - destruct (Pop _) as [[f|] o] eqn:Ep; injection Hn as <-; [by apply live_pop|by eapply live_empty].
  - injection Hn as <-. destruct (closed _) eqn:Ec; [by eapply live_closed|by eapply live_open].
  - destruct (signal _) eqn:Es; [|done]. injection Hn as <-. by apply live_woken.
  - destruct (writeFilter _ _) as [[g'|] q] eqn:Ew; injection Hn as <-;
      [exact (live_write _ _ _ _ _ _ _ _ _ true Hat Ew)|by eapply live_skip].
Qed.

Lemma hubNext_sound n st st' : hubNext n st = Some st' → hubRunStep n st st'.
Proof.
  intros (h & Hh & Hn)%bind_Some. destruct (hp_pc h) as [|p [|id rest]|[|id rest]|] eqn:Hpc.
  - destruct (hp_queue h) as [|p queue] eqn:Hq; [|injection Hn as <-; by eapply live_take].
    destruct (hp_quit h) eqn:Hquit; [|done]. injection Hn as <-. by eapply live_quit.
  - injection Hn as <-. by eapply live_fanned.
  - injection Hn as <-. by eapply live_fan.
  - injection Hn as <-. by eapply live_down.
  - injection Hn as <-. by eapply live_closing.
  - done.
Qed.

Lemma act_sound m st st' : act m st = Some st' → step (actorOf m) st st'.
Proof.
  destruct m as [id dcap ecap|id received now|id|id received now i at_ source probe g|id|id|id|n|];
    cbn [act actorOf liveStep].
  - destruct (lv_heap st !! id) eqn:Eh; [done|]. intros [= <-]. by apply live_accept.
  - intros (s & ph & wire & Hat & Hn)%at_session_Some. left. destruct ph; try done.
    destruct (authenticate _ _ _ _) as [[hello|e] [s' tickets']] eqn:Ea; injection Hn as <-; [by eapply live_hello|].
    exact (live_refused _ _ _ _ _ _ _ _ _ _ true Hat Ea).
  - intros Hn. left. by apply serveNext_sound.
  - intros (s & ph & wire & Hat & Hn)%at_session_Some. right; left. destruct ph as [| | | | | | | |n rd wr| | |]; try done.
    destruct rd; try done. destruct (readStart _ _ _ _) as [[s' store'] rd'] eqn:Er. injection Hn as <-. by eapply live_read.
  - intros Hn. right; left. by apply handlerNext_sound.
  - intros (s & ph & wire & Hat & Hn)%at_session_Some. right; left. destruct ph as [| | | | | | | |n rd wr| | |]; try done.
    destruct rd; try done. injection Hn as <-. by apply live_hangup.
  - intros Hn. right; right. by apply writerNext_sound.
  - apply hubNext_sound.
  - intros [= <-]. apply live_shutdown.
Qed.

Lemma simulate_sound ms st st' :
  simulate ms st = Some st' → liveSteps (G := G) auth assetsAt policy backend st st'.
Proof.
  revert st. induction ms as [|m ms IH]; intros st; [by intros [= <-]|].
  cbn [simulate]. intros (st1 & Hm & Hms)%bind_Some. eapply rtc_l; [|by apply IH].
  exists (actorOf m). by apply act_sound.
Qed.
End Run.

(** ** A wire only grows *)

Section Order.
Context `{Unicode} `{Argon2} `{ImageCodecs} {G : Type} `{DiceSource G} {S : Type} `{TxLaws S} `{!FrameLaws S}.
Variables (auth : AuthDeps) (assetsAt : AssetDeps) (policy : FieldPolicy) (backend : string).
Implicit Types st : live (S := S).

(** The sessions that were there are, with what they were sent and more. *)
Definition keepsWires st st' : Prop :=
  ∀ id s ph wire, clientAt st id s ph wire → ∃ s' ph' more, clientAt st' id s' ph' (wire ++ more).

#[local] Instance keepsWires_preorder : PreOrder keepsWires.
Proof.
  split.
  - intros st id s ph wire Hat. exists s, ph, []. by rewrite app_nil_r.
  - intros st1 st2 st3 Hab Hbc id s ph wire Hat. destruct (Hab _ _ _ _ Hat) as (s2 & ph2 & m2 & Hat2).
    destruct (Hbc _ _ _ _ Hat2) as (s3 & ph3 & m3 & Hat3). exists s3, ph3, (m2 ++ m3). by rewrite (assoc_L (++)).
Qed.

Lemma moveTo_keepsWires st id s ph wire s' ph' more :
  clientAt st id s ph wire → keepsWires st (moveTo id s' ph' (wire ++ more) st).
Proof.
  intros [_ Hc] i si phi wirei Hat. destruct (decide (i = id)) as [->|Hne].
  - destruct Hat as [_ Hc']. rewrite Hc in Hc'. injection Hc' as <- <-.
    exists s', ph', more. apply clientAt_moved. by left.
  - exists si, phi, []. rewrite app_nil_r. apply clientAt_moved. by right.
Qed.

Lemma moveTo_same_wire st id s ph wire s' ph' :
  clientAt st id s ph wire → keepsWires st (moveTo id s' ph' wire st).
Proof. intros Hat. rewrite <-(app_nil_r wire). by eapply moveTo_keepsWires. Qed.

Lemma moveTo_written st id s ph wire s' ph' sent f :
  clientAt st id s ph wire → keepsWires st (moveTo id s' ph' (written sent f wire) st).
Proof. intros Hat. destruct sent; [by eapply moveTo_keepsWires|by eapply moveTo_same_wire]. Qed.

(** What changes neither sessions nor connections. *)
Lemma sameClients_keepsWires st st' :
  lv_heap st' = lv_heap st → lv_clients st' = lv_clients st → keepsWires st st'.
Proof.
  intros Hh Hc id s ph wire [Hs Hcl]. exists s, ph, []. rewrite app_nil_r. by split; [rewrite Hh|rewrite Hc].
Qed.

(** A hub changes the sessions that are there, and no connection. *)
Lemma heap_keepsWires st st' :
  dom (lv_heap st) ⊆ dom (lv_heap st') → lv_clients st' = lv_clients st → keepsWires st st'.
Proof.
  intros Hh Hc id s ph wire [Hs Hcl].
  assert (is_Some (lv_heap st' !! id)) as [s' Hs'] by (apply elem_of_dom, Hh, elem_of_dom; by exists s).
  exists s', ph, []. rewrite app_nil_r. by split; [|rewrite Hc].
Qed.

Lemma serveStep_keepsWires id st st' : serveStep policy id st st' → keepsWires st st'.
Proof.
  destruct 1 as [| |st id s wire hello n st1 Hat Hf| | | | | | | | | | | | | | | | | ];
    try (etrans; [eapply moveTo_same_wire; eassumption|by apply sameClients_keepsWires]);
    try (etrans; [eapply moveTo_written; eassumption|by apply sameClients_keepsWires]);
    try by eapply moveTo_keepsWires.
  apply hubFor_sameClients in Hf as [Hh Hc]. etrans; [by apply (sameClients_keepsWires _ st1)|].
  eapply moveTo_same_wire with (s := s) (ph := Authenticated hello). destruct Hat. by split; [rewrite Hh|rewrite Hc].
Qed.

Lemma readLoopStep_keepsWires id st st' : readLoopStep (G := G) policy id st st' → keepsWires st st'.
Proof.
  destruct 1; (etrans; [eapply moveTo_same_wire; eassumption|by apply sameClients_keepsWires]).
Qed.

Lemma writeLoopStep_keepsWires id st st' : writeLoopStep id st st' → keepsWires st st'.
Proof. destruct 1; first [by eapply moveTo_same_wire|by eapply moveTo_written]. Qed.

Lemma hubRunStep_keepsWires n st st' : hubRunStep n st st' → keepsWires st st'.
Proof.
  destruct 1; subst; try (by apply sameClients_keepsWires); apply heap_keepsWires; cbn; try done.
  - apply fanOutStep_dom.
  - by rewrite dom_alter.
Qed.

Lemma outsideStep_keepsWires st st' : outsideStep auth assetsAt policy backend st st' → keepsWires st st'.
Proof.
  destruct 1 as [| |st id dcap ecap Hnone|]; [by apply sameClients_keepsWires..| |by apply sameClients_keepsWires].
  intros i s ph wire Hat. exists s, ph, []. rewrite app_nil_r. apply clientAt_moved. right.
  split; [|done]. intros ->. destruct Hat as [Hs _]. congruence.
Qed.

Lemma liveSteps_keepsWires st st' :
  liveSteps (G := G) auth assetsAt policy backend st st' → keepsWires st st'.
Proof.
  induction 1 as [|st st1 st' [a Hs] _ IH]; [done|]. etrans; [|exact IH]. destruct a as [|id|n]; cbn in Hs.
  - by apply outsideStep_keepsWires.
  - destruct Hs as [Hs|[Hs|Hs]];
      [by eapply serveStep_keepsWires|by eapply readLoopStep_keepsWires|by eapply writeLoopStep_keepsWires].
  - by eapply hubRunStep_keepsWires.
Qed.

(** In a strictly increasing list, what is missing below a member comes nowhere. *)
Lemma sorted_no_return (l more : list Z) k q :
  StronglySorted Z.lt (l ++ more) → q ∈ l → k < q → k ∉ l → k ∉ l ++ more.
Proof.
  intros Hs Hq Hlt Hk [?|Hm]%elem_of_app; [done|].
  pose proof (StronglySorted_app_1_elem_of Z.lt l more q k Hs Hq Hm). lia.
Qed.

(** C7: what is overtaken on a wire is lost to it.  The event of a commit whose
    publication comes after that of a later commit (nothing orders the two in the
    hub) finds a greater number on the wire of a session and is dropped there:
    once a session has been sent an event with a greater number, then however the
    gateway goes on, its connection is never sent an event it lacks under a
    smaller one; and a client that reconnects asks for what follows the greatest
    number it saw. *)
Theorem overtaken_event_is_lost store tickets st st' id s ph wire s' ph' wire' k q :
  wf store → liveSteps (G := G) auth assetsAt policy backend (liveInit store tickets) st →
  clientAt st id s ph wire → q ∈ eventSeqs wire → k < q → k ∉ eventSeqs wire →
  liveSteps (G := G) auth assetsAt policy backend st st' → clientAt st' id s' ph' wire' →
  k ∉ eventSeqs wire'.
Proof.
  intros Hwf Hr Hat Hq Hlt Hk Hr' Hat'. destruct (liveSteps_keepsWires _ _ Hr' _ _ _ _ Hat) as (s2 & ph2 & more & Hat2).
  assert (wire' = wire ++ more) as -> by (destruct Hat' as [_ Hc'], Hat2 as [_ Hc2]; congruence).
  assert (liveOK policy st') as HOK.
  { eapply liveSteps_OK with (st := liveInit store tickets); [by apply liveOK_init|by etrans]. }
  destruct (client_session _ _ _ _ _ _ HOK Hat2) as (_ & _ & _ & Hsorted & _).
  rewrite eventSeqs_app in *. by eapply sorted_no_return.
Qed.
End Order.
