(* ===== verification/Steps.v ===== *)
(** * What a step of the gateway does to one hub and to one session

    Live.v lists what the goroutines do; here every step is read from the point of
    view of one hub ([hubMove]), of one session ([session_moves]) and of the log,
    as long as no hub has been asked to quit.  The theorems about deliveries
    (Delivery.v, Arrival.v) are by cases on these few moves. *)

From S2P Require Import Prelude GoStrings Json Perm Storage Redact Access Vision Sight Dice RateLimit Auth Password.
From S2P Require Import Frame Outbox Ticket Hub Session Intents Chat Combat Doors.
From S2P Require Import Blob AssetImage Http Worlds Footprint Scenes Assets Router Server Gateway Entitled Announce.
From S2P Require Import Live LiveSafety.

Local Open Scope Z_scope.

(** ** Outboxes that only grow *)

(** The document lane keeps its frames, and a closed outbox stays closed. *)
Definition grows (o o' : outbox) : Prop :=
  (∀ f, f ∈ document o → f ∈ document o') ∧ (closed o = true → closed o' = true).

#[export] Instance grows_preorder : PreOrder grows.
Proof. split; [by split|]. intros x y z [H1 H2] [H3 H4]. split; eauto. Qed.

Lemma grows_refl o : grows o o.
Proof. reflexivity. Qed.

#[export] Hint Resolve grows_refl : core.

Lemma grows_control f o : grows o (PushControl f o).2.
Proof. unfold PushControl. destruct (closed o) eqn:E; [done|]. split; [done|congruence]. Qed.

Lemma grows_document f o : grows o (PushDocument f o).2.
Proof.
  unfold PushDocument. destruct (closed o) eqn:E; [done|].
  destruct (_ <=? _); (split; cbn; [|congruence]); [done|]. intros g Hg. apply elem_of_app. by left.
Qed.

Lemma grows_ephemeral k f o : grows o (PushEphemeral k f o).2.
Proof.
  unfold PushEphemeral. destruct (closed o) eqn:E; [done|]. destruct (_ !! k); [split; cbn; [done|congruence]|].
  unfold evictOldest. destruct (_ <=? _); [|split; cbn; [done|congruence]].
  destruct (order o); (split; cbn; [done|congruence]).
Qed.

Lemma grows_prepend fs o : grows o (PrependDocument fs o).2.
Proof.
  unfold PrependDocument. destruct (isNil fs); [done|]. destruct (closed o) eqn:E; [done|].
  split; cbn; [|congruence]. intros g Hg. apply elem_of_app. by right.
Qed.

Lemma grows_close o : grows o (Outbox.Close o).
Proof. unfold Outbox.Close. destruct (closed o); [done|]. by split. Qed.

Lemma closed_Close o : closed (Outbox.Close o) = true.
Proof. unfold Outbox.Close. by destruct (closed o) eqn:E. Qed.

(** Popping takes one frame out of one lane. *)
Lemma Pop_document o g o' f :
  Pop o = (g, o') → f ∈ document o → (f ∈ document o' ∨ g = Some f) ∧ closed o' = closed o.
Proof.
  unfold Pop. destruct (control o) as [|c cs].
  - destruct (document o) as [|d ds]; [by intros _ ?%elem_of_nil|].
    intros [= <- <-] [->|Hf]%elem_of_cons; cbn; auto.
  - intros [= <- <-] Hf. cbn. auto.
Qed.

Lemma Pop_closed o g o' : Pop o = (g, o') → closed o' = closed o.
Proof.
  unfold Pop. destruct (control o) as [|c cs]; [|by intros [= _ <-]].
  destruct (document o) as [|d ds]; [|by intros [= _ <-]].
  by destruct (order o) as [|k ks]; intros [= _ <-].
Qed.

(** ** The reader a session stands for *)

(** What decides which publications reach a session, and that what was in its
    outbox still is. *)
Definition sameReader (s s' : Session) : Prop :=
  sess_userID s' = sess_userID s ∧ sess_worldID s' = sess_worldID s ∧
  sess_subscriptions s' = sess_subscriptions s.

#[export] Instance sameReader_preorder : PreOrder sameReader.
Proof. split; [intros x; by split_and!|]. intros x y z (? & ? & ?) (? & ? & ?). split_and!; congruence. Qed.

Definition sessionGrows (s s' : Session) : Prop :=
  sameReader s s' ∧ sess_lastSeq s' = sess_lastSeq s ∧ grows (sess_outbox s) (sess_outbox s').

#[export] Instance sessionGrows_preorder : PreOrder sessionGrows.
Proof.
  split; [intros x; by split_and!|]. intros x y z (H1 & H2 & H3) (H4 & H5 & H6).
  split_and!; [by etrans|congruence|by etrans].
Qed.

Lemma sameReader_refl s : sameReader s s.
Proof. reflexivity. Qed.

Lemma sessionGrows_refl s : sessionGrows s s.
Proof. reflexivity. Qed.

#[export] Hint Resolve sameReader_refl sessionGrows_refl : core.

Lemma frameFor_reader p id s s' : sameReader s s' → frameFor p id s' = frameFor p id s.
Proof. intros (Hu & _ & Hs). unfold frameFor, Subscribed. by rewrite Hu, Hs. Qed.

Lemma sessionGrows_box o s : grows (sess_outbox s) o → sessionGrows s (with_outbox o s).
Proof. intros Hg. by split_and!. Qed.

Lemma onOutbox_grows {A} (m : M outbox A) s :
  grows (sess_outbox s) (m (sess_outbox s)).2 → sessionGrows s (onOutbox m s).2.
Proof. unfold onOutbox. destruct (m (sess_outbox s)) as [r o]. apply sessionGrows_box. Qed.

Lemma pushControl_grows f s : sessionGrows s (pushControl f s).
Proof. apply onOutbox_grows, grows_control. Qed.

Lemma pushDocument_grows f s : sessionGrows s (pushDocument f s).
Proof. apply onOutbox_grows, grows_document. Qed.

Lemma readFinish_grows a s : sessionGrows s (readFinish a s).
Proof. destruct a as [[n r]|]; [apply pushDocument_grows|done]. Qed.

Lemma CloseWithResync_grows reason n s : sessionGrows s (CloseWithResync reason n s).
Proof.
  unfold CloseWithResync. etrans; [apply (onOutbox_grows (PushControl (resyncFrame reason n))), grows_control|].
  apply sessionGrows_box, grows_close.
Qed.

Lemma CloseWithResync_closed reason n s : closed (sess_outbox (CloseWithResync reason n s)) = true.
Proof. apply closed_Close. Qed.

Lemma handleEphemeral_grows f s : sessionGrows s (handleEphemeral f s).1.
Proof.
  unfold handleEphemeral. destruct (frame_Ephemeral f); [|apply pushControl_grows].
  case_bool_decide; [apply pushControl_grows|done].
Qed.

Lemma readStart_grows {S} `{Tx S} router received s (store : S) s' store' rd :
  readStart router received s store = (s', store', rd) → sessionGrows s s'.
Proof.
  unfold readStart.
  assert (∀ x : S, ∀ f r, (pushControl f s, x, r) = (s', store', rd) → sessionGrows s s') as Hpush.
  { intros x f r [= <- _ _]. apply pushControl_grows. }
  destruct received as [f|]; [|by apply Hpush]. case_bool_decide; [by apply Hpush|]. case_bool_decide.
  - destruct (frame_Intent f) as [i|]; [|by apply Hpush].
    destruct (router !! intent_Kind i); [by intros [= <- _ _]|]. intros [= <- _ _]. apply pushDocument_grows.
  - case_bool_decide; [|by apply Hpush]. pose proof (handleEphemeral_grows f s) as Hg.
    destruct (handleEphemeral f s). by intros [= <- _ _].
Qed.

(** One session of a fan-out: if it is still open, it stays in the hub, keeps
    what waits, and has been given its frame. *)
Lemma fanned_grows p id s :
  sessionGrows s (fanned p id s).1 ∧
  (closed (sess_outbox (fanned p id s).1) = false →
   (fanned p id s).2 = true ∧
   ∀ f, frameFor p id s = Some f → pub_Lane p = LaneDocument → f ∈ document (sess_outbox (fanned p id s).1)).
Proof.
  unfold fanned. destruct (frameFor p id s) as [f|]; [|by split; [done|intros _; split]].
  assert (sessionGrows s (deliver p f s).2) as Hd.
  { unfold deliver. destruct (pub_Lane p); apply onOutbox_grows;
      auto using grows_control, grows_document, grows_ephemeral. }
  destruct (deliver p f s) as [[u|e] s1] eqn:Ed; cbn [fst snd] in *.
  - split; [done|]. intros _. split; [done|]. intros g [= <-] Hlane. unfold deliver in Ed. rewrite Hlane in Ed.
    unfold onOutbox, PushDocument in Ed. destruct (closed _); [done|]. destruct (_ <=? _); [done|].
    injection Ed as _ <-. cbn. apply elem_of_app. right. by apply list_elem_of_singleton.
  - split; [etrans; [done|apply CloseWithResync_grows]|]. by rewrite CloseWithResync_closed.
Qed.

(** A message either leaves the store alone, or is an intent whose handler still
    has to publish all it committed. *)
Lemma readStart_announces {S} `{TxLaws S} `{!FrameLaws S} policy router received s (store : S) s' store' rd :
  map_Forall (λ _, publishesAll policy) router → wf store →
  readStart router received s store = (s', store', rd) →
  store' = store ∨
  s' = s ∧ ∃ ps a, rd = Answering ps a ∧ announcedBy policy (sess_worldID s) store store' ps.
Proof.
  intros Hr Hwf. unfold readStart. destruct received as [f|]; [|intros [= _ <- _]; by left].
  case_bool_decide; [intros [= _ <- _]; by left|]. case_bool_decide.
  - destruct (frame_Intent f) as [i|]; [|intros [= _ <- _]; by left].
    destruct (router !! intent_Kind i) as [h|] eqn:Eh; [|intros [= _ <- _]; by left].
    intros [= <- <- <-]. right. split; [done|]. eexists _, _. split; [done|]. by apply (Hr _ _ Eh).
  - case_bool_decide; [|intros [= _ <- _]; by left].
    destruct (handleEphemeral f s). intros [= _ <- _]. by left.
Qed.

(** ** Moves *)

Section Places.
Context {S : Type}.
Implicit Types st : live (S := S).

Lemma clientAt_inj st id s ph wire s' ph' wire' :
  clientAt st id s ph wire → clientAt st id s' ph' wire' → s' = s ∧ ph' = ph ∧ wire' = wire.
Proof. intros [E1 E2] [E3 E4]. split_and!; congruence. Qed.

Lemma moved_inj st id s ph wire s' ph' wire' :
  clientAt (moveTo id s ph wire st) id s' ph' wire' → s' = s ∧ ph' = ph ∧ wire' = wire.
Proof. intros [?|[? _]]%clientAt_moved; [tauto|done]. Qed.
End Places.

(** The one place a session is at, before and after its step. *)
Ltac same_client :=
  repeat match goal with
  | Hc : clientAt (setTickets _ _) _ _ _ _ |- _ => apply moved_inj in Hc as (? & ? & ?)
  | Hc : clientAt (setStore _ _) _ _ _ _ |- _ => apply moved_inj in Hc as (? & ? & ?)
  | Hc : clientAt (moveTo ?id _ _ _ _) ?id _ _ _ |- _ => apply moved_inj in Hc as (? & ? & ?)
  | Hc : clientAt ?st ?id _ _ _, Hc' : clientAt ?st ?id _ _ _ |- _ =>
      destruct (clientAt_inj _ _ _ _ _ _ _ _ Hc Hc') as (? & ? & ?); clear Hc'
  end; subst; simplify_eq.

Section Moves.
Context `{Unicode} `{Argon2} `{ImageCodecs} {G : Type} `{DiceSource G} {S : Type} `{TxLaws S} `{!FrameLaws S}.
Variables (auth : AuthDeps) (assetsAt : AssetDeps) (policy : FieldPolicy) (backend : string).
Local Abbreviation live := (live (S := S)).
Local Abbreviation step := (liveStep (G := G) auth assetsAt policy backend).
Implicit Types st : live.

(** No hub has been asked to quit: the gateway is not being shut down. *)
Definition running st : Prop := ∀ n h, lv_hubs st !! n = Some h → hp_quit h = false.

(** Then every hub takes publications. *)
Definition hubsRun st : Prop := ∀ n h, lv_hubs st !! n = Some h →
  hp_quit h = false ∧ (hp_pc h = HubIdle ∨ ∃ p rest, hp_pc h = HubFanning p rest).

Lemma hubsRun_running st : hubsRun st → running st.
Proof. intros Hr n h Hn. by destruct (Hr n h Hn). Qed.

(** What becomes of one hub. *)
Inductive hubMove st : actor → nat → hubProc → hubProc → Prop :=
  | hub_rests a n h : a ≠ OfHub n → hubMove st a n h h
  | hub_joined id n h s hello wire :
      clientAt st id s (Joining n hello) wire →
      hubMove st (OfSession id) n h (withMembers (hp_members h ∪ {[id]}) h)
  | hub_left id n h s wire :
      clientAt st id s (Leaving n) wire →
      hubMove st (OfSession id) n h (withMembers (hp_members h ∖ {[id]}) h)
  | hub_pushed id n h s p ps a wr wire :
      clientAt st id s (Serving n (Answering (p :: ps) a) wr) wire →
      hubMove st (OfSession id) n h (withQueue (hp_queue h ++ [p]) h)
  | hub_took n h p queue rest :
      hp_pc h = HubIdle → hp_queue h = p :: queue → rest ≡ₚ elements (hp_members h) →
      hubMove st (OfHub n) n h (withPc (HubFanning p rest) (withQueue queue h))
  | hub_visited n h p id rest s :
      hp_pc h = HubFanning p (id :: rest) → lv_heap st !! id = Some s →
      hubMove st (OfHub n) n h
        (withPc (HubFanning p rest)
           (withMembers (if (fanned p id s).2 then hp_members h else hp_members h ∖ {[id]}) h))
  | hub_finished n h p :
      hp_pc h = HubFanning p [] → hubMove st (OfHub n) n h (withPc HubIdle h).

Lemma hubMove_same st a n h h' : hubMove st a n h h' → hp_world h' = hp_world h ∧ hp_quit h' = hp_quit h.
Proof. by destruct 1. Qed.

Lemma fanOutStep_sessions p m (heap : gmap string Session) id s :
  heap !! id = Some s →
  hub_sessions (fanOutStep p (MkHubState m heap) id) = if (fanned p id s).2 then m else m ∖ {[id]}.
Proof.
  intros Hs. unfold fanOutStep, fanned. cbn. rewrite Hs. destruct (frameFor p id s) as [f|]; [|done].
  by destruct (deliver p f s) as [[u|e] s1].
Qed.

(** The hubs of a state in which one is replaced. *)
Lemma setHub_moves st a m h1 h1' n h :
  lv_hubs st !! m = Some h1 → hubMove st a m h1 h1' → (n ≠ m → a ≠ OfHub n) → lv_hubs st !! n = Some h →
  ∃ h', <[m := h1']> (lv_hubs st) !! n = Some h' ∧ hubMove st a n h h'.
Proof.
  intros Hm Hmove Hne Hn. rewrite lookup_insert. case_decide as Heq.
  - subst m. rewrite Hm in Hn. injection Hn as ->. by eexists.
  - exists h. split; [done|]. constructor. apply Hne. congruence.
Qed.

Lemma hubFor_hubs w st m st1 n h :
  hubFor w st = (m, st1) → lv_hubs st !! n = Some h → lv_hubs st1 !! n = Some h.
Proof.
  unfold hubFor. destruct (HubOf _ _) as [m' r]. intros [= <- <-] Hn.
  destruct (lv_hubs st !! m') eqn:Em; cbn; [done|]. rewrite lookup_insert_ne; congruence.
Qed.

Lemma hub_moves a st st' n h :
  liveOK policy st → hubsRun st → running st' → step a st st' → lv_hubs st !! n = Some h →
  ∃ h', lv_hubs st' !! n = Some h' ∧ hubMove st a n h h'.
Proof.
  intros HOK Hrun Hrun' Hstep Hn.
  assert (a ≠ OfHub n → ∃ h', lv_hubs st !! n = Some h' ∧ hubMove st a n h h') as Hrest.
  { intros Ha. exists h. split; [done|]. by constructor. }
  assert (∀ m h1, lv_hubs st !! m = Some h1 → hp_pc h1 ≠ HubDone) as Hndone.
  { intros m h1 Hm. destruct (Hrun _ _ Hm) as [_ [-> |(p & rest & ->)]]; done. }
  destruct a as [|id|k]; cbn [liveStep] in Hstep.
  - destruct Hstep as [| | |st]; [by apply Hrest..|].
    assert (∃ h', lv_hubs (shutdown st) !! n = Some h' ∧ (h' = h ∨ h' = askedToQuit h)) as (h' & Hh' & [->| ->]).
    { cbn. rewrite map_lookup_imap, Hn. cbn. eexists. split; [done|]. case_bool_decide; auto. }
    + exists h. split; [done|]. by constructor.
    + by specialize (Hrun' _ _ Hh').
  - destruct Hstep as [Hs|[Hs|Hs]]; destruct Hs; try (by apply Hrest);
      try (exfalso; by eapply Hndone).
    + exists h. split; [|by constructor]. change (lv_hubs st1 !! n = Some h). by eapply hubFor_hubs.
    + eapply setHub_moves; [done|by econstructor|done|done].
    + eapply setHub_moves; [done|by econstructor|done|done].
    + eapply setHub_moves; [done|by econstructor|done|done].
  - destruct Hstep as [st m h1 p queue rest Hm Hpc Hq Hperm|st m h1 p id rest hs Hm Hpc <-|st m h1 p Hm Hpc|
      st m h1 rest Hm Hpc Hquit Hperm|st m h1 id rest Hm Hpc|st m h1 Hm Hpc].
    + eapply setHub_moves; [done|by econstructor| |done]. congruence.
    + destruct (lo_rest _ _ HOK _ _ Hm) as (_ & Hsub & _). rewrite Hpc in Hsub.
      destruct (lo_members _ _ HOK _ _ id Hm) as (s & ph & wire & [Hs _] & _); [apply Hsub; left|].
      cbn. rewrite (fanOutStep_sessions _ _ _ _ s) by done.
      eapply setHub_moves; [done|by econstructor| |done]. congruence.
    + eapply setHub_moves; [done|by econstructor| |done]. congruence.
    + destruct (Hrun _ _ Hm) as [Hq _]. congruence.
    + destruct (Hrun _ _ Hm) as [_ [Hpc'|(p & rest' & Hpc')]]; congruence.
    + destruct (Hrun _ _ Hm) as [_ [Hpc'|(p & rest' & Hpc')]]; congruence.
Qed.

(** A session's own step finds it somewhere, and leaves the others alone. *)
Lemma own_step_at id st st' : step (OfSession id) st st' → ∃ s ph wire, clientAt st id s ph wire.
Proof. intros [Hs|[Hs|Hs]]; destruct Hs; eauto. Qed.

Lemma own_step_others j st st' id s ph wire :
  step (OfSession j) st st' → j ≠ id → clientAt st' id s ph wire ↔ clientAt st id s ph wire.
Proof.
  intros Hstep Hne.
  assert (∀ st1 st2, lv_heap st1 = lv_heap st2 → lv_clients st1 = lv_clients st2 →
    ∀ s0 ph0 wire0, clientAt (moveTo j s0 ph0 wire0 st1) id s ph wire ↔ clientAt st2 id s ph wire) as Hmoved.
  { intros st1 st2 Hh Hc s0 ph0 wire0. rewrite clientAt_moved. unfold clientAt. rewrite Hh, Hc. naive_solver. }
  destruct Hstep as [Hs|[Hs|Hs]]; [destruct Hs as [| |? ? ? ? ? ? ? Hat Hf| | | | | | | | | | | | | | | | |]|destruct Hs..];
    try (by apply Hmoved). apply hubFor_sameClients in Hf as [Hh Hc]. by apply Hmoved.
Qed.

(** What becomes of one session. *)
Lemma session_moves a st st' id s' ph' wire' :
  liveOK policy st → hubsRun st → running st' → step a st st' → clientAt st' id s' ph' wire' →
  (ph' = Dialing ∧ lv_heap st !! id = None ∧ ∃ d e, s' = NewSession id d e) ∨
  ∃ s ph wire, clientAt st id s ph wire ∧
    (a = OfSession id ∨
     ph' = ph ∧ wire' = wire ∧
     (s' = s ∨ ∃ n h p rest, a = OfHub n ∧ lv_hubs st !! n = Some h ∧
               hp_pc h = HubFanning p (id :: rest) ∧ s' = (fanned p id s).1)).
Proof.
  intros HOK Hrun Hrun' Hstep Hat'.
  assert (∀ st1, lv_heap st1 = lv_heap st → lv_clients st1 = lv_clients st → clientAt st1 id s' ph' wire' →
    clientAt st id s' ph' wire') as Hsame by (intros st1 Hh Hc [E1 E2]; split; congruence).
  assert (clientAt st id s' ph' wire' → ∃ s ph wire, clientAt st id s ph wire ∧
    (a = OfSession id ∨ ph' = ph ∧ wire' = wire ∧
     (s' = s ∨ ∃ n h p rest, a = OfHub n ∧ lv_hubs st !! n = Some h ∧
               hp_pc h = HubFanning p (id :: rest) ∧ s' = (fanned p id s).1))) as Hstill.
  { intros Hat. exists s', ph', wire'. split; [done|]. right. split_and!; [done..|by left]. }
  destruct a as [|j|k]; cbn [liveStep] in Hstep.
  - destruct Hstep as [| |st j dcap ecap Hnone|]; [right; by apply Hstill..| |right; by apply Hstill].
    apply clientAt_moved in Hat' as [(-> & -> & -> & _)|[_ Hat]]; [|right; by apply Hstill].
    left. split_and!; [done|done|]. by eexists _, _.
  - right. destruct (decide (j = id)) as [->|Hne].
    + destruct (own_step_at _ _ _ Hstep) as (s & ph & wire & Hat). exists s, ph, wire. split; [done|by left].
    + apply Hstill. by apply (own_step_others _ _ _ _ _ _ _ Hstep Hne).
  - right. destruct Hstep as [|st m h1 p j rest hs Hm Hpc <-| | |st m h1 j rest Hm Hpc|]; try (by apply Hstill).
    + destruct (lo_rest _ _ HOK _ _ Hm) as (_ & Hsub & _). rewrite Hpc in Hsub.
      destruct (lo_members _ _ HOK _ _ j Hm) as (s & ph & wire & [Hs Hc] & _); [apply Hsub; left|].
      destruct (fanOutStep_heap p (hp_members h1) (lv_heap st) j s Hs) as [Hheap _].
      destruct Hat' as [Hs' Hc']. cbn in Hs', Hc'. rewrite Hheap in Hs'.
      destruct (decide (j = id)) as [->|Hne].
      * rewrite lookup_insert_eq in Hs'. injection Hs' as <-. rewrite Hc in Hc'. injection Hc' as <- <-.
        exists s, ph, wire. split; [by split|]. right. split_and!; [done..|]. right. by exists m, h1, p, rest.
      * rewrite lookup_insert_ne in Hs' by done. by apply Hstill.
    + exfalso. destruct (Hrun _ _ Hm) as [_ [Hpc'|(p & rest' & Hpc')]]; congruence.
Qed.

(** ** A session's own steps *)

(** Where a fan-out reaches a session: from its join to the end of its writer. *)
Definition attending (n : nat) (ph : phase) : Prop :=
  match ph with
  | Greeting m _ | Replaying m _ | Projecting m _ _ _ | Prepending m _ => m = n
  | Serving m _ wr => m = n ∧ wr ≠ At Done
  | _ => False
  end.

Lemma attending_joined n ph : attending n ph → joined n ph.
Proof. destruct ph; cbn; try done; [by intros ->..|]. by intros [-> _]. Qed.

(** A frame that waits in the document lane, or that the writer holds. *)
Definition inBox (s : Session) (ph : phase) (f : Frame) : Prop :=
  f ∈ document (sess_outbox s) ∨ ∃ n rd, ph = Serving n rd (Holding f).

Lemma inBox_grows s s' ph f : sessionGrows s s' → inBox s ph f → inBox s' ph f.
Proof. intros (_ & _ & Hg & _) [Hf|Hf]; [left; by apply Hg|by right]. Qed.

(** What a session's own step leaves of what is on its way to it. *)
Record ownMove (n : nat) (s : Session) (ph : phase) (wire : list Frame) (s' : Session) (ph' : phase)
    (wire' : list Frame) : Prop := {
  om_attending : attending n ph;
  om_reader : sameReader s s';
  om_closed : closed (sess_outbox s) = true → closed (sess_outbox s') = true;
  om_wire : ∃ more, wire' = wire ++ more;
  om_seq : sess_lastSeq s ≤ sess_lastSeq s' ∨ ∃ hello, ph = Greeting n hello;
  om_box : ∀ f q, eventSeq f = Some q → inBox s ph f → inBox s' ph' f ∨ q ≤ sess_lastSeq s'
}.

Lemma ownMove_quiet n s ph wire s' ph' :
  attending n ph → sessionGrows s s' →
  (∀ m rd f, ph = Serving m rd (Holding f) → ∃ m' rd', ph' = Serving m' rd' (Holding f)) →
  ownMove n s ph wire s' ph' wire.
Proof.
  intros Hatt Hg Hhold. pose proof Hg as (Hr & Hseq & _ & Hcl). split; [done|done|done| |left; lia|].
  - exists []. by rewrite app_nil_r.
  - intros f q _ Hf. left. apply (inBox_grows _ _ _ _ Hg) in Hf as [Hf|(m & rd & ->)]; [by left|].
    right. by eapply Hhold.
Qed.

Lemma own_moves n id st st' s ph wire s' ph' wire' :
  step (OfSession id) st st' → clientAt st id s ph wire → clientAt st' id s' ph' wire' →
  attending n ph' →
  (∃ hello, ph = Joining n hello ∧ ph' = Greeting n hello ∧ s' = s) ∨ ownMove n s ph wire s' ph' wire'.
Proof.
  intros Hstep Hat Hat' Hatt.
  destruct Hstep as [Hs|[Hs|Hs]].
  - destruct Hs as [| | | | |st id s1 wire1 m hello s2 frame from Hc Hg| | | | | | | |
      st id s1 wire1 m frames s2 u Hc Hp| | | | | |]; same_client; cbn in Hatt; subst; try done; [by left; eexists..|right|right|right|right|right].
    + apply bind_Ok in Hg as (world & _ & [= <- _ _]).
      split; [done|done|done|by eexists|right; by eexists|]. intros f q _ [Hf|(? & ? & ?)]; [left; by left|done].
    + by apply ownMove_quiet.
    + by apply ownMove_quiet.
    + by apply ownMove_quiet.
    + apply ownMove_quiet; [by destruct Hatt| |done].
      pose proof (onOutbox_grows (PrependDocument frames) s1 (grows_prepend _ _)) as Hg. by rewrite Hp in Hg.
  - right. destruct Hs as [st id s1 wire1 m wr now i at_ source probe g received s2 store' rd Hc Hr| | | |]; same_client;
      (apply ownMove_quiet; [exact Hatt| |intros ? ? ? [= _ _ ->]; by eauto]); try done.
    + by eapply readStart_grows.
    + apply readFinish_grows.
    + apply sessionGrows_box, grows_close.
  - right. destruct Hs as [st id s1 wire1 m rd f o Hc Hp|st id s1 wire1 m rd f q Hc Hw|
      st id s1 wire1 m rd f g' q sent Hc Hw|st id s1 wire1 m rd f g' q Hc Hw|st id s1 wire1 m rd o Hc Hp| | | |];
      same_client; try (by destruct Hatt as [_ []]);
      try (apply ownMove_quiet; [by destruct Hatt|done|done]).
    + split; [by destruct Hatt|by split_and!|cbn; by rewrite (Pop_closed _ _ _ Hp)|exists []; by rewrite app_nil_r|by left|].
      intros g q _ [Hg|(? & ? & ?)]; [|done]. left. destruct (Pop_document _ _ _ _ Hp Hg) as [[Hin|[= ->]] _].
      * by left.
      * right. by eauto.
    + split; [by destruct Hatt|done|done|exists []; by rewrite app_nil_r|by left|].
      intros g k Hk [Hg|(? & ? & [= _ _ ->])]; [left; by left|]. right.
      pose proof (writeFilter_spec g (sess_lastSeq s1)) as Hspec. rewrite Hk, Hw in Hspec.
      destruct (k <=? sess_lastSeq s1) eqn:E; [by apply Z.leb_le|done].
    + pose proof (writeFilter_spec f (sess_lastSeq s1)) as Hspec. rewrite Hw in Hspec.
      assert (sess_lastSeq s1 ≤ q) as Hle.
      { destruct (eventSeq f) as [k|]; [|by injection Hspec as _ ->].
        destruct (k <=? _) eqn:E; [done|]. injection Hspec as _ ->. apply Z.leb_gt in E. lia. }
      split; [by destruct Hatt|done|done| |by left|].
      { destruct sent; [by eexists|exists []; by rewrite app_nil_r]. }
      intros g k Hk [Hg|(? & ? & [= _ _ ->])]; [left; by left|]. right. cbn. rewrite Hk in Hspec.
      destruct (k <=? sess_lastSeq s1) eqn:E; [done|]. injection Hspec as _ ->. lia.
Qed.

(** ** The log *)

(** What a step does to the stores there have been. *)
Lemma past_moves a st st' :
  step a st st' →
  (lv_store st' = lv_store st ∧ lv_past st' = lv_past st) ∨ lv_past st' = lv_store st' :: lv_past st.
Proof.
  intros Hstep. destruct a as [|id|k]; cbn [liveStep] in Hstep.
  - destruct Hstep; [by right|by right|by left..].
  - destruct Hstep as [Hs|[Hs|Hs]].
    + left. destruct Hs as [| |? ? ? ? ? ? st1 Hc Hf| | | | | | | | | | | | | | | | |]; try done.
      unfold hubFor in Hf. destruct (HubOf _ _) as [m r]. injection Hf as _ <-. by destruct (lv_hubs st !! m).
    + destruct Hs; [by right|by left..].
    + left. by destruct Hs.
  - left. by destruct Hstep.
Qed.

(** An event enters the log when a session's handler commits it, and the handler
    then holds what brings it to those it is for. *)
Lemma log_moves a st st' w q row :
  liveOK policy st → step a st st' → Log (lv_store st') w q = Some row →
  Log (lv_store st) w q = Some row ∨
  Log (lv_store st) w q = None ∧
  ∃ i s n ps answer wr wire, clientAt st i s (Serving n Reading wr) wire ∧
    clientAt st' i s (Serving n (Answering ps answer) wr) wire ∧ w = sess_worldID s ∧
    ∀ u, addressed policy (lv_store st') w u row → ∃ p, p ∈ ps ∧ brings w u q p.
Proof.
  intros HOK Hstep Hrow. destruct a as [|id|k]; cbn [liveStep] in Hstep.
  - left. destruct Hstep as [st wi c method path r l disk out sv' Hs|st t store' Hw Ht| |]; [| |done..].
    + apply serve_store_log in Hs as (T & HT & Hw); [|by apply lo_wf in HOK]. cbn in Hrow.
      by rewrite (writes_log _ _ _ HT (lo_wf _ _ HOK) Hw) in Hrow.
    + cbn in Hrow. by rewrite (wrote_log _ _ _ (lo_wf _ _ HOK) Ht Hw) in Hrow.
  - destruct Hstep as [Hs|[Hs|Hs]].
    + left. destruct Hs as [| |? ? ? ? ? ? st1 Hc Hf| | | | | | | | | | | | | | | | |]; try done.
      assert (lv_store st1 = lv_store st) as Hst.
      { unfold hubFor in Hf. destruct (HubOf _ _) as [m r]. injection Hf as _ <-. by destruct (lv_hubs st !! m). }
      by rewrite <-Hst.
    + destruct Hs as [st id s wire n wr now i at_ source probe g received s' store' rd Hc Hr| | | |]; try by left.
      destruct (Log (lv_store st) w q) as [row'|] eqn:Eold.
      { left. pose proof (readStep_parts (fullRouter policy now i at_ source probe g) received s (lv_store st)) as Hp.
        rewrite Hr in Hp.
        assert (∃ T, writesTo T (lv_store st) store') as [T Hw].
        { destruct rd; by destruct (readStep_writes _ _ _ _ _ _ _ (fullRouter_keeps policy now i at_ source probe g)
            (lo_wf _ _ HOK) Hp) as (T & _ & _ & Hw); exists T. }
        apply (writes_grow _ _ _ (lo_wf _ _ HOK) Hw) in Eold. cbn in Hrow. congruence. }
      destruct (readStart_announces policy _ _ _ _ _ _ _ (fullRouter_announces policy now i at_ source probe g)
        (lo_wf _ _ HOK) Hr) as [->|(-> & ps & answer & -> & Ha)]; [cbn in Hrow; congruence|]. right. split; [done|].
      destruct (Ha w q row Hrow Eold) as [-> Hb]. exists id, s, n, ps, answer, wr, wire.
      split_and!; [done| |done|done]. apply clientAt_moved. by left.
    + left. by destruct Hs.
  - left. by destruct Hstep.
Qed.
End Moves.
