(* ===== verification/Delivery.v ===== *)
(** * Nothing falls between the log and a client

    Every event is committed by a handler, handed to the hub, fanned out, and
    waits in an outbox until the writer takes it; a session that joins reads what
    it missed from the log.  As long as the gateway is not being shut down, no
    event gets lost between these stations: what a session that is being served
    has not been sent yet, and no later event has overtaken, is at one of them. *)

From S2P Require Import Prelude GoStrings Json Perm Storage Torn Redact Access Vision Sight Dice RateLimit Auth Password.
From S2P Require Import Frame Outbox Ticket Hub Session Intents Chat Combat Doors.
From S2P Require Import Blob AssetImage Http Worlds Footprint Scenes Assets Router Server Gateway Entitled Announce.
From S2P Require Import Live LiveSafety LiveRun Steps.

Local Open Scope Z_scope.

(** ** Catch-up is complete *)

Section CatchUp.
Context {S : Type} `{TxLaws S} `{!FrameLaws S}.
Variable policy : FieldPolicy.
Implicit Types (q : S) (s : Session).

(** Projecting an event keeps the frames there are. *)
Lemma replayStep_keeps (v : reads S) s e frames frames' k :
  replayStep policy v s frames e = Ok frames' → k ∈ eventSeqs frames → k ∈ eventSeqs frames'.
Proof.
  intros Hr Hk. unfold replayStep in Hr. destruct (negb _); [by injection Hr as <-|].
  apply bind_Ok in Hr as ([p|] & _ & [= <-]); [|done]. rewrite eventSeqs_app. apply elem_of_app. by left.
Qed.

(** An event that is about no document and admits the user gets a frame. *)
Lemma replayStep_adds (v : reads S) s e frames frames' :
  replayStep policy v s frames e = Ok frames' → audienceAllows (event_Audience e) (sess_userID s) = true →
  event_TargetKind e ≠ "document" → event_Seq e ∈ eventSeqs frames'.
Proof.
  intros Hr Ha Ht. unfold replayStep in Hr. rewrite Ha in Hr. unfold replayPayload in Hr.
  rewrite bool_decide_eq_false_2 in Hr by done. injection Hr as <-.
  rewrite eventSeqs_app, eventSeqs_cons, eventSeq_eventOf. set_solver.
Qed.

(** Catch-up reads every event in reach. *)
Lemma EventsSince_reaches q w from events k row :
  wf q → EventsSince q w from catchUpLimit = Ok events → Log q w k = Some row →
  from < k ≤ from + catchUpLimit → k ∈ event_Seq <$> events.
Proof.
  intros Hwf He Hrow Hk. destruct (Log_key _ _ _ _ Hwf Hrow) as [_ Hseq].
  apply list_elem_of_fmap. exists row. split; [done|]. by eapply EventsSince_upto.
Qed.
End CatchUp.

Section Delivery.
Context `{Unicode} `{Argon2} `{ImageCodecs} {G : Type} `{DiceSource G} {S : Type} `{TxLaws S} `{!FrameLaws S}.
Variables (auth : AuthDeps) (assetsAt : AssetDeps) (policy : FieldPolicy) (backend : string).
Local Abbreviation live := (live (S := S)).
Local Abbreviation step := (liveStep (G := G) auth assetsAt policy backend).
Local Abbreviation OK := (liveOK policy).
Implicit Types st : live.

(** ** The stations of a publication *)

(** Where a publication of hub [n] is, that has not come to session [id] yet: in
    the hands of a handler, in the queue, or in a fan-out that has still to visit
    the session. *)
Definition inTransit st (n : nat) (p : Publication) (id : string) : Prop :=
  (∃ i s ps answer wr wire, clientAt st i s (Serving n (Answering ps answer) wr) wire ∧ p ∈ ps) ∨
  ∃ h, lv_hubs st !! n = Some h ∧ (p ∈ hp_queue h ∨ ∃ rest, hp_pc h = HubFanning p rest ∧ id ∈ rest).

(** A frame on its way to a session. *)
Definition underway st (n : nat) (id : string) (s : Session) (ph : phase) (f : Frame) : Prop :=
  inBox s ph f ∨ ∃ p, pub_Lane p = LaneDocument ∧ frameFor p id s = Some f ∧ inTransit st n p id.

(** A handler keeps what it has to publish until it is in the queue. *)
Lemma hand_moves a st st' n i s ps answer wr wire p :
  hubsRun st → step a st st' → clientAt st i s (Serving n (Answering ps answer) wr) wire → p ∈ ps →
  (∃ s' ps' wr' wire', clientAt st' i s' (Serving n (Answering ps' answer) wr') wire' ∧ p ∈ ps') ∨
  ∃ h', lv_hubs st' !! n = Some h' ∧ p ∈ hp_queue h'.
Proof.
  intros Hrun Hstep Hat Hp.
  assert (∀ st1, lv_heap st1 = lv_heap st → lv_clients st1 = lv_clients st →
    ∃ s' ps' wr' wire', clientAt st1 i s' (Serving n (Answering ps' answer) wr') wire' ∧ p ∈ ps') as Hsame.
  { intros st1 Hh Hc. exists s, ps, wr, wire. split; [|done]. destruct Hat. split; congruence. }
  destruct a as [|j|k]; cbn [liveStep] in Hstep.
  - left. destruct Hstep as [| |st j dcap ecap Hnone|]; [by apply Hsame..| |by apply Hsame].
    exists s, ps, wr, wire. split; [|done]. apply clientAt_moved. right. split; [|done].
    intros ->. destruct Hat. congruence.
  - destruct (decide (j = i)) as [->|Hne].
    2:{ left. exists s, ps, wr, wire. split; [|done]. by apply (own_step_others auth assetsAt policy backend _ _ _ _ _ _ _ Hstep Hne). }
    destruct Hstep as [Hs|[Hs|Hs]].
    + destruct Hs; same_client; done.
    + destruct Hs as [|st id s1 wire1 m p1 ps1 answer1 wr1 h Hc Hm Hlen|st id s1 wire1 m p1 ps1 answer1 wr1 h Hc Hm Hpc| |];
        same_client; try done; try (by apply elem_of_nil in Hp).
      * apply elem_of_cons in Hp as [->|Hp].
        { right. eexists. split; [apply lookup_insert_eq|]. cbn. apply elem_of_app. right. by apply list_elem_of_singleton. }
        left. exists s1, ps1, wr1, wire1. split; [|done]. apply clientAt_moved. by left.
      * destruct (Hrun _ _ Hm) as [_ [Hpc'|(? & ? & Hpc')]]; congruence.
    + left. destruct Hs; same_client; eexists _, ps, _, _; (split; [apply clientAt_moved; by left|done]).
  - left. destruct Hat as [Hs Hc].
    assert (is_Some (lv_heap st' !! i) ∧ lv_clients st' = lv_clients st) as [[s' Hs'] Hc'].
    { destruct Hstep as [| st m h1 q id rest hs Hm Hpc <-| | | |]; try (by split; [eexists|]); cbn.
      - split; [|done]. eapply elem_of_dom, fanOutStep_dom, elem_of_dom. by eexists.
      - split; [|done]. rewrite lookup_alter. case_decide; [subst; rewrite Hs; by eexists|by eexists]. }
    exists s', ps, wr, wire. split; [|done]. split; [done|]. by rewrite Hc'.
Qed.

(** A publication in transit stays so until the hub gives it to the session. *)
Lemma transit_step a st st' n h p id :
  OK st → hubsRun st → running st' → step a st st' → lv_hubs st !! n = Some h → id ∈ hp_members h →
  inTransit st n p id →
  inTransit st' n p id ∨ ∃ rest, a = OfHub n ∧ hp_pc h = HubFanning p (id :: rest).
Proof.
  intros HOK Hrun Hrun' Hstep Hn Hmem [(i & s & ps & answer & wr & wire & Hat & Hp)|(h0 & Hn0 & Hp)].
  - left. destruct (hand_moves _ _ _ _ _ _ _ _ _ _ _ Hrun Hstep Hat Hp) as [(s' & ps' & wr' & wire' & Hat' & Hp')|(h' & Hn' & Hp')].
    + left. by exists i, s', ps', answer, wr', wire'.
    + right. exists h'. auto.
  - rewrite Hn in Hn0. injection Hn0 as <-.
    destruct (hub_moves auth assetsAt policy backend _ _ _ _ _ HOK Hrun Hrun' Hstep Hn) as (h' & Hn' & Hmove).
    destruct Hmove as [a n h Ha|j n h s hello wire _|j n h s wire _|j n h s q ps a wr wire _|n h q queue rest Hpc Hq Hperm|
      n h q j rest s Hpc Hs|n h q Hpc]; try (left; right; by eexists).
    + left. right. eexists. split; [done|]. cbn. destruct Hp as [Hp|Hp]; [left|by right]. apply elem_of_app. by left.
    + left. right. eexists. split; [done|]. cbn. rewrite Hq in Hp. destruct Hp as [[->|Hp]%elem_of_cons|(rest' & Hpc' & _)].
      * right. exists rest. split; [done|]. by rewrite Hperm, elem_of_elements.
      * by left.
      * congruence.
    + destruct Hp as [Hp|(rest' & Hpc' & Hin)]; [left; right; eexists; split; [done|by left]|].
      rewrite Hpc in Hpc'. injection Hpc' as <- <-. apply elem_of_cons in Hin as [->|Hin]; [right; by eexists|].
      left. right. eexists. split; [done|]. right. by exists rest.
    + left. right. eexists. split; [done|]. destruct Hp as [Hp|(rest' & Hpc' & Hin)]; [by left|].
      rewrite Hpc in Hpc'. injection Hpc' as _ <-. by apply elem_of_nil in Hin.
Qed.

Lemma hub_visits st st' n h p id rest s :
  step (OfHub n) st st' → lv_hubs st !! n = Some h → hp_pc h = HubFanning p (id :: rest) →
  lv_heap st !! id = Some s → lv_heap st' !! id = Some (fanned p id s).1.
Proof.
  intros Hstep Hn Hpc Hs. cbn [liveStep] in Hstep.
  destruct Hstep as [st n h1 q queue rest1 Hm Hpc1 Hq Hperm|st n h1 q j rest1 hs Hm Hpc1 <-|st n h1 q Hm Hpc1|
    st n h1 rest1 Hm Hpc1 Hquit Hperm|st n h1 j rest1 Hm Hpc1|st n h1 Hm Hpc1];
    rewrite Hm in Hn; injection Hn as ->; rewrite Hpc in Hpc1; try done.
  injection Hpc1 as <- <- <-. cbn. destruct (fanOutStep_heap p (hp_members h) (lv_heap st) id s Hs) as [-> _].
  apply lookup_insert_eq.
Qed.

(** A frame stays under way until it is written or overtaken. *)
Lemma underway_step a st st' n h id s ph wire s' ph' wire' f q :
  OK st → hubsRun st → running st' → step a st st' →
  clientAt st id s ph wire → clientAt st' id s' ph' wire' → attending n ph → attending n ph' →
  closed (sess_outbox s') = false → lv_hubs st !! n = Some h → id ∈ hp_members h →
  eventSeq f = Some q → underway st n id s ph f →
  underway st' n id s' ph' f ∨ q ≤ sess_lastSeq s'.
Proof.
  intros HOK Hrun Hrun' Hstep Hat Hat' Hatt Hatt' Hopen Hn Hmem Hq Hf.
  destruct (session_moves auth assetsAt policy backend _ _ _ _ _ _ _ HOK Hrun Hrun' Hstep Hat')
    as [(-> & Hnone & _)|(s0 & ph0 & wire0 & Hat0 & Hmove)]; [done|].
  destruct (clientAt_inj _ _ _ _ _ _ _ _ Hat Hat0) as (-> & -> & ->). clear Hat0.
  assert (sameReader s s' ∧ (inBox s ph f → inBox s' ph' f ∨ q ≤ sess_lastSeq s')) as [Hreader Hbox].
  { destruct Hmove as [->|(-> & -> & [->|(m & h1 & p & rest & _ & _ & _ & ->)])].
    - destruct (own_moves auth assetsAt policy backend _ _ _ _ _ _ _ _ _ _ Hstep Hat Hat' Hatt')
        as [(hello & -> & _)|[_ Hr _ _ _ Hb]]; [done|]. split; [done|]. by apply Hb.
    - split; [done|]. by left.
    - destruct (fanned_grows p id s) as [Hg _]. split; [apply Hg|]. left. by eapply inBox_grows. }
  destruct Hf as [Hf|(p & Hlane & Hfor & Htr)].
  { destruct (Hbox Hf) as [Hin|Hle]; [|by right]. left. by left. }
  destruct (transit_step _ _ _ _ _ _ _ HOK Hrun Hrun' Hstep Hn Hmem Htr) as [Htr'|(rest & -> & Hpc)].
  - left. right. exists p. split_and!; [done| |done]. by rewrite (frameFor_reader _ _ _ _ Hreader).
  - left. left. left. destruct Hat as [Hs _], Hat' as [Hs' _].
    pose proof (hub_visits _ _ _ _ _ _ _ _ Hstep Hn Hpc Hs) as Hv. rewrite Hs' in Hv. injection Hv as ->.
    by apply (fanned_grows p id s).
Qed.

(** ** Attendance *)

(** The hub a session was given has it among its members until it ends, each
    world has one hub, and a session listens to its world. *)
Record attendOK st : Prop := {
  ao_runs : hubsRun st;
  ao_hubs : ∀ n h, lv_hubs st !! n = Some h → reg_hubs (lv_registry st) !! hp_world h = Some n;
  ao_listens : ∀ id s ph wire, clientAt st id s ph wire → ph ≠ Dialing → ph ≠ Gone →
    WorldChannel (sess_worldID s) ∈ sess_subscriptions s;
  ao_members : ∀ id s ph wire n, clientAt st id s ph wire → attending n ph → closed (sess_outbox s) = false →
    ∃ h, lv_hubs st !! n = Some h ∧ id ∈ hp_members h
}.

Lemma attendOK_init store tickets : attendOK (liveInit store tickets).
Proof.
  split; cbn.
  - intros n h Hn. cbn in Hn. by rewrite lookup_empty in Hn.
  - intros n h Hn. by rewrite lookup_empty in Hn.
  - intros id s ph wire [Hs _]. cbn in Hs. by rewrite lookup_empty in Hs.
  - intros id s ph wire n [Hs _]. cbn in Hs. by rewrite lookup_empty in Hs.
Qed.

(** The hubs of the next state: those there were, and a new one the registry has
    just given out. *)
Lemma hubs_before a st st' n h' :
  step a st st' → lv_hubs st' !! n = Some h' →
  is_Some (lv_hubs st !! n) ∨
  h' = NewHub (hp_world h') ∧ reg_hubs (lv_registry st') !! hp_world h' = Some n.
Proof.
  intros Hstep Hn. destruct a as [|id|k]; cbn [liveStep] in Hstep.
  - destruct Hstep; [by left; eexists..|]. left. cbn in Hn. rewrite map_lookup_imap in Hn.
    by destruct (lv_hubs st !! n).
  - destruct Hstep as [Hs|[Hs|Hs]].
    + destruct Hs as [| |st id s wire hello m st1 Hc Hf|st id s wire m hello h Hc Hm Hpc| | | | | | | | | | | | | |
        st id s wire m h Hc Hm Hpc| |]; try (left; by eexists).
      * change (lv_hubs st1 !! n = Some h') in Hn. change (lv_registry (moveTo _ _ _ _ st1)) with (lv_registry st1).
        unfold hubFor, HubOf in Hf.
        destruct (reg_hubs (lv_registry st) !! sess_worldID s) as [m'|] eqn:Ew; injection Hf as <- <-.
        { destruct (lv_hubs st !! m') as [h0|] eqn:Em'; [left; by eexists|]. cbn in Hn |- *.
          rewrite lookup_insert in Hn. case_decide as Hd; [|left; by eexists]. injection Hn as <-. right.
          cbn. by subst. }
        destruct (lv_hubs st !! reg_created (lv_registry st)) as [h0|] eqn:Em'; [left; by eexists|]. cbn in Hn |- *.
        rewrite lookup_insert in Hn. case_decide as Hd; [|left; by eexists]. injection Hn as <-. right.
        cbn. split; [done|]. by rewrite lookup_insert_eq, Hd.
      * left. cbn in Hn. rewrite lookup_insert in Hn. case_decide; [subst; by eexists|by eexists].
      * left. cbn in Hn. rewrite lookup_insert in Hn. case_decide; [subst; by eexists|by eexists].
    + left. destruct Hs; try (by eexists). cbn in Hn. rewrite lookup_insert in Hn.
      case_decide; [subst; by eexists|by eexists].
    + left. destruct Hs; by eexists.
  - left. destruct Hstep; cbn in Hn; rewrite lookup_insert in Hn; (case_decide; [subst; by eexists|by eexists]).
Qed.

(** The registry goes on giving out a hub that runs. *)
Lemma registry_keeps a st st' w n h :
  running st' → step a st st' → reg_hubs (lv_registry st) !! w = Some n → lv_hubs st !! n = Some h →
  reg_hubs (lv_registry st') !! w = Some n.
Proof.
  intros Hrun' Hstep Hw Hn. destruct a as [|id|k]; cbn [liveStep] in Hstep.
  - destruct Hstep; [done..|]. exfalso.
    assert (lv_hubs (shutdown st) !! n = Some (askedToQuit h)) as Hq.
    { cbn. rewrite map_lookup_imap, Hn. cbn. rewrite bool_decide_eq_true_2; [done|].
      apply elem_of_map_to_set. by exists w, n. }
    by apply Hrun' in Hq.
  - destruct Hstep as [Hs|[Hs|Hs]]; destruct Hs as [| |st id s wire hello m st1 Hc Hf| | | | | | | | | | | | | | | | |] || destruct Hs; try done.
    change (lv_registry (moveTo _ _ _ _ st1)) with (lv_registry st1). unfold hubFor, HubOf in Hf.
    destruct (reg_hubs (lv_registry st) !! sess_worldID s) as [m'|] eqn:Ew; injection Hf as <- <-; [done|].
    cbn. rewrite lookup_insert_ne; [done|congruence].
  - by destruct Hstep.
Qed.

Lemma own_reader id st st' s ph wire s' ph' wire' :
  step (OfSession id) st st' → clientAt st id s ph wire → clientAt st' id s' ph' wire' →
  ph' ≠ Dialing → ph' ≠ Gone →
  WorldChannel (sess_worldID s') ∈ sess_subscriptions s' ∨ (ph ≠ Dialing ∧ ph ≠ Gone ∧ sameReader s s').
Proof.
  intros Hstep Hat Hat' Hd Hg. destruct Hstep as [Hs|[Hs|Hs]].
  - destruct Hs as [st id s1 wire1 received now hello s2 ts Hc Ha| | | | |st id s1 wire1 m hello s2 frame from Hc Hgr|
      st id s1 wire1 m hello s2 frame from e Hc Hgr| | | | | | |st id s1 wire1 m frames s2 u Hc Hp|
      st id s1 wire1 m frames s2 e Hc Hp| | | | |];
      same_client; try done; try (by right).
    + left. destruct (authenticate_sound _ _ _ _ _ _ _ _ Ha) as (ticket & mem & _ & _ & _ & _ & -> & _ & _ & _ & ->).
      set_solver.
    + right. split_and!; [done..|]. by apply bind_Ok in Hgr as (world & _ & [= <- _ _]).
    + right. split_and!; [done..|]. by apply bind_Ok in Hgr as (world & _ & [= <- _ _]).
    + right. split_and!; [done..|]. pose proof (onOutbox_grows (PrependDocument frames) s1 (grows_prepend _ _)) as Hb.
      rewrite Hp in Hb. apply Hb.
    + right. split_and!; [done..|]. pose proof (onOutbox_grows (PrependDocument frames) s1 (grows_prepend _ _)) as Hb.
      rewrite Hp in Hb. apply Hb.
  - right. destruct Hs as [st id s1 wire1 m wr now i at_ source probe g received s2 store' rd Hc Hr| | | |]; same_client;
      (split_and!; [done..|]).
    all: try done.
    + by eapply readStart_grows.
    + apply readFinish_grows.
  - right. destruct Hs; same_client; by split_and!.
Qed.

Lemma hubsRun_step a st st' :
  OK st → attendOK st → running st' → step a st st' → hubsRun st'.
Proof.
  intros HOK HA Hrun' Hstep n h' Hn'. split; [by eapply Hrun'|].
  destruct (hubs_before _ _ _ _ _ Hstep Hn') as [[h Hn]|[-> _]]; [|by left].
  destruct (hub_moves auth assetsAt policy backend _ _ _ _ _ HOK (ao_runs _ HA) Hrun' Hstep Hn) as (h2 & Hn2 & Hmove).
  rewrite Hn' in Hn2. injection Hn2 as <-. pose proof (proj2 (ao_runs _ HA _ _ Hn)) as Hpc.
  destruct Hmove; cbn; eauto.
Qed.

Lemma members_step a st st' id s' ph' wire' n :
  OK st → attendOK st → running st' → step a st st' →
  clientAt st' id s' ph' wire' → attending n ph' → closed (sess_outbox s') = false →
  ∃ h, lv_hubs st' !! n = Some h ∧ id ∈ hp_members h.
Proof.
  intros HOK HA Hrun' Hstep Hat' Hatt' Hopen. pose proof (ao_runs _ HA) as Hrun.
  destruct (session_moves auth assetsAt policy backend _ _ _ _ _ _ _ HOK Hrun Hrun' Hstep Hat')
    as [(-> & Hnone & _)|(s & ph & wire & Hat & Hmove)]; [done|].
  assert ((∃ hello, a = OfSession id ∧ ph = Joining n hello ∧ ph' = Greeting n hello) ∨
    attending n ph ∧ closed (sess_outbox s) = false) as [(hello & -> & -> & ->)|[Hatt Hop]].
  { destruct Hmove as [->|(-> & _ & Hs)].
    - destruct (own_moves auth assetsAt policy backend _ _ _ _ _ _ _ _ _ _ Hstep Hat Hat' Hatt')
        as [(hello & -> & -> & _)|[Ha _ Hcl _ _ _]]; [left; by exists hello|]. right. split; [done|].
      destruct (closed (sess_outbox s)); [|done]. specialize (Hcl eq_refl). congruence.
    - right. split; [done|]. destruct Hs as [->|(m & h & p & rest & _ & _ & _ & ->)]; [done|].
      destruct (fanned_grows p id s) as [(_ & _ & _ & Hcl) _]. destruct (closed (sess_outbox s)); [|done].
      specialize (Hcl eq_refl). congruence. }
  - cbn [liveStep] in Hstep. destruct Hstep as [Hs|[Hs|Hs]]; destruct Hs; same_client; try done.
    + eexists. split; [apply lookup_insert_eq|]. cbn. set_solver.
    + match goal with Hm : lv_hubs _ !! _ = Some _ |- _ => destruct (Hrun _ _ Hm) as [_ [Hpc|(? & ? & Hpc)]]; congruence end.
  - destruct (ao_members _ HA _ _ _ _ _ Hat Hatt Hop) as (h & Hn & Hin).
    destruct (hub_moves auth assetsAt policy backend _ _ _ _ _ HOK Hrun Hrun' Hstep Hn) as (h' & Hn' & Hm).
    exists h'. split; [done|]. destruct Hm as [| |j n h s1 wire1 Hc| | |n h p j rest s1 Hpc Hs|]; cbn; try done.
    + set_solver.
    + apply elem_of_difference. split; [done|]. intros ->%elem_of_singleton.
      destruct (clientAt_inj _ _ _ _ _ _ _ _ Hat Hc) as (_ & <- & _). done.
    + destruct (decide (j = id)) as [->|Hne].
      * destruct Hat as [Hs2 _], Hat' as [Hs' _].
        pose proof (hub_visits _ _ _ _ _ _ _ _ Hstep Hn Hpc Hs) as Hv. rewrite Hs' in Hv. injection Hv as ->.
        destruct (fanned_grows p id s1) as [_ Hfan]. by destruct (Hfan Hopen) as [-> _].
      * destruct (fanned p j s1).2; [done|]. set_solver.
Qed.

Lemma attendOK_step a st st' :
  OK st → attendOK st → running st' → step a st st' → attendOK st'.
Proof.
  intros HOK HA Hrun' Hstep. split.
  - by eapply hubsRun_step.
  - intros n h' Hn'. destruct (hubs_before _ _ _ _ _ Hstep Hn') as [[h Hn]|[_ Hw]]; [|done].
    destruct (hub_moves auth assetsAt policy backend _ _ _ _ _ HOK (ao_runs _ HA) Hrun' Hstep Hn) as (h2 & Hn2 & Hmove).
    rewrite Hn' in Hn2. injection Hn2 as <-. destruct (hubMove_same _ _ _ _ _ Hmove) as [-> _].
    eapply registry_keeps; [done|done| |exact Hn]. by apply (ao_hubs _ HA).
  - intros id s' ph' wire' Hat' Hd Hg.
    destruct (session_moves auth assetsAt policy backend _ _ _ _ _ _ _ HOK (ao_runs _ HA) Hrun' Hstep Hat')
      as [(-> & Hnone & _)|(s & ph & wire & Hat & Hmove)]; [done|].
    assert (WorldChannel (sess_worldID s') ∈ sess_subscriptions s' ∨ (ph ≠ Dialing ∧ ph ≠ Gone ∧ sameReader s s'))
      as [?|(Hd' & Hg' & _ & Hw & Hsub)]; [|done|].
    { destruct Hmove as [->|(-> & _ & Hs)]; [by eapply own_reader|]. right. split_and!; [done..|].
      destruct Hs as [->|(m & h & p & rest & _ & _ & _ & ->)]; [done|]. apply fanned_grows. }
    rewrite Hw, Hsub. by apply (ao_listens _ HA _ _ _ _ Hat).
  - intros id s' ph' wire' n. by eapply members_step.
Qed.

(** ** What a session is owed *)

(** [c] is the store of the stores there have been ([past], the newest first) in
    which event [q] of the world appeared. *)
Definition committed (past : list S) (w : ID) (q : Z) (c : S) : Prop :=
  ∃ newer older, past = newer ++ c :: older ∧ is_Some (Log c w q) ∧ Forall (λ b, Log b w q = None) older.

(** An event the session is to be sent: its row admits the user, and either it
    concerns no document, or it was committed after the welcome; and, when its frame
    is made for each member apart, in a store that lets the user see what it
    shows. *)
Definition owed (past : list S) (s : Session) (wire : list Frame) (q : Z) (row : Event) : Prop :=
  audienceAllows (event_Audience row) (sess_userID s) = true ∧
  (event_TargetKind row ≠ "document" ∨
   (∃ wl rest, wire = welcomeFrame wl :: rest ∧ welcome_Seq wl < q) ∧
   (perMember row = true →
    ∃ c, committed past (sess_worldID s) q c ∧ concerns policy c (sess_worldID s) (sess_userID s) row)).

(** The welcome announced no more than catch-up sends. *)
Definition caughtUp (wire : list Frame) : Prop :=
  ∃ wl rest, wire = welcomeFrame wl :: rest ∧ welcome_Seq wl ≤ welcome_DeltaFrom wl + catchUpLimit.

(** What the welcome itself still has to bring. *)
Definition awaited (ph : phase) (wire : list Frame) (q : Z) : Prop :=
  match ph with
  | Replaying _ _ => ∃ wl rest, wire = welcomeFrame wl :: rest ∧ q ≤ welcome_Seq wl
  | Projecting _ _ events frames =>
      (∃ wl rest, wire = welcomeFrame wl :: rest ∧ q ≤ welcome_Seq wl) ∧
      (q ∈ eventSeqs frames ∨ q ∈ event_Seq <$> events)
  | Prepending _ frames => q ∈ eventSeqs frames
  | _ => False
  end.

Definition accounted st n id s ph wire (q : Z) : Prop :=
  q ≤ sess_lastSeq s ∨ awaited ph wire q ∨ ∃ f, eventSeq f = Some q ∧ underway st n id s ph f.

Definition greeting (ph : phase) : Prop := match ph with Greeting _ _ => True | _ => False end.

Record owedOK st : Prop := {
  oo_welcome : ∀ id s ph wire n, clientAt st id s ph wire → attending n ph → ¬ greeting ph →
    ∃ wl rest, wire = welcomeFrame wl :: rest ∧
      ∀ from, ph = Replaying n from → from = welcome_DeltaFrom wl ∧ sess_lastSeq s = from;
  oo_owed : ∀ id s ph wire n q row, clientAt st id s ph wire → attending n ph → ¬ greeting ph →
    closed (sess_outbox s) = false → id ≠ "" → caughtUp wire →
    Log (lv_store st) (sess_worldID s) q = Some row → owed (lv_past st) s wire q row → accounted st n id s ph wire q
}.

Lemma owedOK_init store tickets : owedOK (liveInit store tickets).
Proof.
  split; intros id s ph wire n; [intros [Hs _]|intros q row [Hs _]]; cbn in Hs; by rewrite lookup_empty in Hs.
Qed.

(** The welcome, and the stages after it. *)
Lemma own_stages n id st st' s ph wire s' ph' wire' :
  OK st → step (OfSession id) st st' → clientAt st id s ph wire → clientAt st' id s' ph' wire' →
  attending n ph' → ¬ greeting ph' → attending n ph →
  (∃ hello wl from, ph = Greeting n hello ∧ greet (lv_store st) hello s = Ok (s', welcomeFrame wl, from) ∧
     ph' = Replaying n from ∧ wire' = [welcomeFrame wl] ∧ lv_store st' = lv_store st) ∨
  (∃ from began events, ph = Replaying n from ∧ wire' = wire ∧
     EventsSince (lv_store st) (sess_worldID s) from catchUpLimit = Ok events ∧
     ph' = Projecting n began events [] ∧ s' = s) ∨
  (∃ began began' e events frames frames' (v : reads S), ph = Projecting n began (e :: events) frames ∧ wire' = wire ∧
     replayStep policy v s frames e = Ok frames' ∧ ph' = Projecting n began' events frames' ∧ s' = s) ∨
  (∃ began frames, ph = Projecting n began [] frames ∧ ph' = Prepending n frames ∧ s' = s) ∨
  (∃ frames u, ph = Prepending n frames ∧ onOutbox (PrependDocument frames) s = (Ok u, s') ∧
     ph' = Serving n Reading (At Popping)) ∨
  (∃ rd wr rd' wr', ph = Serving n rd wr ∧ ph' = Serving n rd' wr').
Proof.
  intros HOK Hstep Hat Hat' Hatt' Hng Hatt. destruct Hstep as [Hs|[Hs|Hs]].
  - destruct Hs as [| | | | |st id s1 wire1 m hello s2 frame from Hc Hg| | |st id s1 wire1 m from events Hc He| |
      st id s1 wire1 m began e events frames v frames' Hc Hv Hr| |st id s1 wire1 m began frames Hc|
      st id s1 wire1 m frames s2 u Hc Hp| | | | | |]; same_client; cbn in Hatt, Hatt'; subst; try done.
    + left. destruct (client_session _ _ _ _ _ _ HOK Hc) as (_ & _ & _ & _ & _ & Hun). rewrite (Hun I).
      pose proof Hg as (world & _ & Hw)%bind_Ok. injection Hw as _ <- _. by eexists _, _, _.
    + right; left. by eexists _, _, _.
    + right; right; left. by eexists _, _, _, _, _, _, _.
    + right; right; right; left. by eexists _, _.
    + right; right; right; right; left. by eexists _, _.
  - right; right; right; right; right. destruct Hs; same_client; destruct Hatt; subst; by eexists _, _, _, _.
  - right; right; right; right; right. destruct Hs; same_client; destruct Hatt; subst; by eexists _, _, _, _.
Qed.

(** Past its welcome frame, a session's state only moves forward: it keeps who it
    is and what was written, and what the welcome still had to bring comes
    nearer. *)
Record forward st (n : nat) (s : Session) (ph : phase) (wire : list Frame) (s' : Session) (ph' : phase)
    (wire' : list Frame) : Prop := {
  fw_attending : attending n ph;
  fw_welcomed : ¬ greeting ph;
  fw_reader : sameReader s s';
  fw_closed : closed (sess_outbox s') = false → closed (sess_outbox s) = false;
  fw_wire : ∃ more, wire' = wire ++ more;
  fw_seq : sess_lastSeq s ≤ sess_lastSeq s';
  fw_replaying : ∀ from, ph' = Replaying n from → ph = Replaying n from ∧ sess_lastSeq s' = sess_lastSeq s;
  fw_awaited : ∀ q row, closed (sess_outbox s') = false → caughtUp wire →
    Log (lv_store st) (sess_worldID s) q = Some row → owed (lv_past st) s wire q row → awaited ph wire q →
    q ≤ sess_lastSeq s' ∨ awaited ph' wire' q ∨ ∃ f, eventSeq f = Some q ∧ inBox s' ph' f
}.

Lemma forward_still st n s ph wire s' :
  attending n ph → ¬ greeting ph → sessionGrows s s' → forward st n s ph wire s' ph wire.
Proof.
  intros Hatt Hng ((? & ? & ?) & Hseq & _ & Hcl). split; try done.
  - intros Hop. destruct (closed (sess_outbox s)); [|done]. specialize (Hcl eq_refl). congruence.
  - exists []. by rewrite app_nil_r.
  - lia.
  - tauto.
Qed.

(** What a welcome that missed little still has to bring is among the events
    catch-up reads. *)
Lemma awaited_read st n id s from wire events wl rest q row :
  OK st → clientAt st id s (Replaying n from) wire → wire = welcomeFrame wl :: rest →
  from = welcome_DeltaFrom wl → sess_lastSeq s = from →
  EventsSince (lv_store st) (sess_worldID s) from catchUpLimit = Ok events →
  caughtUp wire → Log (lv_store st) (sess_worldID s) q = Some row →
  awaited (Replaying n from) wire q → q ≤ sess_lastSeq s ∨ q ∈ event_Seq <$> events.
Proof.
  intros HOK Hat Hw Hfrom Hseq He (wl1 & rest1 & Hw1 & Hfew) Hrow (wl2 & rest2 & Hw2 & Hle).
  rewrite Hw in Hw1, Hw2. injection Hw1 as <- _. injection Hw2 as <- _.
  destruct (decide (q ≤ from)) as [?|Hgt]; [left; lia|]. right.
  eapply EventsSince_reaches; [by apply lo_wf in HOK|exact He|exact Hrow|lia].
Qed.

(** What is owed from before the welcome concerns no document. *)
Lemma owed_missed past s wire q row :
  owed past s wire q row → (∃ wl rest, wire = welcomeFrame wl :: rest ∧ q ≤ welcome_Seq wl) →
  audienceAllows (event_Audience row) (sess_userID s) = true ∧ event_TargetKind row ≠ "document".
Proof.
  intros [Ha Hkind] (wl & rest & -> & Hle). split; [done|]. destruct Hkind as [?|[(wl1 & rest1 & Hw & Hlt) _]]; [done|].
  injection Hw as <- _. lia.
Qed.

(** An awaited event that is projected becomes a frame. *)
Lemma awaited_projected st n id s wire began e events frames began' frames' (v : reads S) q row :
  OK st → clientAt st id s (Projecting n began (e :: events) frames) wire →
  replayStep policy v s frames e = Ok frames' →
  Log (lv_store st) (sess_worldID s) q = Some row → owed (lv_past st) s wire q row →
  awaited (Projecting n began (e :: events) frames) wire q → awaited (Projecting n began' events frames') wire q.
Proof.
  intros HOK Hat Hr Hrow Ho [Hmiss Hq]. split; [done|]. destruct (owed_missed _ _ _ _ _ Ho Hmiss) as [Ha Ht].
  destruct Hq as [Hq|[Heq|Hq]%elem_of_cons]; [left; by eapply replayStep_keeps| |by right]. left.
  destruct (client_session _ _ _ _ _ _ HOK Hat) as (_ & [_ [[_ He] _]%Forall_cons] & _).
  assert (e = row) as -> by congruence. rewrite Heq. by eapply replayStep_adds.
Qed.

Lemma reader_moves a st st' id s' ph' wire' n :
  OK st → attendOK st → owedOK st → running st' → step a st st' →
  clientAt st' id s' ph' wire' → attending n ph' → ¬ greeting ph' →
  ∃ s ph wire, clientAt st id s ph wire ∧
    ((∃ hello wl from, ph = Greeting n hello ∧ greet (lv_store st) hello s = Ok (s', welcomeFrame wl, from) ∧
       ph' = Replaying n from ∧ wire' = [welcomeFrame wl] ∧ lv_store st' = lv_store st) ∨
     forward st n s ph wire s' ph' wire').
Proof.
  intros HOK HA HW Hrun' Hstep Hat' Hatt' Hng.
  destruct (session_moves auth assetsAt policy backend _ _ _ _ _ _ _ HOK (ao_runs _ HA) Hrun' Hstep Hat')
    as [(-> & Hnone & _)|(s & ph & wire & Hat & Hmove)]; [done|]. exists s, ph, wire. split; [done|].
  destruct Hmove as [->|(-> & -> & Hs)].
  2:{ right. apply forward_still; [done|done|]. destruct Hs as [->|(m & h & p & rest & _ & _ & _ & ->)]; [done|].
      apply fanned_grows. }
  destruct (own_moves auth assetsAt policy backend _ _ _ _ _ _ _ _ _ _ Hstep Hat Hat' Hatt')
    as [(hello & -> & -> & _)|[Hatt Hreader Hcl Hwire Hseq Hbox]]; [by destruct Hng|].
  assert (closed (sess_outbox s') = false → closed (sess_outbox s) = false) as Hcl'.
  { intros Hop. destruct (closed (sess_outbox s)); [|done]. specialize (Hcl eq_refl). congruence. }
  destruct (own_stages _ _ _ _ _ _ _ _ _ _ HOK Hstep Hat Hat' Hatt' Hng Hatt)
    as [Hg|[(from & began & events & -> & -> & He & -> & ->)|
       [(began & began' & e & events & frames & frames' & v & -> & -> & Hr & -> & ->)|
       [(began & frames & -> & -> & ->)|[(frames & u & -> & Hp & ->)|(rd & wr & rd' & wr' & -> & ->)]]]]];
    [by left|right..]; (split; try done; try (by destruct Hseq as [?|[? [=]]])).
  - intros q row _ Hc Hrow Ho Haw. destruct (oo_welcome _ HW _ _ _ _ _ Hat Hatt ltac:(done)) as (wl & rest & Hw & Hfrom).
    destruct (Hfrom from eq_refl) as [Hf Hl].
    destruct (awaited_read _ _ _ _ _ _ _ _ _ _ _ HOK Hat Hw Hf Hl He Hc Hrow Haw); [by left|].
    right; left. split; [exact Haw|by right].
  - intros q row _ _ Hrow Ho Haw. right; left.
    by eapply (awaited_projected _ _ _ _ _ _ _ _ _ _ _ _ _ _ HOK Hat Hr Hrow Ho).
  - intros q row _ _ _ _ [_ [Hq|Hq]]; [right; by left|]. by apply elem_of_nil in Hq.
  - intros q row Hop _ _ _ Haw. right; right. cbn in Haw. apply list_elem_of_omap in Haw as (f & Hf & Hq).
    exists f. split; [done|]. left. specialize (Hcl' Hop). unfold onOutbox, PrependDocument in Hp.
    destruct frames as [|f0 frames]; [by apply elem_of_nil in Hf|]. cbn in Hp. rewrite Hcl' in Hp.
    injection Hp as _ <-. cbn. rewrite app_comm_cons. apply elem_of_app. by left.
Qed.

(** What a session is owed is a matter of its user, its welcome and the stores at
    the commit. *)
Lemma owed_before past past' s s' wire wire' more wl rest q row :
  sameReader s s' → wire = welcomeFrame wl :: rest → wire' = wire ++ more →
  (∀ c, committed past' (sess_worldID s) q c → committed past (sess_worldID s) q c) →
  owed past' s' wire' q row → owed past s wire q row.
Proof.
  intros (Hu & Hw & _) Hwire Hmore Hc [Ha Hkind]. unfold owed. rewrite <-Hu. split; [done|].
  destruct Hkind as [?|[(wl1 & rest1 & Hw1 & Hlt) Hpm]]; [by left|]. right. split.
  - exists wl, rest. split; [done|]. rewrite Hmore, Hwire in Hw1. by injection Hw1 as <- _.
  - intros (c & Hcom & Hcon)%Hpm. rewrite Hw in Hcom, Hcon. exists c. split; [by apply Hc|done].
Qed.

(** An event that was in the log before a step was committed before it. *)
Lemma committed_before a st st' w q c :
  step a st st' → OK st → is_Some (Log (lv_store st) w q) → committed (lv_past st') w q c → committed (lv_past st) w q c.
Proof.
  intros Hstep HOK Hold (newer & older & Hp & Hc & Hnone).
  destruct (past_moves auth assetsAt policy backend _ _ _ Hstep) as [[_ Hsame]|Hnew].
  { exists newer, older. by rewrite <-Hsame. }
  rewrite Hp in Hnew. destruct newer as [|x newer]; injection Hnew as _ Hnew.
  - rewrite Hnew, Forall_forall in Hnone. rewrite (Hnone _ (past_now _ _ HOK)) in Hold. by destruct Hold.
  - by exists newer, older.
Qed.

(** One that was not is committed in the store the step leaves. *)
Lemma committed_now a st st' w q c :
  step a st st' → OK st → Log (lv_store st) w q = None → committed (lv_past st') w q c → c = lv_store st'.
Proof.
  intros Hstep HOK Hnone (newer & older & Hp & [row Hc] & _).
  assert (c ∉ lv_past st) as Hnot.
  { intros Hin. destruct (lo_history _ _ HOK _ Hin) as [_ Hg]. apply Hg in Hc. congruence. }
  assert (c ∈ lv_past st') as Hin by (rewrite Hp; apply elem_of_app; right; left).
  destruct (past_moves auth assetsAt policy backend _ _ _ Hstep) as [[_ Hsame]|Hnew]; [by rewrite Hsame in Hin|].
  rewrite Hnew in Hin. by apply elem_of_cons in Hin as [->|?].
Qed.

Lemma caughtUp_before wire wire' more wl rest :
  wire = welcomeFrame wl :: rest → wire' = wire ++ more → caughtUp wire' → caughtUp wire.
Proof.
  intros Hw Hw' (wl1 & rest1 & Hw1 & Hle). exists wl, rest. split; [done|].
  rewrite Hw', Hw in Hw1. by injection Hw1 as <- _.
Qed.

(** The hubs of two sessions of one world are the same. *)
Lemma same_hub st i si phi wirei m id s ph wire n :
  OK st → attendOK st → clientAt st i si phi wirei → clientAt st id s ph wire →
  hubOf phi = Some m → hubOf ph = Some n → sess_worldID si = sess_worldID s → m = n.
Proof.
  intros HOK HA Hi Hs Hm Hn Hw. destruct (lo_clients _ _ HOK _ _ _ _ Hi) as [_ Hhi].
  destruct (lo_clients _ _ HOK _ _ _ _ Hs) as [_ Hhs]. destruct (Hhi m Hm) as (hm & Hlm & Hwm).
  destruct (Hhs n Hn) as (hn & Hln & Hwn). apply (ao_hubs _ HA) in Hlm, Hln. congruence.
Qed.

(** A publication to its world is for every session of the world it admits. *)
Lemma brings_frame st id s ph wire q p :
  attendOK st → clientAt st id s ph wire → ph ≠ Dialing → ph ≠ Gone → id ≠ "" →
  brings (sess_worldID s) (sess_userID s) q p → ∃ f, frameFor p id s = Some f ∧ eventSeq f = Some q.
Proof.
  intros HA Hat Hd Hg Hid (_ & Hch & Hex & f & [Hal Hf] & Hq). exists f. split; [|done]. unfold frameFor, Subscribed.
  rewrite Hch, Hex, Hal, bool_decide_eq_false_2 by done.
  rewrite bool_decide_eq_true_2 by (by eapply ao_listens). cbn.
  by destruct (pub_PerUser p); [|rewrite Hf].
Qed.

(** An event committed in this step is in the hands of its handler. *)
Lemma new_underway st' id s' ph' wire' n i si m ps answer wr wirei q p :
  OK st' → attendOK st' → clientAt st' id s' ph' wire' → attending n ph' → id ≠ "" →
  clientAt st' i si (Serving m (Answering ps answer) wr) wirei → sess_worldID si = sess_worldID s' →
  p ∈ ps → brings (sess_worldID s') (sess_userID s') q p →
  ∃ f, eventSeq f = Some q ∧ underway st' n id s' ph' f.
Proof.
  intros HOK HA Hat Hatt Hid Hi Hw Hp Hb.
  assert (m = n) as ->.
  { eapply same_hub; [exact HOK|exact HA|exact Hi|exact Hat|done|by apply attending_joined|done]. }
  destruct (brings_frame _ _ _ _ _ _ _ HA Hat ltac:(by intros ->) ltac:(by intros ->) Hid Hb) as (f & Hf & Hq).
  exists f. split; [done|]. right. exists p. split_and!; [apply Hb|done|left; by eexists _, _, _, _, _, _].
Qed.

Lemma owedOK_step a st st' :
  OK st → attendOK st → owedOK st → running st' → step a st st' → owedOK st'.
Proof.
  intros HOK HA HW Hrun' Hstep.
  assert (OK st') as HOK' by (by eapply liveStep_OK).
  pose proof (attendOK_step _ _ _ HOK HA Hrun' Hstep) as HA'. split.
  - intros id s' ph' wire' n Hat' Hatt' Hng.
    destruct (reader_moves _ _ _ _ _ _ _ _ HOK HA HW Hrun' Hstep Hat' Hatt' Hng)
      as (s & ph & wire & Hat & [(hello & wl & from & _ & Hg & -> & -> & _)|Hf]).
    + exists wl, []. split; [done|]. intros ? [= <-]. by apply bind_Ok in Hg as (world & _ & [= <- <- <-]).
    + destruct (oo_welcome _ HW _ _ _ _ _ Hat (fw_attending _ _ _ _ _ _ _ _ Hf) (fw_welcomed _ _ _ _ _ _ _ _ Hf))
        as (wl & rest & Hw & Hfrom). destruct (fw_wire _ _ _ _ _ _ _ _ Hf) as [more ->].
      exists wl, (rest ++ more). split; [by rewrite Hw|]. intros from Hph.
      destruct (fw_replaying _ _ _ _ _ _ _ _ Hf from Hph) as [Hph0 ->]. by apply Hfrom.
  - intros id s' ph' wire' n q row Hat' Hatt' Hng Hop Hid Hcu Hrow Ho.
    destruct (reader_moves _ _ _ _ _ _ _ _ HOK HA HW Hrun' Hstep Hat' Hatt' Hng)
      as (s & ph & wire & Hat & [(hello & wl & from & _ & Hg & -> & -> & Hst)|Hf]).
    { right; left. exists wl, []. split; [done|]. rewrite Hst in Hrow. apply bind_Ok in Hg as (world & Hworld & [= <- Hwl _]).
      cbn in Hrow. assert (1 ≤ q ≤ world_EventSeq world) by (apply (Log_full _ _ _ _ (lo_wf _ _ HOK) Hworld); by eexists).
      subst wl. cbn. lia. }
    destruct Hf as [Hatt Hngr Hreader Hclosed [more Hmore] Hseq _ Hawaited].
    destruct (oo_welcome _ HW _ _ _ _ _ Hat Hatt Hngr) as (wl & rest & Hw & _).
    pose proof (caughtUp_before _ _ _ _ _ Hw Hmore Hcu) as Hcu0.
    assert (sess_worldID s' = sess_worldID s) as Hworld by apply Hreader.
    destruct (log_moves auth assetsAt policy backend _ _ _ _ _ _ HOK Hstep Hrow)
      as [Hold|(Hnone & i & si & m & ps & answer & wr & wirei & _ & Hi & Hwi & Hb)].
    + rewrite Hworld in Hold.
      assert (owed (lv_past st) s wire q row) as Ho0.
      { eapply owed_before; [exact Hreader|exact Hw|exact Hmore| |exact Ho]. intros c.
        eapply committed_before; [exact Hstep|done|by eexists]. }
      destruct (oo_owed _ HW _ _ _ _ _ _ _ Hat Hatt Hngr (Hclosed Hop) Hid Hcu0 Hold Ho0) as [Hle|[Haw|(f & Hq & Hf)]].
      * left. lia.
      * destruct (Hawaited q row Hop Hcu0 Hold Ho0 Haw) as [?|[?|(f & Hq & Hf)]]; [by left|by right; left|].
        right; right. exists f. split; [done|]. by left.
      * destruct (ao_members _ HA _ _ _ _ _ Hat Hatt (Hclosed Hop)) as (h & Hn & Hmem).
        destruct (underway_step _ _ _ _ _ _ _ _ _ _ _ _ _ _ HOK (ao_runs _ HA) Hrun' Hstep Hat Hat' Hatt Hatt' Hop Hn Hmem Hq Hf);
          [|by left]. right; right. by exists f.
    + right; right. destruct Ho as [Ha Hkind].
      destruct (Hb (sess_userID s')) as (p & Hp & Hbr); [|by eapply new_underway].
      split; [done|]. intros Hpm. destruct Hkind as [Ht|[_ Hcon]].
      { unfold perMember in Hpm. by rewrite bool_decide_eq_false_2 in Hpm. }
      destruct (Hcon Hpm) as (c & Hc & Hcon'). by rewrite (committed_now _ _ _ _ _ _ Hstep HOK Hnone Hc) in Hcon'.
Qed.

(** ** Runs *)

(** A hub that was asked to quit stays so. *)
Lemma quit_stays a st st' n h :
  step a st st' → lv_hubs st !! n = Some h → ∃ h', lv_hubs st' !! n = Some h' ∧ (hp_quit h = true → hp_quit h' = true).
Proof.
  intros Hstep Hn.
  assert (∀ m h1 h1', lv_hubs st !! m = Some h1 → hp_quit h1' = hp_quit h1 →
    ∃ h', <[m := h1']> (lv_hubs st) !! n = Some h' ∧ (hp_quit h = true → hp_quit h' = true)) as Hset.
  { intros m h1 h1' Hm Hq. rewrite lookup_insert. case_decide; [|by exists h]. subst m.
    rewrite Hn in Hm. injection Hm as ->. exists h1'. by rewrite Hq. }
  destruct a as [|id|k]; cbn [liveStep] in Hstep.
  - destruct Hstep; [by exists h..|]. cbn. rewrite map_lookup_imap, Hn. cbn. eexists. split; [done|].
    by case_bool_decide.
  - destruct Hstep as [Hs|[Hs|Hs]]; destruct Hs as [| |? ? ? ? ? ? st1 Hc Hf| | | | | | | | | | | | | | | | |] || destruct Hs;
      try (by exists h); try (by eapply Hset).
    exists h. split; [|done]. change (lv_hubs st1 !! n = Some h). by eapply hubFor_hubs.
  - destruct Hstep; by eapply Hset.
Qed.

Lemma running_before st st' :
  liveSteps (G := G) auth assetsAt policy backend st st' → running st' → running st.
Proof.
  induction 1 as [|st st1 st' [a Hs] _ IH]; [done|]. intros Hrun n h Hn. specialize (IH Hrun).
  destruct (quit_stays _ _ _ _ _ Hs Hn) as (h' & Hn' & Hq). specialize (IH _ _ Hn').
  destruct (hp_quit h); [|done]. specialize (Hq eq_refl). congruence.
Qed.

Lemma delivery_invariant st st' :
  OK st → attendOK st → owedOK st → liveSteps (G := G) auth assetsAt policy backend st st' → running st' →
  OK st' ∧ attendOK st' ∧ owedOK st'.
Proof.
  intros HOK HA HW Hr. induction Hr as [|st st1 st' [a Hs] Hr IH]; [done|]. intros Hrun.
  pose proof (running_before _ _ Hr Hrun) as Hrun1. apply IH; [| | |done].
  - by eapply liveStep_OK.
  - exact (attendOK_step _ _ _ HOK HA Hrun1 Hs).
  - exact (owedOK_step _ _ _ HOK HA HW Hrun1 Hs).
Qed.

Lemma reachable_delivery store tickets st :
  wf store → liveSteps (G := G) auth assetsAt policy backend (liveInit store tickets) st → running st →
  OK st ∧ attendOK st ∧ owedOK st.
Proof.
  intros Hwf Hr Hrun. eapply delivery_invariant; [by apply liveOK_init|apply attendOK_init|apply owedOK_init|exact Hr|done].
Qed.

(** A session that has begun to leave does not come back. *)
Definition over (ph : phase) : Prop :=
  match ph with
  | Failing _ _ | Leaving _ | Left | Gone => True
  | Serving _ _ wr => wr = At Done
  | _ => False
  end.

Lemma over_not_attending n ph : over ph → ¬ attending n ph.
Proof. destruct ph; cbn; naive_solver. Qed.

Lemma own_stage_forward n id st st' s ph wire s' ph' wire' :
  step (OfSession id) st st' → clientAt st id s ph wire → clientAt st' id s' ph' wire' →
  (attending n ph → (attending n ph' ∧ ¬ greeting ph') ∨ over ph') ∧ (over ph → over ph').
Proof.
  intros Hstep Hat Hat'. destruct Hstep as [Hs|[Hs|Hs]]; destruct Hs; same_client; cbn; naive_solver.
Qed.

(** Where frame [f], event [q], is on its way to a session that has been
    welcomed: under way, written or overtaken, or the session is ending. *)
Definition tracked st (n : nat) (id : string) (f : Frame) (q : Z) : Prop :=
  ∃ s ph wire, clientAt st id s ph wire ∧
    (over ph ∨ (attending n ph ∧ ¬ greeting ph) ∧
       (closed (sess_outbox s) = true ∨ q ≤ sess_lastSeq s ∨ underway st n id s ph f)).

Lemma tracked_step a st st' n id f q :
  OK st → attendOK st → running st' → step a st st' → eventSeq f = Some q →
  tracked st n id f q → tracked st' n id f q.
Proof.
  intros HOK HA Hrun' Hstep Hq (s & ph & wire & Hat & Hph).
  destruct (liveSteps_keepsWires auth assetsAt policy backend st st' (rtc_once _ _ (ex_intro _ a Hstep)) _ _ _ _ Hat)
    as (s' & ph' & more & Hat'). exists s', ph', (wire ++ more). split; [done|].
  assert ((over ph → over ph') ∧ (attending n ph ∧ ¬ greeting ph → (attending n ph' ∧ ¬ greeting ph') ∨ over ph') ∧
    (attending n ph' → ¬ greeting ph → (closed (sess_outbox s) = true → closed (sess_outbox s') = true) ∧
       (q ≤ sess_lastSeq s → q ≤ sess_lastSeq s'))) as (Hover & Hatt & Hmono).
  { destruct (session_moves auth assetsAt policy backend _ _ _ _ _ _ _ HOK (ao_runs _ HA) Hrun' Hstep Hat')
      as [(-> & Hnone & _)|(s0 & ph0 & wire0 & Hat0 & Hmove)].
    { destruct Hat. congruence. }
    destruct (clientAt_inj _ _ _ _ _ _ _ _ Hat Hat0) as (-> & -> & ->). clear Hat0.
    destruct Hmove as [->|(-> & _ & Hs)].
    - destruct (own_stage_forward n _ _ _ _ _ _ _ _ _ Hstep Hat Hat') as [Hf Ho]. split_and!; [done|naive_solver|].
      intros Hatt' Hng. destruct (own_moves auth assetsAt policy backend _ _ _ _ _ _ _ _ _ _ Hstep Hat Hat' Hatt')
        as [(hello & -> & -> & ->)|[_ _ Hcl _ Hseq _]]; [done|]. split; [done|].
      destruct Hseq as [?|[? ->]]; [lia|by destruct Hng].
    - split_and!; [done|by left|]. intros _ _. destruct Hs as [->|(m & h & p & rest & _ & _ & _ & ->)]; [done|].
      destruct (fanned_grows p id s) as [(_ & -> & _ & ?) _]. done. }
  destruct Hph as [Ho|[Ha Hw]]; [by left; apply Hover|]. destruct (Hatt Ha) as [Ha'|Ho']; [|by left]. right. split; [done|].
  destruct (closed (sess_outbox s')) eqn:Hop; [by left|]. right. destruct (Hmono (proj1 Ha') (proj2 Ha)) as [Hcl Hseq].
  destruct Hw as [Hc|[Hle|Hf]]; [by specialize (Hcl Hc)|left; by apply Hseq|].
  destruct (closed (sess_outbox s)) eqn:Hop0; [by specialize (Hcl eq_refl)|].
  destruct (ao_members _ HA _ _ _ _ _ Hat (proj1 Ha) Hop0) as (h & Hn & Hmem).
  destruct (underway_step _ _ _ _ _ _ _ _ _ _ _ _ _ _ HOK (ao_runs _ HA) Hrun' Hstep Hat Hat' (proj1 Ha) (proj1 Ha')
    Hop Hn Hmem Hq Hf); [by right|by left].
Qed.

Lemma tracked_steps st st' n id f q :
  OK st → attendOK st → liveSteps (G := G) auth assetsAt policy backend st st' → running st' →
  eventSeq f = Some q → tracked st n id f q → tracked st' n id f q.
Proof.
  intros HOK HA Hr. induction Hr as [|st st1 st' [a Hs] Hr IH]; [done|]. intros Hrun Hq Ht.
  pose proof (running_before _ _ Hr Hrun) as Hrun1. apply IH; [| |done|done|].
  - by eapply liveStep_OK.
  - exact (attendOK_step _ _ _ HOK HA Hrun1 Hs).
  - exact (tracked_step _ _ _ _ _ _ _ HOK HA Hrun1 Hs Hq Ht).
Qed.

(** ** Theorems *)

(** C2: no event falls between the log and a client.  In every reachable state of
    a gateway that is not being shut down, take a session that is past its
    welcome, whose outbox is open and whose welcome announced no more missed
    events than catch-up sends ([catchUpLimit], 500).  Every event of the log of its
    world that it is owed, with a number above the last one it was sent (a smaller
    one was sent, or is overtaken and lost), is still under way to it: among what
    catch-up has yet to read, to project or to send, in the hands of the handler
    that is publishing it, in the queue of the hub, in a fan-out that has yet to
    visit the session, in its outbox, or with its writer.  Owed ([owed]) are the
    events whose audience admits its user: those that concern no document, however
    long ago they were committed; and of those that concern a document the ones
    committed after its welcome, if they tell everybody the same, or if the store
    they were committed in has the user as a member with a valid role who, for a
    patch or a move, can read the document and has it in sight. *)
Theorem no_event_falls_between store tickets st id s ph wire n q row :
  wf store → liveSteps (G := G) auth assetsAt policy backend (liveInit store tickets) st → running st →
  clientAt st id s ph wire → attending n ph → ¬ greeting ph → closed (sess_outbox s) = false → id ≠ "" →
  caughtUp wire → Log (lv_store st) (sess_worldID s) q = Some row → owed (lv_past st) s wire q row → sess_lastSeq s < q →
  awaited ph wire q ∨ ∃ f, eventSeq f = Some q ∧ underway st n id s ph f.
Proof.
  intros Hwf Hr Hrun Hat Hatt Hng Hop Hid Hcu Hrow Ho Hlt.
  destruct (reachable_delivery _ _ _ Hwf Hr Hrun) as (_ & _ & HW).
  destruct (oo_owed _ HW _ _ _ _ _ _ _ Hat Hatt Hng Hop Hid Hcu Hrow Ho) as [?|?]; [lia|done].
Qed.

(** C3: what is published reaches its readers, unless it is overtaken or they
    leave.  Take a publication on the document lane that a handler holds, a hub
    has queued or a fan-out carries, and a session of that hub past its welcome
    for which it has the frame [f] of event [q].  However the gateway goes on,
    without being shut down: as long as the session is there with its writer and
    its outbox open, [f] is under way to it, or the session's number has reached
    [q], which its own writer does when it writes [f] or a later event. *)
Theorem published_is_not_lost store tickets st st' n id s ph wire s' ph' wire' p f q :
  wf store → liveSteps (G := G) auth assetsAt policy backend (liveInit store tickets) st →
  clientAt st id s ph wire → attending n ph → ¬ greeting ph →
  inTransit st n p id → pub_Lane p = LaneDocument → frameFor p id s = Some f → eventSeq f = Some q →
  liveSteps (G := G) auth assetsAt policy backend st st' → running st' →
  clientAt st' id s' ph' wire' →
  over ph' ∨ closed (sess_outbox s') = true ∨ q ≤ sess_lastSeq s' ∨ underway st' n id s' ph' f.
Proof.
  intros Hwf Hr Hat Hatt Hng Htr Hlane Hf Hq Hr' Hrun' Hat'. pose proof (running_before _ _ Hr' Hrun') as Hrun.
  destruct (reachable_delivery _ _ _ Hwf Hr Hrun) as (HOK & HA & _).
  assert (tracked st n id f q) as Ht.
  { exists s, ph, wire. split; [done|]. right. split; [done|]. right; right. right. by exists p. }
  destruct (tracked_steps _ _ _ _ _ _ HOK HA Hr' Hrun' Hq Ht) as (s1 & ph1 & wire1 & Hat1 & Hph).
  destruct (clientAt_inj _ _ _ _ _ _ _ _ Hat' Hat1) as (-> & -> & ->). naive_solver.
Qed.
End Delivery.
