(* ===== verification/LiveEnd.v ===== *)
(** * A session can always be ended

    No state of the gateway traps a session: from every reachable state, whatever
    the session is doing (a handler that waits for room at its hub, a writer that
    waits to be woken, a hub in the middle of a fan-out), there is a way to its
    end that takes only steps of the session itself, its connection failing, and
    of hubs.  No other client has to do anything. *)

From S2P Require Import Prelude GoStrings Json Perm Storage Torn Redact Access Vision Sight Dice RateLimit Auth Password.
From S2P Require Import Frame Outbox Ticket Hub Session Intents Chat Combat Doors.
From S2P Require Import Blob AssetImage Http Worlds Footprint Scenes Assets Router Server Gateway Entitled Live LiveSafety.

Local Open Scope Z_scope.

(** How many frames wait in an outbox. *)
Definition pending (o : outbox) : nat := length (control o) + length (document o) + length (order o).

Lemma Pop_pending o f o' : Pop o = (Some f, o') → (pending o' < pending o)%nat.
Proof.
  unfold Pop, pending. destruct (control o) as [|c cs].
  - destruct (document o) as [|d ds].
    + destruct (order o) as [|k ks]; [done|]. intros [= _ <-]. cbn. lia.
    + intros [= _ <-]. cbn. lia.
  - intros [= _ <-]. cbn. lia.
Qed.

Section End_.
Context `{Unicode} `{Argon2} `{ImageCodecs} {G : Type} `{DiceSource G} {S : Type} `{TxLaws S} `{!FrameLaws S}.
Variables (auth : AuthDeps) (assetsAt : AssetDeps) (policy : FieldPolicy) (backend : string).
Local Abbreviation live := (live (S := S)).
Local Abbreviation step := (liveStep (G := G) auth assetsAt policy backend).
Local Abbreviation OK := (liveOK policy).
Implicit Types st : live.

Variable id : string.

(** Steps of the session and of hubs. *)
Definition ownStep st st' : Prop := ∃ a, (a = OfSession id ∨ ∃ n, a = OfHub n) ∧ step a st st'.

Definition ends st : Prop := ∃ st' s wire, rtc ownStep st st' ∧ clientAt st' id s Gone wire.

Lemma ownStep_OK st st' : OK st → ownStep st st' → OK st'.
Proof. intros HOK (a & _ & Hs). by eapply liveStep_OK. Qed.

Lemma ownSteps_OK st st' : OK st → rtc ownStep st st' → OK st'.
Proof. intros HOK. induction 1; eauto using ownStep_OK. Qed.

Lemma ends_steps st st' : rtc ownStep st st' → ends st' → ends st.
Proof. intros Hr (st2 & s & wire & Hr2 & Hat). exists st2, s, wire. split; [by etrans|done]. Qed.

Lemma ends_move st st' : step (OfSession id) st st' → ends st' → ends st.
Proof. intros Hs. apply ends_steps, rtc_once. exists (OfSession id). split; [by left|done]. Qed.

Lemma moved st s ph wire : clientAt (moveTo id s ph wire st) id s ph wire.
Proof. apply clientAt_moved. by left. Qed.

(** ** Hubs come to rest *)

(** The session stays where it is. *)
Definition stays st st' : Prop :=
  ∀ s ph wire, clientAt st id s ph wire → ∃ s', clientAt st' id s' ph wire.

#[local] Instance stays_preorder : PreOrder stays.
Proof.
  split; [by intros st s ph wire Hat; exists s|].
  intros st1 st2 st3 Hab Hbc s ph wire Hat. destruct (Hab _ _ _ Hat) as [s' Hat']. by eapply Hbc.
Qed.

Lemma stays_hub st n h : stays st (setHub n h st).
Proof. intros s ph wire Hat. by exists s. Qed.

Lemma stays_insert st i s0 s1 :
  lv_heap st !! i = Some s0 → stays st (setSession i s1 st).
Proof.
  intros Hs s ph wire [Hh Hc]. destruct (decide (i = id)) as [->|Hne].
  - exists s1. split; [apply lookup_insert_eq|done].
  - exists s. split; [|done]. cbn. by rewrite lookup_insert_ne.
Qed.

Lemma hub_move n st st' : step (OfHub n) st st' → rtc ownStep st st'.
Proof. intros Hs. apply rtc_once. exists (OfHub n). split; [right; by exists n|done]. Qed.

Lemma hub_loop_ends n rest : ∀ st h,
  OK st → lv_hubs st !! n = Some h →
  (∃ p, hp_pc h = HubFanning p rest) ∨ hp_pc h = HubClosing rest →
  ∃ st' h', rtc ownStep st st' ∧ stays st st' ∧ lv_hubs st' !! n = Some h' ∧
    (hp_pc h' = HubIdle ∨ hp_pc h' = HubDone) ∧ hp_queue h' = hp_queue h.
Proof.
  induction rest as [|i rest IH]; intros st h HOK Hn Hpc.
  { destruct Hpc as [[p Hpc]|Hpc]; eexists (setHub n _ st), _.
    - split_and!; [eapply hub_move; by eapply live_fanned|apply stays_hub|by apply lookup_insert_eq|by left|done].
    - split_and!; [eapply hub_move; by eapply live_down|apply stays_hub|by apply lookup_insert_eq|by right|done]. }
  destruct (lo_rest _ _ HOK _ _ Hn) as (_ & Hsub & _).
  assert (i ∈ hp_members h) as Hin by (apply Hsub; destruct Hpc as [[p Hpc]|Hpc]; rewrite Hpc; apply list_elem_of_here).
  destruct (lo_members _ _ HOK _ _ _ Hn Hin) as (s & ph & wire & [Hs _] & _).
  destruct Hpc as [[p Hpc]|Hpc].
  - set (hs := fanOutStep p (MkHubState (hp_members h) (lv_heap st)) i).
    set (h1 := withPc (HubFanning p rest) (withMembers (hub_sessions hs) h)).
    assert (step (OfHub n) st (setHeap (hub_heap hs) (setHub n h1 st))) as Hstep by (by eapply live_fan).
    destruct (IH (setHeap (hub_heap hs) (setHub n h1 st)) h1) as (st' & h' & Hr & Hst & Hn' & Hpc' & Hq).
    { by eapply liveStep_OK. } { by apply lookup_insert_eq. } { left. by exists p. }
    exists st', h'. split_and!; [etrans; [by eapply hub_move|done]| |done..]. etrans; [|exact Hst].
    destruct (fanOutStep_heap p (hp_members h) (lv_heap st) i s Hs) as [Hheap _]. fold hs in Hheap.
    unfold setHeap. rewrite Hheap. exact (stays_insert st i s _ Hs).
  - set (h1 := withPc (HubClosing rest) h).
    set (heap1 := alter (CloseWithResync "world closed" 0) i (lv_heap st)).
    assert (step (OfHub n) st (setHeap heap1 (setHub n h1 st))) as Hstep by (by eapply live_closing).
    destruct (IH (setHeap heap1 (setHub n h1 st)) h1) as (st' & h' & Hr & Hst & Hn' & Hpc' & Hq).
    { by eapply liveStep_OK. } { by apply lookup_insert_eq. } { by right. }
    exists st', h'. split_and!; [etrans; [by eapply hub_move|done]| |done..]. etrans; [|exact Hst].
    assert (heap1 = <[i := CloseWithResync "world closed" 0 s]> (lv_heap st)) as Hheap.
    { apply map_eq. intros k. unfold heap1. rewrite lookup_alter, lookup_insert. case_decide; [|done]. subst k. by rewrite Hs. }
    unfold setHeap. rewrite Hheap. exact (stays_insert st i s _ Hs).
Qed.

Definition atRest (h : hubProc) : Prop := (hp_pc h = HubIdle ∧ hp_queue h = []) ∨ hp_pc h = HubDone.

Lemma idle_hub_rests n k : ∀ st h,
  OK st → lv_hubs st !! n = Some h → hp_pc h = HubIdle → length (hp_queue h) = k →
  ∃ st' h', rtc ownStep st st' ∧ stays st st' ∧ lv_hubs st' !! n = Some h' ∧ atRest h'.
Proof.
  induction k as [|k IH]; intros st h HOK Hn Hpc Hk.
  { exists st, h. split_and!; [done|done|done|]. left. split; [done|]. by apply nil_length_inv. }
  destruct (hp_queue h) as [|p queue] eqn:Eq; [done|]. injection Hk as Hk.
  set (rest := elements (hp_members h)). set (h1 := withPc (HubFanning p rest) (withQueue queue h)).
  assert (step (OfHub n) st (setHub n h1 st)) as Hstep by (by eapply live_take).
  destruct (hub_loop_ends n rest (setHub n h1 st) h1) as (st2 & h2 & Hr & Hst & Hn2 & Hpc2 & Hq2).
  { by eapply liveStep_OK. } { by apply lookup_insert_eq. } { left. by exists p. }
  assert (rtc ownStep st st2) as Hr2 by (etrans; [by eapply hub_move|done]).
  assert (stays st st2) as Hst2 by exact Hst.
  destruct Hpc2 as [Hpc2|Hpc2].
  - destruct (IH st2 h2) as (st3 & h3 & Hr3 & Hst3 & Hn3 & Hrest); [by eapply ownSteps_OK|done|done|by rewrite Hq2|].
    exists st3, h3. split_and!; [by etrans|by etrans|done|done].
  - exists st2, h2. split_and!; [done..|by right].
Qed.

(** Every hub can finish what it has to do. *)
Lemma hub_rests n st h :
  OK st → lv_hubs st !! n = Some h →
  ∃ st' h', rtc ownStep st st' ∧ stays st st' ∧ lv_hubs st' !! n = Some h' ∧ atRest h'.
Proof.
  intros HOK Hn. destruct (hp_pc h) as [|p rest|rest|] eqn:Hpc.
  - by eapply idle_hub_rests.
  - destruct (hub_loop_ends n rest st h) as (st1 & h1 & Hr & Hst & Hn1 & [Hpc1|Hpc1] & _); [done|done|left; by exists p| |].
    + destruct (idle_hub_rests n _ st1 h1 (ownSteps_OK _ _ HOK Hr) Hn1 Hpc1 eq_refl) as (st2 & h2 & Hr2 & Hst2 & Hn2 & Hrest).
      exists st2, h2. split_and!; [by etrans|by etrans|done|done].
    + exists st1, h1. split_and!; [done..|by right].
  - destruct (hub_loop_ends n rest st h) as (st1 & h1 & Hr & Hst & Hn1 & [Hpc1|Hpc1] & _); [done|done|by right| |].
    + destruct (idle_hub_rests n _ st1 h1 (ownSteps_OK _ _ HOK Hr) Hn1 Hpc1 eq_refl) as (st2 & h2 & Hr2 & Hst2 & Hn2 & Hrest).
      exists st2, h2. split_and!; [by etrans|by etrans|done|done].
    + exists st1, h1. split_and!; [done..|by right].
  - exists st, h. split_and!; [done..|by right].
Qed.

(** The session waits for its hub. *)
Lemma ends_at_rest st s ph wire n :
  OK st → clientAt st id s ph wire → hubOf ph = Some n →
  (∀ st' s' h, OK st' → clientAt st' id s' ph wire → lv_hubs st' !! n = Some h → atRest h → ends st') →
  ends st.
Proof.
  intros HOK Hat Hph Hnext. destruct (lo_clients _ _ HOK _ _ _ _ Hat) as [_ Hhub].
  destruct (Hhub n Hph) as (h & Hn & _). destruct (hub_rests n st h HOK Hn) as (st' & h' & Hr & Hst & Hn' & Hrest).
  destruct (Hst _ _ _ Hat) as [s' Hat']. eapply ends_steps; [exact Hr|].
  eapply Hnext; [by eapply ownSteps_OK|done..].
Qed.

(** ** From each point of a session *)

(** Whatever the rest of the state, a session at this point can be ended. *)
Definition endsFrom ph : Prop := ∀ st s wire, OK st → clientAt st id s ph wire → ends st.

Lemma ends_to st st' s ph wire :
  OK st → endsFrom ph → step (OfSession id) st st' → clientAt st' id s ph wire → ends st.
Proof. intros HOK Hph Hs Hat. eapply ends_move; [done|]. eapply Hph, Hat. by eapply liveStep_OK. Qed.

Lemma gone_ends : endsFrom Gone.
Proof. intros st s wire _ Hat. by exists st, s, wire. Qed.

Lemma left_ends : endsFrom Left.
Proof. intros st s wire HOK Hat. eapply ends_to, moved; [done|apply gone_ends|]. left. by eapply live_gone. Qed.

Lemma leaving_ends n : endsFrom (Leaving n).
Proof.
  intros st s wire HOK Hat. eapply ends_at_rest; [done..|]. clear dependent st. clear s.
  intros st s h HOK Hat Hn [[Hpc _]|Hpc]; (eapply ends_to, moved; [done|apply left_ends|left]).
  - by eapply live_leave.
  - by eapply live_leave_done.
Qed.

Lemma failing_ends n e : endsFrom (Failing n e).
Proof.
  intros st s wire HOK Hat. eapply ends_to, moved; [done|apply leaving_ends|]. left. exact (live_failed _ _ _ _ _ _ _ false Hat).
Qed.

(** With the read loop over, the writer comes to its end whether the connection
    takes its frames or not. *)
Lemma done_ends n : endsFrom (Serving n Stopped (At Done)).
Proof. intros st s wire HOK Hat. eapply ends_to, moved; [done|apply leaving_ends|]. left. by apply live_served. Qed.

Lemma waiting_ends n : endsFrom (Serving n Stopped (At Waiting)).
Proof. intros st s wire HOK Hat. eapply ends_to, moved; [done|apply done_ends|]. right; right. by apply live_cancelled. Qed.

Lemma checking_ends n : endsFrom (Serving n Stopped (At Checking)).
Proof.
  intros st s wire HOK Hat. destruct (closed (sess_outbox s)) eqn:Hc.
  - eapply ends_to, moved; [done|apply done_ends|]. right; right. by eapply live_closed.
  - eapply ends_to, moved; [done|apply waiting_ends|]. right; right. by eapply live_open.
Qed.

Lemma popping_ends n : endsFrom (Serving n Stopped (At Popping)).
Proof.
  intros st s wire. remember (pending (sess_outbox s)) as k eqn:Hk. revert st s Hk.
  induction k as [k IH] using lt_wf_ind. intros st s -> HOK Hat.
  destruct (Pop (sess_outbox s)) as [[f|] o] eqn:Hp.
  2:{ eapply ends_to, moved; [done|apply checking_ends|]. right; right. by eapply live_empty. }
  assert (step (OfSession id) st (moveTo id (with_outbox o s) (Serving n Stopped (Holding f)) wire st)) as Hstep
    by (right; right; by apply live_pop).
  eapply ends_move; [exact Hstep|]. apply liveStep_OK in Hstep as HOK1; [|done].
  pose proof (moved st (with_outbox o s) (Serving n Stopped (Holding f)) wire) as Hat1.
  destruct (writeFilter f (sess_lastSeq (with_outbox o s))) as [[g'|] q] eqn:Hw.
  { eapply ends_to, moved; [done|apply done_ends|]. right; right. by eapply live_write_failed. }
  set (st1 := moveTo id (with_outbox o s) (Serving n Stopped (Holding f)) wire st) in *.
  assert (step (OfSession id) st1 (moveTo id (with_outbox o s) (Serving n Stopped (At Popping)) wire st1)) as Hstep1
    by (right; right; by eapply live_skip).
  eapply ends_move; [exact Hstep1|]. apply liveStep_OK in Hstep1 as HOK2; [|done].
  exact (IH _ (Pop_pending _ _ _ Hp) _ (with_outbox o s) eq_refl HOK2 (moved _ _ _ _)).
Qed.

Lemma writer_ends n wr : endsFrom (Serving n Stopped wr).
Proof.
  destruct wr as [[]|f]; [apply popping_ends|apply checking_ends|apply waiting_ends|apply done_ends|].
  intros st s wire HOK Hat. destruct (writeFilter f (sess_lastSeq s)) as [[g'|] q] eqn:Hw.
  - eapply ends_to, moved; [done|apply done_ends|]. right; right. by eapply live_write_failed.
  - eapply ends_to, moved; [done|apply popping_ends|]. right; right. by eapply live_skip.
Qed.

Lemma reading_ends n wr : endsFrom (Serving n Reading wr).
Proof. intros st s wire HOK Hat. eapply ends_to, moved; [done|apply writer_ends|]. right; left. by apply live_hangup. Qed.

(** A handler that has to publish gets its room: the hub drains its queue, or has
    returned. *)
Lemma answering_ends n ps answer wr : endsFrom (Serving n (Answering ps answer) wr).
Proof.
  induction ps as [|p ps IH]; intros st s wire HOK Hat.
  - eapply ends_to, moved; [done|apply reading_ends|]. right; left. by apply live_answer.
  - eapply ends_at_rest; [done..|]. clear dependent st. clear s.
    intros st s h HOK Hat Hn [[Hpc Hq]|Hpc]; (eapply ends_to, moved; [done|exact IH|right; left]).
    + eapply live_publish; [done..|]. rewrite Hq. unfold publishBuffer. cbn. lia.
    + by eapply live_publish_done.
Qed.

Lemma serving_ends n rd wr : endsFrom (Serving n rd wr).
Proof. destruct rd; [apply reading_ends|apply answering_ends|apply writer_ends]. Qed.

Lemma prepending_ends n frames : endsFrom (Prepending n frames).
Proof.
  intros st s wire HOK Hat. destruct (onOutbox (PrependDocument frames) s) as [[u|e] s'] eqn:Hp.
  - eapply ends_to, moved; [done|apply serving_ends|]. left. by eapply live_prepend.
  - eapply ends_to, moved; [done|apply failing_ends|]. left. by eapply live_prepend_failed.
Qed.

(** Catch-up looks at each of its events once. *)
Lemma projecting_ends n began events frames : endsFrom (Projecting n began events frames).
Proof.
  revert began frames. induction events as [|e events IH]; intros began frames st s wire HOK Hat.
  - eapply ends_to, moved; [done|apply prepending_ends|]. left. by eapply live_projected.
  - destruct (lo_past _ _ HOK) as [older Hpast]. pose proof (seenSince_now began _ _ _ Hpast) as Hv.
    destruct (replayStep policy (steady (lv_store st)) s frames e) as [frames'|e'] eqn:Hr.
    + eapply ends_to, moved; [done|apply IH|]. left. by eapply live_project.
    + eapply ends_to, moved; [done|apply failing_ends|]. left. by eapply live_project_failed.
Qed.

Lemma replaying_ends n from : endsFrom (Replaying n from).
Proof.
  intros st s wire HOK Hat. destruct (EventsSince (lv_store st) (sess_worldID s) from catchUpLimit) as [events|e] eqn:He.
  - eapply ends_to, moved; [done|apply projecting_ends|]. left. by eapply live_events.
  - eapply ends_to, moved; [done|apply failing_ends|]. left. by eapply live_events_failed.
Qed.

Lemma greeting_ends n hello : endsFrom (Greeting n hello).
Proof.
  intros st s wire HOK Hat. destruct (greet (lv_store st) hello s) as [[[s' frame] from]|e] eqn:Hg.
  - eapply ends_to, moved; [done|apply replaying_ends|]. left. by eapply live_greet.
  - eapply ends_to, moved; [done|apply failing_ends|]. left. by eapply live_greet_failed.
Qed.

Lemma joining_ends n hello : endsFrom (Joining n hello).
Proof.
  intros st s wire HOK Hat. eapply ends_at_rest; [done..|]. clear dependent st. clear s.
  intros st s h HOK Hat Hn [[Hpc _]|Hpc]; (eapply ends_to, moved; [done|apply greeting_ends|left]).
  - by eapply live_join.
  - by eapply live_join_done.
Qed.

Lemma authenticated_ends hello : endsFrom (Authenticated hello).
Proof.
  intros st s wire HOK Hat. destruct (hubFor (sess_worldID s) st) as [n st1] eqn:Hf.
  eapply ends_to, moved; [done|apply joining_ends|]. left. by eapply live_hub.
Qed.

(** A connection that fails before its hello is refused. *)
Lemma dialing_ends : endsFrom Dialing.
Proof.
  intros st s wire HOK Hat. eapply ends_to; [done|apply gone_ends| |].
  - left. exact (live_refused _ _ _ _ _ (Err (ErrOther "read hello")) 0 _ s (lv_tickets st) false Hat eq_refl).
  - apply moved.
Qed.

Lemma any_ends ph : endsFrom ph.
Proof.
  destruct ph; auto using dialing_ends, authenticated_ends, joining_ends, greeting_ends, replaying_ends, projecting_ends,
    prepending_ends, failing_ends, serving_ends, leaving_ends, left_ends, gone_ends.
Qed.

(** C6: a session can always be ended.  From every reachable state, whatever a
    session is doing (waiting for its hub to let it join or leave, holding a
    message a full hub has no room for, waiting to be woken), there is a run to
    the end of its [Serve] made only of its own steps and of steps of hubs: no
    other client has to act, and no reply from its own is needed.  At that end no
    hub holds it. *)
Theorem session_can_end store tickets st s ph wire :
  wf store → liveSteps (G := G) auth assetsAt policy backend (liveInit store tickets) st →
  clientAt st id s ph wire →
  ∃ st' s' wire', rtc ownStep st st' ∧ clientAt st' id s' Gone wire' ∧
    ∀ n h, lv_hubs st' !! n = Some h → id ∉ hp_members h.
Proof.
  intros Hwf Hr Hat. assert (OK st) as HOK by (eapply liveSteps_OK, Hr; by apply liveOK_init).
  destruct (any_ends ph st s wire HOK Hat) as (st' & s' & wire' & Hown & Hat').
  exists st', s', wire'. split_and!; [done..|]. intros n h Hn.
  eapply dialing_free; [by eapply ownSteps_OK|exact Hat'|done|done].
Qed.
End End_.
