(* ===== verification/Arrival.v ===== *)
(** * What is published can arrive

    A publication that waits in the queue of a hub can always be brought to a
    session it is for, by steps of that hub and of the session's own writer alone:
    nobody else has to do anything, however many other sessions the hub serves,
    however full the session's outbox is, and wherever its writer waits.  The
    argument goes in rounds, each starting with an empty outbox: the hub comes to
    the session, the writer empties the outbox again. *)

From S2P Require Import Prelude GoStrings Json Perm Storage Redact Access Vision Sight Dice RateLimit Auth Password.
From S2P Require Import Frame Outbox Ticket Hub Session Intents Chat Combat Doors.
From S2P Require Import Blob AssetImage Http Worlds Footprint Scenes Assets Router Server Gateway Entitled Announce.
From S2P Require Import Live LiveSafety LiveRun Steps Delivery LiveEnd.

Local Open Scope Z_scope.

(** ** No frame waits unannounced *)

(** What is done to an outbox by others than its writer either adds no frame, or
    leaves the signal set. *)
Definition rouses (o o' : outbox) : Prop :=
  documentCap o' = documentCap o ∧ ((pending o' = pending o ∧ signal o' = signal o) ∨ signal o' = true).

#[export] Instance rouses_preorder : PreOrder rouses.
Proof.
  split; [intros x; split; [done|by left]|]. intros x y z [E1 [[E2 E3]|E2]] [E4 [[E5 E6]|E5]];
    (split; [congruence|]); try (by right).
  - left. split; congruence.
  - right. congruence.
Qed.

Lemma rouses_refl o : rouses o o.
Proof. reflexivity. Qed.

#[export] Hint Resolve rouses_refl : core.

Lemma rouses_control f o : rouses o (PushControl f o).2.
Proof. unfold PushControl. destruct (closed o); [done|]. split; [done|by right]. Qed.

Lemma rouses_document f o : rouses o (PushDocument f o).2.
Proof.
  unfold PushDocument. destruct (closed o); [done|]. destruct (_ <=? _); (split; [done|]); [by left|by right].
Qed.

Lemma rouses_ephemeral k f o : rouses o (PushEphemeral k f o).2.
Proof.
  unfold PushEphemeral. destruct (closed o); [done|]. destruct (_ !! k); [split; [done|by right]|].
  split; [|by right]. unfold evictOldest. destruct (_ <=? _); [|done]. by destruct (order o).
Qed.

Lemma rouses_prepend fs o : rouses o (PrependDocument fs o).2.
Proof.
  unfold PrependDocument. destruct (isNil fs); [done|]. destruct (closed o); [done|]. split; [done|by right].
Qed.

Lemma rouses_close o : rouses o (Outbox.Close o).
Proof. unfold Outbox.Close. destruct (closed o); [done|]. split; [done|by right]. Qed.

Definition sessionRouses (s s' : Session) : Prop := rouses (sess_outbox s) (sess_outbox s').

#[export] Instance sessionRouses_preorder : PreOrder sessionRouses.
Proof. split; [intros x; apply rouses_refl|]. intros x y z Hx Hy. unfold sessionRouses in *. by etrans. Qed.

Lemma sessionRouses_refl s : sessionRouses s s.
Proof. reflexivity. Qed.

#[export] Hint Resolve sessionRouses_refl : core.

Lemma onOutbox_rouses {A} (m : M outbox A) s :
  rouses (sess_outbox s) (m (sess_outbox s)).2 → sessionRouses s (onOutbox m s).2.
Proof. unfold onOutbox, sessionRouses. by destruct (m (sess_outbox s)) as [r o]. Qed.

Lemma pushControl_rouses f s : sessionRouses s (pushControl f s).
Proof. apply onOutbox_rouses, rouses_control. Qed.

Lemma pushDocument_rouses f s : sessionRouses s (pushDocument f s).
Proof. apply onOutbox_rouses, rouses_document. Qed.

Lemma readFinish_rouses a s : sessionRouses s (readFinish a s).
Proof. destruct a as [[n r]|]; [apply pushDocument_rouses|done]. Qed.

Lemma readStart_rouses {S} `{Tx S} router received s (store : S) s' store' rd :
  readStart router received s store = (s', store', rd) → sessionRouses s s'.
Proof.
  unfold readStart.
  assert (∀ x : S, ∀ f r, (pushControl f s, x, r) = (s', store', rd) → sessionRouses s s') as Hpush.
  { intros x f r [= <- _ _]. apply pushControl_rouses. }
  destruct received as [f|]; [|by apply Hpush]. case_bool_decide; [by apply Hpush|]. case_bool_decide.
  - destruct (frame_Intent f) as [i|]; [|by apply Hpush].
    destruct (router !! intent_Kind i); [by intros [= <- _ _]|]. intros [= <- _ _]. apply pushDocument_rouses.
  - case_bool_decide; [|by apply Hpush]. unfold handleEphemeral.
    destruct (frame_Ephemeral f); [|by apply Hpush]. case_bool_decide; [by apply Hpush|by intros [= <- _ _]].
Qed.

Lemma fanned_rouses p id s : sessionRouses s (fanned p id s).1.
Proof.
  unfold fanned. destruct (frameFor p id s) as [f|]; [|done].
  assert (sessionRouses s (deliver p f s).2) as Hd.
  { unfold deliver. destruct (pub_Lane p); apply onOutbox_rouses;
      auto using rouses_control, rouses_document, rouses_ephemeral. }
  destruct (deliver p f s) as [[u|e] s1]; cbn [fst snd] in *; [done|]. etrans; [done|].
  etrans; [apply (onOutbox_rouses (PushControl (resyncFrame "slow consumer" (sess_lastSeq s1)))), rouses_control|].
  apply rouses_close.
Qed.

(** The writer's point of view: at its select with nothing to wake it, there is
    nothing to write. *)
Definition awake (s : Session) (wr : writing) : Prop :=
  match wr with
  | At Checking | At Waiting => pending (sess_outbox s) = 0%nat ∨ signal (sess_outbox s) = true
  | _ => True
  end.

Lemma awake_rouses s s' wr : sessionRouses s s' → awake s wr → awake s' wr.
Proof.
  intros [_ [[Hp Hs]|Hs]]; destruct wr as [[]|]; cbn; try done; try (by rewrite Hp, Hs); by right.
Qed.

(** The document lane has room for at least one frame. *)
Definition wakeful (s : Session) (ph : phase) : Prop :=
  0 < documentCap (sess_outbox s) ∧ ∀ n rd wr, ph = Serving n rd wr → awake s wr.

Lemma Pop_cap o g o' : Pop o = (g, o') → documentCap o' = documentCap o.
Proof.
  unfold Pop. destruct (control o) as [|c cs]; [|by intros [= _ <-]].
  destruct (document o) as [|d ds]; [|by intros [= _ <-]].
  by destruct (order o) as [|k ks]; intros [= _ <-].
Qed.

Lemma Pop_empty o o' : Pop o = (None, o') → pending o = 0%nat.
Proof.
  unfold Pop, pending. destruct (control o); [|done]. destruct (document o); [|done]. by destruct (order o).
Qed.

(** ** Rounds *)

Lemma pending_empty o : pending o = 0%nat → control o = [] ∧ document o = [] ∧ order o = [].
Proof. unfold pending. destruct (control o), (document o), (order o); cbn; try lia. done. Qed.

Lemma evictOldest_closed o : closed (evictOldest o) = closed o.
Proof. unfold evictOldest. destruct (_ <=? _); [|done]. by destruct (order o). Qed.

(** An open, empty outbox takes what a fan-out brings. *)
Lemma fanned_empty (D : Frame → Prop) p id s :
  pending (sess_outbox s) = 0%nat → closed (sess_outbox s) = false → 0 < documentCap (sess_outbox s) →
  boxOK D (sess_outbox s) → (∀ f, frameFor p id s = Some f → D f) →
  (fanned p id s).2 = true ∧ closed (sess_outbox (fanned p id s).1) = false ∧ boxOK D (sess_outbox (fanned p id s).1).
Proof.
  intros (_ & Hd & _)%pending_empty Hop Hcap HD Hf. unfold fanned. destruct (frameFor p id s) as [f|]; [|done].
  specialize (Hf f eq_refl). unfold deliver, onOutbox.
  assert (∀ o, PushDocument f (sess_outbox s) = o → o.1 = Ok tt ∧ closed o.2 = false) as Hdoc.
  { intros o <-. unfold PushDocument. rewrite Hop, Hd. cbn. by rewrite (proj2 (Z.leb_gt _ _)). }
  destruct (pub_Lane p).
  - pose proof (boxOK_control D f _ Hf HD) as HB. unfold PushControl in *. by rewrite Hop in *.
  - pose proof (boxOK_document D f _ Hf HD) as HB. destruct (PushDocument f (sess_outbox s)) as [r o].
    destruct (Hdoc _ eq_refl) as [E1 E2]. cbn in E1, E2. by subst r.
  - pose proof (boxOK_ephemeral D (pub_Key p) f _ Hf HD) as HB. unfold PushEphemeral in *. rewrite Hop in *.
    destruct (ephemeral (sess_outbox s) !! pub_Key p); [done|]. split_and!; [done| |done].
    cbn. by rewrite evictOldest_closed.
  - pose proof (boxOK_document D f _ Hf HD) as HB. destruct (PushDocument f (sess_outbox s)) as [r o].
    destruct (Hdoc _ eq_refl) as [E1 E2]. cbn in E1, E2. by subst r.
Qed.

Section Arrival.
Context `{Unicode} `{Argon2} `{ImageCodecs} {G : Type} `{DiceSource G} {S : Type} `{TxLaws S} `{!FrameLaws S}.
Variables (auth : AuthDeps) (assetsAt : AssetDeps) (policy : FieldPolicy) (backend : string).
Local Abbreviation live := (live (S := S)).
Local Abbreviation step := (liveStep (G := G) auth assetsAt policy backend).
Local Abbreviation OK := (liveOK policy).
Implicit Types st : live.

Definition wakefulOK st : Prop := ∀ id s ph wire, clientAt st id s ph wire → wakeful s ph.

Lemma NewSession_cap id d e : 0 < documentCap (sess_outbox (NewSession id d e)).
Proof. cbn. destruct (d <=? 0) eqn:E; [done|]. by apply Z.leb_gt. Qed.

(** A step that leaves the writer where it is. *)
Lemma wakeful_rouses s s' ph ph' :
  sessionRouses s s' → (∀ n rd wr, ph' = Serving n rd wr → (∃ rd', ph = Serving n rd' wr) ∨ wr = At Popping) →
  wakeful s ph → wakeful s' ph'.
Proof.
  intros Hr Hph [Hcap Hw]. split; [by rewrite (proj1 Hr)|]. intros n rd wr Hs.
  destruct (Hph _ _ _ Hs) as [[rd' ->]| ->]; [|done]. eapply awake_rouses; [done|]. by eapply Hw.
Qed.

Lemma wakeful_own id st st' s ph wire s' ph' wire' :
  step (OfSession id) st st' → clientAt st id s ph wire → clientAt st' id s' ph' wire' →
  wakeful s ph → wakeful s' ph'.
Proof.
  intros Hstep Hat Hat' Hw. destruct Hstep as [Hs|[Hs|Hs]].
  - destruct Hs as [st id s1 wire1 received now hello s2 ts Hc Ha|st id s1 wire1 received now e s2 ts sent Hc Ha| | | |
      st id s1 wire1 m hello s2 frame from Hc Hg|st id s1 wire1 m hello s2 frame from e Hc Hg| | | | | | |
      st id s1 wire1 m frames s2 u Hc Hp|st id s1 wire1 m frames s2 e Hc Hp| | | | |]; same_client;
      (eapply wakeful_rouses; [|by intros ? ? ? [= <- <- <-]; auto|exact Hw]); try done.
    + unfold sessionRouses. by rewrite (authenticate_cases _ _ _ _ _ _ _ _ Ha).
    + unfold sessionRouses. by rewrite (authenticate_cases _ _ _ _ _ _ _ _ Ha).
    + apply bind_Ok in Hg as (world & _ & [= <- _ _]). apply rouses_refl.
    + apply bind_Ok in Hg as (world & _ & [= <- _ _]). apply rouses_refl.
    + pose proof (onOutbox_rouses (PrependDocument frames) s1 (rouses_prepend _ _)) as Hb. by rewrite Hp in Hb.
    + pose proof (onOutbox_rouses (PrependDocument frames) s1 (rouses_prepend _ _)) as Hb. by rewrite Hp in Hb.
    + apply rouses_close.
  - destruct Hs as [st id s1 wire1 m wr now i at_ source probe g received s2 store' rd Hc Hr| | | |]; same_client;
      (eapply wakeful_rouses; [|intros ? ? ? [= <- <- <-]; by left; eexists|exact Hw]); try done.
    + by eapply readStart_rouses.
    + apply readFinish_rouses.
    + apply rouses_close.
  - destruct Hw as [Hcap Hw].
    destruct Hs as [st id s1 wire1 m rd f o Hc Hp| | | |st id s1 wire1 m rd o Hc Hp| | | |]; same_client;
      split; try done; try (by intros ? ? ? [= <- <- <-]).
    + cbn. by rewrite (Pop_cap _ _ _ Hp).
    + intros ? ? ? [= <- <- <-]. left. by eapply Pop_empty.
    + intros ? ? ? [= <- <- <-]. exact (Hw _ _ _ eq_refl).
Qed.

Lemma wakefulOK_step a st st' :
  OK st → attendOK st → running st' → step a st st' → wakefulOK st → wakefulOK st'.
Proof.
  intros HOK HA Hrun' Hstep HW id s' ph' wire' Hat'.
  destruct (session_moves auth assetsAt policy backend _ _ _ _ _ _ _ HOK (ao_runs _ HA) Hrun' Hstep Hat')
    as [(-> & _ & d & e & ->)|(s & ph & wire & Hat & [->|(-> & _ & Hs)])].
  - split; [apply NewSession_cap|done].
  - by eapply wakeful_own, HW.
  - apply (wakeful_rouses s s' ph ph); [|intros n rd wr ->; left; by eexists|by eapply HW].
    destruct Hs as [->|(m & h & p & rest & _ & _ & _ & ->)]; [done|apply fanned_rouses].
Qed.

Lemma reachable_wakeful store tickets st :
  wf store → liveSteps (G := G) auth assetsAt policy backend (liveInit store tickets) st → running st →
  OK st ∧ attendOK st ∧ wakefulOK st.
Proof.
  intros Hwf Hr. assert (wakefulOK (liveInit store tickets)) as HW.
  { intros id s ph wire [Hs _]. cbn in Hs. by rewrite lookup_empty in Hs. }
  pose proof (liveOK_init policy store tickets Hwf) as HOK. pose proof (attendOK_init store tickets) as HA.
  revert HOK HA HW. induction Hr as [|st0 st1 st [a Hs] Hr IH]; intros HOK HA HW Hrun; [done|].
  pose proof (running_before auth assetsAt policy backend _ _ Hr Hrun) as Hrun1. apply IH; [| | |done].
  - by eapply liveStep_OK.
  - exact (attendOK_step _ _ _ _ _ _ _ HOK HA Hrun1 Hs).
  - exact (wakefulOK_step _ _ _ HOK HA Hrun1 Hs HW).
Qed.

Section Rounds.
Variables (n : nat) (id : string) (q : Z).

(** Steps of the hub and of the session's writer. *)
Definition helpStep st st' : Prop := hubRunStep n st st' ∨ writeLoopStep id st st'.

Lemma helped_OK st st' : OK st → rtc helpStep st st' → OK st'.
Proof.
  intros HOK. induction 1 as [|st st1 st' [Hs|Hs] _ IH]; [done|..]; apply IH.
  - by eapply hubRunStep_OK.
  - by eapply writeLoopStep_OK.
Qed.

Definition below (f : Frame) : Prop := ∀ k, eventSeq f = Some k → k < q.

(** The session is served, and nothing that waits in it overtakes event [q]. *)
Record ready st (s : Session) (rd : reading) (wr : writing) (wire : list Frame) : Prop := {
  rd_at : clientAt st id s (Serving n rd wr) wire;
  rd_writes : wr ≠ At Done;
  rd_open : closed (sess_outbox s) = false;
  rd_seq : sess_lastSeq s < q;
  rd_box : boxOK below (sess_outbox s);
  rd_held : ∀ f, wr = Holding f → below f;
  rd_awake : awake s wr;
  rd_room : 0 < documentCap (sess_outbox s)
}.

(** What a session can come to with its outbox emptied. *)
Definition drained st (s : Session) (rd : reading) : Prop :=
  ∃ st' s' wr wire, rtc helpStep st st' ∧ ready st' s' rd wr wire ∧ pending (sess_outbox s') = 0%nat ∧
    lv_hubs st' = lv_hubs st ∧ sameReader s s' ∧ ∀ f, wr ≠ Holding f.

Lemma drained_step st st' s s' rd :
  helpStep st st' → lv_hubs st' = lv_hubs st → sameReader s s' → drained st' s' rd → drained st s rd.
Proof.
  intros Hs Hh Hr (st2 & s2 & wr & wire & Hs2 & Hready & Hp & Hh2 & Hr2 & Hwr).
  exists st2, s2, wr, wire. split_and!; [by eapply rtc_l|done|done|congruence|by etrans|done].
Qed.

Lemma below_zero : below zeroFrame.
Proof. by intros k. Qed.

Lemma popping_drains k : ∀ st s rd wire,
  pending (sess_outbox s) = k → ready st s rd (At Popping) wire → drained st s rd.
Proof.
  induction k as [k IH] using lt_wf_ind. intros st s rd wire Hk Hready.
  pose proof Hready as [Hat _ Hop Hseq Hbox _ _ Hroom].
  destruct (Pop (sess_outbox s)) as [[f|] o] eqn:Hp.
  2:{ exists st, s, (At Popping), wire. split_and!; [done|done|by eapply Pop_empty|done|done|done]. }
  destruct (boxOK_pop _ _ _ _ below_zero Hbox Hp) as [Hbox' Hf]. specialize (Hf f eq_refl).
  set (s1 := with_outbox o s). set (st1 := moveTo id s1 (Serving n rd (Holding f)) wire st).
  apply (drained_step st st1 s s1); [right; by apply live_pop|done|done|].
  assert (∀ s2 wire2, s2 = s1 ∨ (∃ x, s2 = storeLastSeq x s1 ∧ x < q) →
    ready (moveTo id s2 (Serving n rd (At Popping)) wire2 st1) s2 rd (At Popping) wire2) as Hnext.
  { intros s2 wire2 Hs2.
    assert (sess_outbox s2 = o ∧ sess_lastSeq s2 < q) as [Ho Hseq2] by (destruct Hs2 as [->|(x & -> & ?)]; done).
    split; try done; rewrite ?Ho; [apply clientAt_moved; by left| |done|].
    - by rewrite (Pop_closed _ _ _ Hp).
    - by rewrite (Pop_cap _ _ _ Hp). }
  assert (clientAt st1 id s1 (Serving n rd (Holding f)) wire) as Hat1 by (apply clientAt_moved; by left).
  assert (pending o < k)%nat as Hlt by (rewrite <-Hk; by eapply Pop_pending).
  destruct (writeFilter f (sess_lastSeq s1)) as [[g|] x] eqn:Hw.
  - apply (drained_step st1 (moveTo id (storeLastSeq x s1) (Serving n rd (At Popping)) (wire ++ [g]) st1) s1 (storeLastSeq x s1));
      [right; exact (live_write _ _ _ _ _ _ _ _ _ true Hat1 Hw)|done|done|].
    eapply (IH _ Hlt); [done|]. apply Hnext. right. exists x. split; [done|].
    pose proof (writeFilter_spec f (sess_lastSeq s1)) as Hspec. rewrite Hw in Hspec.
    destruct (eventSeq f) as [k1|] eqn:Ek; [|by injection Hspec as _ ->].
    destruct (k1 <=? _); [done|]. injection Hspec as _ ->. by apply Hf.
  - apply (drained_step st1 (moveTo id s1 (Serving n rd (At Popping)) wire st1) s1 s1);
      [right; by eapply live_skip|done|done|].
    eapply (IH _ Hlt); [done|]. apply Hnext. by left.
Qed.

(** The writer moves on without touching a frame. *)
Lemma ready_writer st s rd wr wire s' wr' :
  ready st s rd wr wire → s' = s ∨ s' = with_outbox (clearSignal (sess_outbox s)) s →
  wr' ≠ At Done → (∀ f, wr' ≠ Holding f) → awake s' wr' →
  ready (moveTo id s' (Serving n rd wr') wire st) s' rd wr' wire.
Proof.
  intros [Hat _ Hop Hseq Hbox _ _ Hroom] Hs Hwr Hh Haw.
  assert (boxOK below (sess_outbox s')) by (destruct Hs as [->| ->]; [done|by eapply boxOK_same, Hbox]).
  destruct Hs as [->| ->]; (split; [apply clientAt_moved; by left|done|done|done|done|by intros f ?%Hh|done|done]).
Qed.

(** Wherever its writer is, a session comes to an empty outbox. *)
Lemma drains st s rd wr wire : ready st s rd wr wire → drained st s rd.
Proof.
  intros Hready. pose proof Hready as [Hat Hwr Hop Hseq Hbox Hheld Haw Hroom].
  assert (∀ st s wire, ready st s rd (At Waiting) wire → signal (sess_outbox s) = true → drained st s rd) as Hwaiting.
  { clear. intros st s wire Hready Hsig. eapply drained_step; [right; eapply live_woken; [apply Hready|done]|done| |].
    2:{ eapply popping_drains; [done|]. eapply ready_writer; [exact Hready|by right|done..]. }
    by split_and!. }
  destruct wr as [[]|f]; [by eapply popping_drains| | |done|].
  - cbn in Haw. destruct (decide (pending (sess_outbox s) = 0%nat)) as [Hp|Hp].
    { by exists st, s, (At Checking), wire. }
    destruct Haw as [?|Hsig]; [done|]. eapply drained_step; [right; by eapply live_open|done|done|].
    eapply Hwaiting; [|done]. eapply ready_writer; [exact Hready|by left|done|done|by right].
  - cbn in Haw. destruct (decide (pending (sess_outbox s) = 0%nat)) as [Hp|Hp].
    { by exists st, s, (At Waiting), wire. }
    destruct Haw as [?|Hsig]; [done|]. by eapply Hwaiting.
  - destruct (writeFilter f (sess_lastSeq s)) as [[g|] x] eqn:Hw.
    + eapply drained_step; [right; exact (live_write _ _ _ _ _ _ _ _ _ true Hat Hw)|done| |].
      2:{ eapply popping_drains; [done|].
          split; [apply clientAt_moved; by left|done|exact Hop| |exact Hbox|done|done|exact Hroom].
          pose proof (writeFilter_spec f (sess_lastSeq s)) as Hspec. rewrite Hw in Hspec.
          destruct (eventSeq f) as [k1|] eqn:Ek; [|by injection Hspec as _ ->].
          destruct (k1 <=? _); [done|]. injection Hspec as _ ->. by apply (Hheld f). }
      by split_and!.
    + eapply drained_step; [right; by eapply live_skip|done|done|].
      eapply popping_drains; [done|]. eapply ready_writer; [exact Hready|by left|done..].
Qed.

(** The frame that alone waits in the document lane is written next. *)
Lemma writes_next st s rd wr wire f :
  clientAt st id s (Serving n rd wr) wire → wr = At Popping ∨ wr = At Checking ∨ wr = At Waiting →
  closed (sess_outbox s) = false → signal (sess_outbox s) = true →
  control (sess_outbox s) = [] → document (sess_outbox s) = [f] → eventSeq f = Some q → sess_lastSeq s < q →
  ∃ st' s' wire', rtc helpStep st st' ∧ clientAt st' id s' (Serving n rd (At Popping)) wire' ∧ f ∈ wire'.
Proof.
  intros Hat Hwr Hop Hsig Hc Hd Hq Hlt.
  assert (∀ st s, clientAt st id s (Serving n rd (At Popping)) wire →
    control (sess_outbox s) = [] → document (sess_outbox s) = [f] → sess_lastSeq s < q →
    ∃ st' s' wire', rtc helpStep st st' ∧ clientAt st' id s' (Serving n rd (At Popping)) wire' ∧ f ∈ wire') as Hpopping.
  { clear st s Hat Hwr Hop Hsig Hc Hd Hlt. intros st s Hat Hc Hd Hlt.
    destruct (Pop (sess_outbox s)) as [g o] eqn:Hp. pose proof Hp as Hp'. unfold Pop in Hp'. rewrite Hc, Hd in Hp'.
    injection Hp' as <- _. set (st1 := moveTo id (with_outbox o s) (Serving n rd (Holding f)) wire st).
    assert (clientAt st1 id (with_outbox o s) (Serving n rd (Holding f)) wire) as Hat1 by (apply clientAt_moved; by left).
    pose proof (writeFilter_spec f (sess_lastSeq (with_outbox o s))) as Hspec. rewrite Hq in Hspec.
    rewrite (proj2 (Z.leb_gt _ _)) in Hspec by done. eexists _, _, (wire ++ [f]). split_and!.
    - eapply rtc_l; [right; by apply live_pop|]. apply rtc_once. right. exact (live_write _ _ _ _ _ _ _ _ _ true Hat1 Hspec).
    - apply clientAt_moved. by left.
    - apply elem_of_app. right. by apply list_elem_of_singleton. }
  assert (∀ st, clientAt st id s (Serving n rd (At Waiting)) wire →
    ∃ st' s' wire', rtc helpStep st st' ∧ clientAt st' id s' (Serving n rd (At Popping)) wire' ∧ f ∈ wire') as Hwaiting.
  { clear st Hat. intros st Hat.
    destruct (Hpopping (moveTo id (with_outbox (clearSignal (sess_outbox s)) s) (Serving n rd (At Popping)) wire st)
      (with_outbox (clearSignal (sess_outbox s)) s)) as (st' & s' & wire' & Hs & Hat' & Hf);
      [apply clientAt_moved; by left|done|done|done|].
    exists st', s', wire'. split; [|done]. eapply rtc_l; [right; by apply live_woken|done]. }
  destruct Hwr as [->|[->| ->]]; [by eapply Hpopping| |by apply Hwaiting].
  destruct (Hwaiting (moveTo id s (Serving n rd (At Waiting)) wire st)) as (st' & s' & wire' & Hs & Hat' & Hf);
    [apply clientAt_moved; by left|].
  exists st', s', wire'. split; [|done]. eapply rtc_l; [right; by apply live_open|done].
Qed.

(** ** The hub comes to the session *)

(** Other sessions are visited without touching this one. *)
Lemma visits_others p r1 r : ∀ st h,
  OK st → lv_hubs st !! n = Some h → hp_pc h = HubFanning p (r1 ++ r) → id ∉ r1 → id ∈ hp_members h →
  ∃ st' h', rtc helpStep st st' ∧ lv_hubs st' !! n = Some h' ∧ hp_pc h' = HubFanning p r ∧
    hp_queue h' = hp_queue h ∧ id ∈ hp_members h' ∧
    ∀ s ph wire, clientAt st id s ph wire → clientAt st' id s ph wire.
Proof.
  induction r1 as [|j r1 IH]; intros st h HOK Hn Hpc Hni Hin; [by exists st, h|].
  apply not_elem_of_cons in Hni as [Hne Hni]. destruct (lo_rest _ _ HOK _ _ Hn) as (_ & Hsub & _). rewrite Hpc in Hsub.
  destruct (lo_members _ _ HOK _ _ j Hn) as (sj & phj & wirej & [Hsj _] & _); [apply Hsub; left|].
  set (hs := fanOutStep p (MkHubState (hp_members h) (lv_heap st)) j).
  set (h1 := withPc (HubFanning p (r1 ++ r)) (withMembers (hub_sessions hs) h)).
  assert (helpStep st (setHeap (hub_heap hs) (setHub n h1 st))) as Hs by (left; by eapply live_fan).
  destruct (fanOutStep_heap p (hp_members h) (lv_heap st) j sj Hsj) as [Hheap Hmem]. fold hs in Hheap, Hmem.
  destruct (IH (setHeap (hub_heap hs) (setHub n h1 st)) h1) as (st' & h' & Hr & Hn' & Hpc' & Hq & Hin' & Hst).
  { by eapply helped_OK, rtc_once. } { apply lookup_insert_eq. } { done. } { done. }
  { cbn. destruct Hmem as [-> | ->]; [done|]. set_solver. }
  exists st', h'. split_and!; [by eapply rtc_l|done..|]. intros s ph wire [E1 E2]. apply Hst. split; [|done].
  cbn. rewrite Hheap. by rewrite lookup_insert_ne.
Qed.

(** A visit to the session. *)
Lemma visits_session p r st h s ph wire :
  lv_hubs st !! n = Some h → hp_pc h = HubFanning p (id :: r) → id ∈ hp_members h →
  clientAt st id s ph wire → (fanned p id s).2 = true →
  ∃ st' h', helpStep st st' ∧ lv_hubs st' !! n = Some h' ∧ hp_pc h' = HubFanning p r ∧
    hp_queue h' = hp_queue h ∧ id ∈ hp_members h' ∧ clientAt st' id (fanned p id s).1 ph wire.
Proof.
  intros Hn Hpc Hin [Hs Hc] Hf. set (hs := fanOutStep p (MkHubState (hp_members h) (lv_heap st)) id).
  set (h1 := withPc (HubFanning p r) (withMembers (hub_sessions hs) h)).
  exists (setHeap (hub_heap hs) (setHub n h1 st)), h1. split_and!; [left; by eapply live_fan|apply lookup_insert_eq|done|done| |].
  - change (id ∈ hub_sessions hs). unfold hs. by rewrite (fanOutStep_sessions _ _ _ _ s Hs), Hf.
  - split; [|done]. change (hub_heap hs !! id = Some (fanned p id s).1). unfold hs.
    rewrite (proj1 (fanOutStep_heap p _ _ id s Hs)). apply lookup_insert_eq.
Qed.

(** The hub can finish a fan-out that does not overtake. *)
Definition served st (s : Session) (rd : reading) (q0 : list Publication) (pc : hubPc) : Prop :=
  ∃ st' h s' wr wire, rtc helpStep st st' ∧ OK st' ∧ lv_hubs st' !! n = Some h ∧ hp_pc h = pc ∧ hp_queue h = q0 ∧
    id ∈ hp_members h ∧ ready st' s' rd wr wire ∧ sameReader s s'.

Lemma ready_elsewhere st st' s rd wr wire :
  ready st s rd wr wire → (∀ s ph wire, clientAt st id s ph wire → clientAt st' id s ph wire) → ready st' s rd wr wire.
Proof. intros [] Hat. split; auto. Qed.

Lemma rests_of_fan p st h s rd wr wire :
  OK st → lv_hubs st !! n = Some h → hp_pc h = HubFanning p [] → id ∈ hp_members h → ready st s rd wr wire →
  served st s rd (hp_queue h) HubIdle.
Proof.
  intros HOK Hn Hpc Hin Hready.
  assert (helpStep st (setHub n (withPc HubIdle h) st)) as Hs by (left; by eapply live_fanned).
  eexists _, _, s, wr, wire. split_and!; [by apply rtc_once|by eapply helped_OK, rtc_once|apply lookup_insert_eq|done..| |done].
  by eapply ready_elsewhere.
Qed.

Lemma served_after st st1 s s1 rd q0 pc :
  rtc helpStep st st1 → sameReader s s1 → served st1 s1 rd q0 pc → served st s rd q0 pc.
Proof.
  intros Hs Hr (st' & h & s' & wr & wire & Hs' & HOK & Hn & Hpc & Hq & Hin & Hready & Hr').
  exists st', h, s', wr, wire. split_and!; [by etrans|done..|by etrans].
Qed.

(** To the session's turn in a fan-out, its outbox empty. *)
Lemma comes_to_session p rest st h s rd wr wire :
  OK st → lv_hubs st !! n = Some h → hp_pc h = HubFanning p rest → id ∈ rest → id ∈ hp_members h →
  ready st s rd wr wire →
  ∃ st' h' s' wr' wire' r, rtc helpStep st st' ∧ OK st' ∧ lv_hubs st' !! n = Some h' ∧
    hp_pc h' = HubFanning p (id :: r) ∧ id ∉ r ∧ hp_queue h' = hp_queue h ∧ id ∈ hp_members h' ∧
    ready st' s' rd wr' wire' ∧ pending (sess_outbox s') = 0%nat ∧ (∀ f, wr' ≠ Holding f) ∧ sameReader s s'.
Proof.
  intros HOK Hn Hpc Hrest Hin Hready. destruct (lo_rest _ _ HOK _ _ Hn) as (Hnd & _ & _). rewrite Hpc in Hnd. cbn in Hnd.
  apply list_elem_of_split in Hrest as (r1 & r & ->). apply NoDup_app in Hnd as (_ & Hni & Hnd).
  apply NoDup_cons in Hnd as [Hnr _].
  destruct (visits_others p r1 (id :: r) st h HOK Hn Hpc) as (st1 & h1 & Hs1 & Hn1 & Hpc1 & Hq1 & Hin1 & Hat1); [|done|].
  { intros Hr1. apply (Hni _ Hr1). left. }
  destruct (drains st1 s rd wr wire) as (st2 & s2 & wr2 & wire2 & Hs2 & Hready2 & Hp2 & Hh2 & Hr2 & Hwr2);
    [by eapply ready_elsewhere|].
  exists st2, h1, s2, wr2, wire2, r.
  split_and!; [by etrans|eapply helped_OK; [exact HOK|by etrans]|by rewrite Hh2|done..].
Qed.

Lemma finishes_fan p rest st h s rd wr wire :
  OK st → lv_hubs st !! n = Some h → hp_pc h = HubFanning p rest → id ∈ hp_members h → ready st s rd wr wire →
  (∀ f, frameFor p id s = Some f → below f) → served st s rd (hp_queue h) HubIdle.
Proof.
  intros HOK Hn Hpc Hin Hready Hbelow. destruct (decide (id ∈ rest)) as [Hrest|Hrest].
  - destruct (comes_to_session _ _ _ _ _ _ _ _ HOK Hn Hpc Hrest Hin Hready)
      as (st1 & h1 & s1 & wr1 & wire1 & r & Hs1 & HOK1 & Hn1 & Hpc1 & Hnr & Hq1 & Hin1 & Hready1 & Hp1 & Hwr1 & Hr1).
    pose proof Hready1 as [Hat1 Hw1 Hop1 Hseq1 Hbox1 Hheld1 Haw1 Hroom1].
    destruct (fanned_empty below p id s1 Hp1 Hop1 Hroom1 Hbox1) as (Hstay & Hop2 & Hbox2).
    { intros f. rewrite (frameFor_reader _ _ _ _ Hr1). apply Hbelow. }
    destruct (visits_session _ _ _ _ _ _ _ Hn1 Hpc1 Hin1 Hat1 Hstay) as (st2 & h2 & Hs2 & Hn2 & Hpc2 & Hq2 & Hin2 & Hat2).
    destruct (fanned_grows p id s1) as [(Hr2 & Hseq2 & _) _]. pose proof (fanned_rouses p id s1) as Hrouse.
    assert (ready st2 (fanned p id s1).1 rd wr1 wire1) as Hready2.
    { split; [done|done|done|by rewrite Hseq2|done|done|by eapply awake_rouses|by rewrite (proj1 Hrouse)]. }
    assert (OK st2) as HOK2 by (by eapply helped_OK, rtc_once).
    destruct (visits_others p r [] st2 h2 HOK2 Hn2) as (st3 & h3 & Hs3 & Hn3 & Hpc3 & Hq3 & Hin3 & Hat3);
      [by rewrite app_nil_r|done|done|].
    eapply served_after; [etrans; [exact Hs1|]; eapply rtc_l; [exact Hs2|exact Hs3]|by etrans|].
    rewrite <-Hq1, <-Hq2, <-Hq3. eapply rests_of_fan; [by eapply helped_OK|done|done|done|by eapply ready_elsewhere].
  - destruct (visits_others p rest [] st h HOK Hn) as (st1 & h1 & Hs1 & Hn1 & Hpc1 & Hq1 & Hin1 & Hat1);
      [by rewrite app_nil_r|done|done|].
    eapply served_after; [exact Hs1|done|]. rewrite <-Hq1.
    eapply rests_of_fan; [by eapply helped_OK|done|done|done|by eapply ready_elsewhere].
Qed.

(** The hub works off what waits in front of a publication. *)
Lemma takes_publication p post pre : ∀ st h s rd wr wire,
  OK st → lv_hubs st !! n = Some h → hp_pc h = HubIdle → hp_queue h = pre ++ p :: post → id ∈ hp_members h →
  ready st s rd wr wire → (∀ p' f, p' ∈ pre → frameFor p' id s = Some f → below f) →
  ∃ rest, id ∈ rest ∧ served st s rd post (HubFanning p rest).
Proof.
  induction pre as [|p0 pre IH]; intros st h s rd wr wire HOK Hn Hpc Hq Hin Hready Hbelow.
  - exists (elements (hp_members h)). split; [by apply elem_of_elements|].
    assert (helpStep st (setHub n (withPc (HubFanning p (elements (hp_members h))) (withQueue post h)) st)) as Hs
      by (left; by eapply live_take).
    eexists _, _, s, wr, wire.
    split_and!; [by apply rtc_once|by eapply helped_OK, rtc_once|apply lookup_insert_eq|done..| |done].
    by eapply ready_elsewhere.
  - set (h1 := withPc (HubFanning p0 (elements (hp_members h))) (withQueue (pre ++ p :: post) h)).
    assert (helpStep st (setHub n h1 st)) as Hs by (left; by eapply live_take).
    destruct (finishes_fan p0 (elements (hp_members h)) (setHub n h1 st) h1 s rd wr wire)
      as (st2 & h2 & s2 & wr2 & wire2 & Hs2 & HOK2 & Hn2 & Hpc2 & Hq2 & Hin2 & Hready2 & Hr2).
    { by eapply helped_OK, rtc_once. } { apply lookup_insert_eq. } { done. } { done. } { by eapply ready_elsewhere. }
    { intros f. apply Hbelow. left. }
    destruct (IH st2 h2 s2 rd wr2 wire2 HOK2 Hn2 Hpc2 Hq2 Hin2 Hready2) as (rest & Hrest & Hserved).
    { intros p' f Hp'. rewrite (frameFor_reader _ _ _ _ Hr2). apply Hbelow. by right. }
    exists rest. split; [done|]. eapply served_after; [eapply rtc_l; [exact Hs|exact Hs2]|done|done].
Qed.

(** In its fan-out, a publication comes to the wire. *)
Lemma fan_delivers p rest st h s rd wr wire f :
  OK st → lv_hubs st !! n = Some h → hp_pc h = HubFanning p rest → id ∈ rest → id ∈ hp_members h →
  ready st s rd wr wire → pub_Lane p = LaneDocument → frameFor p id s = Some f → eventSeq f = Some q →
  ∃ st' s' wr' wire', rtc helpStep st st' ∧ clientAt st' id s' (Serving n rd wr') wire' ∧ f ∈ wire'.
Proof.
  intros HOK Hn Hpc Hrest Hin Hready Hlane Hf Hq.
  destruct (comes_to_session _ _ _ _ _ _ _ _ HOK Hn Hpc Hrest Hin Hready)
    as (st1 & h1 & s1 & wr1 & wire1 & r & Hs1 & HOK1 & Hn1 & Hpc1 & Hnr & Hq1 & Hin1 & Hready1 & Hp1 & Hwr1 & Hr1).
  pose proof Hready1 as [Hat1 Hw1 Hop1 Hseq1 _ _ _ Hroom1]. rewrite <-(frameFor_reader _ _ _ _ Hr1) in Hf.
  destruct (pending_empty _ Hp1) as (Hc & Hd & _).
  assert (fanned p id s1 = (with_outbox (PushDocument f (sess_outbox s1)).2 s1, true)) as Hfan.
  { unfold fanned. rewrite Hf. unfold deliver, onOutbox. rewrite Hlane. unfold PushDocument. rewrite Hop1, Hd. cbn.
    by rewrite (proj2 (Z.leb_gt _ _)). }
  destruct (visits_session _ _ _ _ _ _ _ Hn1 Hpc1 Hin1 Hat1) as (st2 & h2 & Hs2 & _ & _ & _ & _ & Hat2); [by rewrite Hfan|].
  rewrite Hfan in Hat2. cbn [fst] in Hat2. unfold PushDocument in Hat2. rewrite Hop1, Hd in Hat2. cbn in Hat2.
  rewrite (proj2 (Z.leb_gt _ _)) in Hat2 by done. cbn in Hat2.
  eapply writes_next in Hat2 as (st3 & s3 & wire3 & Hs3 & Hat3 & Hin3); [|
    destruct wr1 as [[]|]; auto; exfalso; [done|by eapply Hwr1]|done|done|done|done|done|done].
  exists st3, s3, (At Popping), wire3. split_and!; [|done|done]. etrans; [exact Hs1|]. by eapply rtc_l.
Qed.
End Rounds.

(** What the hub fans out before the publications behind [pre] in its queue. *)
Definition goesBefore (h : hubProc) (pre : list Publication) (p : Publication) : Prop :=
  p ∈ pre ∨ ∃ rest, hp_pc h = HubFanning p rest.

(** Nothing that reaches the session's writer first has event [q] or a later one:
    neither what waits in it, nor what its hub fans out before. *)
Record inOrder (q : Z) (id : string) (s : Session) (wr : writing) (h : hubProc) (pre : list Publication) : Prop := {
  io_sent : sess_lastSeq s < q;
  io_box : boxOK (below q) (sess_outbox s);
  io_held : ∀ f, wr = Holding f → below q f;
  io_queue : ∀ p f, goesBefore h pre p → frameFor p id s = Some f → below q f
}.

(** C4: what is published can always arrive.  Take a reachable state of a gateway
    that is not being shut down, a session that is being served, and a publication
    anywhere in the queue of its hub, for which the session has the frame [f] of
    event [q]; only nothing on the way before it carries event [q] or a later one.
    Then steps of that hub and of the session's own writer alone bring [f] to the
    wire: no publication in front blocks it, no other session has to move, a full
    outbox is emptied in time, and a writer that sleeps is woken. *)
Theorem published_can_arrive store tickets st id s n rd wr wire h pre p post f q :
  wf store → liveSteps (G := G) auth assetsAt policy backend (liveInit store tickets) st → running st →
  clientAt st id s (Serving n rd wr) wire → wr ≠ At Done → closed (sess_outbox s) = false →
  lv_hubs st !! n = Some h → hp_queue h = pre ++ p :: post → inOrder q id s wr h pre →
  pub_Lane p = LaneDocument → frameFor p id s = Some f → eventSeq f = Some q →
  ∃ st' s' wr' wire', rtc (helpStep n id) st st' ∧ clientAt st' id s' (Serving n rd wr') wire' ∧ f ∈ wire'.
Proof.
  intros Hwf Hr Hrun Hat Hwr Hop Hn Hq [Hsent Hbox Hheld Hbefore] Hlane Hf Hfq.
  destruct (reachable_wakeful _ _ _ Hwf Hr Hrun) as (HOK & HA & HW).
  destruct (HW _ _ _ _ Hat) as [Hroom Hawake].
  destruct (ao_members _ HA _ _ _ _ n Hat) as (h0 & Hn0 & Hin); [done|done|].
  rewrite Hn in Hn0. injection Hn0 as <-.
  assert (ready n id q st s rd wr wire) as Hready by (split; try done; by eapply Hawake).
  assert (served n id q st s rd (hp_queue h) HubIdle) as (st1 & h1 & s1 & wr1 & wire1 & Hs1 & HOK1 & Hn1 & Hpc1 & Hq1 & Hin1 & Hready1 & Hr1).
  { destruct (ao_runs _ HA _ _ Hn) as [_ [Hpc|(p0 & rest & Hpc)]].
    - by exists st, h, s, wr, wire.
    - eapply finishes_fan; try done. intros f0. apply Hbefore. right. by exists rest. }
  destruct (takes_publication n id q p post pre st1 h1 s1 rd wr1 wire1 HOK1 Hn1 Hpc1)
    as (rest & Hrest & st2 & h2 & s2 & wr2 & wire2 & Hs2 & HOK2 & Hn2 & Hpc2 & Hq2 & Hin2 & Hready2 & Hr2);
    [by rewrite Hq1|done|done| |].
  { intros p' f' Hp'. rewrite (frameFor_reader _ _ _ _ Hr1). apply Hbefore. by left. }
  destruct (fan_delivers n id q p rest st2 h2 s2 rd wr2 wire2 f HOK2 Hn2 Hpc2 Hrest Hin2 Hready2 Hlane)
    as (st3 & s3 & wr3 & wire3 & Hs3 & Hat3 & Hin3); [|done|].
  { rewrite (frameFor_reader _ _ _ _ Hr2), (frameFor_reader _ _ _ _ Hr1). done. }
  exists st3, s3, wr3, wire3. split_and!; [|done|done]. etrans; [exact Hs1|]. by etrans.
Qed.
End Arrival.
