(* ===== verification/Wire.v ===== *)
(** * What is on the connections (ws/frame.go, ws/protocodec.go, ws/gateway.go)

    The codec interface, the connection adapter of the gateway, and the messages a
    session reads and writes through them.  Live.v keeps the frames that are written
    to a connection; here they are messages: every frame that the gateway ever puts
    in an outbox, publishes or writes is one of the seven kinds the program makes,
    the codec of the connection takes it, and the client that decodes the message
    has the frame. *)

From S2P Require Import Prelude GoStrings Json Perm Storage Redact Access Vision Sight Dice RateLimit Auth Password.
From S2P Require Import Frame Outbox Ticket Hub Session Intents Chat Combat Doors ProtoCodec JsonCodec.
From S2P Require Import Blob AssetImage Http Worlds Footprint Scenes Assets Router Server Gateway Entitled.
From S2P Require Import Live LiveSafety.

Local Open Scope Z_scope.

(** ** Messages *)

(** [websocket.MessageType]. *)
Inductive messageType := MessageText | MessageBinary.

Section Messages.
Context `{Protobuf}.

(** What a codec makes of a frame: text that is JSON, or bytes. *)
Definition dataOf (c : codec) : Type := match c with JSONCodec => raw | ProtoCodec => bytes end.

(** The methods of the interface [Codec]. *)
Definition Encode (c : codec) : Frame → res (dataOf c) :=
  match c with JSONCodec => JSONEncode | ProtoCodec => ProtoEncode end.
Definition Decode (c : codec) : dataOf c → res Frame :=
  match c with JSONCodec => JSONDecode | ProtoCodec => ProtoDecode end.

(** [coderConn.Read] of a message, and [coderConn.Write]. *)
Definition connRead {D} (m : messageType * D) : D * bool :=
  (m.2, match m.1 with MessageBinary => true | MessageText => false end).
Definition connWrite {D} (binary : bool) (data : D) : messageType * D :=
  (if binary then MessageBinary else MessageText, data).

(** [readLoop] and [authenticate] read a message and do not look at its type. *)
Definition readFrame (c : codec) (m : messageType * dataOf c) : res Frame := Decode c (connRead m).1.

(** [writeControlNow], and the writes of [writeLoop]. *)
Definition writeFrame (c : codec) (f : Frame) : res (messageType * dataOf c) :=
  data ← Encode c f; Ok (connWrite (Binary c) data).
End Messages.

(** ** The frames the program makes *)

Inductive serverFrame : Frame → Prop :=
  | made_welcome w : serverFrame (welcomeFrame w)
  | made_ack a : serverFrame (ackFrame a)
  | made_event e : serverFrame (eventFrame e)
  | made_ephemeral e : serverFrame (ephemeralFrame e)
  | made_error n code key : serverFrame (errorFrame n code key)
  | made_pong t : serverFrame (pongFrame t)
  | made_resync reason n : serverFrame (resyncFrame reason n).

#[export] Hint Constructors serverFrame : core.

(** The payload that is sent as it is. *)
Definition payloadOf (f : Frame) : raw :=
  match frame_Ack f, frame_Event f, frame_Ephemeral f with
  | Some a, _, _ => ack_Result a
  | _, Some e, _ => ev_Payload e
  | _, _, Some e => eph_Payload e
  | _, _, _ => RawEmpty
  end.

Lemma serverFrame_lane f : serverFrame f → laneOK (frame_Lane f).
Proof. by destruct 1. Qed.

Lemma serverFrame_encodable f : serverFrame f → encodable f = true.
Proof. by destruct 1. Qed.

Lemma serverFrame_content f : serverFrame f → content f = f.
Proof. by destruct 1. Qed.

(** The readable codec refuses a payload that is not JSON, and nothing else. *)
Lemma serverFrame_JSON f : serverFrame f → is_Ok (JSONEncode f) ↔ payloadOf f ≠ RawBad.
Proof.
  destruct 1 as [w|[n q r]|[n k w sc r]|[k key w sc r]|n code key|t|reason n]; try (split; [done|intros _; by eexists]);
    destruct r as [| |j]; (split; [by intros []|intros Hp; first [done|by eexists]]).
Qed.

(** ** In the outboxes *)

(** What waits in an outbox was made by the program; its keys are in order. *)
Definition outOK (o : outbox) : Prop := outboxOK o ∧ boxOK serverFrame o.

Lemma outStep_OK op o : outboxOK o → outboxOK (outStep op o).2.
Proof. intros HO. pose proof (outStep_refines op o HO) as Hs. by destruct (outStep op o) as [r o'], Hs. Qed.

Lemma outOK_new d e : outOK (newOutbox d e).
Proof. split; [apply newOutbox_OK|apply boxOK_new]. Qed.

Lemma outOK_control f o : serverFrame f → outOK o → outOK (PushControl f o).2.
Proof.
  intros Hf [HO HB]. split; [|by apply boxOK_control].
  pose proof (outStep_OK (OpControl f) o HO) as Hs. cbn in Hs. by destruct (PushControl f o).
Qed.

Lemma outOK_document f o : serverFrame f → outOK o → outOK (PushDocument f o).2.
Proof.
  intros Hf [HO HB]. split; [|by apply boxOK_document].
  pose proof (outStep_OK (OpDocument f) o HO) as Hs. cbn in Hs. by destruct (PushDocument f o).
Qed.

Lemma outOK_ephemeral k f o : serverFrame f → outOK o → outOK (PushEphemeral k f o).2.
Proof.
  intros Hf [HO HB]. split; [|by apply boxOK_ephemeral].
  pose proof (outStep_OK (OpEphemeral k f) o HO) as Hs. cbn in Hs. by destruct (PushEphemeral k f o).
Qed.

Lemma outOK_prepend fs o : Forall serverFrame fs → outOK o → outOK (PrependDocument fs o).2.
Proof.
  intros Hf [HO HB]. split; [|by apply boxOK_prepend].
  pose proof (outStep_OK (OpPrepend fs) o HO) as Hs. cbn in Hs. by destruct (PrependDocument fs o).
Qed.

Lemma outOK_close o : outOK o → outOK (Outbox.Close o).
Proof. intros [HO HB]. split; [exact (outStep_OK OpClose o HO)|by apply boxOK_close]. Qed.

Lemma outOK_clear o : outOK o → outOK (clearSignal o).
Proof. intros [[] HB]. split; [by split|by eapply boxOK_same, HB]. Qed.

(** A popped frame is one that waited: the order names no key without a frame. *)
Lemma outOK_pop o g o' : outOK o → Pop o = (g, o') → outOK o' ∧ ∀ f, g = Some f → serverFrame f.
Proof.
  intros [HO [Hc Hd He]] Hp.
  assert (outboxOK o') as HO'.
  { pose proof (outStep_OK OpPop o HO) as Hs. cbn in Hs. by rewrite Hp in Hs. }
  unfold outOK. revert Hp. unfold Pop. destruct (control o) as [|c cs] eqn:Ec.
  - destruct (document o) as [|d ds] eqn:Ed.
    + destruct (order o) as [|k ks] eqn:Eo.
      * intros [= <- <-]. split; [|done]. split; [done|]. constructor; [by rewrite Ec|by rewrite Ed|done].
      * intros [= <- <-]. split; [split; [done|]; constructor; cbn; [constructor|constructor|by apply map_Forall_delete]|].
        intros f [= <-]. destruct (proj1 (ok_keys _ HO k)) as [f Hf]; [rewrite Eo; left|].
        rewrite Hf. by apply (He k).
    + intros [= <- <-]. apply Forall_cons in Hd as [Hd Hds].
      split; [by split; [done|]; constructor|]. by intros f [= <-].
  - intros [= <- <-]. apply Forall_cons in Hc as [Hc Hcs].
    split; [by split; [done|]; constructor|]. by intros f [= <-].
Qed.

Definition sessionMade (s : Session) : Prop := outOK (sess_outbox s).

Lemma onOutbox_made {A} (m : M outbox A) s :
  (outOK (sess_outbox s) → outOK (m (sess_outbox s)).2) → sessionMade s → sessionMade (onOutbox m s).2.
Proof. intros Hm Hs. unfold sessionMade, onOutbox. destruct (m (sess_outbox s)) as [r o]. by apply Hm. Qed.

Lemma pushControl_made f s : serverFrame f → sessionMade s → sessionMade (pushControl f s).
Proof. intros Hf. apply onOutbox_made. by apply outOK_control. Qed.

Lemma pushDocument_made f s : serverFrame f → sessionMade s → sessionMade (pushDocument f s).
Proof. intros Hf. apply onOutbox_made. by apply outOK_document. Qed.

Lemma CloseWithResync_made reason n s : sessionMade s → sessionMade (CloseWithResync reason n s).
Proof. intros Hs. apply outOK_close. by apply (pushControl_made (resyncFrame reason n)). Qed.

Lemma answerFrame_made n q r : serverFrame (answerFrame n q r).
Proof. unfold answerFrame. destruct r as [[]|[]]; auto. Qed.

Lemma readFinish_made a s : sessionMade s → sessionMade (readFinish a s).
Proof. destruct a as [[n r]|]; [|done]. apply pushDocument_made, answerFrame_made. Qed.

(** ** In the publications *)

Definition wellMade (p : Publication) : Prop := ∀ u f, carries p u f → serverFrame f.

Lemma fanned_made p id s : wellMade p → sessionMade s → sessionMade (fanned p id s).1.
Proof.
  intros Hp Hs. unfold fanned. destruct (frameFor p id s) as [f|] eqn:Ef; [|done].
  apply frameFor_carries, Hp in Ef. assert (sessionMade (deliver p f s).2) as Hd.
  { unfold deliver. destruct (pub_Lane p); apply onOutbox_made; try done;
      auto using outOK_control, outOK_document, outOK_ephemeral. }
  destruct (deliver p f s) as [[u|e] s1]; [done|]. by apply CloseWithResync_made.
Qed.

Lemma toWorld_made s seq kind scene payload : wellMade (toWorld s seq kind scene payload).
Proof. intros u f [_ Hf]. cbn in Hf. by subst f. Qed.

(** ** What the handlers publish *)

Section Handlers.
Context {S : Type} `{Tx S}.
Variable policy : FieldPolicy.

Definition publishesMade (h : IntentFunc S) : Prop := ∀ s i store, Forall wellMade (out_published (h s i store)).

Lemma applyPatch_made now s id patch kind payload store :
  Forall wellMade (out_published (applyPatch policy now s id patch kind payload store)).
Proof.
  unfold applyPatch. destruct (runTx _ store) as [[[seq views]|e] store']; [|constructor].
  destruct (traverse _ _) as [perUser|e] eqn:Et; [|constructor].
  assert (wellMade (perUserPublication s (list_to_map perUser))) as Hmade.
  { intros u f [_ Hf]. cbn in Hf. apply (list_to_map_frames _ _ _ _ _ u f Et) in Hf as (v & encoded & _ & _ & ->). done. }
  destruct (views !! sess_userID s); by constructor.
Qed.

Lemma coreIntents_made now : publishesMade (handleDocumentPatch policy now) ∧
  publishesMade (handleTokenMove policy now) ∧ publishesMade (handleSceneActivate now).
Proof.
  split_and!; intros s i store.
  - unfold handleDocumentPatch. destruct (decodeDocumentPatch _); [|constructor].
    case_bool_decide; [constructor|]. apply applyPatch_made.
  - unfold handleTokenMove. destruct (decodeTokenMove _); [|constructor].
    case_bool_decide; [constructor|]. apply applyPatch_made.
  - unfold handleSceneActivate. destruct (decodeOneString _ _); [|constructor].
    case_bool_decide; [constructor|]. destruct (negb _); [constructor|].
    destruct (runTx _ store) as [[a|e] st]; [|constructor]. constructor; [apply toWorld_made|constructor].
Qed.

Lemma publishMessage_made now i at_ s m store : Forall wellMade (out_published (publishMessage now i at_ s m store)).
Proof.
  unfold publishMessage. destruct (runTx _ store) as [[[seq audience]|e] st]; [|constructor].
  constructor; [|constructor]. intros u f [_ Hf]. cbn in Hf. by subst f.
Qed.

Lemma chatIntents_made `{Unicode} {G} `{DiceSource G} now i at_ (g : G) :
  publishesMade (handleChatPost now i at_) ∧ publishesMade (handleChatRoll now i at_ g).
Proof.
  split; intros s m store.
  - unfold handleChatPost. destruct (structFields _ ≫= _) as [[text audience]|]; [|constructor]. cbn zeta.
    case_bool_decide; [constructor|]. apply publishMessage_made.
  - unfold handleChatRoll. destruct (structFields _ ≫= _) as [[[expression reason] audience]|]; [|constructor].
    destruct (Roll expression g) as [[result g']|]; [|constructor]. apply publishMessage_made.
Qed.

Lemma finishCombat_made s (r : res (Combat * Z) * S) : Forall wellMade (out_published (finishCombat s r)).
Proof. destruct r as [[[c seq]|e] st]; [|constructor]. constructor; [apply toWorld_made|constructor]. Qed.

Lemma combatIntents_made `{Unicode} {G} `{DiceSource G} now (probe g : G) :
  publishesMade (handleCombatStart now probe g) ∧ publishesMade (handleCombatNext now) ∧
  publishesMade (handleCombatEnd now).
Proof.
  split_and!; intros s m store;
    unfold handleCombatStart, handleCombatNext, handleCombatEnd; (destruct (negb (IsStaff _)); [constructor|]);
    try apply finishCombat_made.
  destruct (structFields _ ≫= _) as [[sceneID formula]|]; [|constructor]. case_bool_decide; [constructor|].
  cbn zeta. destruct (Roll _ probe); [|constructor]. apply finishCombat_made.
Qed.

Lemma doorIntents_made now : publishesMade (handleDoorToggle policy now).
Proof.
  intros s m store. unfold handleDoorToggle. destruct (negb (IsStaff _)); [constructor|].
  destruct (decodeOneString _ _) as [id|]; [|constructor]. case_bool_decide; [constructor|].
  destruct (runTx _ store) as [[[state perUser]|e] st] eqn:Et; [|constructor].
  apply (proj1 (runTx_Ok _ _ _ _)) in Et. unfold toggleTx in Et.
  apply M_bind_Ok in Et as (wall & s1 & _ & Et). apply M_bind_Ok in Et as ([encoded open] & s2 & _ & Et).
  apply M_bind_Ok in Et as (seq & s3 & _ & Et). apply M_bind_Ok in Et as (d & s4 & _ & Et).
  apply M_bind_Ok in Et as (vseq & s5 & _ & Et). apply M_bind_Ok in Et as (pu & s6 & Hvis & Et).
  apply lift_Ok in Hvis as [Hvis _]. apply ret_Ok in Et as [[= -> ->] _].
  constructor; [apply toWorld_made|constructor; [|constructor]].
  intros u f [_ Hf]. cbn in Hf. unfold visibilityFrames in Hvis.
  apply bind_Ok in Hvis as (ms & _ & Hvis). apply bind_Ok in Hvis as (tokens & _ & Hvis).
  destruct (memberStep_frames _ _ _ _ _ _ _ _ _ _ _ Hvis Hf) as [Hemp|Hmem]; [by rewrite lookup_empty in Hemp|].
  by destruct Hmem as (m' & visible & briefs & enc & _ & _ & _ & _ & _ & _ & ->).
Qed.

Lemma fullRouter_made `{Unicode} {G} `{DiceSource G} now i at_ (source probe g : G) :
  map_Forall (λ _, publishesMade) (fullRouter policy now i at_ source probe g).
Proof.
  unfold fullRouter, RegisterDoorIntents, RegisterCombatIntents, RegisterChatIntents, RegisterCoreIntents, Handle.
  repeat (apply map_Forall_insert_2);
    first [ apply doorIntents_made | apply (combatIntents_made now probe g)
          | apply (chatIntents_made now i at_ source) | apply (coreIntents_made now)
          | apply map_Forall_empty ].
Qed.

(** Reading a message. *)
Lemma readStart_made router received s (store : S) s' store' rd :
  map_Forall (λ _, publishesMade) router → sessionMade s →
  readStart router received s store = (s', store', rd) →
  sessionMade s' ∧ ∀ ps a, rd = Answering ps a → Forall wellMade ps.
Proof.
  intros Hr Hs. unfold readStart.
  assert (∀ f (x : S), serverFrame f → (pushControl f s, x, Reading) = (s', store', rd) →
    sessionMade s' ∧ ∀ ps a, rd = Answering ps a → Forall wellMade ps) as Hpush.
  { intros f x Hf [= <- _ <-]. split; [by apply pushControl_made|done]. }
  destruct received as [frame|]; [|by apply Hpush]. case_bool_decide; [by apply Hpush|]. case_bool_decide.
  - destruct (frame_Intent frame) as [intent|]; [|by apply Hpush].
    destruct (router !! intent_Kind intent) as [h|] eqn:Eh.
    2:{ intros [= <- _ <-]. split; [by apply pushDocument_made|done]. }
    intros [= <- _ <-]. split; [done|]. intros ps a [= <- _]. apply (Hr _ _ Eh).
  - case_bool_decide; [|by apply Hpush]. unfold handleEphemeral.
    assert (∀ f, serverFrame f → (let '(s1, ps) := (pushControl f s, []) in (s1, store, Answering ps None)) = (s', store', rd) →
      sessionMade s' ∧ ∀ ps a, rd = Answering ps a → Forall wellMade ps) as Hpush'.
    { intros f Hf [= <- _ <-]. split; [by apply pushControl_made|]. intros ps a [= <- _]. constructor. }
    destruct (frame_Ephemeral frame) as [e|]; [|by apply Hpush']. case_bool_decide; [by apply Hpush'|].
    intros [= <- _ <-]. split; [done|]. intros ps a [= <- _]. constructor; [|constructor].
    intros u f [_ Hf]. cbn in Hf. by subst f.
Qed.
End Handlers.

(** ** Everywhere *)

Lemma replayStep_made {Q} `{Query Q} policy (q : Q) s e frames frames' :
  Forall serverFrame frames → replayStep policy q s frames e = Ok frames' → Forall serverFrame frames'.
Proof.
  intros Hf Hr. unfold replayStep in Hr. destruct (negb _); [by injection Hr as <-|].
  apply bind_Ok in Hr as ([p|] & _ & [= <-]); [|done]. apply Forall_app. split; [done|]. repeat constructor.
Qed.

(** What a session's goroutines hold. *)
Definition handMade (ph : phase) : Prop :=
  match ph with
  | Projecting _ _ _ frames | Prepending _ frames => Forall serverFrame frames
  | Serving _ rd wr => (∀ ps a, rd = Answering ps a → Forall wellMade ps) ∧ (∀ f, wr = Holding f → serverFrame f)
  | _ => True
  end.

Definition hubMade (h : hubProc) : Prop :=
  Forall wellMade (hp_queue h) ∧ ∀ p rest, hp_pc h = HubFanning p rest → wellMade p.

Section Wire.
Context `{Unicode} `{Argon2} `{ImageCodecs} {G : Type} `{DiceSource G} {S : Type} `{Tx S}.
Variables (auth : AuthDeps) (assetsAt : AssetDeps) (policy : FieldPolicy) (backend : string).
Local Abbreviation live := (live (S := S)).
Local Abbreviation step := (liveStep (G := G) auth assetsAt policy backend).
Implicit Types st : live.

Record liveMade st : Prop := {
  lm_heap : map_Forall (λ _, sessionMade) (lv_heap st);
  lm_clients : map_Forall (λ _ c, handMade (cl_phase c) ∧ Forall serverFrame (cl_wire c)) (lv_clients st);
  lm_hubs : map_Forall (λ _, hubMade) (lv_hubs st)
}.

Lemma liveMade_init store tickets : liveMade (liveInit store tickets).
Proof. split; cbn; apply map_Forall_empty. Qed.

Lemma made_at st id s ph wire :
  liveMade st → clientAt st id s ph wire → sessionMade s ∧ handMade ph ∧ Forall serverFrame wire.
Proof. intros [Hs Hc _] [E1 E2]. split; [exact (Hs _ _ E1)|exact (Hc _ _ E2)]. Qed.

Lemma moveTo_made id s ph wire st :
  liveMade st → sessionMade s → handMade ph → Forall serverFrame wire → liveMade (moveTo id s ph wire st).
Proof. intros [Hs Hc Hh] H1' H2' H3'. split; cbn; [by apply map_Forall_insert_2|by apply map_Forall_insert_2|done]. Qed.

Lemma setHub_made n h st : liveMade st → hubMade h → liveMade (setHub n h st).
Proof. intros [Hs Hc Hh] Hm. split; cbn; [done|done|by apply map_Forall_insert_2]. Qed.

Lemma written_made sent f wire : serverFrame f → Forall serverFrame wire → Forall serverFrame (written sent f wire).
Proof. intros Hf Hw. destruct sent; [|done]. apply Forall_app. by split; [|apply Forall_singleton]. Qed.

Lemma hubFor_made w st n st1 : hubFor w st = (n, st1) → liveMade st → liveMade st1.
Proof.
  unfold hubFor. destruct (HubOf _ _) as [m r]. intros [= <- <-] HM.
  destruct (lv_hubs st !! m); [by destruct HM|].
  assert (liveMade (setHub m (NewHub w) st)) as [] by (apply setHub_made; [done|by split]). by split.
Qed.

Lemma serveStep_made id st st' : liveMade st → serveStep policy id st st' → liveMade st'.
Proof.
  intros HM Hs. destruct Hs as [st id s wire received now hello s' tk Hat Ha|st id s wire received now e s' tk sent Hat Ha|
    st id s wire hello n st1 Hat Hf|st id s wire n hello h Hat Hn _|st id s wire n hello h Hat _ _|
    st id s wire n hello s' frame from Hat Hg|st id s wire n hello s' frame from e Hat Hg|st id s wire n hello e Hat _|
    st id s wire n from events Hat He|st id s wire n from e Hat _|
    st id s wire n began e events frames v frames' Hat _ Hr|st id s wire n began e events frames v err Hat _ _|
    st id s wire n began frames Hat|st id s wire n frames s' u Hat Hp|
    st id s wire n frames s' e Hat Hp|st id s wire n e sent Hat|st id s wire n Hat|st id s wire n h Hat Hn _|
    st id s wire n h Hat _ _|st id s wire Hat]; destruct (made_at _ _ _ _ _ HM Hat) as (Hs & Hh & Hw).
  all: try (by apply moveTo_made).
  - assert (sessionMade s') as Hs' by (unfold sessionMade; by rewrite (authenticate_cases _ _ _ _ _ _ _ _ Ha)).
    by destruct (moveTo_made id s' (Authenticated hello) wire st HM Hs' I Hw).
  - assert (sessionMade s') as Hs' by (unfold sessionMade; by rewrite (authenticate_cases _ _ _ _ _ _ _ _ Ha)).
    by destruct (moveTo_made id s' Gone _ st HM Hs' I (written_made sent (handshakeError e) wire (made_error _ _ _) Hw)).
  - apply moveTo_made; [by eapply hubFor_made|done..].
  - apply moveTo_made; [|done..]. apply setHub_made; [done|]. exact (lm_hubs _ HM _ _ Hn).
  - unfold greet in Hg. apply bind_Ok in Hg as (world & _ & [= <- <- <-]).
    apply moveTo_made; [done..|]. apply (written_made true); [constructor|done].
  - unfold greet in Hg. apply bind_Ok in Hg as (world & _ & [= <- <- <-]). by apply moveTo_made.
  - apply moveTo_made; try done. constructor.
  - apply moveTo_made; try done. exact (replayStep_made _ _ _ _ _ _ Hh Hr).
  - apply moveTo_made; try done. pose proof (onOutbox_made (PrependDocument frames) s (outOK_prepend frames _ Hh) Hs) as Hm.
    by rewrite Hp in Hm.
  - apply moveTo_made; try done. pose proof (onOutbox_made (PrependDocument frames) s (outOK_prepend frames _ Hh) Hs) as Hm.
    by rewrite Hp in Hm.
  - apply moveTo_made; try done. by apply written_made; [constructor|].
  - apply moveTo_made; [|done..]. apply setHub_made; [done|]. exact (lm_hubs _ HM _ _ Hn).
  - apply moveTo_made; try done. by apply outOK_close.
Qed.

Lemma readLoopStep_made id st st' : liveMade st → readLoopStep (G := G) policy id st st' → liveMade st'.
Proof.
  intros HM Hs. destruct Hs as [st id s wire n wr now i at_ source probe g received s' store' rd Hat Hr|
    st id s wire n p ps answer wr h Hat Hn _|st id s wire n p ps answer wr h Hat Hn _|st id s wire n answer wr Hat|
    st id s wire n wr Hat]; destruct (made_at _ _ _ _ _ HM Hat) as (Hs & [Hps Hf] & Hw).
  - destruct (readStart_made _ _ _ _ _ _ _ (fullRouter_made policy now i at_ source probe g) Hs Hr) as [Hs' Hps'].
    by destruct (moveTo_made id s' (Serving n rd wr) wire st HM Hs' (conj Hps' Hf) Hw).
  - specialize (Hps _ _ eq_refl). apply Forall_cons in Hps as [Hp Hps].
    apply moveTo_made; [|done| |done].
    + apply setHub_made; [done|]. destruct (lm_hubs _ HM _ _ Hn) as [Hq Hfan]. split; [|done].
      apply Forall_app. by split; [|apply Forall_singleton].
    + split; [|done]. by intros ps' a [= <- _].
  - specialize (Hps _ _ eq_refl). apply Forall_cons in Hps as [Hp Hps].
    apply moveTo_made; try done. split; [|done]. by intros ps' a [= <- _].
  - apply moveTo_made; try done. by apply readFinish_made.
  - apply moveTo_made; try done. by apply outOK_close.
Qed.

Lemma writeLoopStep_made id st st' : liveMade st → writeLoopStep id st st' → liveMade st'.
Proof.
  intros HM Hs. destruct Hs as [st id s wire n rd f o Hat Hp|st id s wire n rd f q Hat Hf|st id s wire n rd f g' q sent Hat Hf|
    st id s wire n rd f g' q Hat Hf|st id s wire n rd o Hat Hp|st id s wire n rd Hat _|st id s wire n rd Hat _|
    st id s wire n rd Hat _|st id s wire n rd Hat]; destruct (made_at _ _ _ _ _ HM Hat) as (Hs & [Hps Hh] & Hw).
  all: try (by apply moveTo_made).
  - destruct (outOK_pop _ _ _ Hs Hp) as [Ho Hg]. apply moveTo_made; try done. split; [done|].
    intros f' [= <-]. by apply Hg.
  - apply moveTo_made; try done. apply written_made; [|done]. specialize (Hh _ eq_refl).
    unfold writeFilter in Hf. by repeat case_match; simplify_eq.
  - apply moveTo_made; try done. by apply outOK_clear.
Qed.

Lemma fanOutStep_made p m (heap : gmap string Session) id :
  wellMade p → map_Forall (λ _, sessionMade) heap →
  map_Forall (λ _, sessionMade) (hub_heap (fanOutStep p (MkHubState m heap) id)).
Proof.
  intros Hp Hs. destruct (heap !! id) as [s|] eqn:E.
  - destruct (fanOutStep_heap p m heap id s E) as [-> _]. apply map_Forall_insert_2; [|done].
    apply fanned_made; [done|exact (Hs _ _ E)].
  - unfold fanOutStep. cbn. by rewrite E.
Qed.

Lemma hubRunStep_made n st st' : liveMade st → hubRunStep n st st' → liveMade st'.
Proof.
  intros HM Hs. destruct Hs as [st n h p queue rest Hn Hpc Hq _|st n h p id rest hs Hn Hpc <-|st n h p Hn Hpc|
    st n h rest Hn Hpc _ _|st n h id rest Hn Hpc|st n h Hn Hpc]; destruct (lm_hubs _ HM _ _ Hn) as [Hqueue Hfan].
  - rewrite Hq in Hqueue. apply Forall_cons in Hqueue as [Hp Hqueue].
    apply setHub_made; [done|]. split; [done|]. by intros p' rest' [= <- _].
  - specialize (Hfan _ _ Hpc). destruct (setHub_made n (withPc (HubFanning p rest)
      (withMembers (hub_sessions (fanOutStep p (MkHubState (hp_members h) (lv_heap st)) id)) h)) st HM) as [_ Hc Hh].
    { split; [done|]. by intros p' rest' [= <- _]. }
    split; [|exact Hc|exact Hh]. apply fanOutStep_made; [done|apply HM].
  - apply setHub_made; [done|]. by split.
  - apply setHub_made; [done|]. by split.
  - destruct (setHub_made n (withPc (HubClosing rest) h) st HM) as [_ Hc Hh]; [by split|].
    split; [|exact Hc|exact Hh]. intros j s Hj. cbn in Hj. apply lookup_alter_Some in Hj as [(-> & s0 & Hs0 & ->)|[_ Hj]].
    + apply CloseWithResync_made. exact (lm_heap _ HM _ _ Hs0).
    + exact (lm_heap _ HM _ _ Hj).
  - apply setHub_made; [done|]. by split.
Qed.

Lemma outsideStep_made st st' : liveMade st → outsideStep auth assetsAt policy backend st st' → liveMade st'.
Proof.
  intros HM Hs. destruct Hs as [| |st id d e _|st].
  - by destruct HM.
  - by destruct HM.
  - apply moveTo_made; [done|apply outOK_new|done|done].
  - destruct HM as [Hs Hc Hh]. split; [done|done|]. intros n h Hn. cbn in Hn. rewrite map_lookup_imap in Hn.
    destruct (lv_hubs st !! n) as [h0|] eqn:E; [|done]. specialize (Hh _ _ E). cbn in Hn.
    case_bool_decide; injection Hn as <-; done.
Qed.

Lemma reachable_made store tickets st :
  liveSteps (G := G) auth assetsAt policy backend (liveInit store tickets) st → liveMade st.
Proof.
  pose proof (liveMade_init store tickets) as HM. revert HM. generalize (liveInit store tickets). intros st0 HM Hr.
  induction Hr as [|st0 st1 st [a Hs] _ IH]; [done|]. apply IH. destruct a as [|id|n]; cbn [liveStep] in Hs.
  - by eapply outsideStep_made.
  - destruct Hs as [Hs|[Hs|Hs]]; [by eapply serveStep_made|by eapply readLoopStep_made|by eapply writeLoopStep_made].
  - by eapply hubRunStep_made.
Qed.

(** A frame that is on its way out of a session: written, held by the writer, or
    waiting. *)
Definition outbound (s : Session) (ph : phase) (wire : list Frame) (f : Frame) : Prop :=
  f ∈ wire ∨ (∃ n rd, ph = Serving n rd (Holding f)) ∨
  f ∈ control (sess_outbox s) ∨ f ∈ document (sess_outbox s) ∨ ∃ k, ephemeral (sess_outbox s) !! k = Some f.

(** C8: clients can read what they are sent.  In every state that the gateway can
    reach, whatever its clients send it, each frame that is written to a connection,
    held by its writer or waiting in its outbox was made by the program itself: no
    popped frame is the zero frame, and the binary codec never refuses one.  Whatever
    message is written for it, with either codec, the peer that decodes it has that
    very frame; the readable codec refuses it exactly if its payload is not JSON. *)
Theorem sent_frames_are_readable `{!Protobuf} `{!ProtobufLaws} store tickets st id s ph wire f :
  liveSteps (G := G) auth assetsAt policy backend (liveInit store tickets) st →
  clientAt st id s ph wire → outbound s ph wire f →
  serverFrame f ∧ is_Ok (toProto f) ∧
  (∀ m, writeFrame ProtoCodec f = Ok m → m.1 = MessageBinary ∧ readFrame ProtoCodec m = Ok f) ∧
  (is_Ok (writeFrame JSONCodec f) ↔ payloadOf f ≠ RawBad) ∧
  (∀ m, frameOK f → writeFrame JSONCodec f = Ok m → m.1 = MessageText ∧ readFrame JSONCodec m = Ok f).
Proof.
  intros Hr Hat Hf. destruct (made_at _ _ _ _ _ (reachable_made _ _ _ Hr) Hat) as ([_ [Hc Hd He]] & Hh & Hw).
  assert (serverFrame f) as Hmade.
  { destruct Hf as [Hf|[(n & rd & ->)|[Hf|[Hf|[k Hf]]]]]; [by eapply Forall_forall in Hw|by apply Hh|
      by eapply Forall_forall in Hc|by eapply Forall_forall in Hd|exact (He _ _ Hf)]. }
  split_and!.
  - done.
  - apply toProto_encodable. by apply serverFrame_encodable.
  - intros m (data & Hdata & [= <-])%bind_Ok. split; [done|]. cbn.
    rewrite (ProtoDecode_ProtoEncode f data); [by rewrite serverFrame_content|by apply serverFrame_lane|done].
  - unfold writeFrame. rewrite <-serverFrame_JSON by done. cbn. split.
    + intros [m (data & -> & _)%bind_Ok]. by eexists.
    + intros [data ->]. by eexists.
  - intros m Hok (data & Hdata & [= <-])%bind_Ok. split; [done|]. cbn.
    destruct (frame_survives f Hok) as (data' & E & Hdec). cbn in Hdata. rewrite E in Hdata. by injection Hdata as <-.
Qed.
End Wire.
