(* ===== verification/App.v ===== *)
(** * Configuration, start-up and shutdown (internal/app, cmd/tavora)

    The configuration as a function of the environment, and the life of the
    process as the trace of what it does to the outside: directories, the
    database handle, migrations, the listener.  Every step the outside may
    refuse has its outcome in [outside]. *)

From S2P Require Import Prelude GoStrings Blob Router.

Local Open Scope Z_scope.

(** ** Configuration *)

Record Config := MkConfig {
  cfg_Bind : string;
  cfg_BlobRoot : string;
  cfg_AssetBaseURL : string;
  cfg_WorldQuota : Z;
  cfg_StorageDriver : string;
  cfg_StorageDSN : string;
  cfg_JSONProtocol : bool;
  cfg_SecureCookies : bool;
  cfg_ShutdownTimeout : Duration
}.

Definition defaultBind : string := "0.0.0.0:30000".
Definition defaultBlobRoot : string := "data/blobs".
Definition defaultWorldQuota : Z := Z.shiftl 4 30.
Definition defaultStorageDriver : string := "sqlite".
Definition defaultStorageDSN : string := "data/tavora.db".
Definition defaultShutdownTimeout : Duration := 15 * Second.

(** [if value := os.Getenv(name); value != "" { ... }]. *)
Definition orElse (value fallback : string) : string :=
  if bool_decide (value = "") then fallback else value.

Definition ConfigFromEnv (getenv : string → string) : Config :=
  let quota := getenv "TAVORA_WORLD_QUOTA_BYTES" in
  MkConfig
    (orElse (getenv "TAVORA_SERVER_BIND") defaultBind)
    (orElse (getenv "TAVORA_BLOB_ROOT") defaultBlobRoot)
    (getenv "TAVORA_ASSET_BASE_URL")
    (if bool_decide (quota = "") then defaultWorldQuota else default defaultWorldQuota (Atoi quota))
    (orElse (getenv "TAVORA_STORAGE_DRIVER") defaultStorageDriver)
    (orElse (getenv "TAVORA_STORAGE_DSN") defaultStorageDSN)
    (bool_decide (getenv "TAVORA_PROTOCOL_JSON" = "1"))
    (bool_decide (getenv "TAVORA_SECURE_COOKIES" = "1"))
    defaultShutdownTimeout.

(** ** What the process does *)

Inductive action :=
  | MakeDirectory (dir : string)
  | OpenDB (driver dsn : string)
  | Pragma (statement : string)
  | MigrateStore
  | MakeBlobRoot (root : string)
  | CountAccounts
  | CloseDB
  | ListenOn (address : string)
  | Shutdown (timeout : Duration)
  | CloseGateway
  | Exit (code : Z).

(** What the outside answers to an action; the answers to the actions that
    cannot be refused are not asked for. *)
Definition outside : Type := action → res unit.

(** A computation that acts: the trace so far, then the result. *)
Definition acting (A : Type) : Type := list action * res A.

Definition act (o : outside) (a : action) : acting unit := ([a], o a).

Definition andThen {A B} (m : acting A) (k : A → acting B) : acting B :=
  match m with
  | (t, Ok a) => let '(t', r) := k a in (t ++ t', r)
  | (t, Err e) => (t, Err e)
  end.

(** [if err := ...; err != nil { _ = store.Close(); return nil, err }]. *)
Definition orClose {A} (m : acting A) : acting A :=
  match m with
  | (t, Ok a) => (t, Ok a)
  | (t, Err e) => (t ++ [CloseDB], Err e)
  end.

Definition pragmas : list string :=
  [ "PRAGMA journal_mode = WAL"; "PRAGMA foreign_keys = ON"; "PRAGMA busy_timeout = 5000";
    "PRAGMA synchronous = NORMAL" ].

Fixpoint runPragmas (o : outside) (ps : list string) : acting unit :=
  match ps with
  | [] => ([], Ok tt)
  | p :: ps => andThen (act o (Pragma p)) (λ _, runPragmas o ps)
  end.

(** [sqlite.Open] and [postgres.Open]. *)
Definition openSqlite (o : outside) (dsn : string) : acting unit :=
  andThen (act o (OpenDB "sqlite" dsn)) (λ _, orClose (runPragmas o pragmas)).
Definition openPostgres (o : outside) (dsn : string) : acting unit := act o (OpenDB "pgx" dsn).

Definition openStore (o : outside) (c : Config) : acting unit :=
  let dsn := cfg_StorageDSN c in
  if bool_decide (cfg_StorageDriver c = "sqlite") then
    let directory := unchars (Dir (chars dsn)) in
    let prepared := if negb (bool_decide (directory = ".")) && negb (bool_decide (directory = ""))
                    then act o (MakeDirectory directory) else ([], Ok tt) in
    andThen prepared (λ _, openSqlite o dsn)
  else if bool_decide (cfg_StorageDriver c = "postgres") then openPostgres o dsn
  else ([], Err (ErrOther "unknown storage driver")).

(** The parts of the running application that the rest of the model uses. *)
Record App := MkApp { app_Config : Config; app_Wiring : wiring; app_AllowsJSON : bool }.

Definition New (o : outside) (c : Config) : acting App :=
  andThen (openStore o c) (λ _, orClose (
    andThen (act o MigrateStore) (λ _,
    andThen (act o (MakeBlobRoot (cfg_BlobRoot c))) (λ _,
    andThen (act o CountAccounts) (λ _,
    ([], Ok (MkApp c (MkWiring true true true) (cfg_JSONProtocol c)))))))).

(** [Run], by how it ends: the listener failed, or the context was cancelled
    and the server was asked to shut down; then the deferred closings. *)
Definition Run (o : outside) (a : App) : acting unit :=
  let c := app_Config a in
  let '(t, r) :=
    match o (ListenOn (cfg_Bind c)) with
    | Err e => ([ListenOn (cfg_Bind c)], Err e)
    | Ok _ => andThen ([ListenOn (cfg_Bind c)], Ok tt) (λ _, act o (Shutdown (cfg_ShutdownTimeout c)))
    end in
  (t ++ [CloseGateway; CloseDB], r).

(** [errors.Is(err, http.ErrServerClosed)] is how a closed listener ends. *)
Definition ErrServerClosed : err := ErrOther "http: Server closed".

Definition main (o : outside) (getenv : string → string) : list action :=
  match New o (ConfigFromEnv getenv) with
  | (t, Err _) => t ++ [Exit 1]
  | (t, Ok a) =>
      let '(t', r) := Run o a in
      t ++ t' ++ match r with
                 | Err e => if errors_Is e ErrServerClosed then [] else [Exit 1]
                 | Ok _ => []
                 end
  end.

(** ** The database handle *)

(** How many handles are open after a trace whose openings the outside
    granted. *)
Fixpoint handles (o : outside) (t : list action) : Z :=
  match t with
  | [] => 0
  | OpenDB d s :: t => (match o (OpenDB d s) with Ok _ => 1 | Err _ => 0 end) + handles o t
  | CloseDB :: t => handles o t - 1
  | _ :: t => handles o t
  end.

Lemma handles_app o t t' : handles o (t ++ t') = handles o t + handles o t'.
Proof. induction t as [|[] t IH]; cbn; lia. Qed.

(** A computation that leaves [n] handles open when it succeeds and [m] when it
    fails. *)
Definition leaves {A} (o : outside) (c : acting A) (n m : Z) : Prop :=
  handles o c.1 = match c.2 with Ok _ => n | Err _ => m end.

Lemma andThen_leaves {A B} o (c : acting A) (k : A → acting B) n m n' :
  leaves o c n m → (∀ a, leaves o (k a) n' (m - n)) → leaves o (andThen c k) (n + n') m.
Proof.
  unfold leaves, andThen. destruct c as [t [a|e]]; cbn; [|done]. intros Ht Hk.
  specialize (Hk a). destruct (k a) as [t' [b|e]]; cbn in *; rewrite handles_app; lia.
Qed.

Lemma orClose_leaves {A} o (c : acting A) n m : leaves o c n m → leaves o (orClose c) n (m - 1).
Proof. unfold leaves, orClose. destruct c as [t [a|e]]; cbn; [done|]. rewrite handles_app. cbn. lia. Qed.

Lemma act_leaves o a : (∀ d s, a ≠ OpenDB d s) → a ≠ CloseDB → leaves o (act o a) 0 0.
Proof.
  intros H1 H2. unfold leaves, act. cbn. destruct a; cbn; try done; destruct (o _); try done.
  all: exfalso; by eapply H1.
Qed.

Lemma open_leaves o d s : leaves o (act o (OpenDB d s)) 1 0.
Proof. unfold leaves, act. cbn. destruct (o _); lia. Qed.

Lemma pragmas_leave o ps : leaves o (runPragmas o ps) 0 0.
Proof.
  induction ps as [|p ps IH]; [done|]. cbn [runPragmas].
  apply (andThen_leaves o _ _ 0 0 0); [by apply act_leaves|]. intros _. exact IH.
Qed.

Lemma openStore_leaves o c : leaves o (openStore o c) 1 0.
Proof.
  unfold openStore. case_bool_decide.
  - apply (andThen_leaves o _ _ 0 0 1).
    + destruct (_ && _); [by apply act_leaves|done].
    + intros _. apply (andThen_leaves o _ _ 1 0 0); [apply open_leaves|]. intros _.
      apply (orClose_leaves o _ 0 0), pragmas_leave.
  - case_bool_decide; [apply open_leaves|done].
Qed.

Lemma New_leaves o c : leaves o (New o c) 1 0.
Proof.
  unfold New. apply (andThen_leaves o _ _ 1 0 0); [apply openStore_leaves|]. intros _.
  apply (orClose_leaves o _ 0 0).
  do 3 (apply (andThen_leaves o _ _ 0 0 0); [by apply act_leaves|intros _]). done.
Qed.

Lemma Run_leaves o a : handles o (Run o a).1 = -1.
Proof. unfold Run, act. by destruct (o (ListenOn _)). Qed.

Lemma andThen_Ok {A B} (c : acting A) (k : A → acting B) b :
  (andThen c k).2 = Ok b → ∃ a, c.2 = Ok a ∧ (k a).2 = Ok b.
Proof.
  unfold andThen. destruct c as [t [a|e]]; cbn; [|done].
  destruct (k a) as [t' r] eqn:E. cbn. intros ->. exists a. by rewrite E.
Qed.

Lemma orClose_result {A} (c : acting A) : (orClose c).2 = c.2.
Proof. by destruct c as [t [a|e]]. Qed.

(** An application that started is configured as asked and wired completely. *)
Lemma New_app o c a : (New o c).2 = Ok a → a = MkApp c (MkWiring true true true) (cfg_JSONProtocol c).
Proof.
  unfold New. intros (_ & _ & H)%andThen_Ok. rewrite orClose_result in H.
  do 3 apply andThen_Ok in H as (_ & _ & H). by injection H.
Qed.

(** C40: the process leaks no database handle.  Whatever the environment and
    whatever the outside refuses, a start-up that fails has closed what it
    opened, one that succeeds holds exactly one handle, and the process ends
    with none. *)
Theorem no_handle_leaks o getenv :
  (∀ e, (New o (ConfigFromEnv getenv)).2 = Err e → handles o (New o (ConfigFromEnv getenv)).1 = 0) ∧
  (∀ a, (New o (ConfigFromEnv getenv)).2 = Ok a →
     handles o (New o (ConfigFromEnv getenv)).1 = 1 ∧ app_Config a = ConfigFromEnv getenv) ∧
  handles o (main o getenv) = 0.
Proof.
  pose proof (New_leaves o (ConfigFromEnv getenv)) as Hn. unfold leaves in Hn.
  pose proof (New_app o (ConfigFromEnv getenv)) as Ha.
  unfold main. destruct (New o (ConfigFromEnv getenv)) as [t [a|e]] eqn:E; cbn in Hn, Ha |- *.
  - split_and!; [done| |].
    + intros ? [= <-]. split; [done|]. by rewrite (Ha a eq_refl).
    + pose proof (Run_leaves o a) as Hr. destruct (Run o a) as [t' r]. cbn in Hr.
      rewrite !handles_app. destruct r; cbn; [lia|]. case_match; cbn; lia.
  - split_and!; [done|done|]. rewrite handles_app. cbn. lia.
Qed.
