(* ===== verification/Witnesses.v ===== *)
(** * Concrete runs

    A store built by the program's own statements (a world with a game master
    and two players, a scene with a wall, three tokens and a folder), and
    closed instances of the theorems that have hypotheses, on every part up to
    Worlds.v, so that none of them is vacuous. *)

From S2P Require Import Prelude GoStrings Json Perm Storage Redact Access Vision Sight SqlStore SqlLaws.
From S2P Require Import Dice Sha256 RateLimit Password Auth Ticket Frame Outbox Hub Session Intents Chat Combat Doors Http Worlds Engine.

Local Open Scope Z_scope.

(** ** A store *)

Definition isOkb {A} (r : res A) : bool := match r with Ok _ => true | Err _ => false end.

Definition mkWorld (id slug : string) (settings : raw) : World :=
  MkWorld id slug slug "sys" "1" "" "" settings 0 0 None.
Definition mkUser (id name : string) (hash : string) (admin : bool) : User :=
  MkUser id name "" hash "en" admin 0 None.
Definition mkDoc (id kind parent : string) (data ownership : raw) : Document :=
  MkDocument "w" id kind "" parent "" id 0 "" data RawEmpty ownership "" "" 0 0 0 None.

Definition numZ (z : Z) : json := JNum (Num (ofInt z) (Some z)).
Definition owned (u : string) : raw := Raw (JObj [(u, JStr "owner"); ("default", JStr "observer")]).
Definition at_ (x y : Z) : raw := Raw (JObj [("x", numZ x); ("y", numZ y)]).

Definition wallData : raw := Raw (JObj [("x1", numZ 5); ("y1", numZ (-10)); ("x2", numZ 5);
  ("y2", numZ 10); ("blocksSight", JBool true)]).

(** A character sheet with a field for the game master and one for its owner. *)
Definition sheet : raw := Raw (JObj [("hp", numZ 7);
  ("notes", JObj [("public", JStr "a"); ("secret", JStr "b")])]).

Definition demoPolicy : FieldPolicy :=
  StaticVisibilityOf (PolicySet NewStaticPolicy "actor" "" "notes.secret" VisibilityGM).

(** The writes the store is built with. *)
Inductive cmd :=
  | CUser (u : User) | CWorld (w : World) | CMember (m : Member) | CDoc (d : Document)
  | CEvent (e : Event) | CInvite (i : Invite) | CSession (x : UserSession).

Definition runCmd (k : cmd) (c : conn) : bool * conn :=
  let ran {A} (m : M conn A) := let '(r, c') := m c in (isOkb r, c') in
  match k with
  | CUser u => ran (PutUser 1 u)
  | CWorld w => ran (PutWorld 1 w)
  | CMember m => ran (PutMember 1 m)
  | CDoc d => ran (PutDocument 1 d)
  | CEvent e => ran (AppendEvent 1 e)
  | CInvite i => ran (PutInvite 1 i)
  | CSession x => ran (PutUserSession 1 x)
  end.

Definition freshWorld (k : cmd) : bool :=
  match k with CWorld w => world_EventSeq w =? 0 | _ => true end.

Fixpoint runCmds (ks : list cmd) (c : conn) : option conn :=
  match ks with
  | [] => Some c
  | k :: ks => let '(ok, c') := runCmd k c in if ok && freshWorld k then runCmds ks c' else None
  end.

Definition demoCmds : list cmd :=
  [ CUser (mkUser "gm" "gm" "h" true);
    CUser (mkUser "ann" "ann" "h" false);
    CUser (mkUser "bob" "bob" "h" false);
    CWorld (mkWorld "w" "a-world" (Raw (JObj [])));
    CMember (MkMember "w" "gm" RoleGM 0);
    CMember (MkMember "w" "ann" RolePlayer 0);
    CMember (MkMember "w" "bob" RolePlayer 0);
    CDoc (mkDoc "s" "scene" "" RawEmpty (owned "gm"));
    CDoc (mkDoc "wall" "wall" "s" wallData RawEmpty);
    CDoc (mkDoc "ta" "token" "s" (at_ 0 0) (owned "ann"));
    CDoc (mkDoc "tb" "token" "s" (at_ 9 0) (owned "bob"));
    CDoc (mkDoc "tx" "token" "s" (Raw (JObj [("x", JStr "no")])) (owned "gm"));
    CDoc (mkDoc "actor" "actor" "" sheet (owned "ann")) ].

Definition demo : conn := default (MkConn emptyDb true) (runCmds demoCmds (MkConn emptyDb true)).

Lemma runCmd_step k c c' : runCmd k c = (true, c') → freshWorld k = true → storeStep c c'.
Proof.
  intros Hr Hf. destruct k; cbn in Hr.
  - destruct (sqlPutUser 1 u c) as [[]] eqn:E; [injection Hr as <-|done]. by eapply step_PutUser.
  - destruct (sqlPutWorld 1 w c) as [[]] eqn:E; [injection Hr as <-|done].
    eapply step_PutWorld; [right; by apply Z.eqb_eq|done].
  - destruct (sqlPutMember 1 m c) as [[]] eqn:E; [injection Hr as <-|done]. by eapply step_PutMember.
  - destruct (sqlPutDocument 1 d c) as [[]] eqn:E; [injection Hr as <-|done]. by eapply step_PutDocument.
  - destruct (sqlAppendEvent 1 e c) as [[]] eqn:E; [injection Hr as <-|done]. by eapply step_AppendEvent.
  - destruct (sqlPutInvite 1 i c) as [[]] eqn:E; [injection Hr as <-|done]. by eapply step_PutInvite.
  - destruct (sqlPutUserSession 1 x c) as [[]] eqn:E; [injection Hr as <-|done].
    by eapply step_PutUserSession.
Qed.

Lemma runCmds_reach ks c c' : runCmds ks c = Some c' → rtc storeStep c c'.
Proof.
  revert c; induction ks as [|k ks IH]; intros c; cbn [runCmds]; [by intros [= <-]|].
  destruct (runCmd k c) as [ok c1] eqn:E. destruct (ok && freshWorld k) eqn:Ef; [|done].
  apply andb_true_iff in Ef as [-> Hf]. intros Hr.
  apply rtc_l with c1; [by eapply runCmd_step|by apply IH].
Qed.

(** Building the store is a sequence of successful writes. *)
Lemma demo_reachable : rtc storeStep (MkConn emptyDb true) demo.
Proof.
  apply (runCmds_reach demoCmds). unfold demo.
  assert (is_Some (runCmds demoCmds (MkConn emptyDb true))) as [c Hc]
    by (vm_compute; by eexists).
  by rewrite Hc.
Qed.

Lemma demo_OK : storeOK (tables demo).
Proof. exact (storeSteps_OK (MkConn emptyDb true) _ storeOK_empty demo_reachable). Qed.

Lemma demo_wf : wf demo.
Proof. exact demo_OK. Qed.

(** ** Instances of the theorems *)

Definition okOr {A} (r : res A) (d : A) : A := match r with Ok a => a | Err _ => d end.

Ltac run := vm_compute; reflexivity.

Definition playerGrant : Grant := MkGrant RolePlayer LevelObserver SourceDocument.
Definition bobs : Subject := MkSubject "bob" RolePlayer.
Definition annsSheet : Document := mkDoc "actor" "actor" "" sheet (owned "ann").

(** The secret note is gone, the public one is left. *)
Definition redactedSheet : raw := okOr (RedactPayload sheet "actor" "" "" playerGrant demoPolicy) RawEmpty.

Lemma RedactPayload_exact_witness :
  payloadAt redactedSheet ["notes"; "secret"] = None ∧
  payloadAt redactedSheet ["notes"; "public"] = Some (JStr "a").
Proof.
  assert (RedactPayload sheet "actor" "" "" playerGrant demoPolicy = Ok redactedSheet) as Hred by run.
  split.
  - rewrite (RedactPayload_exact _ _ _ _ _ _ _ ["notes"; "secret"] Hred); [run|discriminate].
  - rewrite (RedactPayload_exact _ _ _ _ _ _ _ ["notes"; "public"] Hred); [run|discriminate].
Defined.

Lemma HiddenPaths_exact_witness :
  "notes.secret" ∈ HiddenPaths sheet "actor" "" playerGrant demoPolicy.
Proof.
  apply (HiddenPaths_exact sheet "actor" "" playerGrant demoPolicy redactedSheet); [run|].
  exists ["notes"], "secret". split_and!; [run|vm_compute; by eexists|vm_compute; by eexists|run].
Defined.

(** Bob's copy of Ann's sheet. *)
Definition bobsCopy : option Document :=
  okOr (RedactDocument annsSheet bobs playerGrant demoPolicy) None.

Lemma RedactDocument_confines_witness :
  ∃ v, bobsCopy = Some v ∧ ∀ k x, payloadAt (doc_Ownership v) [k] = Some x → k = "bob".
Proof.
  destruct bobsCopy as [v|] eqn:E; [|by vm_compute in E]. exists v. split; [done|].
  intros k x Hx.
  assert (RedactDocument annsSheet bobs playerGrant demoPolicy = Ok (Some v)) as Hred
    by (rewrite <-E; run).
  apply (RedactDocument_confines annsSheet bobs playerGrant demoPolicy (Some v) Hred) with x; done.
Defined.

(** Who receives Ann's sheet: everybody, since its default is observer. *)
Definition sheetViews : gmap ID View := okOr (ProjectForMembers demoPolicy demo annsSheet) ∅.

Lemma ProjectForMembers_exact_witness :
  ∃ v, sheetViews !! "bob" = Some v ∧ GrantOf demo (view_Subject v) annsSheet = Ok (view_Grant v) ∧
       sheetViews !! "eve" = None.
Proof.
  assert (ProjectForMembers demoPolicy demo annsSheet = Ok sheetViews) as Hp by run.
  destruct (sheetViews !! "bob") as [v|] eqn:E; [|by vm_compute in E].
  exists v. split_and!; [done| |run].
  apply (ProjectForMembers_exact demoPolicy demo annsSheet sheetViews demo_wf Hp) in E.
  by destruct E as (ms & m & _ & _ & _ & _ & _ & Hg & _).
Defined.

(** Bob's token stands behind the wall from Ann's. *)
Definition bobsToken : Document := mkDoc "tb" "token" "s" (at_ 9 0) (owned "bob").
Definition tokenViews : gmap ID View := okOr (ProjectForMembers demoPolicy demo bobsToken) ∅.
Definition seenBy : gmap ID View := okOr (Filter demo "w" bobsToken tokenViews) ∅.

Lemma Filter_agrees_with_CanSee_witness :
  is_Some (tokenViews !! "ann") ∧ seenBy !! "ann" = None ∧
  ∃ v, seenBy !! "bob" = Some v ∧ CanSee demo (view_Subject v) "w" bobsToken = Ok true.
Proof.
  split_and!; [vm_compute; by eexists|run|].
  assert (Filter demo "w" bobsToken tokenViews = Ok seenBy) as HF by run.
  destruct (seenBy !! "bob") as [v|] eqn:E; [|by vm_compute in E]. exists v. split; [done|].
  exact (proj2 (proj1 (Filter_agrees_with_CanSee demo "w" bobsToken tokenViews seenBy HF "bob" v) E)).
Defined.

Definition sceneTokens : list Document :=
  okOr (ListDocuments demo "w" (ofKindIn "token" "s" 0)) [].
Definition annsTokens : list Document :=
  okOr (VisibleTokens demo (MkSubject "ann" RolePlayer) "w" "s" sceneTokens) [].

Lemma VisibleTokens_agrees_with_CanSee_witness :
  ∃ tok, sceneTokens !! 1%nat = Some tok ∧ doc_ID tok = "tb" ∧ tok ∉ annsTokens.
Proof.
  destruct (sceneTokens !! 1%nat) as [tok|] eqn:E; [|by vm_compute in E].
  exists tok. assert (tok = tok) as Heq by done. vm_compute in E. injection E as <-.
  split_and!; [done|done|].
  rewrite (VisibleTokens_agrees_with_CanSee demo (MkSubject "ann" RolePlayer) "w" "s" sceneTokens);
    [|run|run|run|discriminate|vm_compute; by eexists].
  intros [_ Hc]. vm_compute in Hc. discriminate Hc.
Defined.

Definition oddToken : Document :=
  mkDoc "tx" "token" "s" (Raw (JObj [("x", JStr "no")])) (owned "gm").

Lemma undecodable_token_disagrees_witness :
  CanSee demo (MkSubject "ann" RolePlayer) "w" oddToken = Ok true ∧
  ∃ visible, VisibleTokens demo (MkSubject "ann" RolePlayer) "w" "s" [oddToken] = Ok visible ∧
             oddToken ∉ visible.
Proof.
  assert (∃ b bs, BlockersOf demo "w" "s" = Ok (b :: bs)) as (b & bs & Hb)
    by (vm_compute; by do 2 eexists).
  assert (∃ p ps, ViewpointsOf demo (MkSubject "ann" RolePlayer) "w" "s" = Ok (p :: ps))
    as (p & ps & Hp) by (vm_compute; by do 2 eexists).
  apply (undecodable_token_disagrees demo (MkSubject "ann" RolePlayer) "w" oddToken [oddToken]
           b bs p ps); [run|run|exact Hb|exact Hp].
Defined.

Lemma reachable_store_OK_witness : storeOK (tables demo).
Proof. apply (reachable_store_OK demo demo_reachable). Defined.

Definition diceRolled : Event :=
  MkEvent "w" 0 0 "ann" "dice.rolled" "" "" "" RawEmpty RawEmpty RawEmpty.

Lemma AppendEvent_next_witness :
  (sqlAppendEvent 5 diceRolled demo).1 = Ok 1 ∧
  is_Some (world_events (tables (sqlAppendEvent 5 diceRolled demo).2) !! ("w", 1)).
Proof.
  destruct (sqlAppendEvent 5 diceRolled demo) as [r c'] eqn:E.
  assert (r = Ok 1) as -> by (apply (f_equal fst) in E; vm_compute in E; symmetry; exact E).
  split; [done|].
  destruct (AppendEvent_next 5 diceRolled demo 1 c' demo_OK E) as (_ & _ & (row & Hr & _) & _).
  exists row. exact Hr.
Defined.

(** ** Dice *)

#[local] Existing Instance asciiOnly.
#[local] Existing Instance FixedSource_fair.

Definition threeDice : FixedSource := MkFixedSource [3; 1; 6; 4] 0.

Lemma Roll_sound_witness :
  ∃ r g, Roll "4d6kh3 - 2" threeDice = Ok (r, g) ∧ result_Total r = 11 ∧
         diceCount (result_Terms r) ≤ MaxDice.
Proof.
  destruct (Roll "4d6kh3 - 2" threeDice) as [[r g]|e] eqn:E; [|by vm_compute in E].
  exists r, g. split; [reflexivity|].
  destruct (Roll_sound "4d6kh3 - 2" threeDice r g E) as (_ & _ & Hd & _).
  split; [|exact Hd]. vm_compute in E. injection E as <- _. reflexivity.
Defined.

Definition fourDice : list Die := [MkDie 6 3 true; MkDie 6 1 true; MkDie 6 6 true; MkDie 6 3 true].

Lemma applySelection_exact_witness :
  length (filter (λ d, die_Kept d = true) (applySelection fourDice "kh" 3)) = 3%nat.
Proof.
  destruct (applySelection_exact fourDice "kh" 3) as (_ & Hn & _);
    [repeat constructor|left|lia|]. exact Hn.
Defined.

(** ** The rate limiter *)

Definition tightLimits : Limits := MkLimits 3 (5 * Minute) (15 * Minute) 100.

Lemma burst_locks_out_witness :
  (Allow (10 * Minute) "ann" "elsewhere"
    (foldl (λ l x, tryLogin x l)
      (failAll (NewLimiter tightLimits) [("ann", "a", 1); ("ann", "b", 2); ("ann", "c", 3)])
      [MkLoginAttempt "bob" "d" true 4])).1 = false.
Proof.
  apply (burst_locks_out (NewLimiter tightLimits) "user:ann" "ann" "a" 1 [("ann", "b", 2)] "ann" "c" 3
           [MkLoginAttempt "bob" "d" true 4] "ann" "elsewhere" (10 * Minute)).
  - reflexivity.
  - reflexivity.
  - repeat constructor; vm_compute; congruence.
  - reflexivity.
  - repeat constructor.
  - left.
  - reflexivity.
Defined.

(** ** Passwords and sessions *)

(** A stand-in with the length argon2 promises. *)
#[local] Instance demoArgon : Argon2 := {|
  IDKey pw salt t m p n := take (Z.to_nat n) (pw ++ salt ++ replicate (Z.to_nat n) Ascii.zero);
  argonVersion := 19
|}.

#[local] Instance demoArgonLaws : Argon2Laws.
Proof.
  split; [|done]. intros pw salt t m p n Hn. cbn.
  rewrite length_take, !length_app, length_replicate. lia.
Qed.

Definition demoParams : HashParams := MkHashParams 19456 2 1 4 8.
Definition demoSalt : bytes := chars "salt".

Lemma demoParams_OK : paramsOK demoParams.
Proof. unfold paramsOK. cbn. lia. Qed.

Definition okStr (r : res string) : string := okOr r "".

Definition annsHash : string := okStr (HashPassword (Ok demoSalt) "correct horse" demoParams).

Lemma VerifyPassword_HashPassword_witness :
  VerifyPassword annsHash "correct horse" = Ok true ∧ VerifyPassword annsHash "battery" = Ok false.
Proof.
  destruct (VerifyPassword_HashPassword demoSalt "correct horse" demoParams annsHash)
    as (_ & Hv & Ht); [apply demoParams_OK|run|run|]. split; [exact Ht|].
  rewrite Hv. run.
Defined.

Definition demoService : Service := MkService demoParams DefaultSessionTTL.

Definition authCmds : list cmd :=
  [ CUser (mkUser "u-ann" "ann" annsHash false);
    CSession (MkUserSession (HashToken "old") "u-ann" 1 1000 1 "") ].

Definition authStore : conn := default (MkConn emptyDb true) (runCmds authCmds (MkConn emptyDb true)).

Lemma authStore_wf : wf authStore.
Proof.
  assert (rtc storeStep (MkConn emptyDb true) authStore) as Hr.
  { apply (runCmds_reach authCmds). unfold authStore.
    assert (is_Some (runCmds authCmds (MkConn emptyDb true))) as [c Hc] by (vm_compute; by eexists).
    by rewrite Hc. }
  exact (storeSteps_OK (MkConn emptyDb true) _ storeOK_empty Hr).
Qed.

Lemma Login_no_oracle_witness :
  (Login demoService (Ok "t") 5 5 5 "ann" "wrong" "addr" "x" (authStore, NewLimiter DefaultLimits)).1 =
  (Login demoService (Ok "t") 5 5 5 "ann" "wrong" "addr" "x"
     (MkConn emptyDb true, NewLimiter DefaultLimits)).1.
Proof.
  destruct (Login_no_oracle demoService (Ok "t") (Ok "t") 5 5 5 5 "ann" "wrong" "addr" "x" authStore
              (MkConn emptyDb true) (NewLimiter DefaultLimits)) as [Heq _]; [run|run|exact Heq].
Defined.

Lemma SetPassword_revokes_witness :
  ∃ s, SetPassword demoService (Ok demoSalt) 9 "u-ann" "another horse" authStore = (Ok tt, s) ∧
       Authenticate "old" 10 s = (Err ErrInvalidCredentials, s).
Proof.
  destruct (SetPassword demoService (Ok demoSalt) 9 "u-ann" "another horse" authStore) as [[[]|e] s] eqn:E;
    [|exfalso; apply (f_equal (λ o, isOkb o.1)) in E; vm_compute in E; discriminate E].
  exists s. split; [reflexivity|].
  destruct (SetPassword_revokes demoService demoSalt 9 "u-ann" "another horse" authStore s)
    as (Hold & _); [exact authStore_wf|exact demoParams_OK|run|exact E|].
  apply (Hold "old" (MkUserSession (HashToken "old") "u-ann" 1 1000 1 "")); [run|run].
Defined.

(** ** Outbox and hub *)

Definition pingAt (t : Z) : Frame := pongFrame t.
Definition docFrame (seq : Z) : Frame := eventFrame (MkEventBody seq "k" "w" "" RawEmpty).

Lemma document_lane_fifo_witness :
  let '(accepted, popped, o) :=
    docRun [OpDocument (docFrame 1); OpControl (pingAt 1); OpDocument (docFrame 2); OpDocument (docFrame 3);
            OpPop; OpPop; OpClose] (newOutbox 2 2) in
  accepted = [docFrame 1; docFrame 2] ∧ popped = [docFrame 1] ∧
  popped ++ document o = document (newOutbox 2 2) ++ accepted.
Proof.
  pose proof (document_lane_fifo
    [OpDocument (docFrame 1); OpControl (pingAt 1); OpDocument (docFrame 2); OpDocument (docFrame 3);
     OpPop; OpPop; OpClose] (newOutbox 2 2) ltac:(repeat constructor)) as Hf.
  vm_compute. split_and!; [reflexivity..|]. vm_compute in Hf. exact Hf.
Defined.

(** A writer that found nothing waits on an empty outbox. *)
Lemma no_lost_wakeup_witness :
  ∃ w, rtc writerStep (MkWriter (newOutbox 2 2) Popping) w ∧ w_pc w = Waiting ∧
       drained (w_box w) = true ∧ closed (w_box w) = false.
Proof.
  set (w := MkWriter (newOutbox 2 2) Waiting).
  assert (rtc writerStep (MkWriter (newOutbox 2 2) Popping) w) as Hr.
  { eapply rtc_l; [by eapply step_empty|]. eapply rtc_l; [by eapply step_open|]. apply rtc_refl. }
  exists w. split; [exact Hr|]. split; [reflexivity|].
  exact (no_lost_wakeup 2 2 w Hr eq_refl eq_refl).
Defined.

Definition sessionOf (id user role : string) : Session :=
  MkSession id user "w" role user {[WorldChannel "w"; UserChannel user]} (newOutbox 10 10) 0.

Definition gmSession : Session := sessionOf "1" "gm" RoleGM.
Definition annSession : Session := sessionOf "2" "ann" RolePlayer.
Definition table : hubState := MkHubState {["1"; "2"]} {["1" := gmSession; "2" := annSession]}.
Definition forGMs : Publication :=
  MkPublication (WorldChannel "w") LaneDocument "" (docFrame 1) None ["gm"] "".

Lemma fanOut_exact_witness :
  hub_heap (fanOut forGMs table) !! "2" = Some annSession ∧
  hub_heap (fanOut forGMs table) !! "1" = Some (deliver forGMs (docFrame 1) gmSession).2.
Proof.
  pose proof (fanOut_exact forGMs table "2" annSession ltac:(run)) as [_ Ha].
  pose proof (fanOut_exact forGMs table "1" gmSession ltac:(run)) as [_ Hg].
  rewrite decide_True in Ha by (cbn; set_solver).
  rewrite decide_True in Hg by (cbn; set_solver).
  split; [exact (proj1 Ha)|]. destruct Hg as (_ & _ & Hg & _). exact Hg.
Defined.

(** ** Sessions *)

Definition annTicket : TicketStore :=
  (Issue (Ok "t1") 0 0 "ann" "w" "gm" (NewTicketStore 0)).2.
Definition annHello : Hello := MkHello "t1" "w" 1 0 "" [].
Definition helloFrame : Frame :=
  MkFrame LaneControl TypeHello (Some annHello) None None None None None None None None.

(** The ticket claims a game master; the session is the player of the store. *)
Lemma authenticate_sound_witness :
  ∃ s ts, authenticate demo (Ok helloFrame) 5 (NewSession "2" 10 10, annTicket) = (Ok annHello, (s, ts)) ∧
          sess_role s = RolePlayer.
Proof.
  destruct (authenticate demo (Ok helloFrame) 5 (NewSession "2" 10 10, annTicket)) as [r [s ts]] eqn:E.
  assert (r = Ok annHello) as -> by (apply (f_equal fst) in E; vm_compute in E; symmetry; exact E).
  exists s, ts. split; [reflexivity|].
  destruct (authenticate_sound demo (Ok helloFrame) 5 (NewSession "2" 10 10) annTicket annHello s ts E)
    as (ticket & m & Hred & _ & _ & _ & _ & Hm & Hrole & _).
  rewrite Hrole.
  assert (ticket = MkTicket "ann" "w" "gm" DefaultTicketTTL) as ->.
  { apply (f_equal fst) in Hred. vm_compute in Hred. by injection Hred as <-. }
  assert (member_Role <$> GetMember demo "w" "ann" = Ok RolePlayer) as Hk by run.
  cbn [ticket_WorldID ticket_UserID] in Hm. rewrite Hm in Hk. by injection Hk.
Defined.

(** ** A store with a log, a fight and a door *)

Definition doorData : raw := Raw (JObj [("x1", numZ 7); ("y1", numZ (-10)); ("x2", numZ 7);
  ("y2", numZ 10); ("blocksSight", JBool true); ("door", JBool true)]).
Definition moved (token : ID) : Event :=
  MkEvent "w" 0 0 "gm" "scene.token.move" "document" token "" (Raw JNull) RawEmpty RawEmpty.
Definition demoFight : Combat :=
  MkCombat true 1 1 "1d20" "s" [MkCombatant "ta" "ta" 17 "ally"; MkCombatant "tb" "tb" 9 "enemy"].

Definition playCmds : list cmd :=
  [ CDoc (mkDoc "door" "wall" "s" doorData RawEmpty);
    CDoc (mkDoc CombatDocumentID KindCombat "" (encodeCombat demoFight) combatOwnership);
    CEvent (moved "ta"); CEvent (moved "tb") ].

Definition play : conn := default demo (runCmds playCmds demo).

Lemma play_wf : wf play.
Proof.
  assert (rtc storeStep demo play) as Hr.
  { apply (runCmds_reach playCmds). unfold play.
    assert (is_Some (runCmds playCmds demo)) as [c Hc] by (vm_compute; by eexists). by rewrite Hc. }
  exact (storeSteps_OK demo _ demo_OK Hr).
Qed.

(** Ann missed two moves; Bob's token is behind the wall, so she learns of one. *)
Lemma replay_confined_witness :
  ∃ frames, replayFrames demoPolicy play annSession 0 = Ok frames ∧ eventSeqs frames = [1] ∧
            Forall (λ k, 0 < k) (eventSeqs frames).
Proof.
  destruct (replayFrames demoPolicy play annSession 0) as [frames|e] eqn:E; [|by vm_compute in E].
  exists frames. split; [reflexivity|].
  destruct (replay_confined demoPolicy play annSession 0 frames) as (_ & Hp & _);
    [exact play_wf|exact E|]. split; [|exact Hp].
  apply (f_equal (λ r, eventSeqs (okOr r []))) in E. vm_compute in E. symmetry. exact E.
Defined.

Definition loggedAt (seq : Z) : Event :=
  MkEvent "w" seq 0 "gm" "chat.message" "message" "" "" RawEmpty RawEmpty RawEmpty.

Lemma writer_drops_late_event_witness :
  (writeAll [eventOf (loggedAt 2) RawEmpty; eventOf (loggedAt 1) RawEmpty] 0).1 =
  [eventOf (loggedAt 2) RawEmpty].
Proof.
  exact (proj1 (writer_drops_late_event (loggedAt 1) (loggedAt 2) RawEmpty RawEmpty eq_refl eq_refl)).
Defined.

Definition cursor : Ephemeral := MkEphemeral "cursor" "cursor:gm" "w" "s" RawEmpty.

Lemma scene_ephemeral_undelivered_witness :
  ∃ p, handleEphemeral (ephemeralFrame cursor) gmSession = (gmSession, [p]) ∧
       hub_heap (fanOut p table) !! "2" = Some annSession.
Proof.
  apply (scene_ephemeral_undelivered (ephemeralFrame cursor) cursor gmSession table "2" annSession).
  - reflexivity.
  - discriminate.
  - discriminate.
  - intros i y Hy. cbn in Hy. apply lookup_insert_Some in Hy as [[_ <-]|[_ Hy]]; [done|].
    apply lookup_singleton_Some in Hy as [_ <-]. done.
  - run.
Defined.

(** ** Intents *)

Definition moveAnn : Patch :=
  MkPatch None None None None (objOf [("x", numZ 1); ("y", numZ 2)]) [] None 0.

Definition annMoves : outcome conn :=
  applyPatch demoPolicy 9 annSession "ta" moveAnn "scene.token.move" (Raw JNull) play.


Definition whisper : ChatMessage := MkChatMessage "" 0 "" "" "" "psst" "" [] None AudienceGM "".
Definition whispered : outcome conn := publishMessage 9 "0123" "now" gmSession whisper play.

Lemma gm_message_confined_witness :
  ∃ p, out_published whispered = [p] ∧ allows p "gm" = true ∧ allows p "ann" = false.
Proof.
  destruct (out_result whispered) as [r|e] eqn:E;
    [|exfalso; apply (f_equal isOkb) in E; vm_compute in E; discriminate E].
  destruct (gm_message_confined 9 "0123" "now" gmSession whisper play r) as (p & ms & Hp & Hms & Hal & _);
    [exact play_wf|vm_compute; by eexists|exact E|reflexivity|].
  exists p. split; [exact Hp|].
  assert (allows <$> out_published whispered = allows <$> [p]) as Ha by exact (f_equal (fmap allows) Hp).
  split.
  - apply (f_equal (λ l, from_option (λ f, f "gm") false (head l))) in Ha. cbn in Ha. rewrite <-Ha. run.
  - apply (f_equal (λ l, from_option (λ f, f "ann") true (head l))) in Ha. cbn in Ha. rewrite <-Ha. run.
Defined.

Definition bareIntent (payload : raw) : Intent := MkIntent 1 "k" "w" payload.
Definition nextTurn : outcome conn := handleCombatNext 9 gmSession (bareIntent RawEmpty) play.

(** Turn 1 of two was the last of its round. *)
Lemma combat_next_advances_witness :
  storedCombat (out_store nextTurn) gmSession = Ok (advance demoFight) ∧ c_Round (advance demoFight) = 2.
Proof.
  split; [|reflexivity].
  pose proof (combat_next_advances 9 gmSession (bareIntent RawEmpty) play play_wf) as Hc.
  cbv zeta in Hc. fold nextTurn in Hc. destruct (out_result nextTurn) as [r|e] eqn:E;
    [|exfalso; apply (f_equal isOkb) in E; vm_compute in E; discriminate E].
  destruct Hc as (_ & c & Hstored & _ & _ & Hnext & _). rewrite Hnext.
  assert (storedCombat play gmSession = Ok demoFight) as Hd by run.
  rewrite Hd in Hstored. by injection Hstored as <-.
Defined.

Lemma turns_go_round_witness : c_Turn (Nat.iter 3 advance demoFight) = 0 ∧
  c_Round (Nat.iter 3 advance demoFight) = 3.
Proof.
  destruct (turns_go_round demoFight 3) as (Ht & Hr & _); [vm_compute; intuition congruence..|].
  split; [exact Ht|exact Hr].
Defined.

Definition started : res (Combat * Z) * conn := startTx 9 gmSession "s" "1d20" threeDice play.

Lemma combat_start_sorted_witness :
  ∃ c seq, started.1 = Ok (c, seq) ∧ c_Round c = 1 ∧ length (c_Combatants c) = 3%nat.
Proof.
  destruct started as [[[c seq]|e] st] eqn:E;
    [|exfalso; apply (f_equal (λ o, isOkb o.1)) in E; vm_compute in E; discriminate E].
  exists c, seq. split; [reflexivity|].
  destruct (combat_start_sorted 9 gmSession "s" "1d20" threeDice play c seq st E)
    as (tokens & Htok & _ & Hperm & _ & _ & Hround & _).
  split; [exact Hround|].
  assert (length <$> ListDocuments play "w" (ofKindIn "token" "s" maxCombatants) = Ok 3%nat) as Hl by run.
  assert (ListDocuments play "w" (ofKindIn "token" "s" maxCombatants) = Ok tokens) as Htok' by exact Htok.
  rewrite Htok' in Hl. injection Hl as Hl.
  apply Permutation_length in Hperm. rewrite !length_fmap in Hperm. by rewrite Hperm.
Defined.

Definition toggled : outcome conn :=
  handleDoorToggle demoPolicy 9 gmSession (bareIntent (Raw (JObj [("wallId", JStr "door")]))) play.

Lemma door_toggle_sound_witness :
  ∃ r wall m, out_result toggled = Ok r ∧ GetDocument (out_store toggled) "w" "door" = Ok wall ∧
    UnmarshalObject (doc_Data wall) = Ok m ∧ boolAt "doorOpen" m = true.
Proof.
  pose proof (door_toggle_sound demoPolicy 9 gmSession (bareIntent (Raw (JObj [("wallId", JStr "door")])))
                play play_wf) as Hs.
  cbv zeta in Hs. fold toggled in Hs. destruct (out_result toggled) as [r|e] eqn:E;
    [|exfalso; apply (f_equal isOkb) in E; vm_compute in E; discriminate E].
  destruct Hs as (_ & id & wall & wall' & m & m' & perUser & w & Hid & Hw & Hm & _ & Hw' & Hm' & _ & Hopen & _).
  exists r, wall', m'. split; [reflexivity|].
  assert (id = "door") as -> by (vm_compute in Hid; by injection Hid as <-).
  split; [exact Hw'|]. split; [exact Hm'|]. rewrite Hopen.
  assert ((w ← GetDocument play "w" "door"; m ← UnmarshalObject (doc_Data w); Ok (boolAt "doorOpen" m))
          = Ok false) as Hf by run.
  assert (GetDocument play "w" "door" = Ok wall) as Hw0 by exact Hw.
  rewrite Hw0 in Hf. cbn in Hf. rewrite Hm in Hf. cbn in Hf. by injection Hf as ->.
Defined.

(** Bob sees his own token, and not Ann's behind the wall. *)
Lemma visibility_confined_witness :
  ∃ frames f ms m, visibilityFrames demoPolicy play gmSession "s" 7 = Ok frames ∧
    frames !! "bob" = Some f ∧ ListMembers play "w" = Ok ms ∧ m ∈ ms ∧ member_UserID m = "bob".
Proof.
  destruct (visibilityFrames demoPolicy play gmSession "s" 7) as [frames|e] eqn:E; [|by vm_compute in E].
  destruct (frames !! "bob") as [f|] eqn:Ef.
  2:{ exfalso. assert (bool_decide (okOr (visibilityFrames demoPolicy play gmSession "s" 7) ∅ !! "bob" = None)
                         = false) as Hb by run.
      rewrite E in Hb. cbn [okOr] in Hb. apply bool_decide_eq_false in Hb. by apply Hb. }
  destruct (visibility_confined demoPolicy play gmSession "s" 7 frames "bob" f E Ef)
    as (ms & m & _ & _ & _ & _ & Hms & Hin & Hid & _).
  exists frames, f, ms, m. split_and!; [reflexivity|exact Ef|exact Hms|exact Hin|exact Hid].
Defined.

(** ** The HTTP API *)

Definition demoDeps : AuthDeps := MkAuthDeps demoService true.
Definition request (user : option User) (body : list (string * json)) : Request :=
  MkRequest user None (Raw (JObj body)) "10.0.0.7:5123" "agent" false.
Definition annsLogin : Request :=
  request None [("username", JStr " Ann "); ("password", JStr "correct horse")].
Definition withToken (token : string) : Request := MkRequest None (Some token) RawEmpty "" "" false.

Definition loggedIn : Response * (conn * Limiter) :=
  loginHandler demoDeps (Ok "token") 5 5 5 annsLogin (authStore, NewLimiter DefaultLimits).

Lemma login_cookie_signs_in_witness :
  resp_Status loggedIn.1 = 200 ∧
  ∃ user, withUser 6 (withToken "token") loggedIn.2.1 = (signedInAs user (withToken "token"), loggedIn.2.1) ∧
          user_Username user = "ann".
Proof.
  assert (resp_Status loggedIn.1 = 200) as Hst by run. split; [exact Hst|].
  destruct loggedIn as [resp [s' l']] eqn:E.
  destruct (login_cookie_signs_in demoDeps "token" 5 5 5 annsLogin authStore (NewLimiter DefaultLimits)
              resp s' l') as [[_ Hbad]|(user & name & pw & expires & Hresp & Hdec & Hname & _ & _ & Hexp & Huse)];
    [exact authStore_wf|discriminate|run|exact E| |].
  { cbn in Hst. rewrite Hst in Hbad. exfalso. apply list_elem_of_In in Hbad. cbn in Hbad. intuition congruence. }
  exists user. split.
  - apply (Huse 6 (withToken "token") eq_refl). rewrite Hexp. vm_compute. congruence.
  - rewrite Hname. vm_compute in Hdec. injection Hdec as <- <-. run.
Defined.

Definition setUp : Response * conn :=
  setupHandler demoDeps (Ok demoSalt) "0001" (Ok "token") 5
    (request None [("username", JStr "Root"); ("password", JStr "correct horse")]) (MkConn emptyDb true).

Lemma setup_sound_witness :
  resp_Status setUp.1 = 201 ∧ ∃ row, GetUser setUp.2 "user-0001" = Ok row ∧ user_IsAdmin row = true.
Proof.
  assert (resp_Status setUp.1 = 201) as Hst by run. split; [exact Hst|].
  destruct setUp as [resp s'] eqn:E.
  destruct (setup_sound demoDeps demoSalt "0001" "token" 5
              (request None [("username", JStr "Root"); ("password", JStr "correct horse")])
              (MkConn emptyDb true) resp s')
    as [[-> Hc]|(_ & _ & un & pw & row & expires & _ & _ & Hrow & Ha & _)];
    [exact storeOK_empty|exact demoParams_OK|run|discriminate|run|exact E| |exists row; by split].
  exfalso. apply (f_equal (λ o, length (resp_Cookies o.1))) in E. cbn [fst] in E. rewrite Hc in E.
  vm_compute in E. discriminate E.
Defined.

Definition annUser : User := mkUser "ann" "ann" "h" false.
Definition gmUser : User := mkUser "gm" "gm" "h" true.

Definition issued : Response * (conn * TicketStore) :=
  ticketHandler (Ok "t1") 5 5 (request (Some annUser) [("worldId", JStr "w")]) (demo, NewTicketStore 0).

Lemma ticket_for_members_witness :
  resp_Status issued.1 = 200 ∧ (Redeem "t1" 9 issued.2.2).1 = Ok (MkTicket "ann" "w" RolePlayer (5 + DefaultTicketTTL)).
Proof.
  assert (resp_Status issued.1 = 200) as Hst by run. split; [exact Hst|].
  destruct issued as [resp [s' ts']] eqn:E.
  destruct (ticket_for_members "t1" 5 5 (request (Some annUser) [("worldId", JStr "w")]) demo
              (NewTicketStore 0) resp s' ts')
    as [_ [[_ Hbad]|(_ & user & world & m & Hu & Hw & _ & Hm & Hr)]];
    [vm_compute; congruence|exact E| |].
  { exfalso. cbn in Hst. rewrite Hst in Hbad. apply list_elem_of_In in Hbad. cbn in Hbad. intuition congruence. }
  cbn in Hu. injection Hu as <-. vm_compute in Hw. injection Hw as <-.
  destruct (Hr 9) as [Hred _]; [vm_compute; congruence|]. cbn [snd]. rewrite Hred.
  assert (member_Role <$> GetMember demo "w" "ann" = Ok RolePlayer) as Hk by run.
  assert (GetMember demo "w" "ann" = Ok m) as Hm' by exact Hm.
  rewrite Hm' in Hk. injection Hk as ->. reflexivity.
Defined.

Lemma nextFreeSlug_first_witness :
  nextFreeSlug "a-world" {["a-world"; "a-world-2"; "a-world-4"]} = Some "a-world-3" ∧
  ∃ k, nextFreeSlug "a-world" {["a-world"; "a-world-2"; "a-world-4"]} = Some (candidateSlug "a-world" k) ∧ 2 ≤ k.
Proof.
  split; [run|].
  destruct (nextFreeSlug_first "a-world" {["a-world"; "a-world-2"; "a-world-4"]}) as (k & Hk & Hn & _);
    [vm_compute; congruence|]. exists k. split; [exact Hn|lia].
Defined.

Definition management : list worldRequest :=
  [ RSetRole 9 (request (Some gmUser) [("role", JStr "gm")]) "w" "ann";
    RSetRole 9 (request (Some annUser) [("role", JStr "player")]) "w" "gm";
    RRemove (request (Some annUser) []) "w" "ann";
    RRemove (request (Some annUser) []) "w" "gm" ].

(** Ann is promoted, demotes and removes the old game master, and is left. *)
Lemma worlds_keep_a_game_master_witness :
  let s := foldl (λ s q, (serveWorld q s).2) demo management in
  hasGM s "w" ∧ GetMember s "w" "gm" = Err ErrNotFound.
Proof.
  cbv zeta. split; [|run].
  destruct (worlds_keep_a_game_master management demo) as (_ & Hgm & _); [exact demo_wf|].
  apply (Hgm "w"). eexists "gm", _. split; [vm_compute; reflexivity|reflexivity].
Defined.

(** ** A race of two requests

    The role of the actor is read before the transaction that writes, so two
    requests can both be admitted and both write. *)

Definition twoMasters : conn :=
  (serveWorld (RSetRole 9 (request (Some gmUser) [("role", JStr "gm")]) "w" "ann") demo).2.
Definition demotion (actor : User) (target : ID) : conn → (Response + string) * conn :=
  admitRole (request (Some actor) [("role", JStr "player")]) "w" target.
Definition bothDemoted : conn :=
  (storeRole 9 "w" "gm" "player" (storeRole 9 "w" "ann" "player" twoMasters).2).2.

(** Two game masters demote each other at once: both are admitted on a store where
    both rule, both roles are written, and the world is left without one.  One
    request after the other, the second is refused. *)
Lemma masters_demote_each_other :
  (demotion gmUser "ann" twoMasters).1 = inr "player" ∧ (demotion annUser "gm" twoMasters).1 = inr "player" ∧
  hasGM twoMasters "w" ∧ ¬ hasGM bothDemoted "w" ∧
  ∃ refusal, (demotion annUser "gm" (storeRole 9 "w" "ann" "player" twoMasters).2).1 = inl refusal.
Proof.
  split; [run|]. split; [run|]. split; [eexists "gm", _; split; [vm_compute; reflexivity|reflexivity]|].
  split; [|by vm_compute; eexists].
  intros (u & m & Hm%orNotFound_Ok & Hr).
  assert (forallb (λ m, negb (bool_decide (member_Role m = RoleGM)))
            (rows (world_members (tables bothDemoted))) = true) as Hnone by run.
  set (t := world_members (tables bothDemoted)) in *. clearbody t.
  rewrite forallb_forall in Hnone. specialize (Hnone m).
  rewrite bool_decide_eq_true_2 in Hnone by done. discriminate Hnone.
  apply list_elem_of_In, elem_of_rows. by eexists.
Qed.

Definition openDoor : Invite :=
  MkInvite "invite-1" (HashToken "join") "w" RolePlayer "gm" 1 1000 1 0 None.
Definition invited : conn := default demo (runCmds [CInvite openDoor] demo).

Lemma invited_wf : wf invited.
Proof.
  assert (rtc storeStep demo invited) as Hr.
  { apply (runCmds_reach [CInvite openDoor]). unfold invited.
    assert (is_Some (runCmds [CInvite openDoor] demo)) as [c Hc] by (vm_compute; by eexists). by rewrite Hc. }
  exact (storeSteps_OK demo _ demo_OK Hr).
Qed.

Definition joins (name : string) : acceptance :=
  MkAcceptance (Ok demoSalt) name (Ok name) 5
    (request None [("username", JStr name); ("password", JStr "long enough")]) "join".

Lemma accept_admits_one_witness :
  resp_Status (accept demoDeps (joins "cy") invited).1 = 200 ∧
  ∃ m, GetMember (accept demoDeps (joins "cy") invited).2 "w" "user-cy" = Ok m ∧ member_Role m = RolePlayer.
Proof.
  assert (resp_Status (accept demoDeps (joins "cy") invited).1 = 200) as Hst by run. split; [exact Hst|].
  destruct (accept demoDeps (joins "cy") invited) as [resp s'] eqn:E.
  destruct (accept_admits_one demoDeps (joins "cy") invited resp s')
    as [(_ & Hbad & _)|(_ & _ & invite & user & m & Hi & _ & _ & Hm & Hr & _ & Hwho)];
    [exact invited_wf|exact E|by destruct Hbad|].
  destruct Hwho as [Hu|(_ & Hu & _)]; [discriminate Hu|]. rewrite Hu in Hm.
  assert ((λ i, (invite_WorldID i, invite_Role i)) <$> GetInviteByTokenHash invited (HashToken "join")
          = Ok ("w", RolePlayer)) as Hk by run.
  assert (GetInviteByTokenHash invited (HashToken "join") = Ok invite) as Hi' by exact Hi.
  rewrite Hi' in Hk. injection Hk as Hw Hrole. rewrite Hw in Hm. rewrite Hrole in Hr. exists m. split; [exact Hm|exact Hr].
Defined.

(** One use, two who try. *)
Lemma invite_admits_at_most_witness :
  (admitted demoDeps (HashToken "join") [joins "cy"; joins "di"] invited ≤ 1)%nat ∧
  admitted demoDeps (HashToken "join") [joins "cy"; joins "di"] invited = 1%nat.
Proof.
  split; [|run].
  pose proof (invite_admits_at_most demoDeps [joins "cy"; joins "di"] invited (HashToken "join") openDoor) as Hb.
  specialize (Hb invited_wf). assert (0 < invite_MaxUses openDoor) as Hpos by reflexivity.
  specialize (Hb ltac:(run) Hpos). cbn [invite_MaxUses invite_Uses openDoor] in Hb. lia.
Defined.

(** ** Two first set-ups at once *)

Definition setupBy (name : string) (c : conn) : res (User * string * Time) * conn :=
  runTx (setupTx demoDeps (Ok demoSalt) name (Ok name) 5 "agent" name "correct horse") c.

(** The handler asks whether a set-up is needed before its transaction starts.
    When two requests have both been told yes, both transactions succeed and the
    server has two administrators. *)
Lemma setup_race :
  NeedsSetup (MkConn emptyDb true) = Ok true ∧
  let '(first, c1) := setupBy "eve" (MkConn emptyDb true) in
  let '(second, c2) := setupBy "root" c1 in
  isOkb first = true ∧ isOkb second = true ∧
  (user_IsAdmin <$> GetUser c2 "user-eve") = Ok true ∧ (user_IsAdmin <$> GetUser c2 "user-root") = Ok true.
Proof. vm_compute. split_and!; reflexivity. Qed.
