(* ===== verification/ApiWitnesses.v ===== *)
(** * Concrete runs of the HTTP endpoints

    Closed instances of the theorems on scenes, blobs, images and assets, on the
    stores of Witnesses.v. *)

From S2P Require Import Prelude GoStrings Json Perm Storage Redact Access Vision Sight SqlStore SqlLaws.
From S2P Require Import Sha256 Password Auth Ticket Frame Outbox Hub Session Intents Doors Http Worlds Scenes.
From S2P Require Import Blob AssetImage Assets.
From S2P Require Import Engine Witnesses.

Local Open Scope Z_scope.

#[local] Existing Instance asciiOnly.
#[local] Existing Instance demoArgon.

(** ** Scenes *)

Definition annListing : Response * conn := listTokensHandler demoPolicy (request (Some annUser) []) "w" "s" demo.
Definition annFrames : gmap ID Frame := okOr (visibilityFrames demoPolicy demo annSession "s" 7) ∅.

(** Ann's page lists what her frame lists, a token or more. *)
Lemma listing_is_the_frame_witness :
  ∃ t ts, annListing = (writeJSON 200 (Raw (JArr (t :: ts))), demo) ∧
    annFrames !! "ann" = Some (eventFrame (MkEventBody 7 "scene.visibility" "w" "s"
      (Raw (JObj (fStr "sceneId" "s" ++ [("tokens", JArr (t :: ts))]))))).
Proof.
  destruct (GetMember demo "w" "ann") as [m|] eqn:Em; [|vm_compute in Em; discriminate Em].
  assert (Valid (member_Role m) = true) as Hv.
  { assert (member_Role <$> GetMember demo "w" "ann" = Ok RolePlayer) as Hk by run.
    rewrite Em in Hk. cbn in Hk. injection Hk as ->. reflexivity. }
  destruct (visibilityFrames demoPolicy demo annSession "s" 7) as [fs|] eqn:Ef.
  2:{ exfalso. apply (f_equal isOkb) in Ef. vm_compute in Ef. discriminate Ef. }
  destruct (listing_is_the_frame demoPolicy demo annSession (request (Some annUser) []) "s" 7 fs annUser m)
    as (tokens & Hf & Hl); [exact demo_wf|reflexivity|exact Em|exact Hv|exact Ef|].
  unfold annListing, annFrames. rewrite Ef.
  assert (match resp_Body (listTokensHandler demoPolicy (request (Some annUser) []) "w" "s" demo).1 with
          | Raw (JArr (_ :: _)) => true | _ => false end = true) as Hne by run.
  cbn [sess_worldID annSession sessionOf] in Hl. rewrite Hl in Hne |- *.
  destruct tokens as [| | | |[|t ts]|]; try discriminate Hne. exists t, ts. split; [reflexivity|exact Hf].
Defined.

Definition wallBody : list (string * json) :=
  [("x1", numZ 1); ("y1", numZ 2); ("x2", numZ 3); ("y2", numZ 4); ("door", JBool true)].
Definition walled : Response * conn :=
  createWallHandler "01" 9 (request (Some gmUser) wallBody) "w" "s" demo.

Lemma created_wall_blocks_witness :
  resp_Status walled.1 = 201 ∧
  ∃ blockers, BlockersOf walled.2 "w" "s" = Ok blockers ∧
    MkSegment (MkPoint (ofInt 1) (ofInt 2)) (MkPoint (ofInt 3) (ofInt 4)) ∈ blockers.
Proof.
  assert (resp_Status walled.1 = 201) as Hst by run. split; [exact Hst|].
  destruct walled as [resp s'] eqn:E.
  destruct (created_wall_blocks "01" 9 (request (Some gmUser) wallBody) "w" "s" demo resp s')
    as [[_ Hbad]|(_ & body & row & Hbody & _ & _ & _ & Hb)]; [exact demo_wf|exact E|by destruct Hbad|].
  vm_compute in Hbody. injection Hbody as <-.
  assert (match ListDocuments s' "w" (ofKindIn KindWall "s" 0) with
          | Ok ws => Z.of_nat (length ws) <? 1000 | Err _ => false end = true) as Hlen.
  { replace s' with walled.2 by (by rewrite E). run. }
  destruct (ListDocuments s' "w" (ofKindIn KindWall "s" 0)) as [walls|] eqn:Hl; [|discriminate Hlen].
  destruct (Hb walls) as (bs & Hbs & Hin); [discriminate|reflexivity|by apply Z.ltb_lt|reflexivity|].
  exists bs. split; [exact Hbs|exact Hin].
Defined.

Definition shared : Response * conn :=
  setDocumentAccessHandler 9 (request (Some gmUser) [("userId", JStr "bob"); ("level", JStr "owner")])
    "w" "tb" demo.

Lemma access_entry_decides_witness :
  resp_Status shared.1 = 204 ∧
  ∃ row, GetDocument shared.2 "w" "tb" = Ok row ∧
    ∀ g, GrantOf shared.2 (MkSubject "bob" RoleObserver) row = Ok g → grant_Level g = LevelObserver.
Proof.
  assert (resp_Status shared.1 = 204) as Hst by run. split; [exact Hst|].
  destruct shared as [resp s'] eqn:E.
  destruct (access_entry_decides 9
      (request (Some gmUser) [("userId", JStr "bob"); ("level", JStr "owner")]) "w" "tb" demo resp s')
    as [[_ Hbad]|(_ & body & level & old & row & acl & Hbody & Hlev & _ & Hrow & _ & _ & _ & _ & _ & Hg)];
    [exact demo_wf|exact E|by destruct Hbad|].
  vm_compute in Hbody. injection Hbody as <-. vm_compute in Hlev. injection Hlev as <-.
  exists row. split; [exact Hrow|]. intros g Hgr. exact (Hg RoleObserver g Hgr).
Defined.

Definition sceneRequests : list sceneRequest :=
  [ RScene "02" 9 (request (Some gmUser) [("name", JStr "Cellar")]) "w";
    RScene "03" 9 (request (Some annUser) [("name", JStr "Attic")]) "w" ].

(** The game master makes a scene, the player does not. *)
Lemma scene_writes_confined_witness :
  let s := foldl (λ s q, (serveScene q s).2) demo sceneRequests in
  is_Ok (GetDocument s "w" "scene-02") ∧ GetDocument s "w" "scene-03" = Err ErrNotFound ∧
  GetMember s "w" "ann" = GetMember demo "w" "ann" ∧ GetDocument s "w" "tb" = GetDocument demo "w" "tb".
Proof.
  cbv zeta. split; [eexists; vm_compute; reflexivity|]. split; [run|].
  destruct (scene_writes_confined sceneRequests demo) as (_ & Hm & _ & Hd & _); [exact demo_wf|].
  split; [apply Hm|]. apply Hd. vm_compute. intros Hin. apply list_elem_of_In in Hin. cbn in Hin.
  intuition congruence.
Defined.

Definition newSheet : Response * conn := createActorHandler "04" 9 (request (Some gmUser) []) "w" demo.

Lemma new_actor_private_witness :
  resp_Status newSheet.1 = 201 ∧
  ∃ row, GetDocument newSheet.2 "w" "actor-04" = Ok row ∧
    ∀ g, GrantOf newSheet.2 bobs row = Ok g → grant_Level g = LevelLimited.
Proof.
  assert (resp_Status newSheet.1 = 201) as Hst by run. split; [exact Hst|].
  destruct newSheet as [resp s'] eqn:E.
  destruct (new_actor_private "04" 9 (request (Some gmUser) []) "w" demo resp s')
    as [[_ Hbad]|(_ & user & row & Hu & Hrow & _ & Hg)]; [exact demo_wf|exact E|by destruct Hbad|].
  injection Hu as <-. exists row. split; [exact Hrow|]. intros g Hgr.
  destruct (Hg "bob" RolePlayer g Hgr eq_refl) as [_ Hl]. apply Hl. discriminate.
Defined.

Definition cellar : Request := request (Some gmUser) [("name", JStr "Cellar"); ("width", numZ 0); ("gridSize", numZ 64)].

Lemma created_reads_back_witness :
  ∃ row, GetDocument (createSceneHandler "05" 9 cellar "w" demo).2 "w" "scene-05" = Ok row ∧
    decodeSceneData (doc_Data row) = MkSceneData 2400 1600 64 "square" "".
Proof.
  destruct (createSceneHandler "05" 9 cellar "w" demo) as [resp s'] eqn:E.
  assert (resp_Status resp = 201) as Hst by (apply (f_equal (λ o, resp_Status o.1)) in E; vm_compute in E; done).
  destruct (created_reads_back "05" 9 cellar "w" "s" demo resp s') as [Hs _]; [exact demo_wf|].
  destruct (Hs E Hst) as (body & row & Hbody & Hrow & _ & _ & _ & Hd & _).
  vm_compute in Hbody. injection Hbody as <-. exists row. split; [exact Hrow|exact Hd].
Defined.

(** ** Blobs *)

Definition emptyDisk : Disk := NewDisk "data/blobs".

Lemma emptyDisk_fresh key random : slash ∉ random → freshName emptyDisk key random.
Proof. intros Hr. split; [done|]. intros target _. apply lookup_empty. Qed.

Lemma no_slash : slash ∉ chars "7".
Proof. intros Hin. apply list_elem_of_In in Hin. cbn in Hin. intuition discriminate. Qed.

Lemma empty_afterStop v : afterStop emptyDisk "0123abcdef" v → v = Err ErrBlobNotFound.
Proof.
  inversion 1 as [e He|target Hp Hin|target f content Hp Hin Hf]; subst; [by vm_compute in He|done|].
  unfold bindings, pastOf in Hin. cbn in Hin. rewrite !lookup_empty in Hin.
  by apply list_elem_of_singleton in Hin.
Qed.

(** Whole, refused with the temporary file left behind, interrupted by a death of
    the process, and read after the machine stopped: missing, or all of it. *)
Lemma blob_put_atomic_witness :
  let written := Put (MkFaults 7 0 true) (chars "7") "0123abcdef" (chars "pixels") emptyDisk in
  let refused := Put (MkFaults 3 2 false) (chars "7") "0123abcdef" (chars "pixels") emptyDisk in
  Open written.2 "0123abcdef" = Ok (chars "pixels") ∧
  Open refused.2 "0123abcdef" = Err ErrBlobNotFound ∧
  Open (Crash 2 3 (chars "7") "0123abcdef" (chars "pixels") emptyDisk) "0123abcdef" = Err ErrBlobNotFound ∧
  ∀ budget partial v,
    afterStop (Crash budget partial (chars "7") "0123abcdef" (chars "pixels") emptyDisk) "0123abcdef" v →
    v = Err ErrBlobNotFound ∨ v = Ok (chars "pixels").
Proof.
  intros written refused.
  pose proof (emptyDisk_fresh "0123abcdef" _ no_slash) as Hf.
  destruct (Put (MkFaults 7 0 true) (chars "7") "0123abcdef" (chars "pixels") emptyDisk) as [r d'] eqn:E.
  destruct (blob_put_atomic (MkFaults 7 0 true) (chars "7") "0123abcdef" (chars "pixels") emptyDisk r d' Hf E)
    as (Hr & _ & Hok & _ & Hstop).
  assert (r = Ok tt) as -> by (apply Hok; [run|cbn; lia]). split_and!; [exact Hr|run|run|].
  intros budget partial v Hv. destruct (Hstop budget partial "0123abcdef") as [_ Hs].
  destruct (Hs v Hv) as [Hv'|[_ ->]]; [left; by apply empty_afterStop|by right].
Defined.

(** ** Images *)

(** Codecs for the instances: every image decodes to the same two pixels by two,
    and encodes to its name. *)
#[local] Instance demoCodecs : ImageCodecs := {|
  DecodeConfig _ := Ok (2, 2);
  DecodeImage _ := Ok (plainImage 2 2);
  EncodePNG i := Ok (chars "png " ++ chars (Itoa (img_Dx i)));
  EncodeJPEG _ _ := Ok (chars "jpeg")
|}.

Lemma average_between_witness :
  0 / 256 ≤ px_R (average (plainImage 4 4) 0 3 0 2) ≤ 512 / 256.
Proof.
  apply (average_between (plainImage 4 4) 0 3 0 2 px_R 0 512); [by left|vm_compute; congruence|lia|lia|].
  intros x y Hx Hy. cbn [px_R img_At plainImage]. lia.
Defined.

(** ** Assets *)

Definition assetDeps : AssetDeps := MkAssetDeps (MkLimits 0 0 0) 1000 "https://cdn/".
Definition gif : bytes := chars "GIF89a picture".
Definition allWrites : writes := MkWrites (MkFaults 7 0 true) (chars "7") (MkFaults 7 0 true) (chars "7").

Definition uploaded : Response * (conn * Disk) :=
  uploadAssetHandler assetDeps allWrites "0001" 9 (request (Some gmUser) []) (UploadFile 14 gif true) "w"
    (demo, emptyDisk).

Lemma demo_no_assets w i : GetAsset demo w i = Err ErrNotFound.
Proof.
  assert (assets (tables demo) = ∅) as He by (vm_compute; reflexivity).
  change (sqlGetAsset demo w i = Err ErrNotFound). unfold sqlGetAsset. by rewrite He, lookup_empty.
Qed.

Lemma allWrites_fresh : freshUpload assetDeps allWrites emptyDisk.
Proof.
  intros raw n Hn. split; [split; apply emptyDisk_fresh, no_slash|].
  unfold Normalize in Hn. destruct (_ <? _); [done|]. apply bind_Ok in Hn as (format & _ & Hn).
  change (DecodeConfig raw) with (@Ok (Z * Z) (2, 2)) in Hn. cbv iota beta in Hn.
  destruct (_ <? _); [done|]. change (DecodeImage raw) with (Ok (plainImage 2 2)) in Hn. cbv iota beta in Hn.
  apply bind_Ok in Hn as (full & _ & Hn). apply bind_Ok in Hn as (thumb & Ht & [= <-]).
  vm_compute in Ht. injection Ht as <-. vm_compute. split_and!; congruence.
Qed.

Lemma upload_is_served_witness :
  ∃ created key, serveAssetHandler (request (Some annUser) []) "w" "asset-0001" "thumbnail" uploaded.2 =
    (Streamed "image/png" (key +:+ "-thumb") created (chars "png 2"), uploaded.2).
Proof.
  assert (resp_Status uploaded.1 = 201) as Hst by run. unfold uploaded in *.
  destruct (uploadAssetHandler _ _ _ _ _ _ _ _) as [resp st'] eqn:E.
  destruct (upload_is_served assetDeps allWrites "0001" 9 (request (Some gmUser) []) (UploadFile 14 gif true) "w"
    demo emptyDisk resp st') as (user & m & raw & n & _ & _ & _ & Hn & Hs);
    [exact demo_wf|intros w; apply demo_no_assets|exact allWrites_fresh|exact E|exact Hst|].
  destruct (GetMember demo "w" "ann") as [ann|] eqn:Ea; [|vm_compute in Ea; discriminate Ea].
  destruct (Hs (request (Some annUser) []) annUser ann eq_refl Ea) as (created & _ & Ht).
  exists created, (n_SHA256 n). change (st') with ((resp, st').2) in Ht |- *. cbn [snd] in *.
  assert (n_Thumbnail n = withKey (MkVariant (chars "png 2") "" "image/png" 5 2 2) (n_SHA256 n +:+ "-thumb")) as Hth.
  { clear -Hn. unfold Normalize in Hn. destruct (_ <? _); [done|]. apply bind_Ok in Hn as (format & _ & Hn).
    change (DecodeConfig raw) with (@Ok (Z * Z) (2, 2)) in Hn. cbv iota beta in Hn.
    destruct (_ <? _); [done|]. change (DecodeImage raw) with (Ok (plainImage 2 2)) in Hn. cbv iota beta in Hn.
    apply bind_Ok in Hn as (full & _ & Hn). apply bind_Ok in Hn as (thumb & Ht & [= <-]).
    vm_compute in Ht. injection Ht as <-. reflexivity. }
  rewrite Hth in Ht. exact Ht.
Defined.

Lemma upload_deduplicates_witness :
  ∃ a, asset_ID a = "asset-0001" ∧
    uploadAssetHandler assetDeps allWrites "0002" 10 (request (Some gmUser) []) (UploadFile 14 gif true) "w" uploaded.2 =
    (writeJSON 200 (Raw (viewAsset assetDeps a)), uploaded.2).
Proof.
  assert (resp_Status uploaded.1 = 201) as Hst by run. unfold uploaded in *.
  destruct (uploadAssetHandler assetDeps allWrites "0001" _ _ _ _ _) as [resp st'] eqn:E.
  destruct (Normalize (limitRead assetDeps gif) (uploadLimits assetDeps)) as [n|] eqn:En;
    [|exfalso; apply (f_equal isOkb) in En; vm_compute in En; discriminate En].
  destruct (upload_deduplicates assetDeps allWrites "0001" 9 (request (Some gmUser) []) 14 gif "w" demo emptyDisk
    resp st' n allWrites_fresh En E) as [_ Hagain].
  exact (Hagain demo_wf (λ w, demo_no_assets w _) Hst allWrites "0002" 10).
Defined.

Lemma quota_holds_witness :
  ∃ n, SumAssetBytes uploaded.2.1 "w" = Ok n ∧ 0 ≤ n ≤ ad_WorldQuota assetDeps.
Proof.
  destruct (quota_holds assetDeps (demo, emptyDisk) uploaded.2 "w" 0) as (n & Hn & Hle);
    [|exact demo_wf|reflexivity|run|vm_compute; split; congruence| |exists n; split; [exact Hn|exact Hle]].
  - unfold uploaded. destruct (uploadAssetHandler _ _ _ _ _ _ _ _) as [resp st'] eqn:E. cbn [snd].
    eapply (step_upload assetDeps allWrites "0001"); [intros w; apply demo_no_assets|exact allWrites_fresh|exact E].
  - intros raw v Hv. destruct (allWrites_fresh raw v Hv) as [_ [[_ Ht] _]].
    unfold Normalize in Hv. destruct (_ <? _); [done|]. apply bind_Ok in Hv as (format & Hs%sniff_mime & Hv).
    change (DecodeConfig raw) with (@Ok (Z * Z) (2, 2)) in Hv. cbv iota beta in Hv.
    destruct (_ <? _); [done|]. change (DecodeImage raw) with (Ok (plainImage 2 2)) in Hv. cbv iota beta in Hv.
    apply bind_Ok in Hv as (full & Hf & Hv). apply bind_Ok in Hv as (thumb & Htb & [= <-]).
    vm_compute in Htb. injection Htb as <-. destruct Hs as [-> | ->]; vm_compute in Hf; injection Hf as <-;
      vm_compute; split; congruence.
Defined.
