(* ===== verification/SystemWitnesses.v ===== *)
(** * Concrete runs of the assembled system

    Closed instances of the theorems on statements, migrations, the binary
    codec, the routes and the server as a whole. *)

From S2P Require Import Prelude GoStrings Json Perm Storage Redact Access Vision Sight SqlStore SqlLaws.
From S2P Require Import SqlText SqlQuery Migrations Rows Engine.
From S2P Require Import Dice Sha256 RateLimit Password Auth Ticket Frame ProtoCodec JsonCodec Outbox Hub Session Intents.
From S2P Require Import Http Worlds Footprint SqlFrame Scenes Blob AssetImage Assets Router Server Gateway App.
From S2P Require Import Witnesses ApiWitnesses.
From Stdlib Require Import Ascii.

Local Open Scope Z_scope.

#[local] Existing Instance asciiOnly.
#[local] Existing Instance demoArgon.
#[local] Existing Instance demoCodecs.

(** ** Statements *)

(** A query and a patch whose paths go into the text of the statement. *)
Definition askClan : JSONQuery :=
  MkJSONQuery "actor" "" [MkJSONCondition "clan.name" OpEqual (AnyString "x' OR '1'='1")] 0.
Definition hungerPatch : Patch :=
  MkPatch (Some "Nadia") None None None [("hunger", numZ 4); ("attributes.strength", numZ 5)] ["stale"] None 7.

Definition patchText (d : SqlDialect) : string * nat :=
  match patchDocumentSQL d 9 "w" "a" hungerPatch with Ok st => (st.1, length st.2) | Err _ => ("", 0%nat) end.

Lemma statements_keep_their_shape_witness :
  bound (okOr (querySystemDataSQL postgres "w" askClan) ("", [])) ∧
  length (okOr (querySystemDataSQL postgres "w" askClan) ("", [])).2 = 4%nat ∧
  placeholders (patchText sqlite).1 = Some 7%nat.
Proof.
  destruct (statements_keep_their_shape postgres) as (_ & Hq & _).
  destruct (statements_keep_their_shape sqlite) as (_ & _ & Hp).
  split_and!; [|run|].
  - destruct (querySystemDataSQL postgres "w" askClan) as [st|] eqn:E; [exact (Hq _ _ _ E)|].
    apply (f_equal isOkb) in E. vm_compute in E. discriminate E.
  - unfold patchText. destruct (patchDocumentSQL sqlite 9 "w" "a" hungerPatch) as [st|] eqn:E.
    + pose proof (Hp _ _ _ _ _ E) as Hb. unfold bound in Hb. cbn [fst]. rewrite Hb. f_equal.
      assert ((λ r, match r with Ok x => length (x.2 : list arg) | Err _ => 0%nat end)
        (patchDocumentSQL sqlite 9 "w" "a" hungerPatch) = 7%nat) as Hl by run.
      by rewrite E in Hl.
    + apply (f_equal isOkb) in E. vm_compute in E. discriminate E.
Defined.

(** ** Rows *)

(** An administrator without an address, as SQLite may give the row back. *)
Definition rootUser : User :=
  MkUser "u-1" "root" "" "hash" "en" true (62135596800 * Second + 120030000) None.
Definition rootCells : list cell :=
  [TextCell "u-1"; BytesCell (chars "root"); NullCell; TextCell "hash"; BytesCell (chars "en"); IntCell 1;
   BytesCell (chars "1970-01-01T00:00:00.12003Z"); NullCell].

Lemma rows_read_back_witness :
  scanUser rootCells = Ok rootUser ∧ columnOf (rowOf userRows Sqlite rootUser) "created_at" =
    Some (TextCell "1970-01-01T00:00:00.12003Z").
Proof.
  split; [|run]. destruct (rows_read_back (H := λ _, RawBad)) as ((_ & _ & Hu & _) & _).
  apply (Hu Sqlite rootUser rootCells).
  - repeat constructor; cbn; unfold Second; lia.
  - repeat (constructor; [eexists; split; [vm_compute; reflexivity|constructor]|]). constructor.
Defined.

(** ** Migrations *)

Definition willing : Z → res unit := λ _, Ok tt.
(** A driver that loses the connection while version 3 commits. *)
Definition failsAt3 : Z → res unit := λ v, if v =? 3 then Err (ErrOther "connection lost") else Ok tt.

Definition interruptedDb : database :=
  (Migrate define willing willing failsAt3 sqliteMigrations (MkDatabase emptyCatalog [])).2.
Definition migratedDb : res unit * database :=
  Migrate define willing willing willing sqliteMigrations interruptedDb.

Lemma migrations_converge_witness :
  versions interruptedDb = [1; 2] ∧ versions migratedDb.2 = [1; 2; 3; 4; 5; 6] ∧
  runAll define (concat sqliteMigrations) emptyCatalog = Ok (schema migratedDb.2).
Proof.
  split; [run|]. destruct migratedDb as [r db'] eqn:E.
  assert (r = Ok tt) as -> by (change r with (r, db').1; rewrite <-E; run).
  destruct (migrations_converge define sqliteMigrations emptyCatalog interruptedDb db' willing willing willing)
    as (Hs & Hv & _); [|exact E|split; [exact Hv|exact Hs]].
  apply rtc_once. exists willing, willing, failsAt3. unfold interruptedDb.
  destruct (Migrate _ _ _ _ _ _) as [r1 d1]. by exists r1.
Defined.

(** ** The binary codec *)

Definition ackCase (m : Z * string * list (string * value)) : option (Z * Z) :=
  match m with
  | (1, "Ack", [("RequestId", VInt a); ("Seq", VInt b); ("Result", VBytes RawEmpty)]) =>
      if (0 <=? a) && (0 <=? b) then Some (a, b) else None
  | _ => None
  end.

Definition countByte (c : Ascii.ascii) (l : bytes) : Z :=
  Z.of_nat (length (filter (λ x, x = c) l)).

(** Messages as their literals, and a wire format for acknowledgements alone:
    two numbers in unary. *)
#[local] Instance demoProto : Protobuf := {|
  ProtoCodec.message := Z * string * list (string * value);
  ProtoCodec.body := list (string * value);
  newFrame lane case fields := (lane, case, fields);
  GetLane m := m.1.1;
  GetBody m := Some (m.1.2, m.2);
  GetField b f := fieldOf b f;
  Marshal m := match ackCase m with
               | Some (a, b) => Ok (replicate (Z.to_nat a) "a"%char ++ replicate (Z.to_nat b) "b"%char)
               | None => Err (ErrOther "not an acknowledgement")
               end;
  Unmarshal l := Ok (1, "Ack", [("RequestId", VInt (countByte "a"%char l)); ("Seq", VInt (countByte "b"%char l));
                                ("Result", VBytes RawEmpty)])
|}.

Lemma countByte_app c l k : countByte c (l ++ k) = countByte c l + countByte c k.
Proof. unfold countByte. rewrite filter_app, length_app. lia. Qed.

Lemma countByte_replicate c x n :
  countByte c (replicate n x) = if decide (x = c) then Z.of_nat n else 0.
Proof.
  unfold countByte. induction n as [|n IH]; [by case_decide|]. cbn [replicate].
  rewrite filter_cons. case_decide; cbn [length]; lia.
Qed.

Lemma ackCase_inv m a b : ackCase m = Some (a, b) →
  m = (1, "Ack", [("RequestId", VInt a); ("Seq", VInt b); ("Result", VBytes RawEmpty)]) ∧ 0 ≤ a ∧ 0 ≤ b.
Proof.
  intros Hm. unfold ackCase in Hm. repeat (case_match; try discriminate Hm). subst.
  match goal with E : (_ && _) = true |- _ => apply andb_prop in E as [?%Z.leb_le ?%Z.leb_le] end.
  by injection Hm as <- <-.
Qed.

#[local] Instance demoProtoLaws : ProtobufLaws.
Proof.
  split.
  - done.
  - intros lane c fs. by exists fs.
  - intros m data. cbn. destruct (ackCase m) as [[a b]|] eqn:E; [|done]. intros [= <-].
    apply ackCase_inv in E as (-> & Ha & Hb). eexists. split; [done|].
    rewrite !countByte_app, !countByte_replicate, !Z2Nat.id by done.
    rewrite !(decide_True_pi eq_refl), !decide_False by done. rewrite Z.add_0_r, Z.add_0_l.
    by split.
Qed.

Definition demoAck : Frame := bare (LaneDocument) TypeAck.
Definition ack52 : Frame := ackFrame (MkAck 5 2 RawEmpty).

Lemma proto_round_trip_witness :
  encodable ack52 = true ∧ ProtoEncode ack52 = Ok (chars "aaaaabb") ∧
  ProtoDecode (chars "aaaaabb") = Ok ack52.
Proof.
  destruct (proto_round_trip ack52) as [_ Hr].
  split_and!; [run|run|]. exact (Hr (chars "aaaaabb") I ltac:(run)).
Defined.

(** ** The readable codec *)

Definition refusal : Frame :=
  MkFrame LaneControl TypeError None None None None None None
    (Some (MkErrorBody 7 CodeForbidden "core.forbidden" [("field", "hp"); ("kind", "actor")])) None None.

Lemma refusal_OK : frameOK refusal.
Proof.
  split; try done. intros e [= <-]. split; [by split|]. unfold isMap, members. repeat constructor.
Qed.

Lemma json_round_trip_witness :
  (∃ data, JSONEncode refusal = Ok data ∧ JSONDecode data = Ok refusal) ∧
  frame_Type (okOr (JSONDecode (Raw (JObj [("TYPE", JStr "ping"); ("ping", JNull)]))) refusal) ≠ "".
Proof.
  destruct json_round_trip as [Hf Hd]. split; [exact (Hf refusal refusal_OK)|].
  destruct (JSONDecode (Raw (JObj [("TYPE", JStr "ping"); ("ping", JNull)]))) as [f|e] eqn:E; [|by vm_compute in E].
  exact (proj1 (Hd _ f E)).
Defined.

(** ** Routes *)

Definition allWired : wiring := MkWiring true true true.
Definition quiet : choices :=
  MkChoices 9 9 9 9 9 "0001" (Ok "token") (Ok demoSalt) (Ok tt) allWrites UploadMalformed.
Definition demoServer : server (S := conn) :=
  MkServer demo (NewLimiter DefaultLimits) (NewTicketStore (30 * Second)) emptyDisk.

(** Nobody is signed in: the member stays. *)
Definition removal : reply * server (S := conn) :=
  serve demoDeps assetDeps demoPolicy "sqlite" allWired quiet "DELETE" "/api/worlds/w/members/ann"
    (request None []) demoServer.

Lemma world_paths_are_gated_witness :
  ∃ x, removal = (Reply (Answered x), demoServer) ∧ (resp_Status x = 401 ∨ resp_Status x = 403).
Proof.
  destruct removal as [out st'] eqn:E.
  destruct (world_paths_are_gated demoDeps assetDeps demoPolicy "sqlite" quiet "w" allWired "DELETE"
    "/api/worlds/w/members/ann" (request None []) demoServer (RemoveMember "w" "ann") out st')
    as [(x & -> & Hx & ->)|(u & m & Hu & _)];
    [reflexivity|exists "members", ["ann"]; by left|run|exact E| |discriminate Hu].
  exists x. split; [reflexivity|exact Hx].
Defined.

(** ** The whole server *)

Definition freshServer : server (S := conn) :=
  MkServer (MkConn emptyDb true) (NewLimiter DefaultLimits) (NewTicketStore (30 * Second)) emptyDisk.
Definition installed : reply * server (S := conn) :=
  serve demoDeps assetDeps demoPolicy "sqlite" allWired quiet "POST" "/api/setup"
    (request None [("username", JStr "Root"); ("password", JStr "correct horse")]) freshServer.

Lemma server_keeps_the_store_witness :
  CountUsers (srv_store installed.2) = Ok 1 ∧ wf (srv_store installed.2) ∧
  logGrows (srv_store freshServer) (srv_store installed.2).
Proof.
  split; [run|].
  assert (rtc (serverStep (G := FixedSource) demoDeps assetDeps demoPolicy "sqlite") freshServer installed.2) as Hrun.
  { apply rtc_once. destruct installed as [out st'] eqn:E. by eapply step_request. }
  exact (server_keeps_the_store (H3 := sqlTxLaws) demoDeps assetDeps demoPolicy "sqlite"
    freshServer installed.2 storeOK_empty Hrun).
Defined.

(** The game master is signed in. *)
Definition hostingCmds : list cmd := [CSession (MkUserSession (HashToken "old") "gm" 1 1000 1 "")].
Definition hosting : conn := default demo (runCmds hostingCmds demo).
Definition hostServer : server (S := conn) :=
  MkServer hosting (NewLimiter DefaultLimits) (NewTicketStore (30 * Second)) emptyDisk.

Lemma hosting_wf : wf hosting.
Proof.
  assert (rtc storeStep demo hosting) as Hr.
  { apply (runCmds_reach hostingCmds). unfold hosting.
    assert (is_Some (runCmds hostingCmds demo)) as [c Hc] by (vm_compute; by eexists). by rewrite Hc. }
  exact (storeSteps_OK demo _ demo_OK Hr).
Qed.

Lemma hostServer_wf : wf (srv_store hostServer).
Proof. unfold hostServer. cbn [srv_store]. exact hosting_wf. Qed.

Definition statusOf (r : reply) : Z := match r with Reply (Answered x) => resp_Status x | _ => 0 end.

(** The game master lists the members of the world. *)
Definition listed : reply * server (S := conn) :=
  serve demoDeps assetDeps demoPolicy "sqlite" allWired quiet "GET" "/api/worlds/w/members" (withToken "old") hostServer.

Lemma requests_write_their_tables_witness :
  statusOf listed.1 = 200 ∧ writesTo [TSessions] (srv_store hostServer) (srv_store listed.2).
Proof.
  split; [run|]. unfold listed. destruct (serve _ _ _ _ _ _ _ _ _ _) as [out st'] eqn:E.
  destruct (requests_write_their_tables (H3 := sqlTxLaws) demoDeps assetDeps demoPolicy "sqlite" allWired quiet "GET"
    "/api/worlds/w/members" (withToken "old") hostServer out st' hostServer_wf E) as (s1 & Hw & _ & Hsame).
  cbn [snd]. rewrite Hsame; [exact Hw|]. right. reflexivity.
Defined.

Definition gifChoices : choices :=
  MkChoices 9 9 9 9 9 "0001" (Ok "token") (Ok demoSalt) (Ok tt) allWrites (UploadFile 14 gif true).
Definition hosted : reply * server (S := conn) :=
  serve demoDeps assetDeps demoPolicy "sqlite" allWired gifChoices "POST" "/api/worlds/w/assets" (withToken "old") hostServer.

Lemma hosting_no_assets w i : GetAsset hosting w i = Err ErrNotFound.
Proof.
  assert (assets (tables hosting) = ∅) as He by (vm_compute; reflexivity).
  change (sqlGetAsset hosting w i = Err ErrNotFound). unfold sqlGetAsset. by rewrite He, lookup_empty.
Qed.

Lemma server_assets_have_blobs_witness :
  statusOf hosted.1 = 201 ∧ assetsOK (assetsOf hosted.2).
Proof.
  split; [run|].
  assert (rtc (assetRun (G := FixedSource) demoDeps assetDeps demoPolicy "sqlite") hostServer hosted.2) as Hrun.
  { apply rtc_once. unfold hosted. destruct (serve _ _ _ _ _ _ _ _ _ _) as [out st'] eqn:E. cbn [snd].
    eapply run_request; [|exact E]. unfold hostServer. cbn [srv_store srv_disk].
    split; [exact allWrites_fresh|intros w; apply hosting_no_assets]. }
  apply (server_assets_have_blobs (H3 := sqlTxLaws) demoDeps assetDeps demoPolicy "sqlite" hostServer hosted.2 Hrun).
  split; [exact hostServer_wf|]. intros w i a Ha. unfold assetsOf, hostServer in Ha. cbn [fst srv_store] in Ha.
  rewrite hosting_no_assets in Ha. discriminate Ha.
Defined.

(** ** Start-up *)

(** An empty environment, and a disk on which the blobs cannot be kept. *)
Definition noEnv : string → string := λ _, "".
Definition fullDisk : outside := λ a,
  match a with MakeBlobRoot _ => Err (ErrOther "no space left on device") | _ => Ok tt end.

Lemma no_handle_leaks_witness :
  handles fullDisk (New fullDisk (ConfigFromEnv noEnv)).1 = 0 ∧
  last (New fullDisk (ConfigFromEnv noEnv)).1 = Some CloseDB.
Proof.
  split; [|run]. destruct (no_handle_leaks fullDisk noEnv) as [Hf _].
  apply (Hf (ErrOther "no space left on device")). run.
Defined.

(** ** Hubs *)

Definition twoWorlds : registry := (HubOf "v" (HubOf "w" NewRegistry).2).2.

Lemma one_hub_per_world_witness :
  (HubOf "w" twoWorlds).1 = 0%nat ∧ (HubOf "v" twoWorlds).1 = 1%nat ∧
  HubOf "w" (HubOf "w" twoWorlds).2 = HubOf "w" twoWorlds.
Proof.
  split_and!; [run|run|].
  assert (rtc registryStep NewRegistry twoWorlds) as Hr.
  { apply (rtc_l _ _ _ _ (step_Hub "w" NewRegistry)), rtc_once, step_Hub. }
  pose proof (one_hub_per_world twoWorlds "w" Hr) as H.
  destruct (HubOf "w" twoWorlds) as [h r'] eqn:E. destruct H as (_ & Hsame & _). exact Hsame.
Defined.
