(* ===== verification/LiveWitnesses.v ===== *)
(** * Concrete runs of the gateway

    A table of three, computed step by step: the players join, two of them write
    at the same time, and the third watches. *)

From S2P Require Import Prelude GoStrings Json Perm Storage Redact Access Vision Sight SqlStore SqlLaws.
From S2P Require Import SqlText SqlQuery Migrations Engine.
From S2P Require Import Dice Sha256 RateLimit Password Auth Ticket Frame Outbox Hub Session Intents Chat Combat Doors.
From S2P Require Import Http Worlds Footprint SqlFrame Scenes Blob AssetImage Assets Router Server Gateway App.
From S2P Require Import Entitled Announce Live LiveSafety LiveRun Steps Delivery LiveEnd Arrival.
From S2P Require Import ProtoCodec JsonCodec Wire Witnesses ApiWitnesses SystemWitnesses.
From Stdlib Require Import Ascii.

Local Open Scope Z_scope.

#[local] Existing Instance asciiOnly.
#[local] Existing Instance demoArgon.
#[local] Existing Instance demoCodecs.

Definition threeTickets : TicketStore :=
  (Issue (Ok "t3") 0 0 "bob" "w" "player"
    (Issue (Ok "t2") 0 0 "ann" "w" "player"
      (Issue (Ok "t1") 0 0 "gm" "w" "gm" (NewTicketStore 0)).2).2).2.

Definition helloWith (ticket : string) : Frame :=
  MkFrame LaneControl TypeHello (Some (MkHello ticket "w" 1 0 "" [])) None None None None None None None None.
Definition says (text : string) : Frame :=
  MkFrame LaneDocument TypeIntent None None
    (Some (MkIntent 1 "chat.post" "w" (Raw (JObj [("text", JStr text)])))) None None None None None None.

Definition simulateDemo : list (move (G := FixedSource)) → live (S := conn) → option live :=
  simulate demoPolicy.

(** A session from its connection to its read loop. *)
Definition arrives (id ticket : string) : list (move (G := FixedSource)) :=
  [MAccept id 10 10; MHello id (Ok (helloWith ticket)) 5] ++ replicate 6 (MServe id).
Definition posts (id text doc : string) : move :=
  MRead id (Some (says text)) 9 doc "now" threeDice threeDice threeDice.
(** The hub takes one publication and is done with it. *)
Definition fansOut (members : nat) : list (move (G := FixedSource)) := replicate (members + 2) (MHub 0).
Definition writesOne (id : string) : list (move (G := FixedSource)) := [MWriter id; MWriter id].

Definition table3 : list (move (G := FixedSource)) := arrives "1" "t1" ++ arrives "2" "t2" ++ arrives "3" "t3".

(** The game master's message is committed first; Ann's reaches the hub first. *)
Definition race : list (move (G := FixedSource)) :=
  table3 ++ [posts "1" "I open the door" "0001"; posts "2" "I draw my sword" "0002"; MHandler "2"; MHandler "1"] ++
  fansOut 3 ++ fansOut 3 ++ writesOne "3".

Definition start : live := liveInit demo threeTickets.

Definition wireOf (id : string) (st : live (S := conn)) : list Frame :=
  from_option cl_wire [] (lv_clients st !! id).

(** Some session of a state, where its goroutines are. *)
Lemma clientAt_of (st : live (S := conn)) id s c :
  lv_heap st !! id = Some s → lv_clients st !! id = Some c → clientAt st id s (cl_phase c) (cl_wire c).
Proof. intros Hs Hc. split; [done|by destruct c]. Qed.

Lemma simulated ms (st : live (S := conn)) :
  simulateDemo ms start = Some st → liveSteps (G := FixedSource) demoDeps assetDeps demoPolicy "sqlite" start st.
Proof. apply simulate_sound. Qed.

Definition stateAfter (ms : list (move (G := FixedSource))) : live := default start (simulateDemo ms start).

Lemma computed ms :
  match simulateDemo ms start with Some _ => true | None => false end = true →
  simulateDemo ms start = Some (stateAfter ms).
Proof. unfold stateAfter. by destruct (simulateDemo ms start). Qed.

Definition raced : live := stateAfter race.

Lemma raced_runs : simulateDemo race start = Some raced.
Proof. apply computed. run. Qed.

(** Bob was greeted and sent Ann's message. *)
Lemma every_wire_is_due_witness :
  length (wireOf "3" raced) = 2%nat ∧ eventSeqs (wireOf "3" raced) = [2] ∧
  Forall (due demoPolicy (lv_past raced) (lv_store raced) "w" "bob" "player") (wireOf "3" raced).
Proof.
  split_and!; [run|run|].
  destruct (lv_heap raced !! "3") as [s|] eqn:Es; [|by vm_compute in Es].
  destruct (lv_clients raced !! "3") as [c|] eqn:Ec; [|by vm_compute in Ec].
  destruct (every_wire_is_due (H3 := sqlTxLaws) demoDeps assetDeps demoPolicy "sqlite" demo threeTickets raced "3" s
    (cl_phase c) (cl_wire c) demo_wf (simulated _ _ raced_runs) (clientAt_of _ _ _ _ Es Ec)) as [Hdue _].
  assert (wireOf "3" raced = cl_wire c) as -> by (unfold wireOf; by rewrite Ec).
  assert ((λ s, (sess_worldID s, sess_userID s, sess_role s)) <$> lv_heap raced !! "3" = Some ("w", "bob", "player")) as Hid
    by run.
  rewrite Es in Hid. injection Hid as Hw Hu Hr. rewrite Hw, Hu, Hr in Hdue. exact Hdue.
Defined.

(** The first message, which every member may see, is in the log; Bob's connection
    never gets it. *)
Lemma overtaken_event_is_lost_witness :
  (λ e, (event_Seq e, audienceAllows (event_Audience e) "bob")) <$> okOr (EventsSince (lv_store raced) "w" 0 1) [] = [(1, true)] ∧
  ∀ st' s' ph' wire',
    liveSteps (G := FixedSource) demoDeps assetDeps demoPolicy "sqlite" raced st' →
    clientAt st' "3" s' ph' wire' → 1 ∉ eventSeqs wire'.
Proof.
  split; [run|]. intros st' s' ph' wire' Hr Hat.
  destruct (lv_heap raced !! "3") as [s|] eqn:Es; [|by vm_compute in Es].
  destruct (lv_clients raced !! "3") as [c|] eqn:Ec; [|by vm_compute in Ec].
  assert (eventSeqs (cl_wire c) = [2]) as Hwire.
  { assert (eventSeqs (wireOf "3" raced) = [2]) as Hw by run. unfold wireOf in Hw. by rewrite Ec in Hw. }
  apply (overtaken_event_is_lost (H3 := sqlTxLaws) demoDeps assetDeps demoPolicy "sqlite" demo threeTickets raced st' "3" s
    (cl_phase c) (cl_wire c) s' ph' wire' 1 2 demo_wf (simulated _ _ raced_runs) (clientAt_of _ _ _ _ Es Ec));
    [rewrite Hwire; by apply list_elem_of_singleton|lia|rewrite Hwire; by intros ?%list_elem_of_singleton|exact Hr|exact Hat].
Defined.

(** Ann hangs up after the race. *)
Definition departs : list (move (G := FixedSource)) :=
  [MHandler "2"; MHangup "2"] ++ replicate 8 (MWriter "2") ++ [MServe "2"; MServe "2"; MServe "2"].
Definition departed : live := stateAfter (race ++ departs).
Definition phaseOf (id : string) (st : live (S := conn)) : option phase := cl_phase <$> lv_clients st !! id.
Definition membersOf (n : nat) (st : live (S := conn)) : list string :=
  from_option (λ h, elements (hp_members h)) [] (lv_hubs st !! n).

Lemma departed_runs : simulateDemo (race ++ departs) start = Some departed.
Proof. apply computed. run. Qed.

Lemma hubs_hold_the_living_witness :
  phaseOf "2" departed = Some Gone ∧ membersOf 0 departed = ["3"; "1"] ∧
  ∀ h, lv_hubs departed !! 0%nat = Some h → "2" ∉ hp_members h.
Proof.
  split_and!; [run|run|]. intros h Hh.
  destruct (hubs_hold_the_living (H3 := sqlTxLaws) demoDeps assetDeps demoPolicy "sqlite" demo threeTickets departed 0 h
    demo_wf (simulated _ _ departed_runs) Hh) as (_ & Hgone & _).
  destruct (lv_heap departed !! "2") as [s|] eqn:Es; [|by vm_compute in Es].
  assert (lv_clients departed !! "2" = Some (MkClient Gone (wireOf "2" departed))) as Hc.
  { assert (phaseOf "2" departed = Some Gone) as Hp by run. unfold phaseOf in Hp. unfold wireOf.
    destruct (lv_clients departed !! "2") as [[ph wire]|]; [|done]. cbn in Hp. by injection Hp as ->. }
  exact (Hgone "2" s Gone _ (conj Es Hc) eq_refl).
Defined.

(** The game master's handler holds a publication: even then the session can end. *)
Definition holding : live := stateAfter (table3 ++ [posts "1" "I open the door" "0001"]).

Lemma holding_runs : simulateDemo (table3 ++ [posts "1" "I open the door" "0001"]) start = Some holding.
Proof. apply computed. run. Qed.

Definition publishing (ph : phase) : nat :=
  match ph with Serving _ (Answering ps _) _ => length ps | _ => 0 end.

Lemma session_can_end_witness :
  publishing <$> phaseOf "1" holding = Some 1%nat ∧
  ∃ st' s' wire', rtc (ownStep (G := FixedSource) demoDeps assetDeps demoPolicy "sqlite" "1") holding st' ∧
    clientAt st' "1" s' Gone wire'.
Proof.
  split; [run|].
  destruct (lv_heap holding !! "1") as [s|] eqn:Es; [|by vm_compute in Es].
  destruct (lv_clients holding !! "1") as [c|] eqn:Ec; [|by vm_compute in Ec].
  destruct (session_can_end (H3 := sqlTxLaws) demoDeps assetDeps demoPolicy "sqlite" "1" demo threeTickets holding s
    (cl_phase c) (cl_wire c) demo_wf (simulated _ _ holding_runs) (clientAt_of _ _ _ _ Es Ec))
    as (st' & s' & wire' & Hr & Hat & _).
  exists st', s', wire'. split; [exact Hr|exact Hat].
Defined.

(** ** What the others are sent *)

(** No hub of a computed state has been asked to quit. *)
Lemma running_of (st : live (S := conn)) :
  bool_decide (map_Forall (λ _ h, hp_quit h = false) (lv_hubs st)) = true → running st.
Proof. intros Hb%bool_decide_eq_true n h Hn. exact (Hb n h Hn). Qed.

(** Who a session is, and what it was sent. *)
Definition facts (s : Session) : string * string * Z * outbox :=
  (sess_worldID s, sess_userID s, sess_lastSeq s, sess_outbox s).

Definition greeted : Welcome := MkWelcome "3" "bob" "player" 0 0 "".

(** The game master moves Bob's token. *)
Definition movesToken (token : string) : Frame :=
  MkFrame LaneDocument TypeIntent None None
    (Some (MkIntent 1 "scene.token.move" "w"
       (Raw (JObj [("tokenId", JStr token); ("x", JNum (numOfInt 8)); ("y", JNum (numOfInt 0))]))))
    None None None None None None.

Definition moving : live := stateAfter (table3 ++ [MRead "1" (Some (movesToken "tb")) 9 "" "" threeDice threeDice threeDice]).

Lemma moving_runs : simulateDemo (table3 ++ [MRead "1" (Some (movesToken "tb")) 9 "" "" threeDice threeDice threeDice]) start =
  Some moving.
Proof. apply computed. run. Qed.

(** A document a user can read and has in sight, computed. *)
Definition shownIn (q : conn) (w u target : string) : bool :=
  okOr (m ← GetMember q w u; doc ← GetDocument q w target;
        grant ← GrantOf q (MkSubject u (member_Role m)) doc;
        v ← RedactDocument doc (MkSubject u (member_Role m)) grant demoPolicy;
        see ← CanSee q (MkSubject u (member_Role m)) w doc;
        Ok (Valid (member_Role m) && negb (isNone v) && see)) false.

Lemma shownIn_concerns (q : conn) w u row : shownIn q w u (event_TargetID row) = true → concerns demoPolicy q w u row.
Proof.
  unfold shownIn. intros Hs. destruct (GetMember q w u) as [m|] eqn:Em; cbn [mbind res_bind] in Hs; [|discriminate Hs].
  exists m. split; [exact Em|].
  destruct (GetDocument q w _) as [doc|] eqn:Ed; [|discriminate Hs]. cbn [mbind res_bind] in Hs.
  destruct (GrantOf q _ doc) as [grant|] eqn:Eg; [|discriminate Hs]. cbn [mbind res_bind] in Hs.
  destruct (RedactDocument doc _ grant demoPolicy) as [v|] eqn:Er; [|discriminate Hs]. cbn [mbind res_bind] in Hs.
  destruct (CanSee q _ w doc) as [see|] eqn:Ec; [|discriminate Hs]. cbn in Hs.
  apply andb_true_iff in Hs as [[Hv Hn]%andb_true_iff ->]. split; [exact Hv|]. intros _.
  destruct v as [v|]; [|discriminate Hn]. by exists doc, grant, v.
Qed.

Definition rowOf (st : live (S := conn)) (q : Z) : option Event := world_events (tables (lv_store st)) !! ("w", q).

(** No store of a list has an event, computed. *)
Definition absent (cs : list conn) (w : string) (q : Z) : bool :=
  forallb (λ c, isNone (world_events (tables c) !! (w, q))) cs.

Lemma absent_sound cs w q : absent cs w q = true → Forall (λ c, Log c w q = None) cs.
Proof.
  unfold absent. intros Ha. apply Forall_forall. intros c Hc%list_elem_of_In.
  rewrite forallb_forall in Ha. specialize (Ha c Hc). cbn. by destruct (_ !! _).
Qed.

(** While the game master's handler holds the publication of the move, Bob's
    session is owed the event, which he may see, and it is under way to him. *)
Lemma no_event_falls_between_witness :
  wireOf "3" moving = [welcomeFrame greeted] ∧ event_Kind <$> rowOf moving 1 = Some "scene.token.move" ∧
  ∃ s f, lv_heap moving !! "3" = Some s ∧ eventSeq f = Some 1 ∧
    underway moving 0 "3" s (Serving 0 Reading (At Popping)) f.
Proof.
  assert (phaseOf "3" moving = Some (Serving 0 Reading (At Popping))) as Hph by run.
  assert (wireOf "3" moving = [welcomeFrame greeted]) as Hw by run.
  split_and!; [exact Hw|run|].
  assert (facts <$> lv_heap moving !! "3" = Some ("w", "bob", 0, newOutbox 10 10)) as Hs by run.
  assert ((λ e, (audienceAllows (event_Audience e) "bob", event_TargetID e)) <$> rowOf moving 1 = Some (true, "tb")) as He by run.
  assert (shownIn (lv_store moving) "w" "bob" "tb" = true) as Hshown by run.
  assert (absent (tail (lv_past moving)) "w" 1 = true) as Hold by run.
  destruct (liveSteps_OK (H3 := sqlTxLaws) demoDeps assetDeps demoPolicy "sqlite" start moving
    (liveOK_init (FrameLaws0 := sqlFrameLaws) demoPolicy demo threeTickets demo_wf) (simulated _ _ moving_runs)) as [_ [older Hnow] _ _ _ _ _ _ _ _].
  rewrite Hnow in Hold. cbn [tail] in Hold.
  destruct (lv_heap moving !! "3") as [s|] eqn:Es; [|discriminate Hs].
  destruct (lv_clients moving !! "3") as [c|] eqn:Ec; [|unfold phaseOf in Hph; rewrite Ec in Hph; discriminate Hph].
  destruct (rowOf moving 1) as [row|] eqn:Erow; [|discriminate He].
  unfold phaseOf in Hph. unfold wireOf in Hw. rewrite Ec in Hph, Hw. cbn in Hph, Hw. injection Hph as Hph.
  cbn in Hs. injection Hs as Hsw Hsu Hsq Hso. cbn in He. injection He as Ha Ht.
  pose proof (clientAt_of _ _ _ _ Es Ec) as Hat. rewrite Hph, Hw in Hat.
  destruct (no_event_falls_between (H3 := sqlTxLaws) demoDeps assetDeps demoPolicy "sqlite" demo threeTickets moving "3" s
    (Serving 0 Reading (At Popping)) [welcomeFrame greeted] 0 1 row demo_wf (simulated _ _ moving_runs)) as [[]|(f & Hf & Hu)].
  - apply running_of. run.
  - exact Hat.
  - split; [reflexivity|discriminate].
  - intros [].
  - rewrite Hso. reflexivity.
  - discriminate.
  - exists greeted, []. split; [reflexivity|vm_compute; discriminate].
  - rewrite Hsw. exact Erow.
  - split; [rewrite Hsu; exact Ha|]. right. split; [exists greeted, []; split; reflexivity|]. intros _.
    exists (lv_store moving). rewrite Hsw, Hsu. split; [|apply shownIn_concerns; rewrite Ht; exact Hshown].
    exists [], older. split_and!; [exact Hnow|eexists; exact Erow|exact (absent_sound _ _ _ Hold)].
  - rewrite Hsq. reflexivity.
  - exists s, f. split_and!; [reflexivity|exact Hf|exact Hu].
Defined.

Lemma frameFor_common p id s f : frameFor p id s = Some f → isNone (pub_PerUser p) = true → f = pub_Frame p.
Proof.
  unfold frameFor. case_bool_decide; [done|]. destruct (negb _); [done|]. destruct (negb _); [done|].
  destruct (pub_PerUser p); [done|]. by intros [= <-].
Qed.

(** What a handler has still to publish. *)
Definition handOf (id : string) (st : live (S := conn)) : list Publication :=
  match cl_phase <$> lv_clients st !! id with Some (Serving _ (Answering ps _) _) => ps | _ => [] end.

Lemma handOf_hand id st p ps :
  handOf id st = p :: ps → is_Some (lv_heap st !! id) →
  ∃ s n answer wr wire, clientAt st id s (Serving n (Answering (p :: ps) answer) wr) wire.
Proof.
  unfold handOf. intros Hh [s Hs]. destruct (lv_clients st !! id) as [[ph wire]|] eqn:Hc; [|done]. cbn in Hh.
  destruct ph as [| | | | | | | |n rd wr| | |]; try done. destruct rd as [|ps0 answer|]; try done. subst ps0.
  exists s, n, answer, wr, wire. by split.
Qed.

(** Who a publication is for, on which lane, and its event. *)
Definition pubFacts (id : string) (s : Session) (p : Publication) : Lane * bool * option (option Z) :=
  (pub_Lane p, isNone (pub_PerUser p), eventSeq <$> frameFor p id s).

(** The publication the handler held, three visits of the hub later. *)
Definition delivering : list (move (G := FixedSource)) := MHandler "1" :: fansOut 3.
Definition delivered : live := default start (simulateDemo delivering holding).

Lemma delivered_runs : simulateDemo delivering holding = Some delivered.
Proof.
  assert (isNone (simulateDemo delivering holding) = false) as Hc by run.
  unfold delivered. by destruct (simulateDemo delivering holding).
Qed.

(** It comes to Bob's outbox, where it waits for his writer. *)
Lemma published_is_not_lost_witness :
  ∃ s wire f, clientAt delivered "3" s (Serving 0 Reading (At Popping)) wire ∧ eventSeq f = Some 1 ∧
    underway delivered 0 "3" s (Serving 0 Reading (At Popping)) f.
Proof.
  assert (phaseOf "3" holding = Some (Serving 0 Reading (At Popping))) as Hph by run.
  assert (phaseOf "3" delivered = Some (Serving 0 Reading (At Popping))) as Hph' by run.
  assert ((λ s, map (pubFacts "3" s) (handOf "1" holding)) <$> lv_heap holding !! "3" =
    Some [(LaneDocument, true, Some (Some 1))]) as Hp by run.
  assert ((λ s, (closed (sess_outbox s), sess_lastSeq s)) <$> lv_heap delivered !! "3" = Some (false, 0)) as Hs by run.
  assert (is_Some (lv_heap holding !! "1")) as Hgm by (eexists; vm_compute; reflexivity).
  assert (running delivered) as Hrun by (apply running_of; run).
  pose proof (simulate_sound demoDeps assetDeps demoPolicy "sqlite" _ _ _ delivered_runs) as Hr'.
  destruct (lv_heap holding !! "3") as [s|] eqn:Es; [|discriminate Hp].
  destruct (lv_heap delivered !! "3") as [s'|] eqn:Es'; [|discriminate Hs].
  cbn in Hs. injection Hs as Hop Hlt.
  unfold phaseOf in Hph, Hph'. destruct (lv_clients holding !! "3") as [c|] eqn:Ec; [|discriminate Hph].
  destruct (lv_clients delivered !! "3") as [c'|] eqn:Ec'; [|discriminate Hph'].
  cbn in Hph, Hph'. injection Hph as Hph. injection Hph' as Hph'.
  pose proof (clientAt_of _ _ _ _ Es Ec) as Hat. pose proof (clientAt_of _ _ _ _ Es' Ec') as Hat'.
  rewrite Hph in Hat. rewrite Hph' in Hat'.
  destruct (handOf "1" holding) as [|p ps] eqn:Hhand; [discriminate Hp|].
  destruct (handOf_hand _ _ _ _ Hhand Hgm) as (sg & n & answer & wr & wireg & Hatg).
  assert (n = 0%nat) as Hn.
  { assert ((λ ph, match ph with Serving n _ _ => n | _ => 1%nat end) <$> phaseOf "1" holding = Some 0%nat) as Hn by run.
    unfold phaseOf in Hn. rewrite (proj2 Hatg) in Hn. cbn in Hn. by injection Hn. }
  rewrite Hn in Hatg. cbn in Hp. injection Hp as Hlane _ Hf _.
  destruct (frameFor p "3" s) as [f|] eqn:Hfor; [|discriminate Hf]. cbn in Hf. injection Hf as Hf.
  exists s', (cl_wire c'), f. split_and!; [exact Hat'|exact Hf|].
  destruct (published_is_not_lost (H3 := sqlTxLaws) demoDeps assetDeps demoPolicy "sqlite" demo threeTickets holding delivered
    0 "3" s (Serving 0 Reading (At Popping)) (cl_wire c) s' (Serving 0 Reading (At Popping)) (cl_wire c') p f 1
    demo_wf (simulated _ _ holding_runs) Hat) as [Hover|[Hcl|[Hle|Hu]]].
  - split; [reflexivity|discriminate].
  - intros [].
  - left. exists "1", sg, (p :: ps), answer, wr, wireg. split; [exact Hatg|left].
  - exact Hlane.
  - exact Hfor.
  - exact Hf.
  - exact Hr'.
  - exact Hrun.
  - exact Hat'.
  - discriminate Hover.
  - rewrite Hop in Hcl. discriminate Hcl.
  - rewrite Hlt in Hle. lia.
  - exact Hu.
Defined.

(** Two events wait in the queue of the hub; nobody has been sent either. *)
Definition queued : live := stateAfter (table3 ++
  [posts "1" "I open the door" "0001"; MHandler "1"; posts "2" "I draw my sword" "0002"; MHandler "2"]).

Lemma queued_runs : simulateDemo (table3 ++
  [posts "1" "I open the door" "0001"; MHandler "1"; posts "2" "I draw my sword" "0002"; MHandler "2"]) start = Some queued.
Proof. apply computed. run. Qed.

(** The second can be brought to Bob. *)
Lemma published_can_arrive_witness :
  ∃ f st' s' wr' wire', eventSeq f = Some 2 ∧ rtc (helpStep 0 "3") queued st' ∧
    clientAt st' "3" s' (Serving 0 Reading wr') wire' ∧ f ∈ wire'.
Proof.
  assert (phaseOf "3" queued = Some (Serving 0 Reading (At Popping))) as Hph by run.
  assert (facts <$> lv_heap queued !! "3" = Some ("w", "bob", 0, newOutbox 10 10)) as Hs by run.
  assert ((h ← lv_hubs queued !! 0%nat; s ← lv_heap queued !! "3"; Some (hp_pc h, map (pubFacts "3" s) (hp_queue h))) =
    Some (HubIdle, [(LaneDocument, true, Some (Some 1)); (LaneDocument, true, Some (Some 2))])) as Hq by run.
  destruct (lv_heap queued !! "3") as [s|] eqn:Es; [|discriminate Hs].
  destruct (lv_hubs queued !! 0%nat) as [h|] eqn:Eh; [|discriminate Hq].
  unfold phaseOf in Hph. destruct (lv_clients queued !! "3") as [c|] eqn:Ec; [|discriminate Hph].
  cbn in Hph. injection Hph as Hph. cbn in Hs. injection Hs as _ _ Hsq Hso. cbn in Hq. injection Hq as Hpc Hq.
  destruct (hp_queue h) as [|p1 [|p2 [|p3 ps]]] eqn:Eq; try discriminate Hq. cbn in Hq. injection Hq as _ _ Hf1 Hlane _ Hf2.
  destruct (frameFor p2 "3" s) as [f|] eqn:Hfor; [|discriminate Hf2]. cbn in Hf2. injection Hf2 as Hf2.
  pose proof (clientAt_of _ _ _ _ Es Ec) as Hat. rewrite Hph in Hat.
  destruct (published_can_arrive (H3 := sqlTxLaws) demoDeps assetDeps demoPolicy "sqlite" demo threeTickets queued "3" s 0
    Reading (At Popping) (cl_wire c) h [p1] p2 [] f 2 demo_wf (simulated _ _ queued_runs))
    as (st' & s' & wr' & wire' & Hr & Hat' & Hin).
  - apply running_of. run.
  - exact Hat.
  - discriminate.
  - rewrite Hso. reflexivity.
  - exact Eh.
  - exact Eq.
  - split.
    + rewrite Hsq. reflexivity.
    + rewrite Hso. apply boxOK_new.
    + discriminate.
    + intros p f1 [Hp%list_elem_of_singleton|(rest & Hp)] Hg; [|rewrite Hpc in Hp; discriminate Hp].
      subst p. rewrite Hg in Hf1. cbn in Hf1. injection Hf1 as Hf1. intros k Hk. rewrite Hf1 in Hk. by injection Hk as <-.
  - exact Hlane.
  - exact Hfor.
  - exact Hf2.
  - exists f, st', s', wr', wire'. split_and!; [exact Hf2|exact Hr|exact Hat'|exact Hin].
Defined.

(** ** What Bob's client reads *)

(** The frame Bob was sent after his welcome. *)
Definition heard : Frame := default zeroFrame (wireOf "3" raced !! 1%nat).

Lemma heard_OK : frameOK heard.
Proof.
  assert (∃ e, heard = eventFrame e ∧ ev_Seq e = 2 ∧ isJSON (ev_Payload e)) as (e & -> & Hs & Hp).
  { eexists. split_and!; [vm_compute; reflexivity|reflexivity|discriminate]. }
  split; try done. intros e' [= <-]. split; [by rewrite Hs|done].
Qed.

(** As text, Ann's message comes back as the frame that was queued. *)
Lemma sent_frames_are_readable_witness :
  eventSeq heard = Some 2 ∧ serverFrame heard ∧ is_Ok (toProto (H := demoProto) heard) ∧
  ∃ m, writeFrame (H := demoProto) JSONCodec heard = Ok m ∧ m.1 = MessageText ∧
    readFrame (H := demoProto) JSONCodec m = Ok heard.
Proof.
  split; [run|].
  destruct (lv_heap raced !! "3") as [s|] eqn:Es; [|by vm_compute in Es].
  destruct (lv_clients raced !! "3") as [c|] eqn:Ec; [|by vm_compute in Ec].
  assert (wireOf "3" raced = cl_wire c) as Hw by (unfold wireOf; by rewrite Ec).
  assert (heard ∈ cl_wire c) as Hin.
  { rewrite <-Hw. apply (list_elem_of_lookup_2 _ 1). vm_compute. reflexivity. }
  destruct (sent_frames_are_readable (H5 := demoProtoLaws) demoDeps assetDeps demoPolicy "sqlite" demo threeTickets raced "3" s
    (cl_phase c) (cl_wire c) heard (simulated _ _ raced_runs) (clientAt_of _ _ _ _ Es Ec) (or_introl Hin))
    as (Hmade & Hbin & _ & [_ Htext] & Hread).
  split_and!; [exact Hmade|exact Hbin|]. destruct Htext as [m Hm]; [vm_compute; discriminate|].
  exists m. destruct (Hread m heard_OK Hm) as [Htype Hback]. split_and!; [exact Hm|exact Htype|exact Hback].
Defined.
